(* ===== verification/_CoqProject ===== *)
-Q . S2P
Prelude.v
Encoding.v
Params.v
Hashing.v
Text.v
Gates.v
BurnAccumulator.v
Merkle.v
Records.v
Deposits.v
Burns.v
Keccak.v
VaultContract.v
ElementsState.v
Controller.v
Solvency.v
ManifestFile.v
Claims.v
Readers.v
Journal.v
Annex.v
Totality.v
Guest.v
Sp1Verifier.v
EthereumInbound.v
InboundProofs.v
Helios.v
HeliosProofs.v
GuestProgram.v
GuestTotality.v
InboundStack.v
Display.v
Messages.v
Cli.v
CliProofs.v
CliTotality.v
Uint256.v
BitcoinHeaders.v
BmmCommitment.v
BlockParser.v
BitcoinBlock.v
BlockTotality.v
ParentBlock.v
Signet.v
SignetFacts.v
SignetScript.v
SignetTransition.v
Slot24.v
Slot24Facts.v
Slot24Treasury.v
Slot24Replay.v
Slot24Props.v
Slot24Liveness.v
