(* ===== verification/Prelude.v ===== *)
(** * The USDD protocol: a verification library

    USDD is a two-way bridge between USDT held in an Ethereum vault and USDD
    minted on an Elements sidechain that is merge-mined by Bitcoin through a
    BIP300 drivechain slot.  This library models the Rust code of the repository
    (paths below are under src/) and proves what makes it correct.

    ** The program and how its parts interact

    Inbound.  A deposit into the vault is read by the Ethereum guest
    (guests/ethereum-state).  It decodes a manifest, a claim, a light-client
    witness and trie proofs; helios.rs advances the light client from the digest
    in the prior controller state; usdd-ethereum-inbound proves the deposits in
    the vault's storage; usdd-proof-core turns the claim into a public output in a
    strict journal; the SP1 adapter checks the proof of that journal; and the
    controller record of usdd-core mints each nonce once.

    Outbound.  Elements burns are appended to a Merkle accumulator of depth 64;
    the Elements guest of usdd-proof-core checks each append and the next bridge
    state against a manifest; Ethereum pays a claim with a proof of its leaf.
    Which Elements chain is the real one is decided by Bitcoin: usdd-bitcoin-bmm
    checks headers, work and difficulty, whole blocks, the Signet challenge, the
    commitment to the Elements block in the coinbase and the drivechain state of
    slot 24.

    Around both: the manifest that fixes a deployment, the audit of recorded
    events, the launch gates, and the command line.

    ** Files, in dependency order, and the code they model

    - Prelude (this file): results with panics, machine integers, bytes, arrays,
      loops, lemmas and tactics shared by all files.
    - Encoding: usdd-core/src/encoding.rs, [Codec] is the law of a byte format.
      Params: constants and conversions of lib.rs.  Hashing: hash.rs.  Text: the
      std text functions in use, UTF-8 and [Decoder::string].
    - Gates: gates.rs.  BurnAccumulator: burn_accumulator.rs.  Merkle: merkle.rs.
    - Records, Deposits, Burns, ElementsState, Controller: types.rs.
    - Solvency: audit.rs.  ManifestFile: manifest.rs.
    - VaultContract: what USDDVaultV1.sol and Sha256SparseMerkle.sol of
      contracts/src hash for a bridge state, its statement and a burn branch,
      written from the Solidity; Keccak: the builtin behind its domain constants.
    - Claims, Readers, Journal, Annex, Guest: usdd-proof-core (claims.rs,
      journal.rs, annex.rs, guest.rs).  Totality: no decoder panics.
    - Sp1Verifier: usdd-sp1-verifier/src/lib.rs.
    - EthereumInbound, InboundProofs: usdd-ethereum-inbound/src/lib.rs.
      Helios, HeliosProofs: helios.rs.
    - GuestProgram, GuestTotality: guests/ethereum-state (lib.rs, main.rs).
    - InboundStack: annexes, SP1 verifier, guest and controller composed.
    - Display, Messages: the Display and Debug output in use.  Cli, CliProofs,
      CliTotality: usdd-cli (lib.rs, main.rs).
    - Uint256, BitcoinHeaders, BmmCommitment: usdd-bitcoin-bmm/src/lib.rs.
      BlockParser, BitcoinBlock, BlockTotality, ParentBlock: block.rs.
      Signet, SignetFacts, SignetScript, SignetTransition: block/signet.rs.
      Slot24, Slot24Facts, Slot24Treasury, Slot24Replay, Slot24Props,
      Slot24Liveness: block/bip300.rs.

    A definition has the name of the function it models, with the type in front
    for a method ([BurnProof_verify] is [BurnProof::verify]); a loop body is a
    definition of its own.  A struct is a Record whose fields carry a prefix, an
    enum an Inductive type, a derived equality an [EqDecision] instance.

    ** Conventions

    [res E A] is [Result] with a third outcome [Panic] for [expect], [assert],
    indexing, slicing and overflow; functions that can only panic return [option]
    (an [Option] that can panic, [option (option _)]).  Reads of byte strings at a
    computed place are [index_range], [copy_range], [byte_is] and [range_is], with
    [&&?] and [||?] to evaluate a guard first; where a proof shows the guards are
    enough, a lemma [.._total] gives the total function that specifies them.  A
    [uint w] is an integer with its range; [uint_wrap], [checked_add] and the like
    are the operations of the source at their width.  A byte string is a list of
    bytes, an [array n] one of length [n]; a string is its UTF-8 bytes.  A [BTreeMap]
    is a [gmap] (iterated in sorted order where the source iterates), a [BTreeSet] a
    [gset].  A loop is a fold, or a recursion on fuel that a lemma proves enough:
    the number of hashes for the Merkle loops, 64 levels for the accumulator, the
    bit count for 256-bit division, the script length for the Signet solution, 39
    digits for printing.

    What is not in the repository is a class, and what is proved holds for every
    instance: [Sha256], [Hash160], [Ecdsa], [Keccak256] and [AlloyTrie] (digests,
    signatures, trie proofs and RLP), [Sp1] (proof codec and verifier), [HeliosTypes],
    [Helios] and [Cbor] (consensus checks, witness codec), [Sp1Io] (the zkVM's input
    and output), [FileSystem], the verifier traits of guest.rs, and [PtrWidth], the
    width of [usize] (at least 32 bits where it matters).  No digest is assumed
    injective: a theorem that needs it concludes "or a [collision]", with the two
    preimages.  Documented behaviour of a crate is a named hypothesis
    ([helios_presets], [helios_calm], [cbor_roundtrip], [trie_binding], [rlp_binding],
    [sp1_sound]), and a witness gives an instance where it holds.

    ** What is proved

    - Money: each deposit nonce is minted once, in order, at exactly 100 base
      units ([controller_no_double_mint], [mint_batch_no_replay]); from an unused
      vault, every provable redemption is an admitted burn
      ([redeemable_claims_were_burned]); the audit passes exactly for balanced,
      replay-free histories ([audit_reconstruct_iff], [audit_verify_iff]).
    - The inbound path, end to end: chains of accepted annexes mint only deposits
      of the manifest's vault, once each, if SP1 is sound
      ([annexes_mint_vault_deposits]); a deposit output of the guest is the
      controller's mint of deposits proved under a finality the light client
      accepted ([guest_mints_finalized_deposits], [guest_heartbeats_finalized]), with
      the exact acceptance conditions of each stage ([light_client_iff],
      [inbound_batch_iff], [ethereum_journals_iff], [guest_output_iff],
      [sp1_verify_iff]); committees pass from proof to proof through the digest
      ([committees_handed_over]), one state root has one deposit per nonce
      ([inbound_no_equivocation]), and what the light client accepts the controller
      then accepts ([light_client_feeds_controller]).
    - The outbound path: the Elements builder accepts exactly what takes the vault
      to its next state, and its journal carries the statement the contract
      computes ([elements_journal_iff]); [elements_run_monotone]; and the
      accumulator against the complete tree ([burn_proof_complete],
      [burn_proof_sound], [burn_append_by_proof]).
    - Bitcoin: blocks are accepted exactly when they are the serialization of a
      valid block ([parse_block_iff]), with work and difficulty exact
      ([chain_work_sound], [signet_difficulty]), Merkle roots binding
      ([merkle_root_binding]), the Signet signature over the block
      ([signet_successor_iff]) and one child commitment ([parent_block_m7_iff]);
      slot 24 keeps its state well formed, activates late and for good,
      activates what every block acknowledges, and reports only deposits backed by
      the treasury output (the slot24 theorems).
    - Formats: decoders accept exactly the encodings of valid records (the
      canonical and strict theorems), identifiers and commitments bind what they
      hash (the binding theorems).
    - Errors and termination: decoders, block verification, the guest and the
      command line return on every input ([decoders_never_panic],
      [parse_block_total], [guest_never_panics], [elements_builder_never_panics],
      [cli_never_panics]); the errors of the audit and of slot 24 are the meant ones.
    - Operation: a launch is ready exactly when every gate has verified evidence
      ([launch_ready_iff], [cli_gates_report_iff]); the command line's proofs verify,
      its amounts convert back, its replay passes exactly for audited histories
      ([cli_proofs_verify], [cli_amounts_inverse], [cli_audit_replay_iff]).

    ** Not modelled

    [std::error::Error] and [From] impls and plain getters
    beyond the projections they are; unit tests and fixtures; the Simplicity
    programs, the TypeScript client and the scripts, which are in other languages;
    the Solidity contracts but for the hashes of [VaultContract]: their
    transactions, token calls and verifier calls are not modelled.

    The consumers of the two proofs (the vault's entry points, the mint covenant)
    are among those, so [annexes_mint_vault_deposits] states what a consumer of
    annexes may rely on, and [redeemable_claims_were_burned] what a consumer of
    Elements journals may rely on.  The Elements guest is only its statement,
    [build_elements_state_journal]: its program is not in the repository. *)

From Stdlib Require Export ZArith Lia.
From Stdlib Require Export Strings.Byte.
From Stdlib Require Import Eqdep_dec.
From stdpp Require Export base tactics numbers list gmap sets sorting strings.

Create HintDb usdd.

(** ** Results with an explicit panic outcome *)

Inductive res (E A : Type) : Type :=
| Ok (a : A)
| Err (e : E)
| Panic.
Arguments Ok {E A} a.
Arguments Err {E A} e.
Arguments Panic {E A}.

#[export] Instance res_ret (E : Type) : MRet (res E) := fun A a => Ok a.

#[export] Instance res_bind (E : Type) : MBind (res E) := fun A B f m =>
  match m with
  | Ok a => f a
  | Err e => Err e
  | Panic => Panic
  end.

(** [if bad { return Err(e) }] *)
Definition fail_if {E : Type} (bad : bool) (e : E) : res E unit :=
  if bad then Err e else Ok tt.

(** [option.ok_or(e)?] *)
Definition ok_or {E A : Type} (o : option A) (e : E) : res E A :=
  match o with Some a => Ok a | None => Err e end.

(** [option.expect(..)] *)
Definition expect {E A : Type} (o : option A) : res E A :=
  match o with Some a => Ok a | None => Panic end.

(** [result.map_err(f)] *)
Definition map_err {E F A : Type} (f : E -> F) (m : res E A) : res F A :=
  match m with Ok a => Ok a | Err e => Err (f e) | Panic => Panic end.

Definition is_ok {E A : Type} (m : res E A) : bool :=
  match m with Ok _ => true | _ => false end.
Lemma is_ok_true {E A : Type} (m : res E A) : is_ok m = true -> exists a, m = Ok a.
Proof. destruct m; [by eexists|done..]. Qed.

Lemma res_bind_Ok {E A B : Type} (m : res E A) (f : A -> res E B) (b : B) :
  (m ≫= f) = Ok b <-> exists a, m = Ok a /\ f a = Ok b.
Proof.
  destruct m as [a|e|]; cbn; split; try done; try (intros (? & ? & ?); done).
  - eauto.
  - by intros (? & [= <-] & ?).
Qed.

Lemma fail_if_Ok {E : Type} (bad : bool) (e : E) (u : unit) :
  fail_if bad e = Ok u <-> bad = false.
Proof. destruct bad, u; cbn; naive_solver. Qed.

Lemma fail_then {E A : Type} (b : bool) (e : E) (m : res E A) (a : A) :
  (fail_if b e;; m) = Ok a <-> b = false /\ m = Ok a.
Proof. rewrite res_bind_Ok. setoid_rewrite fail_if_Ok. naive_solver. Qed.

Lemma ok_or_Ok {E A : Type} (o : option A) (e : E) (a : A) :
  ok_or o e = Ok a <-> o = Some a.
Proof. destruct o; cbn; naive_solver. Qed.

Lemma expect_Ok {E A : Type} (o : option A) (a : A) :
  expect (E:=E) o = Ok a <-> o = Some a.
Proof. destruct o; cbn; naive_solver. Qed.

Lemma map_err_Ok {E F A : Type} (f : E -> F) (m : res E A) (a : A) :
  map_err f m = Ok a <-> m = Ok a.
Proof. destruct m; cbn; naive_solver. Qed.

(** Every loop [for x in xs { state = step(i, x, state)? }] over a slice with
    its index. *)
Fixpoint res_foldi {E A T : Type} (f : nat -> A -> T -> res E T)
    (i : nat) (xs : list A) (s : T) : res E T :=
  match xs with
  | [] => Ok s
  | x :: xs => s' ← f i x s; res_foldi f (S i) xs s'
  end.

Lemma res_foldi_app {E A T : Type} (f : nat -> A -> T -> res E T) xs ys i s :
  res_foldi f i (xs ++ ys) s =
  (s' ← res_foldi f i xs s; res_foldi f (i + length xs) ys s').
Proof.
  revert i s. induction xs as [|x xs IH]; intros i s; cbn.
  - by rewrite Nat.add_0_r.
  - destruct (f i x s) as [s'| |]; cbn; [|done..].
    rewrite IH. by replace (S i + length xs) with (i + S (length xs)) by lia.
Qed.

(** An invariant indexed by the processed prefix survives the whole loop. *)
Lemma res_foldi_inv {E A T : Type} (f : nat -> A -> T -> res E T)
    (P : list A -> T -> Prop) xs s s' :
  P [] s ->
  (forall pre x t t', P pre t -> f (length pre) x t = Ok t' -> P (pre ++ [x]) t') ->
  res_foldi f 0 xs s = Ok s' ->
  P xs s'.
Proof.
  intros H0 Hstep.
  enough (forall ys pre t, P pre t -> res_foldi f (length pre) ys t = Ok s' ->
    P (pre ++ ys) s') as H by (intros; by apply (H xs [] s)).
  induction ys as [|y ys IH]; intros pre t Hp; cbn.
  - intros [= ->]. by rewrite app_nil_r.
  - intros (t' & Hf & Hr)%res_bind_Ok.
    specialize (IH (pre ++ [y]) t'). rewrite <- app_assoc in IH.
    apply IH; [by eapply Hstep|].
    rewrite length_app; cbn. by rewrite Nat.add_1_r.
Qed.

(** Destruct every successful guard, bind and conversion of a hypothesis. *)
Ltac inv_ok :=
  repeat match goal with
  | H : Ok _ = Ok _ |- _ => injection H as H; try subst
  | H : Err _ = Ok _ |- _ => discriminate H
  | H : Panic = Ok _ |- _ => discriminate H
  | H : mret _ = Ok _ |- _ => injection H as H; try subst
  | H : mbind _ _ = Ok _ |- _ =>
      let a := fresh "x" in let E := fresh "Hx" in
      apply res_bind_Ok in H as (a & E & H)
  | H : fail_if _ _ = Ok _ |- _ => apply fail_if_Ok in H
  | H : ok_or _ _ = Ok _ |- _ => apply ok_or_Ok in H
  | H : expect _ = Ok _ |- _ => apply expect_Ok in H
  | H : map_err _ _ = Ok _ |- _ => apply map_err_Ok in H
  | H : (_ || _) = false |- _ => apply orb_false_iff in H as [? ?]
  | H : negb _ = false |- _ => apply negb_false_iff in H
  | H : negb _ = true |- _ => apply negb_true_iff in H
  | H : (_ && _) = true |- _ => apply andb_true_iff in H as [? ?]
  | H : (_ =? _)%Z = true |- _ => apply Z.eqb_eq in H
  | H : (_ =? _)%Z = false |- _ => apply Z.eqb_neq in H
  | H : (_ <=? _)%Z = true |- _ => apply Z.leb_le in H
  | H : (_ <=? _)%Z = false |- _ => apply Z.leb_gt in H
  | H : (_ <? _)%Z = true |- _ => apply Z.ltb_lt in H
  | H : (_ <? _)%Z = false |- _ => apply Z.ltb_ge in H
  | H : bool_decide _ = false |- _ => apply bool_decide_eq_false in H
  | H : bool_decide _ = true |- _ => apply bool_decide_eq_true in H
  | u : unit |- _ => destruct u
  end.

(** ** Machine integers: [uint w] is Rust's [u8], [u16], ... *)

Local Open Scope Z_scope.

Definition in_range (w : positive) (z : Z) : bool := (0 <=? z) && (z <? 2 ^ Zpos w).

Record uint (w : positive) : Type := UInt {
  uval : Z;
  uint_ok : in_range w uval = true
}.
Arguments UInt {w} _ _.
Arguments uval {w} _.
Arguments uint_ok {w} _.
Coercion uval : uint >-> Z.

Abbreviation u8 := (uint 8).
Abbreviation u16 := (uint 16).
Abbreviation u32 := (uint 32).
Abbreviation u64 := (uint 64).
Abbreviation u128 := (uint 128).

Lemma in_range_iff w z : in_range w z = true <-> 0 <= z < 2 ^ Zpos w.
Proof. unfold in_range. rewrite andb_true_iff, Z.leb_le, Z.ltb_lt. done. Qed.

Lemma uint_range {w} (x : uint w) : 0 <= x < 2 ^ Zpos w.
Proof. apply in_range_iff, uint_ok. Qed.

Lemma uint_eq {w} (x y : uint w) : uval x = uval y -> x = y.
Proof.
  destruct x as [x Hx], y as [y Hy]; cbn. intros ->.
  f_equal. apply UIP_dec, bool_dec.
Qed.

Lemma uint_eq_iff {w} (x y : uint w) : x = y <-> uval x = uval y.
Proof. split; [by intros ->|apply uint_eq]. Qed.

#[export] Instance uint_eq_dec w : EqDecision (uint w).
Proof.
  intros x y. destruct (decide (uval x = uval y)) as [H|H];
    [left; by apply uint_eq|right; congruence].
Defined.

(** [T::try_from(z)] *)
Definition uint_try (w : positive) (z : Z) : option (uint w) :=
  match in_range w z as b return in_range w z = b -> option (uint w) with
  | true => fun H => Some (UInt z H)
  | false => fun _ => None
  end eq_refl.

Lemma uint_try_Some w z (x : uint w) : uint_try w z = Some x <-> uval x = z.
Proof.
  unfold uint_try. split.
  - generalize (eq_refl (in_range w z)).
    generalize (in_range w z) at 2 3. intros [] e [=]; by subst.
  - intros <-. generalize (eq_refl (in_range w x)).
    generalize (in_range w x) at 2 3. intros [] e; [f_equal; by apply uint_eq|].
    exfalso. destruct x as [x Hx]; cbn in *. congruence.
Qed.

Lemma uint_try_None w z : uint_try w z = None <-> ~ (0 <= z < 2 ^ Zpos w).
Proof.
  destruct (uint_try w z) as [x|] eqn:E; split; try done.
  - apply uint_try_Some in E. pose proof (uint_range x). lia.
  - intros _ H. apply in_range_iff in H.
    assert (uint_try w z = Some (UInt z H)) by by apply uint_try_Some. congruence.
Qed.

Lemma wrap_range w z : in_range w (z mod 2 ^ Zpos w) = true.
Proof. apply in_range_iff, Z.mod_pos_bound. lia. Qed.

(** [z as T]: the value modulo [2^w]. *)
Definition uint_wrap (w : positive) (z : Z) : uint w := UInt (z mod 2 ^ Zpos w) (wrap_range w z).

Lemma uval_wrap w z : uval (uint_wrap w z) = z mod 2 ^ Zpos w.
Proof. done. Qed.

Lemma uval_wrap_small w z : 0 <= z < 2 ^ Zpos w -> uval (uint_wrap w z) = z.
Proof. intros H. cbn. by apply Z.mod_small. Qed.

Lemma uint_wrap_uval {w} (x : uint w) : uint_wrap w x = x.
Proof. apply uint_eq, uval_wrap_small, uint_range. Qed.

Definition checked_add {w} (a b : uint w) : option (uint w) := uint_try w (a + b).
Definition checked_sub {w} (a b : uint w) : option (uint w) := uint_try w (a - b).
Definition checked_mul {w} (a b : uint w) : option (uint w) := uint_try w (a * b).
Definition saturating_sub {w} (a b : uint w) : Z := Z.max 0 (a - b).

Lemma checked_add_Some {w} (a b c : uint w) : checked_add a b = Some c <-> uval c = a + b.
Proof. apply uint_try_Some. Qed.
Lemma checked_sub_Some {w} (a b c : uint w) : checked_sub a b = Some c <-> uval c = a - b.
Proof. apply uint_try_Some. Qed.
Lemma checked_mul_Some {w} (a b c : uint w) : checked_mul a b = Some c <-> uval c = a * b.
Proof. apply uint_try_Some. Qed.

(** Put the range of every machine integer in sight in the context. *)
Ltac uint_ranges :=
  repeat match goal with
  | H : context [uval ?x] |- _ =>
      lazymatch goal with
      | _ : 0 <= uval x < _ |- _ => fail
      | _ => pose proof (uint_range x)
      end
  | |- context [uval ?x] =>
      lazymatch goal with
      | _ : 0 <= uval x < _ |- _ => fail
      | _ => pose proof (uint_range x)
      end
  end.
Ltac ulia := uint_ranges; cbn [Z.pow Z.pow_pos Pos.iter Pos.mul Z.mul] in *; lia.

(** Remove the wrap-arounds that do nothing. *)
Ltac wrap_small := rewrite ?uval_wrap_small by lia.
Ltac wrap_small_in H := rewrite ?uval_wrap_small in H by lia.

(** ** Bytes and byte strings *)

Abbreviation bytes := (list byte).

#[export] Instance byte_eq_dec : EqDecision byte := Byte.byte_eq_dec.

Definition byte_val (b : byte) : Z := Z.of_N (Byte.to_N b).

(** [z as u8] as a raw byte. *)
Definition byte_of (z : Z) : byte :=
  match Byte.of_N (Z.to_N (z mod 256)) with Some b => b | None => x00 end.

Lemma byte_val_range b : 0 <= byte_val b < 256.
Proof. unfold byte_val. pose proof (Byte.to_N_bounded b). lia. Qed.

Lemma byte_of_val b : byte_of (byte_val b) = b.
Proof.
  unfold byte_of. rewrite Z.mod_small by apply byte_val_range.
  unfold byte_val. by rewrite N2Z.id, Byte.of_to_N.
Qed.

Lemma byte_val_of z : byte_val (byte_of z) = z mod 256.
Proof.
  unfold byte_of, byte_val. pose proof (Z.mod_pos_bound z 256 ltac:(lia)).
  destruct (Byte.of_N (Z.to_N (z mod 256))) as [b|] eqn:E.
  - apply Byte.to_of_N in E. lia.
  - apply Byte.of_N_None_iff in E. lia.
Qed.

Lemma byte_val_inj b c : byte_val b = byte_val c -> b = c.
Proof. intros H. by rewrite <- (byte_of_val b), H, byte_of_val. Qed.

#[export] Instance byte_countable : Countable byte.
Proof.
  refine (inj_countable Byte.to_N Byte.of_N _). intros b. apply Byte.of_to_N.
Defined.

(** Little- and big-endian byte strings of unsigned integers. *)
Fixpoint le_bytes (n : nat) (z : Z) : bytes :=
  match n with O => [] | S n => byte_of z :: le_bytes n (z / 256) end.
Fixpoint le_val (l : bytes) : Z :=
  match l with [] => 0 | b :: l => byte_val b + 256 * le_val l end.
Definition be_bytes (n : nat) (z : Z) : bytes := rev (le_bytes n z).
Definition be_val (l : bytes) : Z := le_val (rev l).

Lemma length_le_bytes n z : length (le_bytes n z) = n.
Proof. revert z. induction n; intros z; cbn; [done|by rewrite IHn]. Qed.
Lemma length_be_bytes n z : length (be_bytes n z) = n.
Proof. unfold be_bytes. by rewrite length_rev, length_le_bytes. Qed.

Lemma le_val_range l : 0 <= le_val l < 256 ^ Z.of_nat (length l).
Proof.
  induction l as [|b l IH]; cbn [le_val length]; [lia|].
  pose proof (byte_val_range b). rewrite Nat2Z.inj_succ, Z.pow_succ_r by lia. lia.
Qed.
Lemma be_val_range l : 0 <= be_val l < 256 ^ Z.of_nat (length l).
Proof. unfold be_val. rewrite <- (length_rev l). apply le_val_range. Qed.

Lemma le_val_bytes n z : le_val (le_bytes n z) = z mod 256 ^ Z.of_nat n.
Proof.
  revert z. induction n as [|n IH]; intros z; cbn [le_bytes le_val].
  - by rewrite Z.mod_1_r.
  - rewrite IH, byte_val_of, Nat2Z.inj_succ, Z.pow_succ_r by lia.
    by rewrite Z.rem_mul_r by lia.
Qed.
Lemma be_val_bytes n z : be_val (be_bytes n z) = z mod 256 ^ Z.of_nat n.
Proof. unfold be_val, be_bytes. by rewrite rev_involutive, le_val_bytes. Qed.

Lemma le_bytes_val l : le_bytes (length l) (le_val l) = l.
Proof.
  induction l as [|b l IH]; cbn [length le_bytes le_val]; [done|].
  pose proof (byte_val_range b).
  replace ((byte_val b + 256 * le_val l) / 256) with (le_val l)
    by (rewrite Z.mul_comm, Z.div_add, Z.div_small by lia; lia).
  rewrite IH. f_equal. apply byte_val_inj. rewrite byte_val_of.
  rewrite Z.mul_comm, Z.mod_add by lia. by apply Z.mod_small.
Qed.
Lemma be_bytes_val l : be_bytes (length l) (be_val l) = l.
Proof.
  unfold be_bytes, be_val. rewrite <- (length_rev l), le_bytes_val.
  apply rev_involutive.
Qed.

Lemma le_val_inj l k : length l = length k -> le_val l = le_val k -> l = k.
Proof. intros Hl H. by rewrite <- (le_bytes_val l), H, Hl, le_bytes_val. Qed.
Lemma be_val_inj l k : length l = length k -> be_val l = be_val k -> l = k.
Proof. intros Hl H. by rewrite <- (be_bytes_val l), H, Hl, be_bytes_val. Qed.

Lemma le_val_app l k : le_val (l ++ k) = le_val l + 256 ^ Z.of_nat (length l) * le_val k.
Proof.
  induction l as [|b l IH]; cbn [app le_val length]; [lia|].
  rewrite IH, Nat2Z.inj_succ, Z.pow_succ_r by lia. lia.
Qed.
Lemma be_val_cons b l : be_val (b :: l) = byte_val b * 256 ^ Z.of_nat (length l) + be_val l.
Proof.
  unfold be_val. cbn [rev]. rewrite le_val_app. cbn. rewrite length_rev. lia.
Qed.

(** Lexicographic order on byte strings, as Rust derives it for arrays. *)
Fixpoint bytes_cmp (l k : bytes) : comparison :=
  match l, k with
  | [], [] => Eq
  | [], _ :: _ => Lt
  | _ :: _, [] => Gt
  | b :: l, c :: k =>
      match byte_val b ?= byte_val c with Eq => bytes_cmp l k | o => o end
  end.

(** On strings of one length the order is that of the big-endian numbers. *)
Lemma bytes_cmp_be_val l k :
  length l = length k -> bytes_cmp l k = (be_val l ?= be_val k).
Proof.
  revert k. induction l as [|b l IH]; intros [|c k]; cbn [length]; try done.
  intros [= Hl]. cbn [bytes_cmp]. rewrite !be_val_cons, (IH k Hl), <- Hl.
  pose proof (be_val_range l). pose proof (be_val_range k). rewrite <- Hl in *.
  destruct (Z.compare_spec (byte_val b) (byte_val c)) as [->|Hlt|Hgt].
  - destruct (Z.compare_spec (be_val l) (be_val k)); symmetry;
      [apply Z.compare_eq_iff|apply Z.compare_lt_iff|apply Z.compare_gt_iff]; lia.
  - symmetry. apply Z.compare_lt_iff. nia.
  - symmetry. apply Z.compare_gt_iff. nia.
Qed.

(** ** Fixed-length arrays: [array n] is Rust's [[u8; n]] *)

Record array (n : nat) : Type := Array {
  arr : bytes;
  arr_ok : (length arr =? n)%nat = true
}.
Arguments Array {n} _ _.
Arguments arr {n} _.
Arguments arr_ok {n} _.
Coercion arr : array >-> list.

Lemma arr_length {n} (a : array n) : length a = n.
Proof. apply Nat.eqb_eq, arr_ok. Qed.

Lemma array_eq {n} (a b : array n) : arr a = arr b -> a = b.
Proof.
  destruct a as [a Ha], b as [b Hb]; cbn. intros ->.
  f_equal. apply UIP_dec, bool_dec.
Qed.
Lemma array_option_eq {n} (a b : option (array n)) : arr <$> a = arr <$> b -> a = b.
Proof. destruct a, b; cbn; try done. intros E. apply (inj Some) in E. by f_equal; apply array_eq. Qed.

Lemma array_eq_iff {n} (a b : array n) : a = b <-> arr a = arr b.
Proof. split; [by intros ->|apply array_eq]. Qed.

#[export] Instance array_eq_dec n : EqDecision (array n).
Proof.
  intros a b. destruct (decide (arr a = arr b)) as [H|H];
    [left; by apply array_eq|right; congruence].
Defined.

(** [<[u8; N]>::try_from(slice)] *)
Definition array_try (n : nat) (l : bytes) : option (array n) :=
  match (length l =? n)%nat as b return (length l =? n)%nat = b -> option (array n) with
  | true => fun H => Some (Array l H)
  | false => fun _ => None
  end eq_refl.

Lemma array_try_Some n l (a : array n) : array_try n l = Some a <-> arr a = l.
Proof.
  unfold array_try. split.
  - generalize (eq_refl (length l =? n)%nat).
    generalize (length l =? n)%nat at 2 3. intros [] e [=]; by subst.
  - intros <-. generalize (eq_refl (length a =? n)%nat).
    generalize (length a =? n)%nat at 2 3. intros [] e; [f_equal; by apply array_eq|].
    exfalso. destruct a as [a Ha]; cbn in *. congruence.
Qed.

Lemma array_try_length n l : length l = n -> exists a, array_try n l = Some a /\ arr a = l.
Proof.
  intros H%Nat.eqb_eq. exists (Array l H). split; [by apply array_try_Some|done].
Qed.

#[export] Instance array_countable n : Countable (array n).
Proof.
  refine (inj_countable arr (array_try n) _). intros a. by apply array_try_Some.
Defined.

Lemma repeat_ok (b : byte) n : (length (repeat b n) =? n)%nat = true.
Proof. apply Nat.eqb_eq, repeat_length. Defined.

(** [[b; N]] *)
Definition array_rep (n : nat) (b : byte) : array n := Array (repeat b n) (repeat_ok b n).

Definition array_cmp {n} (a b : array n) : comparison := bytes_cmp a b.
Definition array_ltb {n} (a b : array n) : bool :=
  match array_cmp a b with Lt => true | _ => false end.
Definition array_leb {n} (a b : array n) : bool :=
  match array_cmp a b with Gt => false | _ => true end.

Lemma array_ltb_iff {n} (a b : array n) : array_ltb a b = true <-> be_val a < be_val b.
Proof.
  unfold array_ltb, array_cmp. rewrite bytes_cmp_be_val by by rewrite !arr_length.
  rewrite <- Z.compare_lt_iff. destruct (_ ?= _); naive_solver.
Qed.
Lemma array_leb_iff {n} (a b : array n) : array_leb a b = true <-> be_val a <= be_val b.
Proof.
  unfold array_leb, array_cmp. rewrite bytes_cmp_be_val by by rewrite !arr_length.
  rewrite <- Z.compare_le_iff. destruct (_ ?= _); naive_solver.
Qed.

Abbreviation Hash32 := (array 32).
Definition ZERO : Hash32 := array_rep 32 x00.

(** Slicing: [l[a..b]] for [a <= b <= len]. *)
Definition slice (a b : nat) (l : bytes) : bytes := take (b - a) (drop a l).

(** [[u8; n]] filled from [bytes[off..off + n]], a range inside the input. *)
Lemma subarray_ok n off (l : bytes) : (length (take n (drop off l ++ repeat x00 n)) =? n)%nat = true.
Proof. rewrite length_take, length_app, repeat_length. apply Nat.eqb_eq. lia. Qed.
Definition subarray (n off : nat) (l : bytes) : array n :=
  Array (take n (drop off l ++ repeat x00 n)) (subarray_ok n off l).

Lemma subarray_slice n off l : (off + n <= length l)%nat -> arr (subarray n off l) = slice off (off + n) l.
Proof.
  intros H. cbn [subarray arr]. rewrite take_app_le by (rewrite length_drop; lia).
  unfold slice. f_equal. lia.
Qed.

Lemma app_eq_length_l (a b c d : bytes) :
  length a = length b -> a ++ c = b ++ d -> a = b /\ c = d.
Proof. intros. by apply app_inj_1. Qed.

(** ** Pairing up a layer of a binary tree *)

(** [layer.chunks(2)], each chunk as [(pair[0], pair.get(1))]. *)
Fixpoint chunks2 {A : Type} (l : list A) : list (A * option A) :=
  match l with
  | [] => []
  | [a] => [(a, None)]
  | a :: b :: l => (a, Some b) :: chunks2 l
  end.

(** Two elements at a time. *)
Lemma list_ind2 {A : Type} (P : list A -> Prop) :
  P [] -> (forall a, P [a]) -> (forall a b l, P l -> P (a :: b :: l)) -> forall l, P l.
Proof.
  intros H0 H1 H2 l. enough (P l /\ forall a, P (a :: l)) as [? _] by done.
  induction l as [|b l [Hl Hb]]; split; auto.
Qed.

Lemma chunks2_length {A : Type} (l : list A) :
  length (chunks2 l) = Nat.div2 (S (length l)).
Proof. induction l as [|a|a b l IH] using list_ind2; cbn in *; by rewrite ?IH. Qed.

Lemma chunks2_lookup {A : Type} (l : list A) (i : nat) :
  chunks2 l !! i = (a ← l !! (2 * i)%nat; Some (a, l !! (2 * i + 1)%nat)).
Proof.
  revert i. induction l as [|a|a b l IH] using list_ind2; intros i.
  - done.
  - destruct i as [|i]; [done|]. cbn.
    by replace (i + S (i + 0))%nat with (S (2 * i)) by lia.
  - destruct i as [|i]; [done|].
    replace (2 * S i + 1)%nat with (S (S (2 * i + 1))) by lia.
    replace (2 * S i)%nat with (S (S (2 * i))) by lia. apply IH.
Qed.

(** The parent of position [p] in a paired layer. *)
Lemma chunks2_parent {A : Type} (l : list A) (p : nat) (v : A) :
  l !! p = Some v ->
  chunks2 l !! Nat.div2 p =
    if Nat.even p then Some (v, l !! S p)
    else (a ← l !! pred p; Some (a, Some v)).
Proof.
  intros Hv. rewrite chunks2_lookup. pose proof (Nat.div2_odd p) as Hp.
  rewrite <- Nat.negb_even in Hp. destruct (Nat.even p); cbn [negb Nat.b2n] in Hp.
  - replace (2 * Nat.div2 p)%nat with p by lia. rewrite Hv. cbn.
    by replace (p + 1)%nat with (S p) by lia.
  - replace (2 * Nat.div2 p)%nat with (pred p) by lia.
    replace (pred p + 1)%nat with p by lia. by rewrite Hv.
Qed.

(** A loop body that never fails turns [mapM] into [map]. *)
Lemma res_mapM_Ok {E A B : Type} (f : A -> res E B) (g : A -> B) (l : list A) :
  (forall a, f a = Ok (g a)) -> mapM f l = Ok (map g l).
Proof. intros H. induction l as [|a l IH]; cbn; [done|]. by rewrite H; cbn; rewrite IH. Qed.
Lemma option_mapM_Some {A B : Type} (f : A -> option B) (g : A -> B) (l : list A) :
  (forall a, f a = Some (g a)) -> mapM f l = Some (map g l).
Proof. intros H. induction l as [|a l IH]; cbn; [done|]. by rewrite H; cbn; rewrite IH. Qed.

(** The width of Rust's [usize], a parameter of the target. *)
Class PtrWidth : Type := usize_bits : positive.
Definition usize_try `{PtrWidth} (z : Z) : option (uint usize_bits) := uint_try usize_bits z.

(** ** Accesses that panic out of bounds *)

(** [bs[a..b]]: [None] is the panic of a range that is not inside [bs]. *)
Definition index_range (a b : nat) (bs : bytes) : option bytes :=
  if (a <=? b)%nat && (b <=? length bs)%nat then Some (slice a b bs) else None.

(** [out.copy_from_slice(&bs[a..b])] into an [[u8; n]]: the lengths must agree too. *)
Definition copy_range (n a b : nat) (bs : bytes) : option (array n) := index_range a b bs ≫= array_try n.

(** [bs[i] == b] and [bs[a..b] == tag] *)
Definition byte_is (i : nat) (b : byte) (bs : bytes) : option bool :=
  x ← bs !! i; Some (bool_decide (x = b)).
Definition range_is (a b : nat) (tag bs : bytes) : option bool :=
  s ← index_range a b bs; Some (bool_decide (s = tag)).

(** [p && q] and [p || q], whose second operand panics only when it is evaluated. *)
Definition and_then (p q : option bool) : option bool := x ← p; if x : bool then q else Some false.
Definition or_else (p q : option bool) : option bool := x ← p; if x : bool then Some true else q.
Infix "&&?" := and_then (at level 40, left associativity).
Infix "||?" := or_else (at level 50, left associativity).

(** [n += 1] and [a - b] on [usize]: [None] is the overflow. *)
Definition usize_succ `{PtrWidth} (n : nat) : option nat :=
  usize_try (Z.of_nat (S n)) ≫= fun _ => Some (S n).
Definition usize_sub (a b : nat) : option nat := if (b <=? a)%nat then Some (a - b)%nat else None.

Lemma index_range_Some a b bs s :
  index_range a b bs = Some s <-> (a <= b <= length bs)%nat /\ s = slice a b bs.
Proof.
  unfold index_range. destruct (Nat.leb_spec a b), (Nat.leb_spec b (length bs)); cbn [andb]; naive_solver lia.
Qed.
Lemma index_range_ok a b bs : (a <= b <= length bs)%nat -> index_range a b bs = Some (slice a b bs).
Proof. intros Hab. by apply index_range_Some. Qed.
Lemma copy_range_ok n a b bs : (a + n = b)%nat -> (b <= length bs)%nat -> copy_range n a b bs = Some (subarray n a bs).
Proof.
  intros <- Hb. unfold copy_range. rewrite index_range_ok by lia. cbn [mbind option_bind].
  apply array_try_Some, subarray_slice, Hb.
Qed.
Lemma byte_is_ok i b bs : (i < length bs)%nat -> byte_is i b bs = Some (bool_decide (bs !! i = Some b)).
Proof.
  intros [x Hx]%lookup_lt_is_Some. unfold byte_is. rewrite Hx. cbn [mbind option_bind]. f_equal.
  apply bool_decide_ext. naive_solver.
Qed.
Lemma range_is_ok a b tag bs : (a <= b <= length bs)%nat -> range_is a b tag bs = Some (bool_decide (slice a b bs = tag)).
Proof. intros Hab. unfold range_is. by rewrite index_range_ok. Qed.
Lemma and_then_guard (p : bool) (q : option bool) (r : bool) :
  (p = true -> q = Some r) -> (Some p &&? q) = Some (p && r).
Proof. destruct p; [by intros ->|done]. Qed.
Lemma or_else_guard (p : bool) (q : option bool) (r : bool) :
  (p = false -> q = Some r) -> (Some p ||? q) = Some (p || r).
Proof. destruct p; [done|by intros ->]. Qed.
Lemma usize_succ_Some `{PtrWidth} n m :
  usize_succ n = Some m <-> m = S n /\ Z.of_nat (S n) < 2 ^ Zpos usize_bits.
Proof.
  unfold usize_succ. destruct (usize_try _) as [x|] eqn:E; cbn [mbind option_bind].
  - apply uint_try_Some in E. pose proof (uint_range x). naive_solver lia.
  - apply uint_try_None in E. naive_solver lia.
Qed.
Lemma usize_sub_Some a b c : usize_sub a b = Some c <-> (b <= a)%nat /\ c = (a - b)%nat.
Proof. unfold usize_sub. destruct (Nat.leb_spec b a); naive_solver lia. Qed.

(** The low bit of a shifted index, and the position one level up. *)
Lemma shiftr_low_bit (i : Z) (l : nat) :
  0 <= i ->
  (Z.land (Z.shiftr i (Z.of_nat l)) 1 =? 0) = Nat.even (Z.to_nat (Z.shiftr i (Z.of_nat l))).
Proof.
  intros Hi. set (z := Z.shiftr i (Z.of_nat l)).
  assert (0 <= z) as Hz by by apply Z.shiftr_nonneg.
  change 1 with (Z.ones 1). rewrite Z.land_ones by lia. change (2 ^ 1) with 2.
  rewrite <- (Z2Nat.id z) at 1 by done. generalize (Z.to_nat z). intros n.
  rewrite Zmod_even. pose proof (Nat.div2_odd n) as Hn. rewrite <- Nat.negb_even in Hn.
  destruct (Nat.even n); cbn [negb Nat.b2n] in Hn.
  - replace (Z.of_nat n) with (2 * Z.of_nat (Nat.div2 n)) by lia.
    by rewrite Z.even_mul.
  - replace (Z.of_nat n) with (1 + 2 * Z.of_nat (Nat.div2 n)) by lia.
    by rewrite Z.even_add_mul_2.
Qed.

Lemma shiftr_next (i : Z) (l : nat) :
  0 <= i ->
  Z.to_nat (Z.shiftr i (Z.of_nat (S l))) = Nat.div2 (Z.to_nat (Z.shiftr i (Z.of_nat l))).
Proof.
  intros Hi. replace (Z.of_nat (S l)) with (Z.of_nat l + 1) by lia.
  rewrite <- Z.shiftr_shiftr by lia. set (z := Z.shiftr i (Z.of_nat l)).
  assert (0 <= z) as Hz by by apply Z.shiftr_nonneg.
  rewrite Nat.div2_div, Z.shiftr_div_pow2 by lia. change (2 ^ 1) with 2.
  rewrite Z2Nat.inj_div by lia. done.
Qed.

(** [u64::leading_zeros] *)
Definition leading_zeros64 (z : Z) : Z := if z =? 0 then 64 else 63 - Z.log2 z.

(** ** Sums and index-wise conditions on lists *)

Definition sumZ {A : Type} (f : A -> Z) (l : list A) : Z := foldr (fun a s => f a + s) 0 l.

Lemma sumZ_app {A : Type} (f : A -> Z) (l k : list A) : sumZ f (l ++ k) = sumZ f l + sumZ f k.
Proof. unfold sumZ. induction l as [|a l IH]; cbn; [done|]. lia. Qed.
Lemma sumZ_map {A B : Type} (f : B -> Z) (g : A -> B) (l : list A) :
  sumZ f (map g l) = sumZ (fun a => f (g a)) l.
Proof. unfold sumZ. induction l as [|a l IH]; cbn; [done|]. lia. Qed.
Lemma sumZ_scale {A : Type} (f g : A -> Z) (c : Z) (l : list A) :
  (forall a, a ∈ l -> f a = c * g a) -> sumZ f l = c * sumZ g l.
Proof.
  induction l as [|a l IH]; intros Hfg; cbn; [lia|].
  change (foldr _ 0 l) with (sumZ f l) at 1. change (foldr _ 0 l) with (sumZ g l).
  rewrite IH by (intros; apply Hfg; by right). rewrite (Hfg a) by left. lia.
Qed.
Lemma sumZ_bounds {A : Type} (f : A -> Z) (lo hi : Z) (l : list A) :
  (forall a, a ∈ l -> lo <= f a <= hi) ->
  Z.of_nat (length l) * lo <= sumZ f l <= Z.of_nat (length l) * hi.
Proof.
  induction l as [|a l IH]; intros Hf; cbn [length sumZ foldr]; [lia|].
  change (foldr _ 0 l) with (sumZ f l).
  pose proof (Hf a ltac:(left)). pose proof (IH ltac:(intros; apply Hf; by right)). lia.
Qed.

(** [P] holds of every element with its index, counted from [i]. *)
Definition all_from {A : Type} (P : nat -> A -> Prop) (i : nat) (l : list A) : Prop :=
  forall k a, l !! k = Some a -> P (i + k)%nat a.

Lemma all_from_nil {A : Type} (P : nat -> A -> Prop) i : all_from P i [].
Proof. intros k a. done. Qed.
Lemma all_from_cons {A : Type} (P : nat -> A -> Prop) i a l :
  all_from P i (a :: l) <-> P i a /\ all_from P (S i) l.
Proof.
  split.
  - intros Hp. split; [specialize (Hp 0%nat a eq_refl); by rewrite Nat.add_0_r in Hp|].
    intros k b Hk. specialize (Hp (S k) b Hk). by replace (S i + k)%nat with (i + S k)%nat by lia.
  - intros [Ha Hl] [|k] b Hk; [injection Hk as <-; by rewrite Nat.add_0_r|].
    specialize (Hl k b Hk). by replace (i + S k)%nat with (S i + k)%nat by lia.
Qed.

(** A loop whose body checks [P i a] and updates the state by [g]. *)
Lemma res_foldi_iff {E A T : Type} (f : nat -> A -> T -> res E T)
    (P : nat -> A -> Prop) (g : T -> A -> T) :
  (forall i a s s', f i a s = Ok s' <-> P i a /\ s' = g s a) ->
  forall l i s s', res_foldi f i l s = Ok s' <-> all_from P i l /\ s' = fold_left g l s.
Proof.
  intros Hf. induction l as [|a l IH]; intros i s s'; cbn [res_foldi fold_left].
  - split; [intros [= <-]; split; [apply all_from_nil|done]|by intros [_ ->]].
  - rewrite res_bind_Ok, all_from_cons. setoid_rewrite Hf. setoid_rewrite IH. naive_solver.
Qed.

Lemma fold_left_push {A B : Type} (g : A -> B) (l : list A) (acc : list B) :
  fold_left (fun s a => s ++ [g a]) l acc = acc ++ map g l.
Proof.
  revert acc. induction l as [|a l IH]; intros acc; cbn; [by rewrite app_nil_r|].
  by rewrite IH, <- app_assoc.
Qed.

Lemma negb_bool_decide_false (P : Prop) `{Decision P} : negb (bool_decide P) = false <-> P.
Proof. rewrite negb_false_iff. apply bool_decide_eq_true. Qed.

(** ** Computations that never panic and whose errors satisfy [P] *)

Definition errs_in {E A : Type} (P : E -> Prop) (m : res E A) : Prop :=
  match m with Ok _ => True | Err e => P e | Panic => False end.

Section errs_in.
Context {E : Type} (P : E -> Prop).

Lemma errs_in_bind {A B : Type} (m : res E A) (f : A -> res E B) :
  errs_in P m -> (forall a, m = Ok a -> errs_in P (f a)) -> errs_in P (m ≫= f).
Proof. destruct m; cbn; naive_solver. Qed.
Lemma errs_in_ok {A : Type} (a : A) : errs_in P (Ok a).
Proof. done. Qed.
Lemma errs_in_fail_if (b : bool) (e : E) : P e -> errs_in P (fail_if b e).
Proof. by destruct b. Qed.
Lemma errs_in_ok_or {A : Type} (o : option A) (e : E) : P e -> errs_in P (ok_or o e).
Proof. by destruct o. Qed.
Lemma errs_in_expect {A : Type} (o : option A) : is_Some o -> errs_in P (expect o).
Proof. by intros [a ->]. Qed.
Lemma errs_in_foldi {A T : Type} (f : nat -> A -> T -> res E T) l i s :
  (forall i x s, errs_in P (f i x s)) -> errs_in P (res_foldi f i l s).
Proof.
  intros Hf. revert i s. induction l as [|x l IH]; intros i s; [done|].
  apply errs_in_bind; [apply Hf|]. intros s' _. apply IH.
Qed.
End errs_in.

(** Walk through a monadic program, leaving the conditions on its errors. *)
Ltac errs_step :=
  lazymatch goal with
  | |- errs_in _ (mbind _ _) => apply errs_in_bind; [|let a := fresh "a" in let E := fresh "Ea" in intros a E]
  | |- errs_in _ (Ok _) => exact I
  | |- errs_in _ (fail_if _ _) => apply errs_in_fail_if
  | |- errs_in _ (ok_or _ _) => apply errs_in_ok_or
  | |- errs_in _ (res_foldi _ _ _ _) => apply errs_in_foldi; intros
  end.
Ltac errs := repeat errs_step.

(** ** A Hoare logic for [res]: [Q] of the result, [P] of an error, no panic *)

Definition meets {E A : Type} (P : E -> Prop) (Q : A -> Prop) (m : res E A) : Prop :=
  match m with Ok a => Q a | Err e => P e | Panic => False end.

Section meets.
Context {E : Type} (P : E -> Prop).

Lemma meets_weaken {A : Type} (Q Q' : A -> Prop) (m : res E A) :
  meets P Q m -> (forall a, m = Ok a -> Q a -> Q' a) -> meets P Q' m.
Proof. destruct m; cbn; naive_solver. Qed.
Lemma meets_bind {A B : Type} (Q : A -> Prop) (R : B -> Prop) (m : res E A) (f : A -> res E B) :
  meets P Q m -> (forall a, m = Ok a -> Q a -> meets P R (f a)) -> meets P R (m ≫= f).
Proof. destruct m; cbn; naive_solver. Qed.
Lemma meets_fail_then {A : Type} (b : bool) (e : E) (Q : A -> Prop) (m : res E A) :
  (b = true -> P e) -> (b = false -> meets P Q m) -> meets P Q (fail_if b e;; m).
Proof. destruct b; cbn; auto. Qed.
Lemma meets_fail_if (b : bool) (e : E) : (b = true -> P e) -> meets P (fun _ => b = false) (fail_if b e).
Proof. destruct b; cbn; auto. Qed.
Lemma meets_ok_or {A : Type} (o : option A) (e : E) :
  (o = None -> P e) -> meets P (fun a => o = Some a) (ok_or o e).
Proof. destruct o; cbn; auto. Qed.
Lemma meets_expect {A : Type} (o : option A) : is_Some o -> meets P (fun a => o = Some a) (expect o).
Proof. by intros [a ->]. Qed.
Lemma meets_errs_in {A : Type} (Q : A -> Prop) (m : res E A) : meets P Q m -> errs_in P m.
Proof. by destruct m. Qed.
Lemma meets_Ok {A : Type} (Q : A -> Prop) (m : res E A) (a : A) : meets P Q m -> m = Ok a -> Q a.
Proof. by intros Hm ->. Qed.

(** A loop invariant, indexed by the number of elements processed. *)
Lemma meets_foldi {A T : Type} (f : nat -> A -> T -> res E T) (Inv : nat -> T -> Prop) l i s :
  Inv i s ->
  (forall k x s, l !! k = Some x -> Inv (i + k)%nat s -> meets P (Inv (S (i + k))) (f (i + k)%nat x s)) ->
  meets P (Inv (i + length l)%nat) (res_foldi f i l s).
Proof.
  revert i s. induction l as [|x l IH]; intros i s Hs Hf; cbn [res_foldi length].
  - by rewrite Nat.add_0_r.
  - apply (meets_bind (Inv (S i))).
    + specialize (Hf 0%nat x s eq_refl). rewrite Nat.add_0_r in Hf. by apply Hf.
    + intros s' _ Hs'. replace (i + S (length l))%nat with (S i + length l)%nat by lia. apply IH; [done|].
      intros k y t Hk. specialize (Hf (S k) y t Hk). by replace (S i + k)%nat with (i + S k)%nat by lia.
Qed.
End meets.

(** A scan for the one element that satisfies [p], refused when there are two. *)
Definition unique_at {A B : Type} (p : A -> bool) (g : nat -> A -> B) (l : list A) (r : option B) : Prop :=
  match r with
  | None => Forall (fun x => p x = false) l
  | Some b => exists i x, l !! i = Some x /\ p x = true /\ b = g i x /\
                forall j y, l !! j = Some y -> p y = true -> j = i
  end.

Lemma unique_at_snoc_false {A B : Type} (p : A -> bool) (g : nat -> A -> B) l x r :
  p x = false -> unique_at p g l r -> unique_at p g (l ++ [x]) r.
Proof.
  intros Hx. destruct r as [b|]; cbn [unique_at].
  - intros (i & y & Hy & Hp & -> & Hu). exists i, y. split; [by apply lookup_app_l_Some|]. split; [done|]. split; [done|].
    intros j z [Hz|[_ Hz]]%lookup_app_Some Hpz; [by eapply Hu|].
    apply list_lookup_singleton_Some in Hz as [_ ->]. congruence.
  - intros Hl. apply Forall_app. split; [done|]. by apply Forall_singleton.
Qed.

Lemma unique_at_snoc_true {A B : Type} (p : A -> bool) (g : nat -> A -> B) l x :
  p x = true -> unique_at p g l None -> unique_at p g (l ++ [x]) (Some (g (length l) x)).
Proof.
  intros Hx Hl. exists (length l), x. rewrite lookup_app_r, Nat.sub_diag by lia. repeat split; [done|].
  intros j y [Hy|[Hge Hy]]%lookup_app_Some Hpy.
  - apply (Forall_lookup_1 _ _ _ _ Hl) in Hy. congruence.
  - apply list_lookup_singleton_Some in Hy as [Hy _]. lia.
Qed.

Lemma unique_scan {E A B : Type} (P : E -> Prop) (p : A -> bool) (g : nat -> A -> B)
    (f : nat -> A -> option B -> res E (option B)) l :
  (forall i x r, l !! i = Some x -> p x = false -> f i x r = Ok r) ->
  (forall i x r, l !! i = Some x -> p x = true ->
     meets P (fun r' => r = None /\ r' = Some (g i x)) (f i x r)) ->
  meets P (unique_at p g l) (res_foldi f 0 l None).
Proof.
  intros Hf Ht.
  eapply meets_weaken; [apply (meets_foldi P f (fun n r => unique_at p g (take n l) r))|].
  - cbn [unique_at]. by rewrite take_0.
  - cbn [Nat.add]. intros k x r Hk Hr. rewrite (take_S_r l k x Hk). destruct (p x) eqn:Ex.
    + eapply meets_weaken; [by apply Ht|]. cbn beta. intros r' _ [-> ->].
      assert (length (take k l) = k) as Hl by (rewrite length_take; pose proof (lookup_lt_Some _ _ _ Hk); lia).
      rewrite <- Hl at 2. by apply unique_at_snoc_true.
    + rewrite (Hf k x r Hk Ex). by apply unique_at_snoc_false.
  - cbn [Nat.add]. by rewrite firstn_all.
Qed.

(** A loop that only checks its elements. *)
Lemma res_foldi_check {E A : Type} (f : nat -> A -> unit -> res E unit) (P : A -> Prop) l i u :
  (forall i x, x ∈ l -> f i x tt = Ok tt <-> P x) ->
  res_foldi f i l tt = Ok u <-> Forall P l.
Proof.
  destruct u. revert i. induction l as [|x l IH]; intros i Hf; cbn [res_foldi]; [by rewrite Forall_nil|].
  rewrite res_bind_Ok, Forall_cons, <- (Hf i x), <- (IH (S i)); [|intros; apply Hf; by right|by left].
  split; [intros ([] & ? & ?); done|]. intros [? ?]. by exists tt.
Qed.

(** ** Loops whose state summarises the processed prefix *)

(** Every element is acceptable after the elements before it. *)
Fixpoint ok_from {A : Type} (good : list A -> A -> Prop) (pre l : list A) : Prop :=
  match l with
  | [] => True
  | x :: l => good pre x /\ ok_from good (pre ++ [x]) l
  end.

Lemma ok_from_snoc {A : Type} (good : list A -> A -> Prop) pre l x :
  ok_from good pre (l ++ [x]) <-> ok_from good pre l /\ good (pre ++ l) x.
Proof.
  revert pre. induction l as [|y l IH]; intros pre; cbn [app ok_from].
  - rewrite app_nil_r. tauto.
  - rewrite IH, <- app_assoc. cbn. tauto.
Qed.

(** A condition on whole lists that grows by [good] is the loop's condition. *)
Lemma ok_from_global {A : Type} (good : list A -> A -> Prop) (P : list A -> Prop) :
  P [] -> (forall l x, P (l ++ [x]) <-> P l /\ good l x) -> forall l, ok_from good [] l <-> P l.
Proof.
  intros H0 Hs l. induction l as [|x l IH] using rev_ind; [done|].
  by rewrite ok_from_snoc, Hs, IH.
Qed.

Lemma res_foldi_prefix {E A T : Type} (f : nat -> A -> T -> res E T)
    (st : list A -> T) (good : list A -> A -> Prop) (Inv : list A -> Prop) :
  (forall pre x, Inv pre -> good pre x -> Inv (pre ++ [x])) ->
  (forall pre x s', Inv pre ->
     f (length pre) x (st pre) = Ok s' <-> good pre x /\ s' = st (pre ++ [x])) ->
  forall l pre s', Inv pre ->
    res_foldi f (length pre) l (st pre) = Ok s' <-> ok_from good pre l /\ s' = st (pre ++ l).
Proof.
  intros Hinv Hf. induction l as [|x l IH]; intros pre s' Hp; cbn [res_foldi ok_from].
  - rewrite app_nil_r. naive_solver.
  - rewrite res_bind_Ok. setoid_rewrite Hf; [|done].
    assert (good pre x -> res_foldi f (S (length pre)) l (st (pre ++ [x])) = Ok s' <->
      ok_from good (pre ++ [x]) l /\ s' = st (pre ++ x :: l)) as Hr.
    { intros Hg. specialize (IH (pre ++ [x]) s' (Hinv _ _ Hp Hg)).
      rewrite length_app, <- app_assoc in IH. cbn in IH. by rewrite Nat.add_1_r in IH. }
    naive_solver.
Qed.

#[export] Instance uint_countable w : Countable (uint w).
Proof.
  refine (inj_countable uval (uint_try w) _). intros x. by apply uint_try_Some.
Defined.

Lemma NoDup_snoc {A : Type} (l : list A) (x : A) : NoDup (l ++ [x]) <-> NoDup l /\ x ∉ l.
Proof.
  rewrite NoDup_app. split.
  - intros (Hl & Hx & _). split; [done|]. intros Hin. apply (Hx x Hin). by left.
  - intros [Hl Hx]. split; [done|]. split; [|apply NoDup_singleton].
    intros y Hy ->%list_elem_of_singleton. done.
Qed.

(** ** Filters that keep everything, or nothing *)

Lemma filter_all {A : Type} (P : A -> Prop) `{forall x, Decision (P x)} l : Forall P l -> filter P l = l.
Proof. induction 1 as [|x l Hx _ IH]; [done|]. rewrite filter_cons_True by done. by rewrite IH. Qed.
Lemma filter_none {A : Type} (P : A -> Prop) `{forall x, Decision (P x)} l : Forall (fun x => ~ P x) l -> filter P l = [].
Proof. induction 1 as [|x l Hx _ IH]; [done|]. by rewrite filter_cons_False. Qed.
