(* ===== verification/Encoding.v ===== *)
(** Canonical encoding: [crates/usdd-core/src/encoding.rs].

    The [Decoder] cursor over an immutable byte slice, the two traits
    [CanonicalEncode] and [CanonicalDecode] as classes, their implementations
    for integers, byte arrays, byte vectors and options, and the interface
    [Codec]: an encoder and a decoder that are exact inverses on the valid
    values of a type.  Every record of the protocol discharges [Codec], and
    [decode_exact_iff] turns that into the statement that [decode_exact]
    accepts exactly the canonical encodings of the valid values.

    An encoder returns [None] when the Rust encoder panics (a length prefix
    that does not fit); a decoder threads its cursor through [res]. *)

From S2P Require Import Prelude.

Local Open Scope Z_scope.

Inductive DecodeError : Type :=
| UnexpectedEof (needed remaining : nat)
| TrailingBytes (count : nat)
| InvalidTag (type_name : string) (tag : Z)
| InvalidLength (expected actual : nat)
| LengthOverflow
| InvalidValue (message : string).

Record Decoder : Type := MkDecoder { dec_bytes : bytes; cursor : nat }.

Definition Decoder_new (bs : bytes) : Decoder := MkDecoder bs 0.

(** [self.bytes.len().saturating_sub(self.cursor)] *)
Definition Decoder_remaining (d : Decoder) : nat := (length (dec_bytes d) - cursor d)%nat.

(** Decoders are cursor-passing computations. *)
Definition dec (A : Type) : Type := Decoder -> res DecodeError (A * Decoder).

#[export] Instance dec_ret : MRet dec := fun A a d => Ok (a, d).
#[export] Instance dec_bind : MBind dec := fun A B f m d =>
  match m d with
  | Ok (a, d') => f a d'
  | Err e => Err e
  | Panic => Panic
  end.

(** Run a computation that does not touch the cursor ([?] on a [Result]). *)
Definition lift {A : Type} (m : res DecodeError A) : dec A := fun d =>
  match m with Ok a => Ok (a, d) | Err e => Err e | Panic => Panic end.

Definition Decoder_take (len : nat) : dec bytes := fun d =>
  if (Decoder_remaining d <? len)%nat
  then Err (UnexpectedEof len (Decoder_remaining d))
  else Ok (slice (cursor d) (cursor d + len) (dec_bytes d),
           MkDecoder (dec_bytes d) (cursor d + len)).

(** [self.take(1)?[0]] *)
Definition Decoder_u8 : dec u8 :=
  bs ← Decoder_take 1; b ← lift (expect (bs !! 0%nat)); mret (uint_wrap 8 (byte_val b)).

(** [self.take(N)?.try_into().expect(..)] *)
Definition Decoder_fixed (n : nat) : dec (array n) :=
  bs ← Decoder_take n; lift (expect (array_try n bs)).

(** [T::from_be_bytes(bytes)] of the [N] bytes of a [T]. *)
Definition Decoder_u16 : dec u16 :=
  bs ← Decoder_fixed 2; mret (uint_wrap 16 (be_val (arr bs))).
Definition Decoder_u32 : dec u32 :=
  bs ← Decoder_fixed 4; mret (uint_wrap 32 (be_val (arr bs))).
Definition Decoder_u64 : dec u64 :=
  bs ← Decoder_fixed 8; mret (uint_wrap 64 (be_val (arr bs))).

(** [bytes]: a big-endian [u32] length and that many bytes. *)
Definition Decoder_bytes : dec bytes :=
  len ← Decoder_u32; Decoder_take (Z.to_nat (uval len)).

(** ** The traits *)

Class CanonicalEncode (A : Type) : Type := encode : A -> option bytes.
Class CanonicalDecode (A : Type) : Type := decode_from : dec A.

(** [a.encode_to(out); b.encode_to(out)] *)
Definition enc_app (a b : option bytes) : option bytes :=
  match a, b with Some x, Some y => Some (x ++ y) | _, _ => None end.
Declare Scope enc_scope.
Infix "+++" := enc_app (at level 60, right associativity) : enc_scope.
Open Scope enc_scope.

Definition decode_exact {A : Type} `{CanonicalDecode A} (bs : bytes) : res DecodeError A :=
  match decode_from (Decoder_new bs) with
  | Ok (value, d) =>
      if (Decoder_remaining d =? 0)%nat then Ok value
      else Err (TrailingBytes (Decoder_remaining d))
  | Err e => Err e
  | Panic => Panic
  end.

(** ** Implementations for the basic types *)

#[export] Instance u8_encode : CanonicalEncode u8 := fun x => Some (be_bytes 1 x).
#[export] Instance u16_encode : CanonicalEncode u16 := fun x => Some (be_bytes 2 x).
#[export] Instance u32_encode : CanonicalEncode u32 := fun x => Some (be_bytes 4 x).
#[export] Instance u64_encode : CanonicalEncode u64 := fun x => Some (be_bytes 8 x).

#[export] Instance u8_decode : CanonicalDecode u8 := Decoder_u8.
#[export] Instance u16_decode : CanonicalDecode u16 := Decoder_u16.
#[export] Instance u32_decode : CanonicalDecode u32 := Decoder_u32.
#[export] Instance u64_decode : CanonicalDecode u64 := Decoder_u64.

#[export] Instance array_encode n : CanonicalEncode (array n) := fun a => Some (arr a).
#[export] Instance array_decode n : CanonicalDecode (array n) := Decoder_fixed n.

(** [u32::try_from(len).expect(..)]: a vector of 2^32 bytes panics. *)
#[export] Instance vec_encode : CanonicalEncode bytes := fun v =>
  match uint_try 32 (Z.of_nat (length v)) with
  | Some len => encode len +++ Some v
  | None => None
  end.
#[export] Instance vec_decode : CanonicalDecode bytes := Decoder_bytes.

#[export] Instance option_encode {A} `{CanonicalEncode A} : CanonicalEncode (option A) := fun o =>
  match o with
  | None => encode (uint_wrap 8 0)
  | Some value => encode (uint_wrap 8 1) +++ encode value
  end.
#[export] Instance option_decode {A} `{CanonicalDecode A} : CanonicalDecode (option A) :=
  tag ← Decoder_u8;
  if uval tag =? 0 then mret None
  else if uval tag =? 1 then (value ← decode_from; mret (Some value))
  else lift (Err (InvalidTag "Option" (uval tag))).

(** Sequences of records: [for x in xs { x.encode_to(out) }] and
    [for _ in 0..count { xs.push(T::decode_from(decoder)?) }]. *)
Fixpoint encode_seq {A} `{CanonicalEncode A} (xs : list A) : option bytes :=
  match xs with
  | [] => Some []
  | x :: xs => encode x +++ encode_seq xs
  end.
Fixpoint decode_seq {A} `{CanonicalDecode A} (count : nat) : dec (list A) :=
  match count with
  | O => mret []
  | S count => x ← decode_from; xs ← decode_seq count; mret (x :: xs)
  end.

(** ** The unread suffix of a decoder *)

Definition unread (d : Decoder) : bytes := drop (cursor d) (dec_bytes d).
Definition advance (d : Decoder) (n : nat) : Decoder := MkDecoder (dec_bytes d) (cursor d + n).

Lemma remaining_unread d : Decoder_remaining d = length (unread d).
Proof. unfold Decoder_remaining, unread. by rewrite length_drop. Qed.

Lemma unread_new bs : unread (Decoder_new bs) = bs.
Proof. done. Qed.

Lemma unread_advance d p r n :
  unread d = p ++ r -> n = length p -> unread (advance d n) = r.
Proof.
  intros H ->. unfold unread, advance in *. cbn.
  by rewrite <- drop_drop, H, drop_app_length.
Qed.

Lemma advance_advance d n m : advance (advance d n) m = advance d (n + m).
Proof. unfold advance. cbn. f_equal. lia. Qed.

Lemma advance_0 d : advance d 0 = d.
Proof. destruct d. unfold advance. cbn. by rewrite Nat.add_0_r. Qed.

Lemma take_spec n d p d' :
  Decoder_take n d = Ok (p, d') <->
  length p = n /\ unread d = p ++ unread d' /\ d' = advance d n.
Proof.
  unfold Decoder_take. rewrite remaining_unread. unfold slice.
  replace (cursor d + n - cursor d)%nat with n by lia.
  change (drop (cursor d) (dec_bytes d)) with (unread d).
  change (MkDecoder _ _) with (advance d n).
  destruct (Nat.ltb_spec (length (unread d)) n) as [Hlt|Hge]; split.
  - done.
  - intros (Hp & H & _). rewrite H, length_app in Hlt. lia.
  - intros [= <- <-]. rewrite length_take. split; [lia|]. split; [|done].
    erewrite (unread_advance d (take n (unread d)) (drop n (unread d)));
      [by rewrite take_drop|by rewrite take_drop|rewrite length_take; lia].
  - intros (Hp & H & ->). f_equal. f_equal.
    rewrite H, take_app_le by lia. rewrite take_ge; [done|lia].
Qed.

Lemma take_complete n d p r :
  unread d = p ++ r -> length p = n -> Decoder_take n d = Ok (p, advance d n).
Proof.
  intros H Hp. apply take_spec. split; [done|]. split; [|done].
  by rewrite (unread_advance d p r).
Qed.

Lemma take_not_panic n d : Decoder_take n d <> Panic.
Proof. unfold Decoder_take. by case_match. Qed.

(** ** Inversion of decoder programs *)

Lemma dec_bind_Ok {A B} (m : dec A) (f : A -> dec B) d b d' :
  (m ≫= f) d = Ok (b, d') <-> exists a d1, m d = Ok (a, d1) /\ f a d1 = Ok (b, d').
Proof.
  unfold mbind, dec_bind. destruct (m d) as [[a d1]| |]; split; try done;
    try (intros (? & ? & ? & ?); done).
  - eauto.
  - by intros (? & ? & [= <- <-] & ?).
Qed.

Lemma lift_Ok {A} (m : res DecodeError A) d a d' :
  lift m d = Ok (a, d') <-> m = Ok a /\ d' = d.
Proof. unfold lift. destruct m; naive_solver. Qed.

Lemma dec_ret_Ok {A} (a b : A) d d' : (mret a : dec A) d = Ok (b, d') <-> b = a /\ d' = d.
Proof. unfold mret, dec_ret. naive_solver. Qed.

Lemma enc_app_Some a b p :
  a +++ b = Some p <-> exists x y, a = Some x /\ b = Some y /\ p = x ++ y.
Proof. destruct a, b; cbn; naive_solver. Qed.

(** ** The interface: exact inverses on the valid values *)

(** Reading from [d] to [d'] consumes exactly what the encoder [e] writes. *)
Definition reads (e : option bytes) (d d' : Decoder) : Prop :=
  exists p, e = Some p /\ unread d = p ++ unread d' /\ d' = advance d (length p).

Lemma reads_app a b d d' :
  reads (a +++ b) d d' <-> exists d1, reads a d d1 /\ reads b d1 d'.
Proof.
  split.
  - intros (p & (x & y & -> & -> & ->)%enc_app_Some & Hu & ->).
    rewrite <- app_assoc in Hu. rewrite length_app, <- advance_advance in *.
    assert (unread (advance d (length x)) = y ++ unread (advance (advance d (length x)) (length y)))
      as Hm by by apply (unread_advance d x).
    exists (advance d (length x)). split; [exists x|exists y]; naive_solver congruence.
  - intros (d1 & (x & -> & Hx & ->) & (y & -> & Hy & ->)).
    exists (x ++ y). split; [done|]. split; [|by rewrite length_app, advance_advance].
    by rewrite <- app_assoc, <- Hy.
Qed.

Lemma reads_nil d d' : reads (Some []) d d' <-> d' = d.
Proof.
  split.
  - intros (p & [= <-] & _ & ->). apply advance_0.
  - intros ->. exists []. by rewrite advance_0.
Qed.

Lemma reads_Some p d d' :
  reads (Some p) d d' <-> unread d = p ++ unread d' /\ d' = advance d (length p).
Proof. unfold reads. naive_solver. Qed.

Lemma reads_complete p d r : unread d = p ++ r -> reads (Some p) d (advance d (length p)).
Proof. intros H. apply reads_Some. by rewrite (unread_advance d p r). Qed.

Class Codec (A : Type) {E : CanonicalEncode A} {D : CanonicalDecode A} : Type := {
  valid : A -> Prop;
  codec_spec : forall d x d',
    decode_from d = Ok (x, d') <-> valid x /\ reads (encode x) d d';
  codec_total : forall x, valid x -> exists p, encode x = Some p
}.
Arguments valid A {E D Codec} _.

Section decode_exact.
Context {A : Type} {EA : CanonicalEncode A} {DA : CanonicalDecode A} {CA : Codec A}.

Lemma decode_exact_spec (bs : bytes) (x : A) :
  decode_exact bs = Ok x <-> valid A x /\ encode x = Some bs.
Proof.
  unfold decode_exact. split.
  - destruct (decode_from (Decoder_new bs)) as [[y d]| |] eqn:Hd; [|done..].
    rewrite remaining_unread.
    destruct (Nat.eqb_spec (length (unread d)) 0) as [H0|]; [|done]. intros [= ->].
    apply codec_spec in Hd as (Hv & p & Hp & Hu & _). split; [done|].
    apply length_zero_iff_nil in H0. rewrite unread_new, H0, app_nil_r in Hu. congruence.
  - intros [Hv He].
    assert (reads (encode x) (Decoder_new bs) (advance (Decoder_new bs) (length bs))) as Hr.
    { rewrite He. apply (reads_complete bs _ []). by rewrite app_nil_r. }
    rewrite (proj2 (codec_spec _ _ _) (conj Hv Hr)).
    rewrite remaining_unread, (unread_advance (Decoder_new bs) bs []);
      [done|by rewrite app_nil_r|done].
Qed.

Lemma codec_read d (x : A) d' : reads (encode x) d d' -> valid A x -> decode_from d = Ok (x, d').
Proof. intros Hr Hv. by apply codec_spec. Qed.

(** Distinct valid values have distinct encodings, none a prefix of another. *)
Lemma encode_prefix_free (x y : A) p q r s :
  valid A x -> valid A y -> encode x = Some p -> encode y = Some q ->
  p ++ r = q ++ s -> x = y /\ p = q /\ r = s.
Proof.
  intros Hx Hy Ep Eq H. set (d := Decoder_new (p ++ r)).
  assert (decode_from d = Ok (x, advance d (length p))) as H1.
  { apply codec_spec. rewrite Ep. split; [done|]. by apply (reads_complete p _ r). }
  assert (decode_from d = Ok (y, advance d (length q))) as H2.
  { apply codec_spec. rewrite Eq. split; [done|]. by apply (reads_complete q _ s). }
  rewrite H1 in H2. injection H2 as -> _.
  assert (p = q) as -> by congruence. by apply app_inv_head in H.
Qed.

Lemma encode_inj (x y : A) p :
  valid A x -> valid A y -> encode x = Some p -> encode y = Some p -> x = y.
Proof. intros. by eapply (encode_prefix_free x y p p [] []). Qed.

(** Equal encodings agree on their first valid field. *)
Lemma enc_app_inj (x y : A) r s p :
  valid A x -> valid A y -> encode x +++ r = Some p -> encode y +++ s = Some p ->
  x = y /\ exists q, r = Some q /\ s = Some q.
Proof.
  intros Hx Hy (a & b & Ea & -> & ->)%enc_app_Some (c & d & Ec & -> & E)%enc_app_Some.
  destruct (encode_prefix_free x y a c b d Hx Hy Ea Ec E) as (-> & _ & ->). eauto.
Qed.
End decode_exact.

(** ** The basic types discharge the interface *)

Lemma uint_bytes_inv (n : nat) (w : positive) (x : uint w) l :
  (8 * Z.of_nat n = Zpos w) -> length l = n ->
  uint_wrap w (be_val l) = x <-> l = be_bytes n x.
Proof.
  intros Hw Hl. assert (256 ^ Z.of_nat n = 2 ^ Zpos w) as Hp.
  { change 256 with (2 ^ 8). by rewrite <- Z.pow_mul_r, Hw by lia. }
  pose proof (be_val_range l) as Hr. rewrite Hl, Hp in Hr. split.
  - intros <-. rewrite uval_wrap_small by done. by rewrite <- Hl, be_bytes_val.
  - intros ->. apply uint_eq. rewrite be_val_bytes, Hp. cbn.
    rewrite Z.mod_mod by lia. apply Z.mod_small, uint_range.
Qed.

Lemma uint_reader_spec (n : nat) (w : positive) d (x : uint w) d' :
  8 * Z.of_nat n = Zpos w ->
  (bs ← Decoder_take n; mret (uint_wrap w (be_val bs)) : dec (uint w)) d = Ok (x, d') <->
  True /\ reads (Some (be_bytes n x)) d d'.
Proof.
  intros Hw. rewrite dec_bind_Ok, reads_Some. setoid_rewrite take_spec.
  setoid_rewrite dec_ret_Ok. split.
  - intros (p & d1 & (Hp & Hu & ->) & Hx & ->). split; [done|].
    symmetry in Hx. apply (uint_bytes_inv n w x p Hw Hp) in Hx as ->.
    by rewrite length_be_bytes.
  - intros (_ & Hu & ->). exists (be_bytes n x), (advance d n).
    rewrite length_be_bytes in *. repeat split; try done.
    symmetry. apply (uint_bytes_inv n w x _ Hw); [apply length_be_bytes|done].
Qed.

(** The conversions after [take] never fail, so the readers are these. *)
Lemma u8_reader d : Decoder_u8 d = (bs ← Decoder_take 1; mret (uint_wrap 8 (be_val bs)) : dec u8) d.
Proof.
  unfold Decoder_u8, mbind, dec_bind. destruct (Decoder_take 1 d) as [[bs d']|e|] eqn:E; [|done..].
  apply take_spec in E as (Hl & _). destruct bs as [|b [|]]; [done| |done].
  cbn. unfold mret, dec_ret. do 3 f_equal. lia.
Qed.
Lemma fixed_reader (n : nat) (w : positive) d :
  (bs ← Decoder_fixed n; mret (uint_wrap w (be_val (arr bs))) : dec (uint w)) d
  = (bs ← Decoder_take n; mret (uint_wrap w (be_val bs)) : dec (uint w)) d.
Proof.
  unfold Decoder_fixed, mbind, dec_bind. destruct (Decoder_take n d) as [[bs d']|e|] eqn:E; [|done..].
  apply take_spec in E as (Hl & _). destruct (array_try_length n bs Hl) as (a & -> & <-). done.
Qed.

#[export] Program Instance u8_codec : Codec u8 := {| valid := fun _ => True |}.
Next Obligation.
  intros d x d'. change decode_from with Decoder_u8. rewrite u8_reader. by apply uint_reader_spec.
Qed.
Next Obligation. intros. by eexists. Qed.
#[export] Program Instance u16_codec : Codec u16 := {| valid := fun _ => True |}.
Next Obligation.
  intros d x d'. change decode_from with Decoder_u16. unfold Decoder_u16. rewrite fixed_reader. by apply uint_reader_spec.
Qed.
Next Obligation. intros. by eexists. Qed.
#[export] Program Instance u32_codec : Codec u32 := {| valid := fun _ => True |}.
Next Obligation.
  intros d x d'. change decode_from with Decoder_u32. unfold Decoder_u32. rewrite fixed_reader. by apply uint_reader_spec.
Qed.
Next Obligation. intros. by eexists. Qed.
#[export] Program Instance u64_codec : Codec u64 := {| valid := fun _ => True |}.
Next Obligation.
  intros d x d'. change decode_from with Decoder_u64. unfold Decoder_u64. rewrite fixed_reader. by apply uint_reader_spec.
Qed.
Next Obligation. intros. by eexists. Qed.

#[export] Program Instance array_codec n : Codec (array n) := {| valid := fun _ => True |}.
Next Obligation.
  intros n d x d'. unfold decode_from, array_decode, Decoder_fixed, encode, array_encode.
  rewrite dec_bind_Ok, reads_Some. setoid_rewrite take_spec. setoid_rewrite lift_Ok.
  setoid_rewrite expect_Ok. setoid_rewrite array_try_Some. split.
  - intros (p & d1 & (Hp & Hu & ->) & <- & ->). by rewrite arr_length.
  - intros (_ & Hu & ->). exists (arr x), (advance d n).
    rewrite arr_length in *. done.
Qed.
Next Obligation. intros. by eexists. Qed.

Lemma vec_encode_Some (v : bytes) p :
  encode v = Some p <->
  Z.of_nat (length v) < 2 ^ 32 /\ p = be_bytes 4 (Z.of_nat (length v)) ++ v.
Proof.
  unfold encode, vec_encode. destruct (uint_try 32 _) as [len|] eqn:E.
  - apply uint_try_Some in E. pose proof (uint_range len). cbn. rewrite E in *.
    naive_solver lia.
  - apply uint_try_None in E. naive_solver lia.
Qed.

#[export] Program Instance vec_codec : Codec bytes :=
  {| valid := fun v => Z.of_nat (length v) < 2 ^ 32 |}.
Next Obligation.
  intros d x d'. unfold decode_from, vec_decode, Decoder_bytes, encode, vec_encode.
  rewrite dec_bind_Ok. setoid_rewrite (codec_spec (A:=u32)).
  setoid_rewrite take_spec. split.
  - intros (len & d1 & (_ & Hr) & Hl & Hu & ->). pose proof (uint_range len).
    split; [lia|]. rewrite (proj2 (uint_try_Some 32 _ len)) by lia.
    apply reads_app. exists d1. split; [done|]. apply reads_Some. by rewrite Hl.
  - intros (Hl & Hr).
    destruct (uint_try 32 _) as [len|] eqn:E; [|by destruct Hr as (? & ? & _)].
    apply uint_try_Some in E. apply reads_app in Hr as (d1 & H1 & (H2 & ->)%reads_Some).
    exists len, d1. rewrite E, Nat2Z.id. done.
Qed.
Next Obligation. intros v Hv. eexists. by apply vec_encode_Some. Qed.

(** Sequences of valid records, of a length known to the reader. *)
Section seq_codec.
Context {A : Type} {EA : CanonicalEncode A} {DA : CanonicalDecode A} {CA : Codec A}.

Lemma decode_seq_spec n d (xs : list A) d' :
  decode_seq n d = Ok (xs, d') <->
  (length xs = n /\ Forall (valid A) xs) /\ reads (encode_seq xs) d d'.
Proof.
  revert d xs d'. induction n as [|n IH]; intros d xs d'; cbn [decode_seq].
  - rewrite dec_ret_Ok. split.
    + intros [-> ->]. by rewrite reads_nil.
    + intros [[->%length_zero_iff_nil _] Hr]. by rewrite reads_nil in Hr.
  - rewrite dec_bind_Ok. split.
    + intros (x & d1 & [Hv Hr]%codec_spec
              & (ys & d2 & [[<- Hvs] Hrs]%IH & [-> ->]%dec_ret_Ok)%dec_bind_Ok).
      split; [by split; [|constructor]|]. cbn. apply reads_app. eauto.
    + intros ((Hl & Hv) & Hr). destruct xs as [|x xs]; [done|].
      cbn in Hr. apply reads_app in Hr as (d1 & H1 & H2).
      apply Forall_cons in Hv as [Hx Hv]. injection Hl as Hl.
      exists x, d1. split; [by apply codec_spec|].
      apply dec_bind_Ok. exists xs, d'. split; [by apply IH|done].
Qed.

Lemma encode_seq_total (xs : list A) :
  Forall (valid A) xs -> exists p, encode_seq xs = Some p.
Proof.
  induction 1 as [|x xs Hx _ [q Hq]]; cbn; [by eexists|].
  destruct (codec_total x Hx) as [p Hp]. rewrite Hp, Hq. by eexists.
Qed.
End seq_codec.

#[export] Program Instance option_codec {A} {EA : CanonicalEncode A} {DA : CanonicalDecode A}
    {CA : Codec A} : Codec (option A) :=
  {| valid := fun o => match o with Some x => valid A x | None => True end |}.
Next Obligation.
  intros A EA DA CA d x d'. unfold decode_from, option_decode, encode, option_encode.
  rewrite dec_bind_Ok. setoid_rewrite (codec_spec (A:=u8)). split.
  - intros (tag & d1 & (_ & Hr) & H).
    destruct (Z.eqb_spec (uval tag) 0) as [H0|H0].
    { apply dec_ret_Ok in H as [-> ->]. split; [done|].
      by replace (uint_wrap 8 0) with tag by by apply uint_eq. }
    destruct (Z.eqb_spec (uval tag) 1) as [H1|H1]; [|done].
    apply dec_bind_Ok in H as (v & d2 & (Hv & Hs)%codec_spec & [-> ->]%dec_ret_Ok).
    split; [done|]. apply reads_app. exists d1. split; [|done].
    by replace (uint_wrap 8 1) with tag by by apply uint_eq.
  - intros (Hv & Hr). destruct x as [v|].
    + apply reads_app in Hr as (d1 & H1 & H2). exists (uint_wrap 8 1), d1.
      split; [done|]. cbn. apply dec_bind_Ok. exists v, d'. by rewrite codec_spec.
    + by exists (uint_wrap 8 0), d'.
Qed.
Next Obligation.
  intros A EA DA CA [v|] Hv; [|by eexists]. destruct (codec_total v Hv) as [p Hp].
  unfold encode, option_encode. rewrite Hp. by eexists.
Qed.

(** ** Automation for record codecs *)

(** Split a successful reader program into its reads; rebuild one from them. *)
Ltac dec_fold :=
  change Decoder_u8 with (@decode_from u8 u8_decode) in *;
  change Decoder_u16 with (@decode_from u16 u16_decode) in *;
  change Decoder_u32 with (@decode_from u32 u32_decode) in *;
  change Decoder_u64 with (@decode_from u64 u64_decode) in *;
  change Decoder_bytes with (@decode_from bytes vec_decode) in *;
  repeat match goal with
  | H : context [Decoder_fixed ?n] |- _ =>
      change (Decoder_fixed n) with (@decode_from (array n) (array_decode n)) in H
  | |- context [Decoder_fixed ?n] =>
      change (Decoder_fixed n) with (@decode_from (array n) (array_decode n))
  end.

Ltac inv_dec :=
  repeat match goal with
  | H : @mbind dec _ _ _ _ _ _ = Ok _ |- _ =>
      let a := fresh "v" in let d := fresh "d" in let E := fresh "Hd" in
      apply dec_bind_Ok in H as (a & d & E & H)
  | H : @mret dec _ _ _ _ = Ok _ |- _ =>
      let H1 := fresh in let H2 := fresh in
      apply dec_ret_Ok in H as [H1 H2]; try subst
  | H : lift _ _ = Ok _ |- _ =>
      let H1 := fresh "Hl" in let H2 := fresh in
      apply lift_Ok in H as [H1 H2]; try subst
  | H : decode_from _ = Ok _ |- _ =>
      let V := fresh "Hv" in let R := fresh "Hr" in
      apply codec_spec in H as [V R]
  | H : decode_seq _ _ = Ok _ |- _ =>
      let N := fresh "Hn" in let V := fresh "Hv" in let R := fresh "Hr" in
      apply decode_seq_spec in H as [[N V] R]
  | u : unit |- _ => destruct u
  end.

Ltac solve_reads :=
  repeat match goal with
  | R : reads ?e ?d ?d1 |- reads (?e +++ _) ?d _ => apply reads_app; exists d1; split; [exact R|]
  end; try eassumption.

Ltac inv_reads :=
  repeat match goal with
  | H : reads (_ +++ _) _ _ |- _ =>
      let d := fresh "d" in let R := fresh "R" in apply reads_app in H as (d & R & H)
  end.

(** Run a reader program forwards, given what each of its reads consumes. *)
Ltac dec_step :=
  lazymatch goal with
  | |- @mbind dec _ _ _ _ _ _ = Ok _ => apply dec_bind_Ok; eexists _, _; split
  | |- @mret dec _ _ _ _ = Ok _ => apply dec_ret_Ok
  | |- lift _ _ = Ok _ => apply lift_Ok; split; [|reflexivity]
  | |- fail_if _ _ = Ok _ => apply (fail_if_Ok _ _ tt)
  | |- decode_from _ = Ok _ => apply codec_spec; split; [|eassumption]
  | |- decode_seq _ _ = Ok _ => apply decode_seq_spec; split; [|eassumption]
  end.
Ltac dec_build := repeat dec_step.
