(* ===== verification/Params.v ===== *)
(** Protocol constants and the exact USDT/USDD amount conversions:
    [crates/usdd-core/src/lib.rs]. *)

From S2P Require Import Prelude.

Local Open Scope Z_scope.

Definition ENCODING_SCHEMA : u16 := uint_wrap 16 2.
Definition DRIVECHAIN_SLOT : u8 := uint_wrap 8 24.
Definition USDT_SCALE : u64 := uint_wrap 64 1000000.
Definition USDD_SCALE : u64 := uint_wrap 64 100000000.
Definition USDD_UNITS_PER_USDT_MICRO : u64 := uint_wrap 64 100.

Definition SP1_VERSION_MAJOR : u16 := uint_wrap 16 6.
Definition SP1_VERSION_MINOR : u16 := uint_wrap 16 3.
Definition SP1_VERSION_PATCH : u16 := uint_wrap 16 1.
Definition SP1_GIT_COMMIT : array 20 :=
  Array (n:=20) [x82; x52; xc2; x90; x5c; xe3; x29; x64; xdf; x68;
                 x24; x81; x17; x01; x5c; x61; xeb; xb8; x54; xdb] eq_refl.
Definition SP1_COMPRESSED_CIRCUIT_VERSION : u16 := uint_wrap 16 1.
Definition SP1_COMPRESSED_CODEC_VERSION : u16 := uint_wrap 16 1.
Definition SHA256_DIGEST_TAG : u8 := uint_wrap 8 1.

Definition MAX_ETHEREUM_FINALITY_SLOT_GAP : u64 := uint_wrap 64 4096.
Definition MAX_FINALIZED_TO_BMM_MTP_AGE_SECONDS : u64 := uint_wrap 64 (6 * 60 * 60).
Definition MINIMUM_BITCOIN_CONFIRMATIONS : u32 := uint_wrap 32 100.
Definition MAX_BURN_APPENDS_PER_STATE_TRANSITION : nat := 64.

Definition ELEMENTS_MAX_EXPLICIT_OUTPUT_TOTAL_BASE : u64 :=
  uint_wrap 64 (21000000 * USDD_SCALE).
Definition MINT_TRANSACTION_EXPLICIT_HEADROOM_BASE : u64 :=
  uint_wrap 64 (1000000 * USDD_SCALE).
Definition MAX_MINT_BATCH_USDD_BASE : u64 :=
  uint_wrap 64 (ELEMENTS_MAX_EXPLICIT_OUTPUT_TOTAL_BASE
                - MINT_TRANSACTION_EXPLICIT_HEADROOM_BASE).
Definition MAX_MINT_BATCH_USDT_MICRO : u64 :=
  uint_wrap 64 (MAX_MINT_BATCH_USDD_BASE / USDD_UNITS_PER_USDT_MICRO).
Definition MAX_DEPOSIT_AMOUNT_USDT_MICRO : u64 := MAX_MINT_BATCH_USDT_MICRO.
Definition MAX_BURN_AMOUNT_USDD_BASE : u64 := MAX_MINT_BATCH_USDD_BASE.
Definition MAX_BURN_AMOUNT_USDT_MICRO : u64 := MAX_MINT_BATCH_USDT_MICRO.
Definition ACTIVE_LIABILITY_CAP_USDT_MICRO : u64 := uint_wrap 64 1000000000000000.

Definition usdt_micro_to_usdd_base (amount : u64) : option u64 :=
  checked_mul amount USDD_UNITS_PER_USDT_MICRO.

Definition usdd_base_to_usdt_micro (amount : u64) : option u64 :=
  if negb (amount mod USDD_UNITS_PER_USDT_MICRO =? 0) then None
  else Some (uint_wrap 64 (amount / USDD_UNITS_PER_USDT_MICRO)).

(** The numeric values, for [lia]. *)
Lemma units_val : uval USDD_UNITS_PER_USDT_MICRO = 100. Proof. done. Qed.
Lemma max_batch_usdd_val : uval MAX_MINT_BATCH_USDD_BASE = 2000000000000000.
Proof. done. Qed.
Lemma max_batch_usdt_val : uval MAX_MINT_BATCH_USDT_MICRO = 20000000000000.
Proof. done. Qed.
Lemma max_deposit_val : uval MAX_DEPOSIT_AMOUNT_USDT_MICRO = 20000000000000.
Proof. done. Qed.
Lemma max_burn_base_val : uval MAX_BURN_AMOUNT_USDD_BASE = 2000000000000000.
Proof. done. Qed.
Lemma max_burn_micro_val : uval MAX_BURN_AMOUNT_USDT_MICRO = 20000000000000.
Proof. done. Qed.
Lemma slot_gap_val : uval MAX_ETHEREUM_FINALITY_SLOT_GAP = 4096. Proof. done. Qed.

Lemma micro_to_base_Some (m b : u64) :
  usdt_micro_to_usdd_base m = Some b <-> uval b = 100 * m.
Proof.
  unfold usdt_micro_to_usdd_base. rewrite checked_mul_Some, units_val. lia.
Qed.

Lemma micro_to_base_None (m : u64) :
  usdt_micro_to_usdd_base m = None <-> 2 ^ 64 <= 100 * m.
Proof.
  unfold usdt_micro_to_usdd_base, checked_mul. rewrite uint_try_None, units_val.
  pose proof (uint_range m). lia.
Qed.

Lemma base_to_micro_Some (b m : u64) :
  usdd_base_to_usdt_micro b = Some m <-> uval b = 100 * m.
Proof.
  unfold usdd_base_to_usdt_micro. rewrite units_val.
  pose proof (uint_range b). pose proof (uint_range m).
  pose proof (Z.div_mod b 100 ltac:(lia)).
  destruct (Z.eqb_spec (b mod 100) 0) as [Hz|Hz]; cbn [negb].
  - rewrite (inj_iff Some), uint_eq_iff, uval_wrap_small by lia. lia.
  - split; [done|]. intros H2. exfalso. apply Hz. rewrite H2, Z.mul_comm.
    by apply Z.mod_mul.
Qed.

(** The two conversions are inverse bijections between the convertible amounts. *)
Lemma conversion_inverse (m b : u64) :
  usdt_micro_to_usdd_base m = Some b <-> usdd_base_to_usdt_micro b = Some m.
Proof. by rewrite micro_to_base_Some, base_to_micro_Some. Qed.

(** The USDT-to-USDD conversion multiplies by exactly 100 and fails exactly
    on overflow of 64 bits; the reverse conversion succeeds exactly on the
    multiples of 100; the two are inverse to each other, and no deposit or
    burn within the protocol caps ever fails to convert. *)
Theorem conversion_exact (m b : u64) :
  (usdt_micro_to_usdd_base m = Some b <-> uval b = 100 * m) /\
  (usdt_micro_to_usdd_base m = None <-> 2 ^ 64 <= 100 * m) /\
  (usdd_base_to_usdt_micro b = None <-> b mod 100 <> 0) /\
  (usdt_micro_to_usdd_base m = Some b <-> usdd_base_to_usdt_micro b = Some m) /\
  (m <= MAX_DEPOSIT_AMOUNT_USDT_MICRO -> exists c, usdt_micro_to_usdd_base m = Some c /\
     c <= MAX_MINT_BATCH_USDD_BASE).
Proof.
  split; [apply micro_to_base_Some|]. split; [apply micro_to_base_None|].
  split; [|split; [apply conversion_inverse|]].
  - unfold usdd_base_to_usdt_micro. rewrite units_val.
    destruct (Z.eqb_spec (b mod 100) 0); cbn; naive_solver.
  - rewrite max_deposit_val, max_batch_usdd_val. intros Hm.
    destruct (usdt_micro_to_usdd_base m) as [c|] eqn:E.
    + apply micro_to_base_Some in E. exists c. split; [done|lia].
    + apply micro_to_base_None in E. lia.
Qed.
