(* ===== verification/Hashing.v ===== *)
(** Hashing and hexadecimal: [crates/usdd-core/src/hash.rs].

    SHA-256 is the third-party crate [sha2]: the parameter [Sha256] of every
    definition that hashes.  [domain_hash] is its value on an unambiguous
    preimage, which [domain_preimage_inj] shows determines the domain and the
    payload.  A Rust [str] is the list of its UTF-8 bytes. *)

From S2P Require Import Prelude Encoding Params.

Local Open Scope Z_scope.

(** The digest function of the [sha2] crate. *)
Class Sha256 : Type := sha256 : bytes -> Hash32.

(** Two inputs that hash alike: what a second preimage hands to its reader. *)
Definition collision {H : Sha256} (x y : bytes) : Prop := x <> y /\ sha256 x = sha256 y.

Definition str (s : string) : bytes := String.list_byte_of_string s.

(** ** Hexadecimal *)

Inductive HexError : Type :=
| OddLength
| InvalidDigit (index : nat)
| WrongLength (expected actual : nat).

Definition hex_digit (value : byte) : option Z :=
  let v := byte_val value in
  if (byte_val "0" <=? v) && (v <=? byte_val "9") then Some (v - byte_val "0")
  else if (byte_val "a" <=? v) && (v <=? byte_val "f") then Some (v - byte_val "a" + 10)
  else if (byte_val "A" <=? v) && (v <=? byte_val "F") then Some (v - byte_val "A" + 10)
  else None.

(** [value.strip_prefix("0x").unwrap_or(value)] *)
Definition strip_0x (value : bytes) : bytes :=
  match value with
  | "0"%byte :: "x"%byte :: rest => rest
  | _ => value
  end.

(** The loop over [bytes.chunks_exact(2).enumerate()]; a final odd byte is
    not a chunk. *)
Fixpoint decode_hex_pairs (i : nat) (value : bytes) : res HexError bytes :=
  match value with
  | a :: b :: rest =>
      high ← ok_or (hex_digit a) (InvalidDigit (i * 2));
      low ← ok_or (hex_digit b) (InvalidDigit (i * 2 + 1));
      output ← decode_hex_pairs (S i) rest;
      Ok (byte_of (Z.lor (Z.shiftl high 4) low) :: output)
  | _ => Ok []
  end.

Definition decode_hex (value : bytes) : res HexError bytes :=
  let value := strip_0x value in
  fail_if (negb (Z.of_nat (length value) mod 2 =? 0)) OddLength;;
  decode_hex_pairs 0 value.

Definition HEX : bytes := str "0123456789abcdef".

Fixpoint encode_hex (value : bytes) : bytes :=
  match value with
  | [] => []
  | b :: rest =>
      nth (Z.to_nat (Z.shiftr (byte_val b) 4)) HEX x00
      :: nth (Z.to_nat (Z.land (byte_val b) 15)) HEX x00
      :: encode_hex rest
  end.

Definition Hash32_from_str (value : bytes) : res HexError Hash32 :=
  bs ← decode_hex value;
  fail_if (negb (length bs =? 32)%nat) (WrongLength 32 (length bs));;
  expect (array_try 32 bs).

Definition Hash32_to_hex (h : Hash32) : bytes := encode_hex h.

(** ** Domain-separated hashing *)

Inductive Domain : Type :=
| MerkleLeaf
| MerkleEmptyLeaf
| MerkleNode
| Manifest
| ControllerConfig
| OutboundVerifierConfig
| EthereumStateClaimDomain
| ElementsEventClaimDomain
| DepositPublicOutputDomain.

#[export] Instance Domain_eq_dec : EqDecision Domain.
Proof. solve_decision. Defined.

Definition Domain_as_str (d : Domain) : bytes :=
  match d with
  | MerkleLeaf => str "USDD/1/merkle-leaf"
  | MerkleEmptyLeaf => str "USDD/1/merkle-empty-leaf"
  | MerkleNode => str "USDD/1/merkle-node"
  | Manifest => str "USDD/1/manifest"
  | ControllerConfig => str "USDD/1/controller-config"
  | OutboundVerifierConfig => str "USDD/1/outbound-verifier-config"
  | EthereumStateClaimDomain => str "USDD/1/claim/ethereum-state"
  | ElementsEventClaimDomain => str "USDD/1/claim/elements-event"
  | DepositPublicOutputDomain => str "USDD/1/public/deposit"
  end.

(** What [domain_hash] feeds to the hasher; [None] where an [expect] fails. *)
Definition domain_preimage (domain : Domain) (payload : bytes) : option bytes :=
  let domain_bytes := Domain_as_str domain in
  domain_len ← uint_try 16 (Z.of_nat (length domain_bytes));
  payload_len ← uint_try 32 (Z.of_nat (length payload));
  Some (str "USDD" ++ be_bytes 2 ENCODING_SCHEMA ++ be_bytes 2 (uval domain_len)
        ++ domain_bytes ++ be_bytes 4 (uval payload_len) ++ payload).

Definition hash_bytes {H : Sha256} (bs : bytes) : Hash32 := sha256 bs.

Definition domain_hash {H : Sha256} (domain : Domain) (payload : bytes) : option Hash32 :=
  preimage ← domain_preimage domain payload; Some (sha256 preimage).

Definition newline : bytes := [x0a].
Definition DOMAIN_SEPARATOR_TABLE_V1 : bytes :=
  str "USDD/1/merkle-leaf" ++ newline ++
  str "USDD/1/merkle-empty-leaf" ++ newline ++
  str "USDD/1/merkle-node" ++ newline ++
  str "USDD/1/manifest" ++ newline ++
  str "USDD/1/controller-config" ++ newline ++
  str "USDD/1/outbound-verifier-config" ++ newline ++
  str "USDD/1/claim/ethereum-state" ++ newline ++
  str "USDD/1/claim/elements-event" ++ newline ++
  str "USDD/1/public/deposit" ++ newline ++
  str "keccak256:USDD_VAULT_ID_V1" ++ newline ++
  str "keccak256:USDD_DEPOSIT_ID_V1" ++ newline ++
  str "keccak256:USDD_ELEMENTS_STATE_V1" ++ newline ++
  str "keccak256:USDD_ELEMENTS_STATEMENT_V1" ++ newline ++
  str "keccak256:USDD_BURN_LEAF_V1" ++ newline ++
  str "sha256:USDD_BURN_ID_V1" ++ newline.

Definition domain_separator_table_hash {H : Sha256} : Hash32 :=
  hash_bytes DOMAIN_SEPARATOR_TABLE_V1.

(** ** Hexadecimal round trips *)

(** The lower-case form of an ASCII letter. *)
Definition to_lower (b : byte) : byte :=
  if (byte_val "A" <=? byte_val b) && (byte_val b <=? byte_val "F")
  then byte_of (byte_val b + 32) else b.

Definition nibble (n : Z) : byte := nth (Z.to_nat n) HEX x00.

(** Both directions of the digit table, by evaluation on all 256 bytes. *)
Lemma hex_digit_spec b n : hex_digit b = Some n <-> 0 <= n < 16 /\ to_lower b = nibble n.
Proof.
  split.
  - destruct b; vm_compute; intros [=]; subst; (split; [split|]; done).
  - intros [Hn H].
    destruct (Z_of_nat_complete n) as [k ->]; [lia|].
    assert (k < 16)%nat as Hk by lia. clear Hn. revert H.
    do 16 (destruct k as [|k]; [destruct b; vm_compute; congruence|]). lia.
Qed.

Lemma nibbles_join h l :
  0 <= h < 16 -> 0 <= l < 16 -> Z.lor (Z.shiftl h 4) l = 16 * h + l.
Proof.
  intros Hh Hl. rewrite Z.shiftl_mul_pow2 by lia. change (2 ^ 4) with 16.
  pose proof (Z.add_lor_land (h * 16) l) as Hsum.
  enough (Z.land (h * 16) l = 0) by lia. clear Hsum. apply Z.bits_inj'. intros n Hn. rewrite Z.land_spec, Z.bits_0.
  change 16 with (2 ^ 4). destruct (Z.ltb_spec n 4).
  - rewrite Z.mul_pow2_bits_low by lia. done.
  - apply andb_false_intro2. apply Z.bits_above_log2; [lia|].
    destruct (Z.eq_dec l 0) as [->|]; [cbn; lia|].
    apply Z.lt_le_trans with 4; [|lia]. apply Z.log2_lt_pow2; lia.
Qed.

Lemma byte_nibbles b h l :
  0 <= h < 16 -> 0 <= l < 16 ->
  byte_of (Z.lor (Z.shiftl h 4) l) = b <->
  h = Z.shiftr (byte_val b) 4 /\ l = Z.land (byte_val b) 15.
Proof.
  intros Hh Hl. rewrite nibbles_join by done.
  change 15 with (Z.ones 4). rewrite Z.land_ones, Z.shiftr_div_pow2 by lia.
  change (2 ^ 4) with 16. pose proof (byte_val_range b).
  pose proof (Z.div_mod (byte_val b) 16 ltac:(lia)).
  pose proof (Z.mod_pos_bound (byte_val b) 16 ltac:(lia)).
  split.
  - intros <-. rewrite byte_val_of in *. rewrite !(Z.mod_small (16 * h + l)) in * by lia.
    lia.
  - intros [-> ->]. apply byte_val_inj. rewrite byte_val_of, Z.mod_small by lia. lia.
Qed.

Lemma decode_hex_pairs_Ok i v bs :
  (length v mod 2 = 0)%nat ->
  decode_hex_pairs i v = Ok bs <-> map to_lower v = encode_hex bs.
Proof.
  revert i bs. induction v as [v IH] using (induction_ltof1 _ (@length byte)). unfold ltof in IH.
  intros i bs. destruct v as [|a [|b v]]; intros Hm.
  - cbn. destruct bs; naive_solver.
  - done.
  - assert (length v mod 2 = 0)%nat as Hv.
    { change (length (a :: b :: v)) with (S (S (length v))) in Hm.
      replace (S (S (length v))) with (length v + 1 * 2)%nat in Hm by lia.
      by rewrite Nat.Div0.mod_add in Hm. }
    specialize (IH v ltac:(cbn; lia) (S i)). cbn [decode_hex_pairs map]. split.
    + intros Hd. inv_ok. apply IH in Hx1; [|done].
      apply hex_digit_spec in Hx as [Ha Ea]. apply hex_digit_spec in Hx0 as [Hb Eb].
      cbn [encode_hex]. rewrite Hx1, Ea, Eb.
      destruct (proj1 (byte_nibbles _ x x0 Ha Hb) eq_refl) as [<- <-]. done.
    + destruct bs as [|c bs]; [done|]. cbn [encode_hex]. intros [= Ea Eb Er].
      pose proof (byte_val_range c). 
      assert (0 <= Z.shiftr (byte_val c) 4 < 16) as Hh.
      { rewrite Z.shiftr_div_pow2 by lia. change (2 ^ 4) with 16.
        split; [apply Z.div_pos|apply Z.div_lt_upper_bound]; lia. }
      assert (0 <= Z.land (byte_val c) 15 < 16) as Hl.
      { change 15 with (Z.ones 4). rewrite Z.land_ones by lia.
        apply Z.mod_pos_bound. lia. }
      rewrite (proj2 (hex_digit_spec a _) (conj Hh Ea)), (proj2 (hex_digit_spec b _) (conj Hl Eb)).
      cbn. rewrite (proj2 (IH bs Hv) Er). cbn. do 2 f_equal.
      by apply byte_nibbles.
Qed.

Lemma encode_hex_length bs : length (encode_hex bs) = (2 * length bs)%nat.
Proof. induction bs; cbn; lia. Qed.

Lemma even_Z_nat n : (Z.of_nat n mod 2 =? 0) = (n mod 2 =? 0)%nat.
Proof.
  change 2 with (Z.of_nat 2). rewrite <- Nat2Z.inj_mod.
  destruct (Nat.eqb_spec (n mod 2) 0); [by rewrite e|]. apply Z.eqb_neq. lia.
Qed.

(** The digits of an encoding never contain the [0x] marker. *)
Lemma encode_hex_strip bs : strip_0x (encode_hex bs) = encode_hex bs.
Proof.
  destruct bs as [|b bs]; [done|]. cbn [encode_hex].
  destruct b; vm_compute (nth _ _ _); reflexivity.
Qed.

Lemma encode_hex_lower bs : map to_lower (encode_hex bs) = encode_hex bs.
Proof.
  induction bs as [|b bs IH]; [done|]. cbn [encode_hex map]. rewrite IH.
  f_equal; [|f_equal]; destruct b; done.
Qed.

Lemma decode_hex_Ok v bs :
  decode_hex v = Ok bs <-> map to_lower (strip_0x v) = encode_hex bs.
Proof.
  unfold decode_hex. rewrite even_Z_nat. rewrite res_bind_Ok.
  setoid_rewrite fail_if_Ok. split.
  - intros ([] & He%negb_false_iff%Nat.eqb_eq & Hd). by apply decode_hex_pairs_Ok in Hd.
  - intros H. assert (length (strip_0x v) mod 2 = 0)%nat as He.
    { rewrite <- (length_map to_lower), H, encode_hex_length, Nat.mul_comm.
      apply Nat.Div0.mod_mul. }
    exists tt. rewrite He. split; [done|]. by apply decode_hex_pairs_Ok.
Qed.

Lemma encode_hex_inj a b : encode_hex a = encode_hex b -> a = b.
Proof.
  intros H. assert (decode_hex (encode_hex a) = Ok b) as Hb.
  { apply decode_hex_Ok. by rewrite encode_hex_strip, encode_hex_lower. }
  assert (decode_hex (encode_hex a) = Ok a) as Ha.
  { apply decode_hex_Ok. by rewrite encode_hex_strip, encode_hex_lower. }
  congruence.
Qed.

Lemma Hash32_from_str_Ok v (h : Hash32) :
  Hash32_from_str v = Ok h <-> map to_lower (strip_0x v) = Hash32_to_hex h.
Proof.
  unfold Hash32_from_str, Hash32_to_hex. split.
  - intros Hf. inv_ok. apply array_try_Some in Hf as <-. by apply decode_hex_Ok.
  - intros Hv%decode_hex_Ok. rewrite Hv. cbn. rewrite (arr_length h). cbn.
    by rewrite (proj2 (array_try_Some 32 h h)).
Qed.

(** ** Domain separation *)

Lemma domain_preimage_total d p :
  Z.of_nat (length p) < 2 ^ 32 ->
  domain_preimage d p =
    Some (str "USDD" ++ be_bytes 2 ENCODING_SCHEMA ++ be_bytes 2 (Z.of_nat (length (Domain_as_str d)))
          ++ Domain_as_str d ++ be_bytes 4 (Z.of_nat (length p)) ++ p).
Proof.
  intros Hp. unfold domain_preimage.
  destruct (uint_try 16 _) as [n|] eqn:En.
  2: { apply uint_try_None in En. exfalso. apply En. destruct d; vm_compute; split; done. }
  destruct (uint_try 32 _) as [m|] eqn:Em.
  2: { apply uint_try_None in Em. lia. }
  apply uint_try_Some in En, Em. unfold mbind. cbn [option_bind]. by rewrite En, Em.
Qed.

Lemma domain_preimage_Some d p x :
  domain_preimage d p = Some x -> Z.of_nat (length p) < 2 ^ 32.
Proof.
  unfold domain_preimage. destruct (uint_try 16 _); [|done]. cbn.
  destruct (uint_try 32 _) as [m|] eqn:Em; [|done].
  apply uint_try_Some in Em. pose proof (uint_range m). intros _. lia.
Qed.

(** Neither the domain nor the payload of a preimage is ambiguous. *)
Lemma domain_preimage_inj d d' p p' x :
  domain_preimage d p = Some x -> domain_preimage d' p' = Some x -> d = d' /\ p = p'.
Proof.
  intros H H'. pose proof (domain_preimage_Some _ _ _ H) as Hl.
  pose proof (domain_preimage_Some _ _ _ H') as Hl'.
  rewrite domain_preimage_total in H, H' by done.
  rewrite <- H' in H. apply (inj Some), app_inv_head, app_inv_head in H.
  assert (d = d') as <-.
  { destruct d, d'; try done; exfalso; clear -H; vm_compute in H; discriminate H. }
  split; [done|]. do 2 apply app_inv_head in H.
  apply app_eq_length_l in H as [_ H]; [done|]. by rewrite !length_be_bytes.
Qed.

Section hashing.
Context {H : Sha256}.

Lemma domain_hash_Some d p h :
  domain_hash d p = Some h <-> exists x, domain_preimage d p = Some x /\ sha256 x = h.
Proof.
  unfold domain_hash. destruct (domain_preimage d p); cbn; naive_solver.
Qed.

Lemma domain_hash_total d p :
  Z.of_nat (length p) < 2 ^ 32 -> exists h, domain_hash d p = Some h.
Proof. intros Hp. unfold domain_hash. rewrite domain_preimage_total by done. by eexists. Qed.

(** Equal domain hashes of different inputs are a collision of their preimages. *)
Lemma domain_hash_collision d d' p p' h :
  domain_hash d p = Some h -> domain_hash d' p' = Some h ->
  exists x y, domain_preimage d p = Some x /\ domain_preimage d' p' = Some y /\
    ((d = d' /\ p = p') \/ collision x y).
Proof.
  intros (x & Hx & <-)%domain_hash_Some (y & Hy & Hh)%domain_hash_Some.
  exists x, y. split; [done|]. split; [done|].
  destruct (decide (x = y)) as [<-|Hn]; [left; by eapply domain_preimage_inj|by right].
Qed.
End hashing.

Lemma toy_ok bs : (length (take 32 (bs ++ repeat x00 32)) =? 32)%nat = true.
Proof. apply Nat.eqb_eq. rewrite length_take, length_app, repeat_length. lia. Qed.

(** A concrete instance of the parameter, for evaluations: the first 32 bytes. *)
Definition toy_sha256 : Sha256 := fun bs => Array (take 32 (bs ++ repeat x00 32)) (toy_ok bs).

(** [decode_hex] accepts exactly the strings whose digits, after an optional
    [0x] and in either letter case, are [encode_hex] of the result; so encoding
    then decoding (with or without the prefix) is the identity, and the same
    holds for parsing and printing a [Hash32]. *)
Theorem hex_roundtrip :
  (forall v bs, decode_hex v = Ok bs <-> map to_lower (strip_0x v) = encode_hex bs) /\
  (forall bs, decode_hex (encode_hex bs) = Ok bs /\
              decode_hex (str "0x" ++ encode_hex bs) = Ok bs) /\
  (forall v h, Hash32_from_str v = Ok h <-> map to_lower (strip_0x v) = Hash32_to_hex h) /\
  (forall h, Hash32_from_str (Hash32_to_hex h) = Ok h).
Proof.
  split; [apply decode_hex_Ok|]. split; [|split; [apply Hash32_from_str_Ok|]].
  - intros bs. rewrite !decode_hex_Ok, encode_hex_strip. cbn.
    by rewrite encode_hex_lower.
  - intros h. apply Hash32_from_str_Ok. unfold Hash32_to_hex.
    by rewrite encode_hex_strip, encode_hex_lower.
Qed.
