(* ===== verification/Text.v ===== *)
(** Text of the Rust standard library.

    The TSV readers and the command line work on [&str].  A string is the list of
    its UTF-8 bytes; the separators the program splits at are ASCII, so splitting
    is bytewise.  Each operation of [str] or [u64] the program uses is a function
    here, with the lemma that says what it accepts. *)

From S2P Require Import Prelude Encoding Params Hashing.

Local Open Scope Z_scope.

Definition newline_byte : byte := x0a.
Definition tab : byte := x09.

(** ** Splitting *)

(** [value.split(sep)]: at every separator, so never empty. *)
Fixpoint split_on (sep : byte) (value : bytes) : list bytes :=
  match value with
  | [] => [[]]
  | b :: value =>
      if decide (b = sep) then [] :: split_on sep value
      else match split_on sep value with
           | [] => [[b]]
           | field :: fields => (b :: field) :: fields
           end
  end.

(** [value.split_once(sep)]: at the first separator. *)
Fixpoint split_once (sep : byte) (value : bytes) : option (bytes * bytes) :=
  match value with
  | [] => None
  | b :: value =>
      if decide (b = sep) then Some ([], value)
      else '(x, y) ← split_once sep value; Some (b :: x, y)
  end.

(** [value.strip_prefix(prefix)] *)
Fixpoint strip_prefix (prefix value : bytes) : option bytes :=
  match prefix, value with
  | [], _ => Some value
  | p :: prefix, b :: value => if decide (p = b) then strip_prefix prefix value else None
  | _ :: _, [] => None
  end.

(** One carriage return before a line feed belongs to the line ending. *)
Fixpoint strip_cr (line : bytes) : bytes :=
  match line with
  | [] => []
  | [b] => if decide (b = x0d) then [] else [b]
  | b :: line => b :: strip_cr line
  end.

(** [value.lines()]: the last line ending is optional, and a last line without
    one keeps a final carriage return. *)
Fixpoint lines_from (line value : bytes) : list bytes :=
  match value with
  | [] => match line with [] => [] | _ => [rev line] end
  | b :: value =>
      if decide (b = newline_byte) then strip_cr (rev line) :: lines_from [] value
      else lines_from (b :: line) value
  end.
Definition lines (value : bytes) : list bytes := lines_from [] value.

(** [line.trim().is_empty()]: every character has the Unicode property
    White_Space, in UTF-8. *)
Fixpoint is_blank (line : bytes) : bool :=
  match line with
  | [] => true
  | (x09 | x0a | x0b | x0c | x0d | x20) :: line => is_blank line
  | xc2 :: (x85 | xa0) :: line => is_blank line
  | xe1 :: x9a :: x80 :: line => is_blank line
  | xe2 :: x80 :: (x80 | x81 | x82 | x83 | x84 | x85 | x86 | x87 | x88 | x89 | x8a | xa8 | xa9 | xaf) :: line => is_blank line
  | xe2 :: x81 :: x9f :: line => is_blank line
  | xe3 :: x80 :: x80 :: line => is_blank line
  | _ => false
  end.

(** [line.starts_with(b)] for an ASCII character. *)
Definition starts_with (b : byte) (line : bytes) : bool :=
  match line with
  | c :: _ => bool_decide (c = b)
  | [] => false
  end.

(** [a.eq_ignore_ascii_case(b)] *)
Definition ascii_lower (b : byte) : byte :=
  let v := byte_val b in if (65 <=? v) && (v <=? 90) then byte_of (v + 32) else b.
Definition eq_ignore_ascii_case (a b : bytes) : bool := bool_decide (map ascii_lower a = map ascii_lower b).

(** ** Decimal numbers *)

Definition dec_digit (b : byte) : option Z :=
  let v := byte_val b in if (48 <=? v) && (v <=? 57) then Some (v - 48) else None.

(** The digits of [str::parse::<u64>], with its checked arithmetic. *)
Fixpoint parse_digits (acc : u64) (digits : bytes) : option u64 :=
  match digits with
  | [] => Some acc
  | b :: digits =>
      d ← dec_digit b;
      acc ← checked_mul acc (uint_wrap 64 10);
      acc ← checked_add acc (uint_wrap 64 d);
      parse_digits acc digits
  end.
(** At least one digit, after one optional plus sign. *)
Definition parse_u64 (value : bytes) : option u64 :=
  match value with
  | [] => None
  | x2b :: [] => None
  | x2b :: digits => parse_digits (uint_wrap 64 0) digits
  | _ => parse_digits (uint_wrap 64 0) value
  end.

(** [number.to_string()], by the digits from the last; 39 are enough for 128
    bits ([print_parse] below is for 64). *)
Fixpoint print_digits (fuel : nat) (n : Z) (rest : bytes) : bytes :=
  match fuel with
  | O => rest
  | S fuel =>
      let rest := byte_of (48 + n mod 10) :: rest in
      if n <? 10 then rest else print_digits fuel (n / 10) rest
  end.
Definition print_number (n : Z) : bytes := print_digits 39 n [].

(** [value.parse::<usize>()], for a [usize] of at most 64 bits. *)
Definition parse_usize `{PtrWidth} (value : bytes) : option (uint usize_bits) :=
  n ← parse_u64 value; usize_try (uval n).

(** ** UTF-8

    [String::from_utf8] accepts the well-formed byte sequences of the Unicode
    standard: after a leading byte, the ranges of the bytes that must follow it
    exclude overlong forms, surrogates and everything over U+10FFFF. *)

Definition continuation : Z * Z := (0x80, 0xBF).
Definition utf8_follow (lead : Z) : option (list (Z * Z)) :=
  if lead <=? 0x7F then Some []
  else if (0xC2 <=? lead) && (lead <=? 0xDF) then Some [continuation]
  else if lead =? 0xE0 then Some [(0xA0, 0xBF); continuation]
  else if ((0xE1 <=? lead) && (lead <=? 0xEC)) || ((0xEE <=? lead) && (lead <=? 0xEF)) then Some [continuation; continuation]
  else if lead =? 0xED then Some [(0x80, 0x9F); continuation]
  else if lead =? 0xF0 then Some [(0x90, 0xBF); continuation; continuation]
  else if (0xF1 <=? lead) && (lead <=? 0xF3) then Some [continuation; continuation; continuation]
  else if lead =? 0xF4 then Some [(0x80, 0x8F); continuation; continuation]
  else None.
Fixpoint utf8_from (expected : list (Z * Z)) (value : bytes) : bool :=
  match expected, value with
  | [], [] => true
  | [], b :: value =>
      match utf8_follow (byte_val b) with
      | Some expected => utf8_from expected value
      | None => false
      end
  | (low, high) :: expected, b :: value =>
      (low <=? byte_val b) && (byte_val b <=? high) && utf8_from expected value
  | _ :: _, [] => false
  end.
Definition utf8 (value : bytes) : bool := utf8_from [] value.

(** ** What they accept *)

(** Fields joined by a separator. *)
Fixpoint join (sep : byte) (fields : list bytes) : bytes :=
  match fields with
  | [] => []
  | [field] => field
  | field :: fields => field ++ sep :: join sep fields
  end.

Lemma split_on_nonempty sep value : split_on sep value <> [].
Proof. destruct value as [|b value]; cbn; [done|]. destruct (decide (b = sep)); [done|]. by destruct (split_on sep value). Qed.

Lemma join_cons_cons sep b field fields : join sep ((b :: field) :: fields) = b :: join sep (field :: fields).
Proof. by destruct fields. Qed.

Lemma split_on_join sep value : join sep (split_on sep value) = value /\ Forall (fun field => sep ∉ field) (split_on sep value).
Proof.
  induction value as [|b value [IH Hf]]; cbn [split_on]; [split; [done|constructor; [apply not_elem_of_nil|done]]|].
  destruct (decide (b = sep)) as [->|Hne].
  - split; [|constructor; [apply not_elem_of_nil|done]]. cbn [join]. pose proof (split_on_nonempty sep value).
    destruct (split_on sep value); [done|]. cbn [app]. by rewrite IH.
  - pose proof (split_on_nonempty sep value). destruct (split_on sep value) as [|field fields]; [done|].
    rewrite join_cons_cons, IH. split; [done|]. apply Forall_cons in Hf as [Hx Hf]. constructor; [|done].
    rewrite not_elem_of_cons. naive_solver.
Qed.

Lemma split_on_field sep field : sep ∉ field -> split_on sep field = [field].
Proof.
  induction field as [|b field IH]; [done|]. rewrite not_elem_of_cons. intros [Hb Hf]. cbn [split_on].
  rewrite decide_False by naive_solver. by rewrite IH.
Qed.
Lemma split_on_step sep field value : sep ∉ field -> split_on sep (field ++ sep :: value) = field :: split_on sep value.
Proof.
  induction field as [|b field IH]; cbn [app split_on]; [by rewrite decide_True|]. rewrite not_elem_of_cons. intros [Hb Hf].
  rewrite decide_False by naive_solver. by rewrite IH.
Qed.

(** Splitting inverts joining the fields without a separator. *)
Lemma split_on_iff sep value fields :
  split_on sep value = fields <-> fields <> [] /\ join sep fields = value /\ Forall (fun field => sep ∉ field) fields.
Proof.
  split.
  - intros <-. split; [apply split_on_nonempty|]. apply split_on_join.
  - intros (Hne & <- & Hf). induction Hf as [|field fields Hx Hf IH]; [done|]. destruct fields as [|g fields].
    + by apply split_on_field.
    + cbn [join]. rewrite split_on_step by done. f_equal. by apply IH.
Qed.

Lemma split_once_iff sep value x y : split_once sep value = Some (x, y) <-> value = x ++ sep :: y /\ sep ∉ x.
Proof.
  revert x. induction value as [|b value IH]; intros x; cbn [split_once]; [split; [done|by intros [E _]; destruct x]|].
  destruct (decide (b = sep)) as [->|Hne].
  - split; [intros [= <- <-]; split; [done|apply not_elem_of_nil]|]. intros [E Hx]. destruct x as [|c x]; [by injection E as <-|].
    injection E as <- _. by destruct Hx; left.
  - destruct (split_once sep value) as [[x' y']|] eqn:E.
    + cbn [mbind option_bind]. split.
      * intros [= <- <-]. destruct (proj1 (IH x') eq_refl) as [-> Hx]. split; [done|]. rewrite not_elem_of_cons. naive_solver.
      * intros [Ev Hx]. destruct x as [|c x]; [by injection Ev as ->|]. injection Ev as <- Ev. rewrite not_elem_of_cons in Hx.
        by pose proof (proj2 (IH x) (conj Ev (proj2 Hx))) as [= -> ->].
    + split; [done|]. intros [Ev Hx]. destruct x as [|c x]; [by injection Ev as ->|]. injection Ev as <- Ev.
      rewrite not_elem_of_cons in Hx. by pose proof (proj2 (IH x) (conj Ev (proj2 Hx))).
Qed.

Lemma strip_prefix_iff prefix value rest : strip_prefix prefix value = Some rest <-> value = prefix ++ rest.
Proof.
  revert value. induction prefix as [|p prefix IH]; intros value; cbn [strip_prefix app]; [naive_solver|].
  destruct value as [|b value]; [naive_solver|]. destruct (decide (p = b)) as [->|Hne]; [rewrite IH|]; naive_solver.
Qed.

(** Lines that hold no line feed and do not end in a carriage return are read
    back from their text, with either line ending. *)
Definition plain_line (line : bytes) : Prop := newline_byte ∉ line /\ last line <> Some x0d.

Lemma strip_cr_plain line : last line <> Some x0d -> strip_cr line = line.
Proof.
  induction line as [|b line IH]; [done|]. intros Hl. destruct line as [|c line]; cbn [strip_cr].
  - destruct (decide (b = x0d)) as [->|]; [by destruct Hl|done].
  - f_equal. by apply IH.
Qed.
Lemma strip_cr_crlf line : strip_cr (line ++ [x0d]) = line.
Proof.
  induction line as [|b line IH]; [done|]. cbn [app strip_cr]. rewrite IH. by destruct line.
Qed.

Lemma lines_from_step acc line value : newline_byte ∉ line ->
  lines_from acc (line ++ newline_byte :: value) = strip_cr (rev acc ++ line) :: lines value.
Proof.
  revert acc. induction line as [|b line IH]; intros acc; cbn [app lines_from].
  - rewrite decide_True by done. by rewrite app_nil_r.
  - rewrite not_elem_of_cons. intros [Hb Hl]. rewrite decide_False by naive_solver. rewrite IH by done. cbn [rev].
    by rewrite <- app_assoc.
Qed.
Lemma lines_step line value : plain_line line -> lines (line ++ newline_byte :: value) = line :: lines value.
Proof. intros [Hn Hl]. unfold lines at 1. rewrite lines_from_step by done. cbn [rev app]. by rewrite strip_cr_plain. Qed.
Lemma lines_unlines text : Forall plain_line text -> lines (concat (map (fun line => line ++ [newline_byte]) text)) = text.
Proof.
  induction 1 as [|line text Hl _ IH]; [done|]. cbn [map concat]. rewrite <- app_assoc. cbn [app].
  rewrite lines_step by done. by rewrite IH.
Qed.

(** The value of a string of digits, in any width. *)
Fixpoint digits_val (acc : Z) (digits : bytes) : option Z :=
  match digits with
  | [] => Some acc
  | b :: digits => d ← dec_digit b; digits_val (acc * 10 + d) digits
  end.

Lemma dec_digit_range b d : dec_digit b = Some d -> 0 <= d <= 9.
Proof. unfold dec_digit. destruct (_ && _) eqn:E; [|done]. apply andb_true_iff in E as [E1%Z.leb_le E2%Z.leb_le]. intros [= <-]. lia. Qed.

Lemma digits_val_grows digits : forall acc v, 0 <= acc -> digits_val acc digits = Some v -> acc <= v.
Proof.
  induction digits as [|b digits IH]; intros acc v Ha; cbn [digits_val]; [intros [= ->]; lia|].
  destruct (dec_digit b) as [d|] eqn:Ed; [|done]. apply dec_digit_range in Ed. cbn [mbind option_bind].
  intros E. apply IH in E; lia.
Qed.

Lemma parse_digits_iff digits : forall acc n, parse_digits acc digits = Some n <-> digits_val acc digits = Some (uval n).
Proof.
  induction digits as [|b digits IH]; intros acc n; cbn [parse_digits digits_val].
  - split; [by intros [= ->]|]. intros [= E]. f_equal. by apply uint_eq.
  - destruct (dec_digit b) as [d|] eqn:Ed; [|done]. apply dec_digit_range in Ed. cbn [mbind option_bind].
    pose proof (uint_range acc). pose proof (uint_range n). split.
    + intros E. destruct (checked_mul acc (uint_wrap 64 10)) as [m|] eqn:Em; [|done]. apply checked_mul_Some in Em.
      cbn [mbind option_bind] in E. destruct (checked_add m (uint_wrap 64 d)) as [k|] eqn:Ek; [|done]. apply checked_add_Some in Ek.
      rewrite uval_wrap_small in Em, Ek by lia. cbn [mbind option_bind] in E. apply IH in E. rewrite <- E. f_equal. lia.
    + intros E. apply digits_val_grows in E as Hg; [|lia].
      rewrite (proj2 (checked_mul_Some acc (uint_wrap 64 10) (uint_wrap 64 (acc * 10)))) by (rewrite !uval_wrap_small by lia; done).
      cbn [mbind option_bind].
      rewrite (proj2 (checked_add_Some (uint_wrap 64 (acc * 10)) (uint_wrap 64 d) (uint_wrap 64 (acc * 10 + d))))
        by (rewrite !uval_wrap_small by lia; done).
      cbn [mbind option_bind]. apply IH. by rewrite uval_wrap_small by lia.
Qed.

(** The strings [parse] accepts: one or more digits of a value in range, after
    at most one plus sign. *)
Lemma parse_u64_iff value n : parse_u64 value = Some n <->
  exists digits, digits <> [] /\ digits_val 0 digits = Some (uval n) /\ (value = digits \/ value = x2b :: digits).
Proof.
  assert (parse_digits (uint_wrap 64 0) value = Some n <-> digits_val 0 value = Some (uval n)) as Hv by apply parse_digits_iff.
  assert (forall digits, digits_val 0 (x2b :: digits) = None) as Hplus by done.
  destruct value as [|b value]; cbn [parse_u64].
  - split; [done|]. intros ([|? ?] & ? & _ & [E|E]); done.
  - destruct (decide (b = x2b)) as [->|Hne].
    + destruct value as [|c value].
      * split; [done|]. intros ([|d ds] & ? & E & [Ev|Ev]); try done. by injection Ev as <- <-.
      * rewrite parse_digits_iff. split; [intros E; exists (c :: value); auto|].
        intros (ds & Hds & E & [<-|[= <-]]); [by rewrite Hplus in E|done].
    + assert (parse_u64 (b :: value) = parse_digits (uint_wrap 64 0) (b :: value)) as Hp by (destruct b; done).
      cbn [parse_u64] in Hp. rewrite Hp, Hv. split; [intros E; exists (b :: value); auto|].
      intros (ds & Hds & E & [<-|[= -> <-]]); done.
Qed.

Lemma dec_digit_of d : 0 <= d <= 9 -> dec_digit (byte_of (48 + d)) = Some d.
Proof.
  intros Hd. unfold dec_digit. rewrite byte_val_of, Z.mod_small by lia.
  rewrite (proj2 (Z.leb_le _ _)), (proj2 (Z.leb_le _ _)) by lia. cbn [andb]. f_equal. lia.
Qed.

(** [k] digits are enough for a number below [10 ^ k], and printing adds them
    before the rest. *)
Lemma print_digits_val fuel : forall n rest, 0 <= n < 10 ^ Z.of_nat (S fuel) ->
  exists ds, print_digits (S fuel) n rest = ds ++ rest /\ ds <> [] /\ forall acc tl, 
    digits_val acc (ds ++ tl) = digits_val (acc * 10 ^ Z.of_nat (length ds) + n) tl.
Proof.
  induction fuel as [|fuel IH]; intros n rest Hn.
  - exists [byte_of (48 + n mod 10)]. change (10 ^ Z.of_nat 1) with 10 in Hn. cbn [print_digits].
    rewrite (proj2 (Z.ltb_lt n 10)) by lia. split; [done|]. split; [done|]. intros acc tl. cbn [app digits_val length].
    rewrite Z.mod_small, dec_digit_of by lia. cbn [mbind option_bind]. change (10 ^ Z.of_nat 1) with 10. done.
  - remember (S fuel) as k. cbn [print_digits]. destruct (Z.ltb_spec n 10) as [Hs|Hs].
    + exists [byte_of (48 + n mod 10)]. split; [done|]. split; [done|]. intros acc tl. cbn [app digits_val length].
      rewrite Z.mod_small, dec_digit_of by lia. cbn [mbind option_bind]. change (10 ^ Z.of_nat 1) with 10. done.
    + rewrite Nat2Z.inj_succ, Z.pow_succ_r in Hn by lia.
      destruct (IH (n / 10) (byte_of (48 + n mod 10) :: rest)) as (ds & -> & Hne & Hd).
      { split; [apply Z.div_pos; lia|apply Z.div_lt_upper_bound; lia]. }
      exists (ds ++ [byte_of (48 + n mod 10)]). split; [by rewrite <- app_assoc|]. split; [by destruct ds|]. intros acc tl.
      rewrite <- app_assoc, Hd, length_app. cbn [app digits_val length]. rewrite dec_digit_of by (pose proof (Z.mod_pos_bound n 10); lia).
      cbn [mbind option_bind]. f_equal. rewrite Nat2Z.inj_add, Z.pow_add_r by lia. change (10 ^ Z.of_nat 1) with 10.
      pose proof (Z.div_mod n 10). lia.
Qed.

(** Printing a 64-bit number and parsing it back. *)
Lemma print_parse (n : u64) : parse_u64 (print_number n) = Some n.
Proof.
  pose proof (uint_range n). unfold print_number.
  destruct (print_digits_val 38 n []) as (ds & -> & Hne & Hd).
  { change (10 ^ Z.of_nat 39) with 1000000000000000000000000000000000000000. lia. }
  apply parse_u64_iff. exists ds. split; [done|]. split; [|left; by rewrite app_nil_r].
  specialize (Hd 0 []). rewrite app_nil_r in Hd. by rewrite Hd.
Qed.

(** ** What UTF-8 text is *)

(** A Unicode scalar value and its encoding. *)
Definition scalar (c : Z) : Prop := 0 <= c < 0xD800 \/ 0xE000 <= c < 0x110000.
Definition utf8_char (c : Z) : bytes :=
  if c <? 0x80 then [byte_of c]
  else if c <? 0x800 then [byte_of (0xC0 + c / 64); byte_of (0x80 + c mod 64)]
  else if c <? 0x10000 then
    [byte_of (0xE0 + c / 4096); byte_of (0x80 + c / 64 mod 64); byte_of (0x80 + c mod 64)]
  else
    [byte_of (0xF0 + c / 262144); byte_of (0x80 + c / 4096 mod 64); byte_of (0x80 + c / 64 mod 64);
     byte_of (0x80 + c mod 64)].

Ltac decide_bounds :=
  repeat first
    [ rewrite (proj2 (Z.leb_le _ _)) by lia | rewrite (proj2 (Z.leb_gt _ _)) by lia
    | rewrite (proj2 (Z.ltb_lt _ _)) by lia | rewrite (proj2 (Z.ltb_ge _ _)) by lia
    | rewrite (proj2 (Z.eqb_eq _ _)) by lia | rewrite (proj2 (Z.eqb_neq _ _)) by lia ];
  cbn [andb orb].

(** The leading bytes, by what must follow. *)
Lemma utf8_follow_cases lead expected : 0 <= lead < 256 -> utf8_follow lead = Some expected <->
  (lead <= 0x7F /\ expected = []) \/ (0xC2 <= lead <= 0xDF /\ expected = [continuation]) \/
  (lead = 0xE0 /\ expected = [(0xA0, 0xBF); continuation]) \/
  ((0xE1 <= lead <= 0xEC \/ 0xEE <= lead <= 0xEF) /\ expected = [continuation; continuation]) \/
  (lead = 0xED /\ expected = [(0x80, 0x9F); continuation]) \/
  (lead = 0xF0 /\ expected = [(0x90, 0xBF); continuation; continuation]) \/
  (0xF1 <= lead <= 0xF3 /\ expected = [continuation; continuation; continuation]) \/
  (lead = 0xF4 /\ expected = [(0x80, 0x8F); continuation; continuation]).
Proof.
  intros Hl. unfold utf8_follow. split.
  - repeat case_match; intros [= <-]; rewrite ?orb_true_iff, ?andb_true_iff, ?Z.leb_le, ?Z.eqb_eq in *;
      naive_solver lia.
  - intros H. destruct_or! H; destruct H as [H ->]; destruct_or? H; decide_bounds; try done;
      rewrite ?orb_true_r; try done.
    all: repeat (case_match; rewrite ?orb_true_iff, ?andb_true_iff, ?orb_false_iff, ?andb_false_iff, ?Z.leb_le, ?Z.leb_gt, ?Z.eqb_eq, ?Z.eqb_neq in *; try lia); done.
Qed.

(** One step of the checker, forwards and backwards. *)
Lemma utf8_lead b expected value : utf8_follow (byte_val b) = Some expected ->
  utf8_from [] (b :: value) = utf8_from expected value.
Proof. intros E. cbn [utf8_from]. by rewrite E. Qed.
Lemma utf8_lead_inv b value : utf8_from [] (b :: value) = true ->
  exists expected, utf8_follow (byte_val b) = Some expected /\ utf8_from expected value = true.
Proof. cbn [utf8_from]. destruct (utf8_follow _); [by eexists|done]. Qed.
Lemma utf8_next low high expected z value : low <= z <= high -> 0 <= low -> high < 256 ->
  utf8_from ((low, high) :: expected) (byte_of z :: value) = utf8_from expected value.
Proof. intros. cbn [utf8_from]. rewrite byte_val_of, Z.mod_small by lia. by decide_bounds. Qed.
Lemma utf8_next_inv low high expected value : utf8_from ((low, high) :: expected) value = true ->
  exists z value', value = byte_of z :: value' /\ low <= z <= high /\ utf8_from expected value' = true.
Proof.
  destruct value as [|b value]; [done|]. cbn [utf8_from]. rewrite !andb_true_iff, !Z.leb_le. intros [[? ?] ?].
  exists (byte_val b), value. by rewrite byte_of_val.
Qed.

(** The digits of a scalar in base 64. *)
Lemma base64_of p q r s c : c = ((p * 64 + q) * 64 + r) * 64 + s -> 0 <= q < 64 -> 0 <= r < 64 -> 0 <= s < 64 ->
  c mod 64 = s /\ c / 64 = (p * 64 + q) * 64 + r /\ c / 64 mod 64 = r /\ c / 4096 = p * 64 + q /\
  c / 4096 mod 64 = q /\ c / 262144 = p.
Proof.
  intros -> Hq Hr Hs. assert (forall x d, 0 <= d < 64 -> (x * 64 + d) / 64 = x /\ (x * 64 + d) mod 64 = d) as E.
  { intros x d Hd. split; [symmetry; by apply (Z.div_unique_pos _ _ _ d); lia|symmetry; by apply (Z.mod_unique_pos _ _ x); lia]. }
  change 262144 with (64 * 64 * 64). change 4096 with (64 * 64). rewrite <- !Z.div_div by lia.
  by rewrite !(proj1 (E _ _ Hs)), !(proj1 (E _ _ Hr)), !(proj1 (E _ _ Hq)), !(proj2 (E _ _ Hs)), !(proj2 (E _ _ Hr)), !(proj2 (E _ _ Hq)).
Qed.
Lemma base64_digits c : exists p q r s, c = ((p * 64 + q) * 64 + r) * 64 + s /\ 0 <= q < 64 /\ 0 <= r < 64 /\ 0 <= s < 64.
Proof.
  exists (c / 64 / 64 / 64), (c / 64 / 64 mod 64), (c / 64 mod 64), (c mod 64).
  pose proof (Z.div_mod c 64 ltac:(lia)). pose proof (Z.div_mod (c / 64) 64 ltac:(lia)).
  pose proof (Z.div_mod (c / 64 / 64) 64 ltac:(lia)).
  split; [lia|]. repeat split; apply Z.mod_pos_bound; lia.
Qed.

Lemma utf8_lead_of z expected value : 0 <= z < 256 -> utf8_follow z = Some expected ->
  utf8_from [] (byte_of z :: value) = utf8_from expected value.
Proof. intros Hz E. apply utf8_lead. by rewrite byte_val_of, Z.mod_small. Qed.

(** Evaluate the checker on bytes whose values [lia] knows. *)
Ltac utf8_run :=
  repeat first
    [ rewrite utf8_next by (unfold continuation; lia)
    | progress unfold continuation
    | erewrite utf8_lead_of by (first [lia | unfold utf8_follow; decide_bounds; reflexivity]) ].

Lemma utf8_char_step c value : scalar c -> utf8_from [] (utf8_char c ++ value) = utf8_from [] value.
Proof.
  intros Hc. unfold scalar in Hc. destruct (base64_digits c) as (p & q & r & s & Ec & Hq & Hr & Hs).
  destruct (base64_of p q r s c Ec Hq Hr Hs) as (E1 & E2 & E3 & E4 & E5 & E6).
  unfold utf8_char. rewrite E3, E5, E1, E2, E4, E6.
  destruct (Z.ltb_spec c 0x80); [|destruct (Z.ltb_spec c 0x800); [|destruct (Z.ltb_spec c 0x10000)]]; cbn [app].
  - by utf8_run.
  - by utf8_run.
  - assert (p * 64 + q = 0 \/ 1 <= p * 64 + q <= 12 \/ p * 64 + q = 13 \/ 14 <= p * 64 + q <= 15) as [?|[?|[?|?]]] by lia; by utf8_run.
  - assert (p = 0 \/ p = 4 \/ 1 <= p <= 3) as [?|[?|?]] by lia; by utf8_run.
Qed.

(** The encodings by length, from the digits. *)
Lemma utf8_char_2 r s : 0x80 <= r * 64 + s < 0x800 -> 0 <= s < 64 ->
  utf8_char (r * 64 + s) = [byte_of (0xC0 + r); byte_of (0x80 + s)].
Proof.
  intros Hc Hs. unfold utf8_char. decide_bounds.
  destruct (base64_of 0 0 r s (r * 64 + s)) as (-> & -> & _); [lia..|]. done.
Qed.
Lemma utf8_char_3 q r s : 0x800 <= (q * 64 + r) * 64 + s < 0x10000 -> 0 <= r < 64 -> 0 <= s < 64 ->
  utf8_char ((q * 64 + r) * 64 + s) = [byte_of (0xE0 + q); byte_of (0x80 + r); byte_of (0x80 + s)].
Proof.
  intros Hc Hr Hs. unfold utf8_char. decide_bounds.
  destruct (base64_of 0 q r s ((q * 64 + r) * 64 + s)) as (-> & _ & -> & -> & _); [lia..|]. done.
Qed.
Lemma utf8_char_4 p q r s : 0x10000 <= ((p * 64 + q) * 64 + r) * 64 + s -> 0 <= q < 64 -> 0 <= r < 64 -> 0 <= s < 64 ->
  utf8_char (((p * 64 + q) * 64 + r) * 64 + s)
  = [byte_of (0xF0 + p); byte_of (0x80 + q); byte_of (0x80 + r); byte_of (0x80 + s)].
Proof.
  intros Hc Hq Hr Hs. unfold utf8_char. decide_bounds.
  destruct (base64_of p q r s (((p * 64 + q) * 64 + r) * 64 + s)) as (-> & _ & -> & _ & -> & ->); [lia..|]. done.
Qed.

Lemma utf8_give bs c value : scalar c -> utf8_from [] value = true -> bs = utf8_char c ->
  exists c' value', scalar c' /\ bs ++ value = utf8_char c' ++ value' /\ utf8_from [] value' = true.
Proof. intros Hc H ->. by exists c, value. Qed.

(** Every accepted text starts with one encoded scalar. *)
Lemma utf8_char_inv b value : utf8_from [] (b :: value) = true ->
  exists c value', scalar c /\ b :: value = utf8_char c ++ value' /\ utf8_from [] value' = true.
Proof.
  intros H. apply utf8_lead_inv in H as (expected & Hf & H). pose proof (byte_val_range b).
  apply utf8_follow_cases in Hf; [|done]. unfold continuation in Hf. rewrite <- (byte_of_val b).
  revert Hf H0. generalize (byte_val b) as z. intros z Hf Hz. unfold scalar.
  assert (expected = [] \/ exists l1 h1 rest, expected = (l1, h1) :: rest) as [->|(l1 & h1 & rest & ->)]
    by (destruct expected as [|[]]; eauto).
  { apply (utf8_give [byte_of z] z); [unfold scalar; naive_solver lia|done|].
    unfold utf8_char. assert (z <= 0x7F) by naive_solver lia. by decide_bounds. }
  apply utf8_next_inv in H as (z1 & v1 & -> & Hz1 & H).
  assert (rest = [] \/ exists l2 h2 rest', rest = (l2, h2) :: rest') as [->|(l2 & h2 & rest' & ->)]
    by (destruct rest as [|[]]; eauto).
  { apply (utf8_give [byte_of z; byte_of z1] ((z - 0xC0) * 64 + (z1 - 0x80))); [unfold scalar; naive_solver lia|done|].
    rewrite utf8_char_2 by naive_solver lia. by rewrite !Zplus_minus. }
  apply utf8_next_inv in H as (z2 & v2 & -> & Hz2 & H).
  assert (rest' = [] \/ exists l3 h3, rest' = [(l3, h3)]) as [->|(l3 & h3 & ->)] by naive_solver.
  { apply (utf8_give [byte_of z; byte_of z1; byte_of z2] (((z - 0xE0) * 64 + (z1 - 0x80)) * 64 + (z2 - 0x80)));
      [unfold scalar; naive_solver lia|done|].
    rewrite utf8_char_3 by naive_solver lia. by rewrite !Zplus_minus. }
  apply utf8_next_inv in H as (z3 & v3 & -> & Hz3 & H).
  apply (utf8_give [byte_of z; byte_of z1; byte_of z2; byte_of z3]
           ((((z - 0xF0) * 64 + (z1 - 0x80)) * 64 + (z2 - 0x80)) * 64 + (z3 - 0x80)));
    [unfold scalar; naive_solver lia|done|].
  rewrite utf8_char_4 by naive_solver lia. by rewrite !Zplus_minus.
Qed.

Lemma utf8_char_nonempty c : utf8_char c <> [].
Proof. unfold utf8_char. by repeat case_match. Qed.

(** The checker accepts exactly the encodings of the sequences of scalars. *)
Lemma utf8_iff value : utf8 value = true <-> exists cs, Forall scalar cs /\ value = concat (map utf8_char cs).
Proof.
  unfold utf8. split.
  - remember (length value) as n eqn:En. revert value En.
    induction n as [n IH] using lt_wf_ind. intros [|b value] -> H; [by exists []|].
    destruct (utf8_char_inv b value H) as (c & value' & Hc & E & H'). rewrite E in IH |- *.
    destruct (IH (length value')) with (value := value') as (cs & Hcs & ->); [|done|done|].
    { rewrite length_app. pose proof (utf8_char_nonempty c). destruct (utf8_char c); [done|cbn; lia]. }
    exists (c :: cs). by split; [constructor|].
  - intros (cs & Hcs & ->). induction Hcs as [|c cs Hc Hcs IH]; [done|]. cbn [map concat]. by rewrite utf8_char_step.
Qed.

(** ** Text in a record *)

(** [Decoder::string]: a length-prefixed byte string that is UTF-8. *)
Definition Decoder_string : dec bytes :=
  bs ← Decoder_bytes;
  lift (if utf8 bs then Ok bs else Err (InvalidValue "invalid UTF-8")).

(** [Decoder::string] accepts exactly the canonical encodings of the UTF-8
    texts shorter than 2^32 bytes, that is of the sequences of Unicode scalar
    values, and refuses other well-framed bytes as invalid UTF-8. *)
Theorem string_decode_iff (d : Decoder) :
  (forall text d', Decoder_string d = Ok (text, d') <->
     (Z.of_nat (length text) < 2 ^ 32 /\ reads (encode text) d d') /\
     exists cs, Forall scalar cs /\ text = concat (map utf8_char cs)) /\
  (forall text d', Decoder_bytes d = Ok (text, d') -> utf8 text = false ->
     Decoder_string d = Err (InvalidValue "invalid UTF-8")).
Proof.
  split; intros text d'.
  - unfold Decoder_string. rewrite dec_bind_Ok, <- utf8_iff. setoid_rewrite (codec_spec (A:=bytes)).
    split.
    + intros (bs & d1 & Hr & E). unfold lift in E. destruct (utf8 bs) eqn:Hu; [|done]. cbn in E. by injection E as -> ->.
    + intros [Hr Hu]. exists text, d'. split; [done|]. unfold lift. by rewrite Hu.
  - intros E Hu. unfold Decoder_string, mbind, dec_bind. rewrite E. cbn. unfold lift. by rewrite Hu.
Qed.
