(* ===== verification/Gates.v ===== *)
(** Launch gates: [crates/usdd-core/src/gates.rs].

    The release gate reads a TSV report, one row per required gate, and checks
    every PASS row against evidence files by their SHA-256.  The file system is
    the class [FileSystem]; [std::path] is modelled for Unix.  The theorems say
    that a launch needs every gate measured, within its threshold and with
    evidence that was read, that nothing else can make it ready, and that no
    evidence path leaves its directory. *)

From S2P Require Import Prelude Encoding Params Hashing Text.

Local Open Scope Z_scope.

Definition REQUIRED_LAUNCH_GATES : list bytes :=
  [str "proof-size"; str "x86-latency"; str "arm-latency"; str "peak-memory"; str "block-weight"; str "evm-gas";
   str "full-validity-invalid-block-rejection"; str "volume-100k"; str "soak-90-day";
   str "sp1-soundness-independent-confirmation"; str "solidity-independent-audit"; str "sp1-guests-independent-audit";
   str "elements-simplicity-independent-audit"; str "ethereum-client-differential";
   str "elements-bitcoin-enforcer-differential"; str "cross-domain-replay-fuzz"].

Inductive GateStatus : Type := Blocked | Pass | Failed.
#[export] Instance GateStatus_eq_dec : EqDecision GateStatus.
Proof. solve_decision. Defined.

Inductive GateError : Type :=
| InvalidHeader
| WrongColumnCount (line actual : nat)
| InvalidStatus (value : bytes)
| UnknownGate (id : bytes)
| DuplicateGate (id : bytes)
| InvalidEvidenceSpec (id : bytes)
| UnsafeEvidencePath (id : bytes)
| EvidenceRead (gate message : bytes)
| EvidenceDigestMismatch (id : bytes).

Definition GateStatus_as_str (s : GateStatus) : bytes :=
  match s with Blocked => str "BLOCKED" | Pass => str "PASS" | Failed => str "FAIL" end.
Definition GateStatus_parse (value : bytes) : res GateError GateStatus :=
  if decide (value = str "BLOCKED") then Ok Blocked
  else if decide (value = str "PASS") then Ok Pass
  else if decide (value = str "FAIL") then Ok Failed
  else Err (InvalidStatus value).

Record GateEntry : Type := MkGateEntry {
  ge_id : bytes;
  ge_status : GateStatus;
  ge_measured_value : bytes;
  ge_evidence : bytes;
  ge_evidence_verified : bool
}.
Record GateReport : Type := MkGateReport { gr_entries : list GateEntry }.

(** ** The criteria *)

Definition number_where (value : bytes) (p : Z -> bool) : bool :=
  match parse_u64 value with Some number => p (uval number) | None => false end.

Definition rejection_complete (value : bytes) : bool :=
  match split_once x2f value with
  | None => false
  | Some (rejected, total) =>
      match parse_u64 rejected, parse_u64 total with
      | Some rejected, Some total => (0 <? total) && (rejected =? total)
      | _, _ => false
      end
  end.

Definition meets_gate_criterion (id value : bytes) : bool :=
  let gate name := bool_decide (id = str name) in
  if gate "proof-size" then number_where value (fun n => n <=? 512 * 1024)
  else if gate "x86-latency" then number_where value (fun n => n <=? 500)
  else if gate "arm-latency" then number_where value (fun n => n <=? 2000)
  else if gate "peak-memory" then number_where value (fun n => n <=? 256 * 1024 * 1024)
  else if gate "block-weight" then number_where value (fun n => n <=? 2500)
  else if gate "evm-gas" then number_where value (fun n => n <=? 5000)
  else if gate "full-validity-invalid-block-rejection" then rejection_complete value
  else if gate "volume-100k" then number_where value (fun n => 100000 <=? n)
  else if gate "soak-90-day" then number_where value (fun n => 90 <=? n)
  else if gate "sp1-soundness-independent-confirmation" || gate "solidity-independent-audit"
          || gate "sp1-guests-independent-audit" || gate "elements-simplicity-independent-audit"
          || gate "ethereum-client-differential" || gate "elements-bitcoin-enforcer-differential"
          || gate "cross-domain-replay-fuzz" then bool_decide (value = str "complete")
  else false.

Definition is_measured_pass (e : GateEntry) : bool :=
  bool_decide (ge_status e = Pass) && ge_evidence_verified e && meets_gate_criterion (ge_id e) (ge_measured_value e).

(** ** Parsing *)

Definition GATE_HEADER : bytes :=
  str "gate" ++ [tab] ++ str "status" ++ [tab] ++ str "measured_value" ++ [tab] ++ str "evidence".

(** One data row, into the map of the rows before it. *)
Definition gate_row (line_index : nat) (line : bytes) (provided : gmap bytes GateEntry)
    : res GateError (gmap bytes GateEntry) :=
  match split_on tab line with
  | [id; status; measured_value; evidence] =>
      fail_if (negb (bool_decide (id ∈ REQUIRED_LAUNCH_GATES))) (UnknownGate id);;
      status ← GateStatus_parse status;
      let entry := MkGateEntry id status measured_value evidence false in
      fail_if (bool_decide (is_Some (provided !! id))) (DuplicateGate id);;
      Ok (<[id := entry]> provided)
  | columns => Err (WrongColumnCount (line_index + 2) (length columns))
  end.
Definition gate_line (line_index : nat) (line : bytes) (provided : gmap bytes GateEntry)
    : res GateError (gmap bytes GateEntry) :=
  if is_blank line || starts_with x23 line then Ok provided else gate_row line_index line provided.

Definition missing_entry (id : bytes) : GateEntry := MkGateEntry id Blocked (str "UNMEASURED") (str "NONE") false.

(** The required gates in order, each taken out of the map. *)
Fixpoint take_entries (ids : list bytes) (provided : gmap bytes GateEntry) : list GateEntry :=
  match ids with
  | [] => []
  | id :: ids => default (missing_entry id) (provided !! id) :: take_entries ids (delete id provided)
  end.

Definition parse_tsv (input : bytes) : res GateError GateReport :=
  match lines input with
  | [] => Err InvalidHeader
  | header :: rows =>
      fail_if (bool_decide (header <> GATE_HEADER)) InvalidHeader;;
      provided ← res_foldi gate_line 0 rows ∅;
      Ok (MkGateReport (take_entries REQUIRED_LAUNCH_GATES provided))
  end.

(** ** Evidence *)

Inductive Component : Type := CurDir | ParentDir | Normal (name : bytes).

(** [Path::components] after the root: repeated separators and every [.] but a
    leading one are dropped. *)
Fixpoint components_from (first : bool) (parts : list bytes) : list Component :=
  match parts with
  | [] => []
  | part :: parts =>
      if decide (part = []) then components_from false parts
      else if decide (part = str ".") then (if first then [CurDir] else []) ++ components_from false parts
      else if decide (part = str "..") then ParentDir :: components_from false parts
      else Normal part :: components_from false parts
  end.
Definition components (path : bytes) : list Component := components_from true (split_on x2f path).
Definition is_absolute (path : bytes) : bool := starts_with x2f path.
Definition is_normal (c : Component) : bool := match c with Normal _ => true | _ => false end.

(** [root.join(path)] *)
Definition path_join (root path : bytes) : bytes :=
  if is_absolute path then path
  else if decide (root = [] \/ last root = Some x2f) then root ++ path
  else root ++ x2f :: path.

(** [fs::read]: the bytes of a file, or the message of an I/O error. *)
Class FileSystem : Type := fs_read : bytes -> bytes + bytes.

Definition parse_evidence_spec (value : bytes) : option (bytes * bytes) :=
  rest ← strip_prefix (str "sha256:") value;
  '(hex, path) ← split_once x40 rest;
  if negb (length hex =? 64)%nat
     || negb (forallb (fun b => bool_decide (is_Some (hex_digit b))) hex)
     || negb (existsb (fun b => bool_decide (b <> x30)) hex)
     || (length path =? 0)%nat then None
  else Some (hex, path).

Section evidence.
Context {H : Sha256} {FS : FileSystem}.

Definition verify_entry (evidence_root : bytes) (e : GateEntry) : res GateError GateEntry :=
  if decide (ge_status e <> Pass) then Ok e
  else
    '(declared_digest, relative_path) ← ok_or (parse_evidence_spec (ge_evidence e)) (InvalidEvidenceSpec (ge_id e));
    fail_if ((length relative_path =? 0)%nat || is_absolute relative_path
             || existsb (fun c => negb (is_normal c)) (components relative_path)) (UnsafeEvidencePath (ge_id e));;
    bs ← match fs_read (path_join evidence_root relative_path) with
         | inl bs => Ok bs
         | inr message => Err (EvidenceRead (ge_id e) message)
         end;
    let actual := Hash32_to_hex (hash_bytes bs) in
    fail_if (negb (eq_ignore_ascii_case actual declared_digest)) (EvidenceDigestMismatch (ge_id e));;
    Ok (MkGateEntry (ge_id e) (ge_status e) (ge_measured_value e) (ge_evidence e) true).

Fixpoint verify_entries (evidence_root : bytes) (entries : list GateEntry) : res GateError (list GateEntry) :=
  match entries with
  | [] => Ok []
  | e :: entries =>
      e ← verify_entry evidence_root e;
      entries ← verify_entries evidence_root entries;
      Ok (e :: entries)
  end.
Definition verify_evidence_files (report : GateReport) (evidence_root : bytes) : res GateError GateReport :=
  entries ← verify_entries evidence_root (gr_entries report); Ok (MkGateReport entries).
End evidence.

Definition launch_ready (r : GateReport) : bool :=
  (length (gr_entries r) =? length REQUIRED_LAUNCH_GATES)%nat && forallb is_measured_pass (gr_entries r).
Definition blocked_count (r : GateReport) : nat := length (filter (fun e => is_measured_pass e = false) (gr_entries r)).

Definition render_entry (e : GateEntry) : bytes :=
  let effective := if is_measured_pass e then str "PASS"
                   else if decide (ge_status e = Failed) then str "FAIL" else str "BLOCKED" in
  ge_id e ++ str ": " ++ effective ++ str " (value=" ++ ge_measured_value e ++ str ", evidence="
  ++ ge_evidence e ++ str ")" ++ [newline_byte].
Definition render_text (r : GateReport) : bytes :=
  concat (map render_entry (gr_entries r))
  ++ (if launch_ready r then str "launch: PASS" else str "launch: BLOCKED") ++ [newline_byte].

(** ** Parsing accepts one row per gate, in any order *)

Definition data_rows (rows : list bytes) : list bytes :=
  filter (fun line => is_blank line || starts_with x23 line = false) rows.

(** What one data row says. *)
Definition row_of (line : bytes) : option GateEntry :=
  match split_on tab line with
  | [id; status; measured_value; evidence] =>
      if decide (id ∈ REQUIRED_LAUNCH_GATES) then
        match GateStatus_parse status with
        | Ok status => Some (MkGateEntry id status measured_value evidence false)
        | _ => None
        end
      else None
  | _ => None
  end.

Definition rows_map (es : list GateEntry) : gmap bytes GateEntry := foldr (fun e m => <[ge_id e := e]> m) ∅ es.
Definition gate_report_of (es : list GateEntry) : GateReport :=
  MkGateReport (map (fun id => default (missing_entry id) (rows_map es !! id)) REQUIRED_LAUNCH_GATES).

Lemma gate_row_Ok i line m m' : gate_row i line m = Ok m' <->
  exists e, row_of line = Some e /\ m !! ge_id e = None /\ m' = <[ge_id e := e]> m.
Proof.
  unfold gate_row, row_of. destruct (split_on tab line) as [|id [|status [|value [|evidence [|]]]]];
    try (split; [done|by intros (e & ? & _)]). rewrite fail_then, negb_false_iff, bool_decide_eq_true. split.
  - intros [Hin E]. rewrite decide_True by done. apply res_bind_Ok in E as (s & -> & E). cbv zeta in E.
    rewrite fail_then, bool_decide_eq_false, <- eq_None_not_Some in E. destruct E as [Hn [= <-]]. eexists. split; [reflexivity|done].
  - intros (e & He & Hn & ->). destruct (decide (id ∈ REQUIRED_LAUNCH_GATES)) as [Hin|]; [|done]. split; [done|].
    destruct (GateStatus_parse status) as [s| |]; [|done..]. injection He as <-. cbn [ge_id mbind res_bind] in *. cbv zeta.
    rewrite fail_then, bool_decide_eq_false, <- eq_None_not_Some. done.
Qed.

Lemma rows_map_lookup es id e : NoDup (map ge_id es) -> rows_map es !! id = Some e <-> e ∈ es /\ ge_id e = id.
Proof.
  induction es as [|x es IH]; cbn [rows_map foldr map].
  - intros _. split; [by rewrite lookup_empty|]. by intros [?%elem_of_nil _].
  - rewrite NoDup_cons. intros [Hx Hn]. rewrite elem_of_cons. destruct (decide (ge_id x = id)) as [<-|Hne].
    + rewrite lookup_insert_eq. split; [intros [= ->]; auto|]. intros [[->|Hin] E]; [done|]. destruct Hx. rewrite <- E.
      by apply list_elem_of_fmap_2.
    + rewrite lookup_insert_ne by done. fold (rows_map es). rewrite IH by done. naive_solver.
Qed.

Lemma rows_map_fresh es id : id ∉ map ge_id es -> rows_map es !! id = None.
Proof.
  induction es as [|x es IH]; cbn [rows_map foldr map]; [by rewrite lookup_empty|]. rewrite not_elem_of_cons. intros [Hx Hn].
  rewrite lookup_insert_ne by done. by apply IH.
Qed.

Lemma data_rows_cons line rows :
  data_rows (line :: rows) = if is_blank line || starts_with x23 line then data_rows rows else line :: data_rows rows.
Proof. unfold data_rows. rewrite filter_cons. by destruct (is_blank line || starts_with x23 line). Qed.

Lemma gate_rows_Ok rows : forall i m m', res_foldi gate_line i rows m = Ok m' <->
  exists es, map row_of (data_rows rows) = map Some es /\ NoDup (map ge_id es) /\
    Forall (fun e => m !! ge_id e = None) es /\ m' = rows_map es ∪ m.
Proof.
  induction rows as [|line rows IH]; intros i m m'; cbn [res_foldi].
  - split.
    + intros [= <-]. exists []. cbn. rewrite (left_id_L ∅ (∪)). split; [done|]. split; [constructor|done].
    + intros ([|e es] & E & _ & _ & ->); [|done]. cbn. by rewrite (left_id_L ∅ (∪)).
  - change (gate_line i line m) with (if is_blank line || starts_with x23 line then Ok m else gate_row i line m).
    rewrite data_rows_cons. destruct (is_blank line || starts_with x23 line); [apply IH|].
    + cbn [map]. rewrite res_bind_Ok. setoid_rewrite gate_row_Ok. setoid_rewrite IH. split.
      * intros (m1 & (e & He & Hm & ->) & es & E & Hn & Hf & ->). exists (e :: es). cbn [map rows_map foldr].
        assert (ge_id e ∉ map ge_id es) as Hfr.
        { intros (x & Ex & Hin)%list_elem_of_fmap. rewrite Forall_forall in Hf. specialize (Hf x Hin).
          by rewrite <- Ex, lookup_insert_eq in Hf. }
        split; [by rewrite He, E|]. split; [by constructor|]. split.
        -- constructor; [done|]. rewrite Forall_forall in *. intros x Hin. specialize (Hf x Hin).
           apply lookup_insert_None in Hf. tauto.
        -- fold (rows_map es). rewrite <- insert_union_r by (by apply rows_map_fresh). by rewrite insert_union_l.
      * intros ([|e es] & E & Hn & Hf & ->); [done|]. cbn [map rows_map foldr] in *. injection E as He E.
        apply NoDup_cons in Hn as [Hfr Hn]. apply Forall_cons in Hf as [Hm Hf]. exists (<[ge_id e := e]> m).
        split; [by exists e|]. exists es. split; [done|]. split; [done|]. split.
        -- rewrite Forall_forall in *. intros x Hin. rewrite lookup_insert_ne; [by apply Hf|].
           intros Ex. destruct Hfr. rewrite Ex. by apply list_elem_of_fmap_2.
        -- fold (rows_map es). rewrite <- insert_union_r by (by apply rows_map_fresh). by rewrite insert_union_l.
Qed.

Lemma take_entries_spec ids : forall m, NoDup ids ->
  take_entries ids m = map (fun id => default (missing_entry id) (m !! id)) ids.
Proof.
  induction ids as [|id ids IH]; intros m; [done|]. rewrite NoDup_cons. intros [Hid Hn]. cbn [take_entries map]. f_equal.
  rewrite IH by done. apply map_ext_in. intros x Hx%list_elem_of_In. rewrite lookup_delete_ne; [done|congruence].
Qed.

Lemma required_NoDup : NoDup REQUIRED_LAUNCH_GATES.
Proof. apply (bool_decide_unpack _). by vm_compute. Qed.

Lemma report_take es : MkGateReport (take_entries REQUIRED_LAUNCH_GATES (rows_map es ∪ ∅)) = gate_report_of es.
Proof. unfold gate_report_of. by rewrite take_entries_spec, (right_id_L ∅ (∪)) by apply required_NoDup. Qed.

Lemma parse_Ok input r : parse_tsv input = Ok r <->
  exists rows es, lines input = GATE_HEADER :: rows /\ map row_of (data_rows rows) = map Some es /\
    NoDup (map ge_id es) /\ r = gate_report_of es.
Proof.
  unfold parse_tsv. destruct (lines input) as [|header rows]; [split; [done|by intros (? & ? & ? & _)]|].
  rewrite fail_then, bool_decide_eq_false, res_bind_Ok. setoid_rewrite gate_rows_Ok. split.
  - intros (Hh%dec_stable & m & (es & E & Hn & _ & ->) & Er). rewrite report_take in Er.
    exists rows, es. subst header. do 3 (split; [done|]). congruence.
  - intros (rows' & es & [= -> ->] & E & Hn & ->). split; [naive_solver|]. exists (rows_map es ∪ ∅). split.
    + exists es. do 2 (split; [done|]). split; [|done]. apply Forall_forall. intros e _. apply lookup_empty.
    + by rewrite report_take.
Qed.

Lemma gate_report_of_permutation es es' : NoDup (map ge_id es) -> es ≡ₚ es' -> gate_report_of es = gate_report_of es'.
Proof.
  intros Hn Hp. unfold gate_report_of. enough (rows_map es = rows_map es') as -> by done.
  assert (NoDup (map ge_id es')) as Hn' by (by rewrite <- Hp).
  apply map_eq. intros id. apply option_eq. intros e. rewrite !rows_map_lookup by done. by rewrite Hp.
Qed.

(** The report parser accepts exactly the files with the fixed header whose
    data rows have four columns, a required gate, a known status, and no gate
    twice; its report has every required gate in order, an absent one as
    BLOCKED; and the order of the rows does not matter. *)
Theorem gates_parse_iff :
  (forall input r, parse_tsv input = Ok r <->
     exists rows es, lines input = GATE_HEADER :: rows /\ map row_of (data_rows rows) = map Some es /\
       NoDup (map ge_id es) /\ r = gate_report_of es) /\
  (forall input input' r r' rows rows', parse_tsv input = Ok r -> parse_tsv input' = Ok r' ->
     lines input = GATE_HEADER :: rows -> lines input' = GATE_HEADER :: rows' ->
     data_rows rows ≡ₚ data_rows rows' -> r = r').
Proof.
  split; [exact parse_Ok|]. intros input input' r r' rows rows' E E' Hl Hl' Hp.
  apply parse_Ok in E as (? & es & [= <-]%(eq_trans (eq_sym Hl)) & Er & Hn & ->).
  apply parse_Ok in E' as (? & es' & [= <-]%(eq_trans (eq_sym Hl')) & Er' & Hn' & ->).
  apply gate_report_of_permutation; [done|]. apply (Permutation_map row_of) in Hp. rewrite Er, Er' in Hp.
  apply Permutation_map_inv in Hp as (l & El & Hp). rewrite Hp. apply (inj (fmap Some)) in El. by rewrite El.
Qed.

(** ** Evidence *)

(** A relative path that stays where it starts. *)
Definition safe_path (path : bytes) : Prop :=
  path <> [] /\ head path <> Some x2f /\ str ".." ∉ split_on x2f path /\ head (split_on x2f path) <> Some (str ".").

Lemma components_normal first parts :
  existsb (fun c => negb (is_normal c)) (components_from first parts) = false <->
  str ".." ∉ parts /\ (first = true -> head parts <> Some (str ".")).
Proof.
  revert first. induction parts as [|part parts IH]; intros first; cbn [components_from head].
  - split; [intros _; split; [apply not_elem_of_nil|done]|done].
  - rewrite not_elem_of_cons. destruct (decide (part = [])) as [->|]; [rewrite IH; naive_solver|].
    destruct (decide (part = str ".")) as [->|Hd].
    + destruct first; cbn [app existsb is_normal negb orb]; [split; [done|]; intros [_ Hf]; by destruct Hf|].
      rewrite IH. naive_solver.
    + destruct (decide (part = str "..")) as [->|Hdd]; cbn [existsb is_normal negb orb]; [split; [done|]; by intros [[? _] _]|].
      rewrite IH. naive_solver.
Qed.

Lemma path_guard path :
  ((length path =? 0)%nat || is_absolute path || existsb (fun c => negb (is_normal c)) (components path)) = false <-> safe_path path.
Proof.
  unfold safe_path, components, is_absolute. rewrite !orb_false_iff, Nat.eqb_neq, components_normal.
  destruct path as [|b path]; cbn [length starts_with head]; [split; [by intros [[? _] _]|by intros [? _]]|].
  rewrite bool_decide_eq_false. naive_solver.
Qed.

Section launch.
Context {H : Sha256} {FS : FileSystem}.

(** A file at a safe path under the root, whose SHA-256 the row declares. *)
Definition evidence_proved (root : bytes) (e : GateEntry) : Prop :=
  exists hex path bs, ge_evidence e = str "sha256:" ++ hex ++ x40 :: path /\
    length hex = 64%nat /\ Forall (fun b => is_Some (hex_digit b)) hex /\ Exists (fun b => b <> x30) hex /\
    safe_path path /\ fs_read (path_join root path) = inl bs /\
    map ascii_lower (Hash32_to_hex (hash_bytes bs)) = map ascii_lower hex.

Lemma hex_no_at hex : Forall (fun b => is_Some (hex_digit b)) hex -> x40 ∉ hex.
Proof. intros Hf Hin. rewrite Forall_forall in Hf. by destruct (Hf _ Hin). Qed.

Lemma evidence_spec_iff value hex path : parse_evidence_spec value = Some (hex, path) <->
  value = str "sha256:" ++ hex ++ x40 :: path /\ length hex = 64%nat /\ Forall (fun b => is_Some (hex_digit b)) hex /\
  Exists (fun b => b <> x30) hex /\ path <> [].
Proof.
  assert (forall h p : bytes, (negb (length h =? 64)%nat || negb (forallb (fun b => bool_decide (is_Some (hex_digit b))) h)
     || negb (existsb (fun b => bool_decide (b <> x30)) h) || (length p =? 0)%nat) = false <->
     length h = 64%nat /\ Forall (fun b => is_Some (hex_digit b)) h /\ Exists (fun b => b <> x30) h /\ p <> []) as Hg.
  { intros h p. rewrite !orb_false_iff, !negb_false_iff, Nat.eqb_eq, Nat.eqb_neq, forallb_forall, existsb_exists, Forall_forall, Exists_exists.
    setoid_rewrite bool_decide_eq_true. setoid_rewrite list_elem_of_In. destruct p; cbn [length]; naive_solver. }
  unfold parse_evidence_spec. split.
  - destruct (strip_prefix (str "sha256:") value) as [rest|] eqn:Es; [|done]. apply strip_prefix_iff in Es as ->.
    cbn [mbind option_bind]. destruct (split_once x40 rest) as [[h p]|] eqn:E; [|done]. apply split_once_iff in E as [-> _].
    cbn [mbind option_bind]. specialize (Hg h p). destruct (_ || _) in Hg |- *; [done|]. intros [= -> ->]. split; [done|]. by apply Hg.
  - intros (-> & Hl & Hh & Hz & Hp). rewrite (proj2 (strip_prefix_iff _ _ _) eq_refl). cbn [mbind option_bind].
    rewrite (proj2 (split_once_iff x40 (hex ++ x40 :: path) hex path)) by (split; [done|by apply hex_no_at]).
    cbn [mbind option_bind]. by rewrite (proj2 (Hg hex path) (conj Hl (conj Hh (conj Hz Hp)))).
Qed.

Definition verified_entry (e : GateEntry) : GateEntry :=
  MkGateEntry (ge_id e) (ge_status e) (ge_measured_value e) (ge_evidence e) true.

Lemma verify_entry_Ok root e e' : verify_entry root e = Ok e' <->
  (ge_status e <> Pass /\ e' = e) \/ (ge_status e = Pass /\ evidence_proved root e /\ e' = verified_entry e).
Proof.
  unfold verify_entry, eq_ignore_ascii_case. destruct (decide (ge_status e <> Pass)) as [Hs|Hs]; [split; [intros [= <-]; auto|]; naive_solver|].
  apply dec_stable in Hs. rewrite res_bind_Ok. setoid_rewrite ok_or_Ok. split.
  - intros ([hex path] & Hspec & E). right. split; [done|]. apply evidence_spec_iff in Hspec as (Hv & Hl & Hh & Hz & _).
    rewrite fail_then, path_guard in E. destruct E as [Hp E]. apply res_bind_Ok in E as (bs & Hr & E).
    destruct (fs_read (path_join root path)) as [bs'|] eqn:Ef; [|done]. injection Hr as ->. cbv zeta in E.
    rewrite fail_then, negb_false_iff, bool_decide_eq_true in E. destruct E as [Hd [= <-]]. split; [|done]. by exists hex, path, bs.
  - intros [[? _]|(_ & (hex & path & bs & Hv & Hl & Hh & Hz & Hp & Hr & Hd) & ->)]; [done|]. exists (hex, path).
    split; [apply evidence_spec_iff; do 4 (split; [done|]); apply Hp|]. rewrite fail_then, path_guard. split; [done|].
    rewrite Hr. cbn [mbind res_bind]. cbv zeta. rewrite fail_then, negb_false_iff, bool_decide_eq_true. done.
Qed.

Lemma verify_entries_Ok root es es' : verify_entries root es = Ok es' <->
  Forall2 (fun e e' => verify_entry root e = Ok e') es es'.
Proof.
  revert es'. induction es as [|e es IH]; intros es'; cbn [verify_entries].
  - split; [intros [= <-]; constructor|by inversion 1].
  - rewrite res_bind_Ok. setoid_rewrite res_bind_Ok. setoid_rewrite IH. split.
    + intros (x & Hx & xs & Hxs & [= <-]). by constructor.
    + inversion 1; subst. eauto.
Qed.

Definition gate_check (tsv root : bytes) : res GateError GateReport :=
  report ← parse_tsv tsv; verify_evidence_files report root.

(** A row of the report that launches its gate. *)
Definition gate_passed (root : bytes) (es : list GateEntry) (id : bytes) : Prop :=
  exists e, e ∈ es /\ ge_id e = id /\ ge_status e = Pass /\
    meets_gate_criterion id (ge_measured_value e) = true /\ evidence_proved root e.

Lemma report_entry es id : NoDup (map ge_id es) -> Forall (fun e => ge_evidence_verified e = false) es ->
  let e := default (missing_entry id) (rows_map es !! id) in
  ge_id e = id /\ ge_evidence_verified e = false /\ (ge_status e = Pass -> e ∈ es).
Proof.
  intros Hn Hf. cbv zeta. destruct (rows_map es !! id) as [e|] eqn:E; [|done]. cbn [default from_option].
  apply rows_map_lookup in E as [Hin Hid]; [|done]. rewrite Forall_forall in Hf. auto.
Qed.

Lemma rows_unverified rows es : map row_of rows = map Some es -> Forall (fun e => ge_evidence_verified e = false) es.
Proof.
  intros E. apply Forall_forall. intros e Hin. assert (Some e ∈ map row_of rows) as Hr by (rewrite E; by apply list_elem_of_fmap_2).
  apply list_elem_of_fmap in Hr as (line & Hrow & _). unfold row_of in Hrow. by repeat case_match; simplify_eq.
Qed.

Lemma ready_iff r : launch_ready r = true <->
  length (gr_entries r) = length REQUIRED_LAUNCH_GATES /\ Forall (fun e => is_measured_pass e = true) (gr_entries r).
Proof.
  unfold launch_ready. rewrite andb_true_iff, Nat.eqb_eq, forallb_forall, Forall_forall. by setoid_rewrite list_elem_of_In.
Qed.

Lemma measured_iff e : is_measured_pass e = true <->
  ge_status e = Pass /\ ge_evidence_verified e = true /\ meets_gate_criterion (ge_id e) (ge_measured_value e) = true.
Proof. unfold is_measured_pass. rewrite !andb_true_iff, bool_decide_eq_true. tauto. Qed.

Lemma report_launches root es : NoDup (map ge_id es) -> Forall (fun e => ge_evidence_verified e = false) es ->
  (exists r, verify_evidence_files (gate_report_of es) root = Ok r /\ launch_ready r = true) <->
  Forall (gate_passed root es) REQUIRED_LAUNCH_GATES.
Proof.
  intros Hn Hf. unfold verify_evidence_files, gate_report_of. cbn [gr_entries]. setoid_rewrite res_bind_Ok. setoid_rewrite verify_entries_Ok. split.
  - intros (r & (es' & Hv & [= <-]) & [_ Hr]%ready_iff). cbn [gr_entries] in Hr. apply Forall_forall. intros id Hid.
    apply list_elem_of_lookup in Hid as [i Hi]. destruct (report_entry es id Hn Hf) as (He & Hu & Hin).
    set (e := default (missing_entry id) (rows_map es !! id)) in *.
    destruct (Forall2_lookup_l _ _ _ i e Hv) as (e' & Hi' & Hve); [by rewrite list_lookup_fmap, Hi|].
    apply (Forall_lookup_1 _ _ _ _ Hr) in Hi'. apply measured_iff in Hi' as (Hs & Hver & Hc).
    apply verify_entry_Ok in Hve as [[? ->]|(Hse & Hev & ->)]; [done|]. exists e. rewrite <- He. auto.
  - intros Hp. set (entries := map (fun id => default (missing_entry id) (rows_map es !! id)) REQUIRED_LAUNCH_GATES).
    assert (Forall (fun e => ge_status e = Pass /\ meets_gate_criterion (ge_id e) (ge_measured_value e) = true /\
      evidence_proved root e) entries) as He.
    { apply Forall_map. eapply Forall_impl; [exact Hp|]. intros id (e & Hin & Hid & Hs & Hc & Hev). cbn.
      rewrite (proj2 (rows_map_lookup es id e Hn) (conj Hin Hid)). cbn. by rewrite Hid. }
    exists (MkGateReport (map verified_entry entries)). split.
    + eexists. split; [|reflexivity]. apply Forall2_fmap_r. apply Forall_Forall2_diag. eapply Forall_impl; [exact He|].
      intros e (Hs & Hc & Hev). apply verify_entry_Ok. auto.
    + apply ready_iff. cbn [gr_entries]. split; [unfold entries; by rewrite !length_map|].
      apply Forall_map. eapply Forall_impl; [exact He|]. intros e (Hs & Hc & Hev). by apply measured_iff.
Qed.

(** C22: A launch is ready exactly when the report parses and every required gate
    has a PASS row whose value meets the gate's threshold and whose evidence
    names, by a nonzero SHA-256, a file read at a path that stays under the
    evidence directory; a report that was only parsed is never ready, and a
    report is ready exactly when none of its sixteen gates counts as blocked. *)
Theorem launch_ready_iff (tsv root : bytes) :
  ((exists r, gate_check tsv root = Ok r /\ launch_ready r = true) <->
   exists rows es, lines tsv = GATE_HEADER :: rows /\ map row_of (data_rows rows) = map Some es /\
     NoDup (map ge_id es) /\ Forall (gate_passed root es) REQUIRED_LAUNCH_GATES) /\
  (forall r, parse_tsv tsv = Ok r -> launch_ready r = false /\ blocked_count r = 16%nat) /\
  (forall r, gate_check tsv root = Ok r -> length (gr_entries r) = 16%nat /\ (launch_ready r = true <-> blocked_count r = 0%nat)).
Proof.
  split; [|split].
  - unfold gate_check. setoid_rewrite res_bind_Ok. setoid_rewrite parse_Ok. split.
    + intros (r & (r0 & (rows & es & Hl & Er & Hn & ->) & Hv) & Hr). exists rows, es. do 3 (split; [done|]).
      apply report_launches; [done|by eapply rows_unverified|]. by exists r.
    + intros (rows & es & Hl & Er & Hn & Hp). apply report_launches in Hp as (r & Hv & Hr); [|done|by eapply rows_unverified].
      exists r. split; [|done]. exists (gate_report_of es). split; [|done]. by exists rows, es.
  - intros r (rows & es & _ & Er & Hn & ->)%parse_Ok. apply rows_unverified in Er as Hf.
    assert (Forall (fun e => is_measured_pass e = false) (gr_entries (gate_report_of es))) as Hb.
    { apply Forall_map, Forall_forall. intros id _. cbn. destruct (report_entry es id Hn Hf) as (_ & Hu & _).
      unfold is_measured_pass. rewrite Hu. by destruct (bool_decide _). }
    split.
    + apply not_true_iff_false. intros [_ Ht]%ready_iff. destruct (gr_entries (gate_report_of es)) as [|e l] eqn:Eg; [done|].
      apply Forall_cons in Hb as [Hb _], Ht as [Ht _]. congruence.
    + unfold blocked_count. rewrite filter_all by done. unfold gate_report_of. cbn [gr_entries]. by rewrite length_map.
  - intros r (r0 & (rows & es & _ & _ & _ & ->)%parse_Ok & Hv)%res_bind_Ok.
    apply res_bind_Ok in Hv as (es' & Hv%verify_entries_Ok%Forall2_length & [= <-]). cbn [gr_entries gate_report_of] in *.
    rewrite length_map in Hv. split; [done|]. rewrite ready_iff. unfold blocked_count. cbn [gr_entries]. split.
    + intros [_ Hf]. rewrite filter_none; [done|]. eapply Forall_impl; [exact Hf|]. intros e He. by rewrite He.
    + intros Hz%nil_length_inv. split; [done|]. apply Forall_forall. intros e Hin. apply not_false_iff_true. intros Hb.
      assert (e ∈ filter (fun e => is_measured_pass e = false) es') as Hx by (by apply list_elem_of_filter).
      rewrite Hz in Hx. by apply elem_of_nil in Hx.
Qed.

(** The evidence files a check reads: the paths it hands to the file system. *)
Lemma evidence_under_root root path : safe_path path -> root <> [] -> last root <> Some x2f ->
  path_join root path = root ++ x2f :: path.
Proof.
  intros (Hne & Hh & _) Hr Hl. unfold path_join, is_absolute. destruct path as [|b path]; [done|]. cbn [starts_with].
  rewrite bool_decide_eq_false_2 by (intros ->; by destruct Hh). rewrite decide_False by naive_solver. done.
Qed.
End launch.

(** The reports of the crate's tests. *)
Definition sample_value (id : bytes) : bytes :=
  if decide (id = str "proof-size") then str "524288" else if decide (id = str "x86-latency") then str "500"
  else if decide (id = str "arm-latency") then str "2000" else if decide (id = str "peak-memory") then str "268435456"
  else if decide (id = str "block-weight") then str "2500" else if decide (id = str "evm-gas") then str "5000"
  else if decide (id = str "full-validity-invalid-block-rejection") then str "1000/1000"
  else if decide (id = str "volume-100k") then str "100000" else if decide (id = str "soak-90-day") then str "90"
  else str "complete".
Definition sample_file : bytes := str "reproducible gate evidence".
Definition sample_fs : FileSystem := fun path =>
  if decide (path = str "gates/evidence.bin") then inl sample_file else inr (str "not found").
Definition sample_evidence : bytes :=
  str "sha256:" ++ Hash32_to_hex (@hash_bytes toy_sha256 sample_file) ++ str "@evidence.bin".
Definition sample_tsv (value : bytes -> bytes) : bytes :=
  GATE_HEADER ++ [newline_byte] ++ concat (map (fun id =>
    id ++ [tab] ++ str "PASS" ++ [tab] ++ value id ++ [tab] ++ sample_evidence ++ [x0d; newline_byte]) REQUIRED_LAUNCH_GATES).

Example launch_ready_sample : match @gate_check toy_sha256 sample_fs (sample_tsv sample_value) (str "gates") with
  | Ok r => launch_ready r = true
  | _ => False
  end.
Proof. by vm_compute. Qed.
Example launch_blocked_sample :
  match @gate_check toy_sha256 sample_fs
    (sample_tsv (fun id => if decide (id = str "proof-size") then str "524289" else sample_value id)) (str "gates") with
  | Ok r => launch_ready r = false /\ blocked_count r = 1%nat
  | _ => False
  end.
Proof. by vm_compute. Qed.
