(* ===== verification/BurnAccumulator.v ===== *)
(** The burn accumulator: [crates/usdd-core/src/burn_accumulator.rs].

    A Merkle tree of fixed depth 64 whose occupied leaves are the prefix
    [0 .. burn_count).  The code folds layers of a vector; the specification
    [subtree] is the complete sparse tree over all [2^64] positions.  The
    theorems say that the root and every proof are those of [subtree], that
    every index in the prefix has an accepted proof, and that an accepted proof
    is the tree's own or names a SHA-256 collision. *)

From S2P Require Import Prelude Encoding Params Hashing.

Local Open Scope Z_scope.

Definition BURN_ACCUMULATOR_DEPTH : nat := 64.

Inductive BurnAccumulatorError : Type :=
| WrongDepth (value : nat)
| TooManyLeaves
| IndexOutOfRange.

Record BurnProof : Type := MkBurnProof {
  bp_siblings : list Hash32;
  bp_length : (length bp_siblings =? BURN_ACCUMULATOR_DEPTH)%nat = true
}.

Record BurnAccumulator : Type := MkBurnAccumulator { ba_leaves : list Hash32 }.

(** Collect 64 siblings into the fixed array. *)
Definition BurnProof_try (l : list Hash32) : option BurnProof :=
  match (length l =? BURN_ACCUMULATOR_DEPTH)%nat as b
    return (length l =? BURN_ACCUMULATOR_DEPTH)%nat = b -> option BurnProof with
  | true => fun H => Some (MkBurnProof l H)
  | false => fun _ => None
  end eq_refl.

(** The 65 bytes hashed for an inner node. *)
Definition node_preimage (left right : Hash32) : bytes := x01 :: left ++ right.

#[export] Instance BurnProof_encode : CanonicalEncode BurnProof := fun p =>
  encode_seq (bp_siblings p).
#[export] Instance BurnProof_decode : CanonicalDecode BurnProof :=
  l ← decode_seq BURN_ACCUMULATOR_DEPTH; lift (expect (BurnProof_try l)).

Section accumulator.
Context {H : Sha256}.

Definition burn_accumulator_node (left right : Hash32) : Hash32 :=
  hash_bytes (node_preimage left right).

(** [for _ in 0..height { value = node(value, value) }] *)
Fixpoint empty_loop (height : nat) : Hash32 :=
  match height with
  | O => hash_bytes [x00]
  | S height => let value := empty_loop height in burn_accumulator_node value value
  end.

Definition burn_accumulator_empty (height : nat) : res BurnAccumulatorError Hash32 :=
  fail_if (BURN_ACCUMULATOR_DEPTH <? height)%nat (WrongDepth height);;
  Ok (empty_loop height).

(** The fold over [siblings.iter().enumerate()]. *)
Fixpoint compute_root_from (level : nat) (siblings : list Hash32) (node : Hash32)
    (index : u64) : Hash32 :=
  match siblings with
  | [] => node
  | sibling :: siblings =>
      compute_root_from (S level) siblings
        (if Z.land (Z.shiftr index (Z.of_nat level)) 1 =? 0
         then burn_accumulator_node node sibling
         else burn_accumulator_node sibling node) index
  end.

Definition BurnProof_compute_root (p : BurnProof) (leaf : Hash32) (index : u64) : Hash32 :=
  compute_root_from 0 (bp_siblings p) leaf index.

Definition BurnProof_verify (p : BurnProof) (root leaf : Hash32) (index : u64) : bool :=
  bool_decide (BurnProof_compute_root p leaf index = root).

Definition BurnAccumulator_new : BurnAccumulator := MkBurnAccumulator [].

Definition BurnAccumulator_from_leaves (leaves : list Hash32)
    : res BurnAccumulatorError BurnAccumulator :=
  match uint_try 64 (Z.of_nat (length leaves)) with
  | None => Err TooManyLeaves
  | Some _ => Ok (MkBurnAccumulator leaves)
  end.

Definition BurnAccumulator_burn_count (a : BurnAccumulator) : u64 :=
  uint_wrap 64 (Z.of_nat (length (ba_leaves a))).

Definition BurnAccumulator_append (a : BurnAccumulator) (leaf : Hash32)
    : res BurnAccumulatorError (u64 * BurnAccumulator) :=
  index ← ok_or (uint_try 64 (Z.of_nat (length (ba_leaves a)))) TooManyLeaves;
  Ok (index, MkBurnAccumulator (ba_leaves a ++ [leaf])).

(** One iteration of the loop of [root_for_leaves]; [None] is a panic. *)
Definition root_layer (height : nat) (layer : list Hash32) : option (list Hash32) :=
  mapM (fun '(l, r) =>
    right ← match r with
            | Some r => Some r
            | None => match burn_accumulator_empty height with Ok e => Some e | _ => None end
            end;
    Some (burn_accumulator_node l right)) (chunks2 layer).

Fixpoint root_loop (count height : nat) (layer : list Hash32) : option (list Hash32) :=
  match count with
  | O => Some layer
  | S count => next ← root_layer height layer; root_loop count (S height) next
  end.

Definition root_for_leaves (leaves : list Hash32) : option Hash32 :=
  match leaves with
  | [] => match burn_accumulator_empty BURN_ACCUMULATOR_DEPTH with Ok e => Some e | _ => None end
  | _ => layer ← root_loop BURN_ACCUMULATOR_DEPTH 0 leaves; head layer
  end.

Definition BurnAccumulator_root (a : BurnAccumulator) : option Hash32 :=
  root_for_leaves (ba_leaves a).

(** One layer of the loop of [proof]. *)
Definition proof_layer (height : nat) (layer : list Hash32)
    : res BurnAccumulatorError (list Hash32) :=
  if (1 <? length layer)%nat then
    mapM (fun '(l, r) =>
      e ← burn_accumulator_empty height;
      Ok (burn_accumulator_node l (default e r))) (chunks2 layer)
  else
    match layer with
    | [] => Panic
    | first :: rest =>
        e ← burn_accumulator_empty height;
        Ok (burn_accumulator_node first e :: rest)
    end.

Fixpoint proof_loop (count height : nat) (layer : list Hash32) (position : nat)
    : res BurnAccumulatorError (list Hash32) :=
  match count with
  | O => Ok []
  | S count =>
      sibling ← match layer !! Nat.lxor position 1 with
                | Some s => Ok s
                | None => burn_accumulator_empty height
                end;
      next ← proof_layer height layer;
      rest ← proof_loop count (S height) next (Nat.div2 position);
      Ok (sibling :: rest)
  end.

Definition BurnAccumulator_proof `{PtrWidth} (a : BurnAccumulator) (index : u64)
    : res BurnAccumulatorError BurnProof :=
  index_usize ← ok_or (usize_try index) IndexOutOfRange;
  fail_if (Z.of_nat (length (ba_leaves a)) <=? uval index_usize) IndexOutOfRange;;
  siblings ← proof_loop BURN_ACCUMULATOR_DEPTH 0 (ba_leaves a) (Z.to_nat (uval index_usize));
  expect (BurnProof_try siblings).

(** ** Specification: the complete sparse tree *)

(** The hash of the subtree of height [h] at position [p] of its row. *)
Fixpoint subtree (leaves : list Hash32) (h p : nat) : Hash32 :=
  match h with
  | O => default (empty_loop 0) (leaves !! p)
  | S h => burn_accumulator_node (subtree leaves h (2 * p)) (subtree leaves h (2 * p + 1))
  end.

(** The siblings on the path from position [p] of row [h], [n] rows up. *)
Fixpoint path_siblings (leaves : list Hash32) (n h p : nat) : list Hash32 :=
  match n with
  | O => []
  | S n => subtree leaves h (Nat.lxor p 1) :: path_siblings leaves n (S h) (Nat.div2 p)
  end.

(** What [compute_root] hashes on its way up, and what the tree hashes there. *)
Fixpoint path_preimages (level : nat) (siblings : list Hash32) (node : Hash32)
    (index : u64) : list bytes :=
  match siblings with
  | [] => []
  | sibling :: siblings =>
      let pre := if Z.land (Z.shiftr index (Z.of_nat level)) 1 =? 0
                 then node_preimage node sibling else node_preimage sibling node in
      pre :: path_preimages (S level) siblings (hash_bytes pre) index
  end.
Fixpoint tree_preimages (leaves : list Hash32) (n h p : nat) : list bytes :=
  match n with
  | O => []
  | S n =>
      let q := Nat.div2 p in
      node_preimage (subtree leaves h (2 * q)) (subtree leaves h (2 * q + 1))
      :: tree_preimages leaves n (S h) q
  end.

(** A collision at one of the levels of a proof. *)
Definition proof_collision (leaves : list Hash32) (level : nat) (siblings : list Hash32)
    (node : Hash32) (index : u64) : Prop :=
  exists x y, (x, y) ∈ zip (path_preimages level siblings node index)
                (tree_preimages leaves (length siblings) level
                   (Z.to_nat (Z.shiftr index (Z.of_nat level)))) /\ collision x y.
End accumulator.

Section accumulator_facts.
Context {H : Sha256}.

Lemma BurnProof_eq (p q : BurnProof) : bp_siblings p = bp_siblings q -> p = q.
Proof.
  destruct p as [p Hp], q as [q Hq]; cbn. intros ->. f_equal. apply Eqdep_dec.UIP_dec, bool_dec.
Qed.

Lemma BurnProof_try_Some l p : BurnProof_try l = Some p <-> bp_siblings p = l.
Proof.
  unfold BurnProof_try. split.
  - generalize (eq_refl (length l =? BURN_ACCUMULATOR_DEPTH)%nat).
    generalize (length l =? BURN_ACCUMULATOR_DEPTH)%nat at 2 3. intros [] e [=]; by subst.
  - intros <-. generalize (eq_refl (length (bp_siblings p) =? BURN_ACCUMULATOR_DEPTH)%nat).
    generalize (length (bp_siblings p) =? BURN_ACCUMULATOR_DEPTH)%nat at 2 3.
    intros [] e; [f_equal; by apply BurnProof_eq|].
    exfalso. destruct p as [p Hp]; cbn in *. congruence.
Qed.

Lemma BurnProof_try_length l :
  length l = BURN_ACCUMULATOR_DEPTH -> exists p, BurnProof_try l = Some p /\ bp_siblings p = l.
Proof.
  intros Hl%Nat.eqb_eq. exists (MkBurnProof l Hl). split; [by apply BurnProof_try_Some|done].
Qed.

Lemma empty_Ok h : (h <= 64)%nat -> burn_accumulator_empty h = Ok (empty_loop h).
Proof.
  intros Hh. unfold burn_accumulator_empty, BURN_ACCUMULATOR_DEPTH.
  by rewrite (proj2 (Nat.ltb_ge 64 h)).
Qed.

(** ** Layers of the code are rows of the tree *)

(** [layer] is the non-empty part of row [h]. *)
Definition row (leaves : list Hash32) (h : nat) (layer : list Hash32) : Prop :=
  forall p, default (empty_loop h) (layer !! p) = subtree leaves h p.

Definition next_layer (h : nat) (layer : list Hash32) : list Hash32 :=
  map (fun '(l, r) => burn_accumulator_node l (default (empty_loop h) r)) (chunks2 layer).

Lemma row_0 leaves : row leaves 0 leaves.
Proof. done. Qed.

Lemma row_next leaves h layer : row leaves h layer -> row leaves (S h) (next_layer h layer).
Proof.
  intros Hr p. unfold next_layer. change (map ?f ?l) with (f <$> l). rewrite list_lookup_fmap, chunks2_lookup.
  cbn [subtree]. rewrite <- !Hr. destruct (layer !! (2 * p)%nat) as [a|] eqn:E.
  - done.
  - apply lookup_ge_None in E. rewrite (lookup_ge_None_2 layer (2 * p + 1)) by lia. done.
Qed.

Lemma next_layer_nonempty h layer : layer <> [] -> next_layer h layer <> [].
Proof. destruct layer as [|a [|b l]]; [done|done|done]. Qed.

Lemma root_layer_Some h layer : (h <= 64)%nat -> root_layer h layer = Some (next_layer h layer).
Proof.
  intros Hh. unfold root_layer. apply option_mapM_Some. intros [a [b|]]; [done|].
  by rewrite empty_Ok.
Qed.

Lemma proof_layer_Ok h layer :
  (h <= 64)%nat -> layer <> [] -> proof_layer h layer = Ok (next_layer h layer).
Proof.
  intros Hh Hl. unfold proof_layer. destruct (Nat.ltb_spec 1 (length layer)).
  - apply res_mapM_Ok. intros [a b]. by rewrite empty_Ok.
  - destruct layer as [|a [|b l]]; [done| |cbn in *; lia]. by rewrite empty_Ok.
Qed.

Lemma root_loop_Some leaves n h layer :
  (n + h <= 65)%nat -> layer <> [] -> row leaves h layer ->
  exists top, root_loop n h layer = Some top /\ top <> [] /\ row leaves (n + h) top.
Proof.
  revert h layer. induction n as [|n IH]; intros h layer Hn Hl Hr; cbn [root_loop].
  - by exists layer.
  - rewrite root_layer_Some by lia. unfold mbind. cbn [option_bind].
    destruct (IH (S h) (next_layer h layer)) as (top & E & Ht & Hrow);
      [lia|by apply next_layer_nonempty|by apply row_next|].
    exists top. rewrite E. split; [done|]. split; [done|].
    by replace (S n + h)%nat with (n + S h)%nat by lia.
Qed.

Lemma subtree_0 leaves p : subtree leaves 0 p = default (empty_loop 0) (leaves !! p).
Proof. done. Qed.

Lemma subtree_nil h p : subtree [] h p = empty_loop h.
Proof.
  revert p. induction h as [|h IH]; intros p; [done|]. cbn [subtree]. by rewrite !IH.
Qed.

Lemma root_for_leaves_Some leaves : root_for_leaves leaves = Some (subtree leaves 64 0).
Proof.
  destruct leaves as [|l ls]; [by rewrite subtree_nil|]. unfold root_for_leaves.
  destruct (root_loop_Some (l :: ls) BURN_ACCUMULATOR_DEPTH 0 (l :: ls))
    as (top & E & Ht & Hr); [unfold BURN_ACCUMULATOR_DEPTH; lia|done|apply row_0|].
  rewrite E. unfold mbind. cbn [option_bind].
  specialize (Hr 0%nat). destruct top as [|t top]; [done|]. cbn [head].
  rewrite Nat.add_0_r in Hr. unfold BURN_ACCUMULATOR_DEPTH in Hr. by rewrite <- Hr.
Qed.

Lemma proof_loop_Ok leaves n h layer p :
  (n + h <= 65)%nat -> layer <> [] -> row leaves h layer ->
  proof_loop n h layer p = Ok (path_siblings leaves n h p).
Proof.
  revert h layer p. induction n as [|n IH]; intros h layer p Hn Hl Hr; [done|].
  cbn [proof_loop path_siblings]. rewrite proof_layer_Ok by (done || lia).
  pose proof (Hr (Nat.lxor p 1)) as Hs.
  destruct (layer !! Nat.lxor p 1) as [s|]; [|rewrite empty_Ok by lia];
    cbn in Hs |- *; rewrite IH by (lia || by apply next_layer_nonempty || by apply row_next);
    cbn; by rewrite Hs.
Qed.

(** ** Paths *)

Lemma lxor_1 p : Nat.lxor p 1 = if Nat.even p then S p else pred p.
Proof.
  pose proof (Nat.div2_odd p) as Hp. rewrite <- Nat.negb_even in Hp.
  assert (forall k, Nat.testbit 1 (S k) = false) as H1 by (intros k; apply Nat.bits_0).
  apply Nat.bits_inj. intros k. rewrite Nat.lxor_spec.
  destruct (Nat.even p) eqn:He; cbn [negb Nat.b2n] in Hp;
    [replace (S p) with (2 * Nat.div2 p + 1)%nat by lia
    |replace (pred p) with (2 * Nat.div2 p)%nat by lia];
    rewrite Hp at 1; rewrite ?Nat.add_0_r; destruct k as [|k];
    rewrite ?Nat.testbit_even_0, ?Nat.testbit_odd_0, ?Nat.testbit_even_succ',
      ?Nat.testbit_odd_succ', ?H1, ?xorb_false_r; done.
Qed.

(** A node of the tree from a child and its sibling. *)
Lemma tree_step leaves h p :
  node_preimage (subtree leaves h (2 * Nat.div2 p)) (subtree leaves h (2 * Nat.div2 p + 1)) =
    if Nat.even p then node_preimage (subtree leaves h p) (subtree leaves h (Nat.lxor p 1))
    else node_preimage (subtree leaves h (Nat.lxor p 1)) (subtree leaves h p).
Proof.
  rewrite lxor_1. pose proof (Nat.div2_odd p) as Hp. rewrite <- Nat.negb_even in Hp.
  destruct (Nat.even p); cbn [negb Nat.b2n] in Hp.
  - replace (2 * Nat.div2 p)%nat with p by lia. by replace (p + 1)%nat with (S p) by lia.
  - replace (2 * Nat.div2 p)%nat with (pred p) by lia. by replace (pred p + 1)%nat with p by lia.
Qed.

Lemma subtree_parent leaves h p :
  subtree leaves (S h) (Nat.div2 p) =
    if Nat.even p then burn_accumulator_node (subtree leaves h p) (subtree leaves h (Nat.lxor p 1))
    else burn_accumulator_node (subtree leaves h (Nat.lxor p 1)) (subtree leaves h p).
Proof.
  cbn [subtree]. unfold burn_accumulator_node. rewrite tree_step. by destruct (Nat.even p).
Qed.

Lemma burn_accumulator_node_inj a b c d :
  burn_accumulator_node a b = burn_accumulator_node c d ->
  (a = c /\ b = d) \/ collision (node_preimage a b) (node_preimage c d).
Proof.
  intros Hh. destruct (decide (node_preimage a b = node_preimage c d)) as [He|]; [left|by right].
  injection He as He. apply app_eq_length_l in He as [E1 E2]; [|by rewrite !arr_length].
  split; by apply array_eq.
Qed.

(** The position of [index] in row [level]. *)
Definition at_level (index : u64) (level : nat) : nat :=
  Z.to_nat (Z.shiftr index (Z.of_nat level)).

Lemma low_bit_even (index : u64) level :
  (Z.land (Z.shiftr index (Z.of_nat level)) 1 =? 0) = Nat.even (at_level index level).
Proof. apply shiftr_low_bit, uint_range. Qed.

Lemma at_level_S (index : u64) level : at_level index (S level) = Nat.div2 (at_level index level).
Proof. apply shiftr_next, uint_range. Qed.

Lemma at_level_64 (index : u64) : at_level index 64 = 0%nat.
Proof.
  unfold at_level. rewrite Z.shiftr_div_pow2, Z.div_small by (apply uint_range || lia). done.
Qed.

Lemma at_level_0 (index : u64) : at_level index 0 = Z.to_nat index.
Proof. unfold at_level. by rewrite Z.shiftr_0_r. Qed.

(** The tree's own siblings lead to the tree's node. *)
Lemma compute_root_path leaves n level (index : u64) :
  compute_root_from level (path_siblings leaves n level (at_level index level))
    (subtree leaves level (at_level index level)) index
  = subtree leaves (level + n) (at_level index (level + n)).
Proof.
  revert level. induction n as [|n IH]; intros level; [by rewrite Nat.add_0_r|].
  cbn [path_siblings compute_root_from]. rewrite low_bit_even, <- subtree_parent, <- at_level_S, IH.
  by replace (S level + n)%nat with (level + S n)%nat by lia.
Qed.

(** Any siblings that lead to the tree's node are the tree's own, or some step
    of the computation collides with the tree. *)
Lemma compute_root_sound leaves siblings level node (index : u64) :
  compute_root_from level siblings node index
    = subtree leaves (level + length siblings) (at_level index (level + length siblings)) ->
  (node = subtree leaves level (at_level index level) /\
   siblings = path_siblings leaves (length siblings) level (at_level index level))
  \/ proof_collision leaves level siblings node index.
Proof.
  revert level node. induction siblings as [|s ss IH]; intros level node; cbn [length].
  - rewrite Nat.add_0_r. by left.
  - cbn [compute_root_from]. intros Hc.
    replace (level + S (length ss))%nat with (S level + length ss)%nat in Hc by lia.
    unfold proof_collision. cbn [path_preimages tree_preimages length path_siblings zip zip_with].
    change (Z.to_nat (Z.shiftr index (Z.of_nat level))) with (at_level index level).
    rewrite tree_step. apply IH in Hc as [[Hn Hs]|(x & y & Hin & Hxy)].
    + rewrite at_level_S in Hn, Hs. rewrite subtree_parent in Hn. rewrite low_bit_even in *.
      destruct (Nat.even (at_level index level));
        apply burn_accumulator_node_inj in Hn as [[Hn1 Hn2]|Hcol];
        try (left; split; [done|]; congruence);
        right; eexists _, _; (split; [by left|done]).
    + right. exists x, y. split; [|done]. right.
      rewrite <- at_level_S. revert Hin. by destruct (_ =? 0).
Qed.

Lemma path_siblings_length leaves n h p : length (path_siblings leaves n h p) = n.
Proof. revert h p. induction n; intros; cbn; [done|]. by rewrite IHn. Qed.

(** ** Appending changes one path *)

Lemma div2_double p : Nat.div2 (2 * p) = p /\ Nat.div2 (2 * p + 1) = p.
Proof.
  split; [apply Nat.div2_double|]. rewrite Nat.add_1_r. apply Nat.div2_succ_double.
Qed.

Lemma subtree_append leaves x h p :
  p <> Nat.iter h Nat.div2 (length leaves) -> subtree (leaves ++ [x]) h p = subtree leaves h p.
Proof.
  revert p. induction h as [|h IH]; intros p Hp; cbn [subtree Nat.iter nat_rect] in *.
  - destruct (decide (p < length leaves)%nat).
    + by rewrite lookup_app_l.
    + rewrite (lookup_ge_None_2 leaves) by lia.
      rewrite (lookup_ge_None_2 (_ ++ _)); [done|]. rewrite length_app. cbn. lia.
  - pose proof (div2_double p) as [H0 H1].
    rewrite !IH; [done| |]; intros E; apply Hp; change (nat_rect _ _ _ h) with
      (Nat.iter h Nat.div2 (length leaves)) in *; rewrite <- E; done.
Qed.

Lemma path_siblings_append leaves x n h :
  path_siblings (leaves ++ [x]) n h (Nat.iter h Nat.div2 (length leaves)) =
  path_siblings leaves n h (Nat.iter h Nat.div2 (length leaves)).
Proof.
  revert h. induction n as [|n IH]; intros h; [done|]. cbn [path_siblings]. f_equal.
  - apply subtree_append. rewrite lxor_1.
    generalize (Nat.iter h Nat.div2 (length leaves)). intros q.
    destruct (Nat.even q) eqn:E; [lia|]. destruct q; [done|cbn; lia].
  - apply (IH (S h)).
Qed.

Lemma compute_root_append leaves x n (index : u64) :
  uval index = Z.of_nat (length leaves) -> at_level index n = 0%nat ->
  compute_root_from 0 (path_siblings leaves n 0 (length leaves)) x index
  = subtree (leaves ++ [x]) n 0.
Proof.
  intros Hi Hn. pose proof (path_siblings_append leaves x n 0) as Hp. cbn [Nat.iter nat_rect] in Hp.
  rewrite <- Hp. clear Hp.
  assert (at_level index 0 = length leaves) as Hl by (rewrite at_level_0, Hi; lia).
  pose proof (compute_root_path (leaves ++ [x]) n 0 index) as Hc.
  rewrite Nat.add_0_l, Hn, Hl in Hc. rewrite <- Hc. f_equal.
  cbn [subtree]. by rewrite lookup_app_r, Nat.sub_diag by lia.
Qed.

(** What an accepted proof means. *)
Lemma verify_sound leaves (p : BurnProof) leaf (index : u64) :
  BurnProof_verify p (subtree leaves 64 0) leaf index = true ->
  (leaf = default (hash_bytes [x00]) (leaves !! Z.to_nat index) /\
   bp_siblings p = path_siblings leaves 64 0 (Z.to_nat index))
  \/ proof_collision leaves 0 (bp_siblings p) leaf index.
Proof.
  unfold BurnProof_verify, BurnProof_compute_root. intros Hv%bool_decide_eq_true.
  pose proof (bp_length p) as Hl%Nat.eqb_eq. unfold BURN_ACCUMULATOR_DEPTH in Hl.
  rewrite <- at_level_0.
  pose proof (compute_root_sound leaves (bp_siblings p) 0 leaf index) as Hs.
  rewrite Hl, Nat.add_0_l, at_level_64 in Hs. by apply Hs.
Qed.

(** A proof of the first free position computes the root after an append there. *)
Lemma append_by_proof leaves (p : BurnProof) leaf (index : u64) :
  BurnProof_verify p (subtree leaves 64 0) (hash_bytes [x00]) index = true ->
  uval index = Z.of_nat (length leaves) ->
  BurnProof_compute_root p leaf index = subtree (leaves ++ [leaf]) 64 0
  \/ proof_collision leaves 0 (bp_siblings p) (hash_bytes [x00]) index.
Proof.
  intros [[_ Hs]|Hc]%verify_sound Hi; [left|by right].
  unfold BurnProof_compute_root. rewrite Hs, Hi, Nat2Z.id.
  apply compute_root_append; [done|apply at_level_64].
Qed.

Lemma proof_Ok `{PtrWidth} a (index : u64) :
  Z.of_nat (length (ba_leaves a)) <= 2 ^ Zpos usize_bits ->
  index < Z.of_nat (length (ba_leaves a)) ->
  exists p, BurnAccumulator_proof a index = Ok p /\
    bp_siblings p = path_siblings (ba_leaves a) 64 0 (Z.to_nat index).
Proof.
  intros Hu Hi. pose proof (uint_range index). unfold BurnAccumulator_proof, usize_try.
  destruct (uint_try usize_bits index) as [i|] eqn:Ei.
  2: { apply uint_try_None in Ei. lia. }
  apply uint_try_Some in Ei. cbn [ok_or mbind res_bind]. rewrite Ei.
  rewrite (proj2 (Z.leb_gt _ _)) by lia. cbn [fail_if].
  rewrite (proof_loop_Ok (ba_leaves a));
    [|unfold BURN_ACCUMULATOR_DEPTH; lia| |apply row_0].
  2: { intros E. rewrite E in Hi. cbn in Hi. lia. }
  destruct (BurnProof_try_length (path_siblings (ba_leaves a) BURN_ACCUMULATOR_DEPTH 0 (Z.to_nat index)))
    as (p & Ep & Es); [apply path_siblings_length|].
  exists p. split; [|done]. unfold mbind. cbn [res_bind]. by rewrite Ep.
Qed.

End accumulator_facts.

#[export] Program Instance BurnProof_codec : Codec BurnProof := {| valid := fun _ => True |}.
Next Obligation.
  intros d p d'. unfold decode_from, BurnProof_decode, encode, BurnProof_encode.
  rewrite dec_bind_Ok. setoid_rewrite decode_seq_spec. setoid_rewrite lift_Ok.
  setoid_rewrite expect_Ok. setoid_rewrite BurnProof_try_Some. split.
  - intros (l & d1 & [_ Hr] & <- & ->). done.
  - intros [_ Hr]. exists (bp_siblings p), d'. split; [|done]. split; [|done].
    split; [apply Nat.eqb_eq, bp_length|]. by apply Forall_forall.
Qed.
Next Obligation. intros p _. apply encode_seq_total. by apply Forall_forall. Qed.

(** The trees have 2^64 leaves: keep unification from unfolding them. *)
#[global] Opaque subtree path_siblings empty_loop.

(** ** Properties *)

Section accumulator_properties.
Context {H : Sha256} {W : PtrWidth}.

(** The proof of a stored leaf is accepted, and there are no others. *)
Lemma proof_verifies (a : BurnAccumulator) (index : u64) (leaf : Hash32) :
  Z.of_nat (length (ba_leaves a)) <= 2 ^ Zpos usize_bits -> ba_leaves a !! Z.to_nat index = Some leaf ->
  exists p, BurnAccumulator_proof a index = Ok p /\ BurnProof_verify p (subtree (ba_leaves a) 64 0) leaf index = true.
Proof.
  intros Hmem E. pose proof (uint_range index). apply lookup_lt_Some in E as Hlt.
  destruct (proof_Ok a index) as (p & Hp & Hs); [done|lia|].
  exists p. split; [done|]. unfold BurnProof_verify, BurnProof_compute_root.
  apply bool_decide_eq_true. pose proof (compute_root_path (ba_leaves a) 64 0 index) as Hc.
  rewrite Nat.add_0_l, at_level_64, at_level_0, <- Hs, subtree_0 in Hc. by rewrite E in Hc.
Qed.
Lemma proof_outside (a : BurnAccumulator) (index : u64) :
  ba_leaves a !! Z.to_nat index = None -> BurnAccumulator_proof a index = Err IndexOutOfRange.
Proof.
  intros E. pose proof (uint_range index). apply lookup_ge_None in E. unfold BurnAccumulator_proof, usize_try.
  destruct (uint_try usize_bits index) as [i|] eqn:Ei; [|reflexivity].
  apply uint_try_Some in Ei. cbn [ok_or mbind res_bind]. by rewrite Ei, (proj2 (Z.leb_le _ _)) by lia.
Qed.

(** C39: The root is that of the complete sparse tree of depth 64, and [proof]
    succeeds exactly on the occupied prefix, where the proof it returns is
    accepted for the leaf stored at that index; it never panics. *)
Theorem burn_proof_complete (a : BurnAccumulator) (index : u64)
    (Hmem : Z.of_nat (length (ba_leaves a)) <= 2 ^ Zpos usize_bits) :
  let root := subtree (ba_leaves a) BURN_ACCUMULATOR_DEPTH 0 in
  BurnAccumulator_root a = Some root /\
  match ba_leaves a !! Z.to_nat index with
  | Some leaf => exists p, BurnAccumulator_proof a index = Ok p /\
                   BurnProof_verify p root leaf index = true
  | None => BurnAccumulator_proof a index = Err IndexOutOfRange
  end.
Proof.
  intros root. split; [by unfold BurnAccumulator_root; rewrite root_for_leaves_Some|].
  destruct (ba_leaves a !! Z.to_nat index) as [leaf|] eqn:E; [by apply proof_verifies|by apply proof_outside].
Qed.

(** C19: A proof accepted against the accumulator's root shows the leaf stored at
    that index (the empty leaf past the prefix) and carries the tree's own
    siblings, unless one of its 64 hashing steps collides with the tree's. *)
Theorem burn_proof_sound (a : BurnAccumulator) (p : BurnProof) (root leaf : Hash32) (index : u64)
    (Hroot : BurnAccumulator_root a = Some root)
    (Hv : BurnProof_verify p root leaf index = true) :
  (leaf = default (hash_bytes [x00]) (ba_leaves a !! Z.to_nat index) /\
   bp_siblings p = path_siblings (ba_leaves a) BURN_ACCUMULATOR_DEPTH 0 (Z.to_nat index))
  \/ proof_collision (ba_leaves a) 0 (bp_siblings p) leaf index.
Proof.
  unfold BurnAccumulator_root in Hroot. rewrite root_for_leaves_Some in Hroot.
  apply (inj Some) in Hroot as <-. unfold BURN_ACCUMULATOR_DEPTH. by apply verify_sound.
Qed.

(** Appending pushes the leaf at index [burn_count]; a proof that this
    position was empty under the old root proves the new leaf under the new
    root, unless it collides with the old tree. *)
Theorem burn_append_by_proof (a a' : BurnAccumulator) (p : BurnProof) (root leaf : Hash32) (index : u64)
    (Happ : BurnAccumulator_append a leaf = Ok (index, a'))
    (Hroot : BurnAccumulator_root a = Some root)
    (Hv : BurnProof_verify p root (hash_bytes [x00]) index = true) :
  index = BurnAccumulator_burn_count a /\ ba_leaves a' = ba_leaves a ++ [leaf] /\
  (BurnAccumulator_root a' = Some (BurnProof_compute_root p leaf index)
   \/ proof_collision (ba_leaves a) 0 (bp_siblings p) (hash_bytes [x00]) index).
Proof.
  unfold BurnAccumulator_append in Happ. inv_ok. apply uint_try_Some in Hx.
  unfold BurnAccumulator_root in *. rewrite root_for_leaves_Some in Hroot |- *.
  apply (inj Some) in Hroot as <-. cbn [ba_leaves]. split; [|split; [done|]].
  - apply uint_eq. unfold BurnAccumulator_burn_count. rewrite uval_wrap_small; [done|].
    rewrite <- Hx. apply uint_range.
  - apply (append_by_proof _ _ leaf) in Hv as [->|Hc]; [by left|by right|done].
Qed.
End accumulator_properties.

(** Evaluations with the concrete digest, on a tree of three leaves. *)
Definition three_leaves : BurnAccumulator :=
  MkBurnAccumulator [array_rep 32 x11; array_rep 32 x22; array_rep 32 x33].

Lemma burn_proof_complete_witness :
  Z.of_nat (length (ba_leaves three_leaves)) <= 2 ^ 64 /\
  exists p, @BurnAccumulator_proof toy_sha256 64%positive three_leaves (uint_wrap 64 1) = Ok p.
Proof.
  split; [vm_compute; discriminate|].
  destruct (@burn_proof_complete toy_sha256 64%positive three_leaves (uint_wrap 64 1)
    ltac:(vm_compute; discriminate)) as [_ (p & Hp & _)].
  exists p. exact Hp.
Defined.

Definition three_proof : BurnProof :=
  match @BurnAccumulator_proof toy_sha256 64%positive three_leaves (uint_wrap 64 1) with
  | Ok p => p
  | _ => MkBurnProof (repeat ZERO 64) eq_refl
  end.
Definition three_root : Hash32 :=
  default ZERO (@BurnAccumulator_root toy_sha256 three_leaves).

Lemma three_root_ok : @BurnAccumulator_root toy_sha256 three_leaves = Some three_root.
Proof. by unfold BurnAccumulator_root, three_root, BurnAccumulator_root; rewrite root_for_leaves_Some. Qed.

Lemma burn_proof_sound_witness :
  @BurnProof_verify toy_sha256 three_proof three_root (array_rep 32 x22) (uint_wrap 64 1) = true /\
  ((array_rep 32 x22 = default (@hash_bytes toy_sha256 [x00]) (ba_leaves three_leaves !! 1%nat) /\
    bp_siblings three_proof = @path_siblings toy_sha256 (ba_leaves three_leaves) BURN_ACCUMULATOR_DEPTH 0 1)
   \/ @proof_collision toy_sha256 (ba_leaves three_leaves) 0 (bp_siblings three_proof)
        (array_rep 32 x22) (uint_wrap 64 1)).
Proof.
  assert (@BurnProof_verify toy_sha256 three_proof three_root (array_rep 32 x22) (uint_wrap 64 1) = true)
    as Hv by (vm_compute; reflexivity).
  split; [exact Hv|]. exact (@burn_proof_sound toy_sha256 _ _ _ _ _ three_root_ok Hv).
Defined.

(** The siblings of the first free position, read off the tree after the append. *)
Definition four_leaves : BurnAccumulator := MkBurnAccumulator (ba_leaves three_leaves ++ [array_rep 32 x44]).
Definition append_proof : BurnProof :=
  match @BurnAccumulator_proof toy_sha256 64%positive four_leaves (uint_wrap 64 3) with
  | Ok p => p
  | _ => MkBurnProof (repeat ZERO 64) eq_refl
  end.

Lemma burn_append_by_proof_witness :
  @BurnProof_verify toy_sha256 append_proof three_root (@hash_bytes toy_sha256 [x00]) (uint_wrap 64 3) = true /\
  (@BurnAccumulator_root toy_sha256 four_leaves
     = Some (@BurnProof_compute_root toy_sha256 append_proof (array_rep 32 x44) (uint_wrap 64 3))
   \/ @proof_collision toy_sha256 (ba_leaves three_leaves) 0 (bp_siblings append_proof)
        (@hash_bytes toy_sha256 [x00]) (uint_wrap 64 3)).
Proof.
  assert (@BurnProof_verify toy_sha256 append_proof three_root (@hash_bytes toy_sha256 [x00])
            (uint_wrap 64 3) = true) as Hv by (vm_compute; reflexivity).
  split; [exact Hv|].
  assert (BurnAccumulator_append three_leaves (array_rep 32 x44) = Ok (uint_wrap 64 3, four_leaves))
    as Happ by (unfold BurnAccumulator_append;
                by rewrite (proj2 (uint_try_Some 64 (Z.of_nat (length (ba_leaves three_leaves))) (uint_wrap 64 3)) eq_refl)).
  exact (proj2 (proj2 (@burn_append_by_proof toy_sha256 _ _ _ _ _ _ Happ three_root_ok Hv))).
Defined.
