(* ===== verification/Merkle.v ===== *)
(** Ordered Merkle trees: [crates/usdd-core/src/merkle.rs].

    An odd final node is paired with itself.  The specification is the tower of
    rows [pair_up]: the theorems say that [merkle_root] is the single node of
    row [log2_up n], that [merkle_proof] never fails inside the tree and is
    accepted by [verify], and that an accepted proof of the right leaf count is
    the tree's own or names a SHA-256 collision. *)

From S2P Require Import Prelude Encoding Params Hashing.

Local Open Scope Z_scope.

Record MerkleProof : Type := MkMerkleProof {
  mp_leaf_index : u64;
  mp_leaf_count : u64;
  mp_siblings : list Hash32
}.

Inductive MerkleError : Type :=
| EmptyTree
| MerkleIndexOutOfRange
| MalformedProof.

#[export] Instance MerkleProof_encode : CanonicalEncode MerkleProof := fun p =>
  encode (mp_leaf_index p) +++ encode (mp_leaf_count p) +++
  match uint_try 32 (Z.of_nat (length (mp_siblings p))) with
  | Some count => encode count
  | None => None
  end +++ encode_seq (mp_siblings p).

#[export] Instance MerkleProof_decode : CanonicalDecode MerkleProof :=
  leaf_index ← Decoder_u64;
  leaf_count ← Decoder_u64;
  sibling_count ← Decoder_u32;
  lift (fail_if (64 <? uval sibling_count) (InvalidLength 64 (Z.to_nat (uval sibling_count))));;
  siblings ← decode_seq (Z.to_nat (uval sibling_count));
  mret (MkMerkleProof leaf_index leaf_count siblings).

Section merkle.
Context {H : Sha256}.

Definition merkle_leaf (data : bytes) : option Hash32 := domain_hash MerkleLeaf data.
Definition empty_merkle_root : option Hash32 := domain_hash MerkleEmptyLeaf [].
Definition merkle_node (left right : Hash32) : option Hash32 :=
  domain_hash MerkleNode (left ++ right).

(** The inner loop over [level.chunks(2)]. *)
Definition merkle_layer (level : list Hash32) : option (list Hash32) :=
  mapM (fun '(l, r) => merkle_node l (default l r)) (chunks2 level).

(** [while level.len() > 1]; [None] is a panic (or, never, exhausted fuel). *)
Fixpoint merkle_root_loop (fuel : nat) (level : list Hash32) : option (list Hash32) :=
  match fuel with
  | O => None
  | S fuel =>
      if (1 <? length level)%nat
      then next ← merkle_layer level; merkle_root_loop fuel next
      else Some level
  end.

Definition merkle_root (leaves : list Hash32) : option Hash32 :=
  match leaves with
  | [] => empty_merkle_root
  | _ => level ← merkle_root_loop (length leaves) leaves; level !! 0%nat
  end.

Definition sibling_position (level : list Hash32) (position : nat) : nat :=
  if (position mod 2 =? 0)%nat then Nat.min (position + 1) (length level - 1)
  else (position - 1)%nat.

Fixpoint merkle_proof_loop (fuel : nat) (level : list Hash32) (position : nat)
    : option (list Hash32) :=
  match fuel with
  | O => None
  | S fuel =>
      if (1 <? length level)%nat then
        sibling ← level !! sibling_position level position;
        next ← merkle_layer level;
        rest ← merkle_proof_loop fuel next (position / 2)%nat;
        Some (sibling :: rest)
      else Some []
  end.

Definition merkle_proof (leaves : list Hash32) (index : nat) : res MerkleError MerkleProof :=
  match leaves with
  | [] => Err EmptyTree
  | _ =>
      fail_if (length leaves <=? index)%nat MerkleIndexOutOfRange;;
      siblings ← expect (merkle_proof_loop (length leaves) leaves index);
      Ok (MkMerkleProof (uint_wrap 64 (Z.of_nat index)) (uint_wrap 64 (Z.of_nat (length leaves)))
            siblings)
  end.

Definition expected_depth (leaf_count : u64) : Z :=
  if leaf_count <=? 1 then 0 else 64 - leading_zeros64 (leaf_count - 1).

(** The loop of [verify] over the siblings. *)
Fixpoint merkle_climb (hash : Hash32) (index : Z) (siblings : list Hash32) : option Hash32 :=
  match siblings with
  | [] => Some hash
  | sibling :: siblings =>
      hash ← (if index mod 2 =? 0 then merkle_node hash sibling else merkle_node sibling hash);
      merkle_climb hash (index / 2) siblings
  end.

Definition MerkleProof_verify (p : MerkleProof) (leaf expected_root : Hash32)
    : res MerkleError bool :=
  fail_if ((mp_leaf_count p =? 0) || (mp_leaf_count p <=? mp_leaf_index p)) MalformedProof;;
  fail_if (negb (Z.of_nat (length (mp_siblings p)) =? expected_depth (mp_leaf_count p)))
    MalformedProof;;
  hash ← expect (merkle_climb leaf (mp_leaf_index p) (mp_siblings p));
  Ok (bool_decide (hash = expected_root)).

(** ** Specification: rows of hashes *)

(** The exact bytes hashed for an inner node. *)
Definition merkle_node_preimage (left right : Hash32) : bytes :=
  default [] (domain_preimage MerkleNode (left ++ right)).
Definition mnode (left right : Hash32) : Hash32 := sha256 (merkle_node_preimage left right).

Definition pair_up (level : list Hash32) : list Hash32 :=
  map (fun '(l, r) => mnode l (default l r)) (chunks2 level).

(** The siblings met on the way up, [n] rows from position [p] of [level]. *)
Fixpoint row_siblings (n : nat) (level : list Hash32) (p : nat) : list Hash32 :=
  match n with
  | O => []
  | S n => default ZERO (level !! sibling_position level p)
           :: row_siblings n (pair_up level) (Nat.div2 p)
  end.

(** [n] rows up, and the position [n] rows up. *)
Fixpoint rows (n : nat) (level : list Hash32) : list Hash32 :=
  match n with O => level | S n => rows n (pair_up level) end.
Fixpoint up (n p : nat) : nat :=
  match n with O => p | S n => up n (Nat.div2 p) end.

(** The preimages hashed by [verify], and those of the tree at the same places. *)
Fixpoint climb_preimages (hash : Hash32) (p : nat) (siblings : list Hash32) : list bytes :=
  match siblings with
  | [] => []
  | s :: siblings =>
      let pre := if Nat.even p then merkle_node_preimage hash s else merkle_node_preimage s hash in
      pre :: climb_preimages (sha256 pre) (Nat.div2 p) siblings
  end.
Fixpoint row_preimages (n : nat) (level : list Hash32) (p : nat) : list bytes :=
  match n with
  | O => []
  | S n =>
      let v := default ZERO (level !! p) in
      let s := default ZERO (level !! sibling_position level p) in
      (if Nat.even p then merkle_node_preimage v s else merkle_node_preimage s v)
      :: row_preimages n (pair_up level) (Nat.div2 p)
  end.
Definition merkle_collision (level : list Hash32) (leaf : Hash32) (p : nat)
    (siblings : list Hash32) : Prop :=
  exists x y, (x, y) ∈ zip (climb_preimages leaf p siblings)
                          (row_preimages (length siblings) level p) /\ collision x y.
End merkle.

Section merkle_facts.
Context {H : Sha256}.

Lemma merkle_node_preimage_Some (l r : Hash32) :
  domain_preimage MerkleNode (l ++ r) = Some (merkle_node_preimage l r).
Proof.
  unfold merkle_node_preimage. rewrite domain_preimage_total; [done|].
  rewrite length_app, !arr_length. done.
Qed.

Lemma merkle_node_Some l r : merkle_node l r = Some (mnode l r).
Proof. apply domain_hash_Some. eexists. split; [apply merkle_node_preimage_Some|done]. Qed.

Lemma mnode_inj a b c d :
  mnode a b = mnode c d ->
  (a = c /\ b = d) \/ collision (merkle_node_preimage a b) (merkle_node_preimage c d).
Proof.
  intros Hh. destruct (decide (merkle_node_preimage a b = merkle_node_preimage c d)) as [E|];
    [left|by right].
  pose proof (merkle_node_preimage_Some a b) as H1. rewrite E in H1.
  destruct (domain_preimage_inj _ _ _ _ _ H1 (merkle_node_preimage_Some c d)) as [_ Ha].
  apply app_eq_length_l in Ha as [E1 E2]; [|by rewrite !arr_length].
  split; by apply array_eq.
Qed.

Lemma merkle_layer_Some level : merkle_layer level = Some (pair_up level).
Proof. apply option_mapM_Some. intros [a b]. apply merkle_node_Some. Qed.

Lemma pair_up_length level : length (pair_up level) = Nat.div2 (S (length level)).
Proof. unfold pair_up. by rewrite length_map, chunks2_length. Qed.

Lemma mod2_even p : (p mod 2 =? 0)%nat = Nat.even p.
Proof.
  pose proof (Nat.div2_odd p) as Hp.
  rewrite <- Nat.negb_even in Hp. rewrite Hp at 1.
  destruct (Nat.even p); cbn [negb Nat.b2n].
  - by rewrite Nat.add_0_r, Nat.mul_comm, Nat.Div0.mod_mul.
  - rewrite (Nat.add_comm _ 1), Nat.mul_comm, Nat.Div0.mod_add. done.
Qed.

(** A position, its sibling and their parent. *)
Lemma pair_up_parent level p v :
  level !! p = Some v ->
  exists s, level !! sibling_position level p = Some s /\
    pair_up level !! Nat.div2 p = Some (if Nat.even p then mnode v s else mnode s v).
Proof.
  intros Hv. pose proof (lookup_lt_Some _ _ _ Hv) as Hlt.
  pose proof (chunks2_parent level p v Hv) as Hc.
  unfold pair_up, sibling_position. change (map ?f ?l) with (f <$> l).
  rewrite list_lookup_fmap, Hc, mod2_even. destruct (Nat.even p) eqn:E.
  - destruct (level !! S p) as [s|] eqn:Es.
    + pose proof (lookup_lt_Some _ _ _ Es). exists s.
      replace (Nat.min (p + 1) (length level - 1)) with (S p) by lia. done.
    + apply lookup_ge_None in Es. exists v.
      replace (Nat.min (p + 1) (length level - 1)) with p by lia. done.
  - destruct p as [|p]; [done|]. replace (S p - 1)%nat with p by lia. cbn [pred] in *.
    destruct (lookup_lt_is_Some_2 level p) as [s Hs]; [lia|].
    exists s. by rewrite Hs.
Qed.

(** Rows halve, rounding up, until a single node is left. *)
Lemma log2_up_half n :
  (2 <= n)%nat -> Nat.log2_up n = S (Nat.log2_up (Nat.div2 (S n))).
Proof.
  intros Hn. pose proof (Nat.div2_odd (S n)) as Hd. set (k := Nat.div2 (S n)) in *.
  assert (Nat.b2n (Nat.odd (S n)) <= 1)%nat as Hb by (by destruct (Nat.odd (S n)); cbn; lia).
  apply Nat.log2_up_unique; [lia|].
  destruct (decide (k = 1)%nat) as [->|Hk]; [cbn; lia|].
  pose proof (Nat.log2_up_spec k ltac:(lia)) as [Hlo Hhi].
  pose proof (Nat.log2_up_pos k ltac:(lia)).
  rewrite Nat.pow_succ_r'. cbn [pred].
  replace (Nat.log2_up k) with (S (pred (Nat.log2_up k))) at 1 by lia.
  rewrite Nat.pow_succ_r'. lia.
Qed.

Lemma depth_small n : (n <= 1)%nat -> Nat.log2_up n = 0%nat.
Proof. intros Hn. destruct n as [|[|n]]; [done..|lia]. Qed.

Lemma pair_up_shrinks level fuel :
  (1 < length level)%nat -> (length level <= S fuel)%nat ->
  (1 <= length (pair_up level) <= fuel)%nat.
Proof.
  intros H1 Hf. rewrite pair_up_length. pose proof (Nat.div2_odd (S (length level))) as Hd.
  assert (Nat.b2n (Nat.odd (S (length level))) <= 1)%nat by (by destruct (Nat.odd _); cbn; lia).
  lia.
Qed.

Lemma rows_length level :
  (1 <= length level)%nat -> length (rows (Nat.log2_up (length level)) level) = 1%nat.
Proof.
  remember (length level) as n eqn:Hn. revert level Hn.
  induction n as [n IH] using lt_wf_ind. intros level Hn H1.
  destruct (decide (n = 1)%nat) as [->|]; [by cbn|].
  rewrite log2_up_half by lia. cbn [rows].
  pose proof (pair_up_shrinks level (pred n) ltac:(lia) ltac:(lia)).
  rewrite <- (pair_up_length level) || rewrite Hn, <- (pair_up_length level).
  apply (IH (length (pair_up level))); lia.
Qed.

Lemma row_siblings_length n level p : length (row_siblings n level p) = n.
Proof. revert level p. induction n as [|n IH]; intros; [done|]. cbn. by rewrite IH. Qed.

Lemma merkle_root_loop_Some fuel level :
  (1 <= length level <= fuel)%nat ->
  merkle_root_loop fuel level = Some (rows (Nat.log2_up (length level)) level).
Proof.
  revert level. induction fuel as [|fuel IH]; intros level Hl; [lia|]. cbn [merkle_root_loop].
  destruct (Nat.ltb_spec 1 (length level)) as [H1|H1].
  - rewrite merkle_layer_Some. unfold mbind. cbn [option_bind].
    rewrite IH by (apply pair_up_shrinks; lia).
    by rewrite (log2_up_half (length level)), pair_up_length by lia.
  - by rewrite depth_small by lia.
Qed.

Lemma merkle_proof_loop_Some fuel level p v :
  (length level <= fuel)%nat -> level !! p = Some v ->
  merkle_proof_loop fuel level p = Some (row_siblings (Nat.log2_up (length level)) level p).
Proof.
  revert level p v. induction fuel as [|fuel IH]; intros level p v Hl Hv.
  { apply lookup_lt_Some in Hv. lia. }
  cbn [merkle_proof_loop]. destruct (Nat.ltb_spec 1 (length level)) as [H1|H1].
  - destruct (pair_up_parent level p v Hv) as (s & Hs & Hp).
    rewrite merkle_layer_Some, Hs, <- Nat.div2_div. unfold mbind. cbn [option_bind].
    rewrite (IH _ _ _ (proj2 (pair_up_shrinks level fuel H1 Hl)) Hp).
    rewrite (log2_up_half (length level)), <- pair_up_length by lia. cbn [row_siblings].
    by rewrite Hs.
  - by rewrite depth_small by lia.
Qed.

Lemma even_of_nat p : (Z.of_nat p mod 2 =? 0) = Nat.even p.
Proof. by rewrite even_Z_nat, mod2_even. Qed.
Lemma half_of_nat p : Z.of_nat p / 2 = Z.of_nat (Nat.div2 p).
Proof. change 2 with (Z.of_nat 2). by rewrite <- Nat2Z.inj_div, Nat.div2_div. Qed.

Lemma merkle_climb_cons v p s ss :
  merkle_climb v (Z.of_nat p) (s :: ss) =
  merkle_climb (if Nat.even p then mnode v s else mnode s v) (Z.of_nat (Nat.div2 p)) ss.
Proof.
  cbn [merkle_climb]. rewrite even_of_nat, half_of_nat.
  by destruct (Nat.even p); rewrite merkle_node_Some.
Qed.

(** The row's own siblings lead to the row [n] steps up. *)
Lemma climb_rows n level p v :
  level !! p = Some v ->
  exists h, merkle_climb v (Z.of_nat p) (row_siblings n level p) = Some h /\
            rows n level !! up n p = Some h.
Proof.
  revert level p v. induction n as [|n IH]; intros level p v Hv; [by exists v|].
  destruct (pair_up_parent level p v Hv) as (s & Hs & Hp).
  cbn [row_siblings rows up]. rewrite Hs. cbn [from_option id]. rewrite merkle_climb_cons. by apply IH.
Qed.

Lemma climb_sound siblings level p v leaf h :
  level !! p = Some v ->
  merkle_climb leaf (Z.of_nat p) siblings = Some h ->
  rows (length siblings) level !! up (length siblings) p = Some h ->
  (leaf = v /\ siblings = row_siblings (length siblings) level p)
  \/ merkle_collision level leaf p siblings.
Proof.
  revert level p v leaf. induction siblings as [|t ts IH]; intros level p v leaf Hv Hc Hr.
  { left. cbn in Hc, Hr. split; [congruence|done]. }
  destruct (pair_up_parent level p v Hv) as (s & Hs & Hp).
  rewrite merkle_climb_cons in Hc. cbn [length rows up] in Hr.
  unfold merkle_collision. cbn [climb_preimages row_preimages length zip zip_with row_siblings].
  rewrite Hv, Hs. cbn [from_option id].
  destruct (IH _ _ _ _ Hp Hc Hr) as [[Hn Ht]|(x & y & Hin & Hxy)].
  - destruct (Nat.even p); apply mnode_inj in Hn as [[H1 H2]|Hcol];
      try (left; split; [done|]; congruence);
      right; eexists _, _; (split; [by left|done]).
  - right. exists x, y. split; [|done]. right. revert Hin. by destruct (Nat.even p).
Qed.

Lemma climb_total siblings leaf p : exists h, merkle_climb leaf (Z.of_nat p) siblings = Some h.
Proof.
  revert leaf p. induction siblings as [|s ss IH]; intros leaf p; [by eexists|].
  rewrite merkle_climb_cons. apply IH.
Qed.

Lemma expected_depth_spec (c : u64) (n : nat) :
  uval c = Z.of_nat n -> expected_depth c = Z.of_nat (Nat.log2_up n).
Proof.
  intros Hc. unfold expected_depth. rewrite Hc.
  destruct (Z.leb_spec (Z.of_nat n) 1) as [Hle|Hgt]; [by rewrite depth_small by lia|].
  unfold leading_zeros64. rewrite (proj2 (Z.eqb_neq _ _)) by lia.
  pose proof (Nat.log2_up_spec n ltac:(lia)) as [Hlo Hhi].
  pose proof (Nat.log2_up_pos n ltac:(lia)).
  enough (Z.log2 (Z.of_nat n - 1) = Z.of_nat (pred (Nat.log2_up n))) by lia.
  apply Z.log2_unique; [lia|].
  change 2 with (Z.of_nat 2).
  replace (Z.succ (Z.of_nat (pred (Nat.log2_up n)))) with (Z.of_nat (Nat.log2_up n)) by lia.
  rewrite <- !Nat2Z.inj_pow. lia.
Qed.

Lemma merkle_root_Some leaves :
  (1 <= length leaves)%nat ->
  exists root, merkle_root leaves = Some root /\
    rows (Nat.log2_up (length leaves)) leaves = [root].
Proof.
  intros Hl. destruct leaves as [|l ls]; [cbn in Hl; lia|]. unfold merkle_root.
  rewrite merkle_root_loop_Some by lia. pose proof (rows_length (l :: ls) Hl) as Hr.
  unfold mbind. cbn [option_bind].
  destruct (rows _ _) as [|root [|x xs]]; [done| |done]. by exists root.
Qed.

Lemma up_root leaves p v root :
  leaves !! p = Some v -> rows (Nat.log2_up (length leaves)) leaves = [root] ->
  rows (Nat.log2_up (length leaves)) leaves !! up (Nat.log2_up (length leaves)) p = Some root.
Proof.
  intros Hv Hr. destruct (climb_rows (Nat.log2_up (length leaves)) leaves p v Hv) as (h & _ & Hh).
  rewrite Hr in Hh |- *. destruct (up _ p) as [|k]; [done|]. by destruct k.
Qed.
End merkle_facts.

#[export] Program Instance MerkleProof_codec : Codec MerkleProof :=
  {| valid := fun p => (length (mp_siblings p) <= 64)%nat |}.
Next Obligation.
  intros d p d'. split.
  - intros Hd. unfold decode_from, MerkleProof_decode in Hd. dec_fold. inv_dec.
    apply fail_if_Ok, Z.ltb_ge in Hl. pose proof (uint_range v1).
    cbn [mp_siblings]. split; [lia|].
    unfold encode, MerkleProof_encode. cbn [mp_leaf_index mp_leaf_count mp_siblings].
    rewrite (proj2 (uint_try_Some 32 _ v1)) by lia. solve_reads.
  - intros [Hv Hr]. unfold encode, MerkleProof_encode in Hr.
    destruct (uint_try 32 _) as [c|] eqn:Ec.
    2: { apply uint_try_None in Ec. lia. }
    apply uint_try_Some in Ec. inv_reads.
    unfold decode_from, MerkleProof_decode. dec_fold. dec_build; try done.
    + apply Z.ltb_ge. lia.
    + split; [lia|]. by apply Forall_forall.
    + by destruct p.
Qed.
Next Obligation.
  intros p Hp. cbn beta in Hp. unfold encode, MerkleProof_encode.
  destruct (encode_seq_total (mp_siblings p)) as [q Hq]; [by apply Forall_forall|].
  rewrite Hq. destruct (uint_try 32 _) eqn:Ec; [by eexists|].
  apply uint_try_None in Ec. lia.
Qed.

Section merkle_properties.
Context {H : Sha256}.

(** The proofs of the tree, and their errors. *)
Lemma merkle_proof_spec (leaves : list Hash32) (index : nat)
    (Hlen : Z.of_nat (length leaves) < 2 ^ 64) :
  match leaves !! index with
  | Some leaf => exists p root, merkle_proof leaves index = Ok p /\
                   merkle_root leaves = Some root /\ MerkleProof_verify p leaf root = Ok true
  | None => merkle_proof leaves index
              = Err (if decide (leaves = []) then EmptyTree else MerkleIndexOutOfRange)
  end.
Proof.
  unfold merkle_proof. destruct (leaves !! index) as [leaf|] eqn:E.
  - pose proof (lookup_lt_Some _ _ _ E) as Hlt.
    destruct (merkle_root_Some leaves) as (root & Hroot & Hrow); [lia|].
    destruct leaves as [|l ls]; [done|]. set (leaves := l :: ls) in *.
    rewrite (proj2 (Nat.leb_gt _ _)) by lia. cbn [fail_if mbind res_bind].
    rewrite (merkle_proof_loop_Some _ leaves index leaf) by done.
    cbn [expect]. eexists _, root. split; [reflexivity|]. split; [done|].
    destruct (climb_rows (Nat.log2_up (length leaves)) leaves index leaf E) as (h & Hc & Hh).
    rewrite (up_root leaves index leaf root E Hrow) in Hh. injection Hh as <-.
    unfold MerkleProof_verify. cbn [mp_leaf_count mp_leaf_index mp_siblings].
    rewrite !(uval_wrap_small 64) by lia.
    rewrite (proj2 (Z.eqb_neq _ 0)), (proj2 (Z.leb_gt _ _)) by lia. cbn [orb fail_if mbind res_bind].
    rewrite (expected_depth_spec _ (length leaves)) by (rewrite uval_wrap_small; lia).
    rewrite row_siblings_length, Z.eqb_refl, Hc. cbn [negb fail_if mbind res_bind expect].
    by rewrite bool_decide_eq_true_2.
  - destruct leaves as [|l ls]; [done|]. apply lookup_ge_None in E.
    by rewrite (proj2 (Nat.leb_le _ _)).
Qed.

(** [merkle_proof] rejects exactly an empty tree and an index past its end;
    otherwise neither it nor [merkle_root] panics or runs out of iterations,
    and [verify] accepts the proof for the stored leaf under the root. *)
Theorem merkle_proof_complete (leaves : list Hash32) (index : nat)
    (Hlen : Z.of_nat (length leaves) < 2 ^ 64) :
  match leaves !! index with
  | Some leaf => exists p root, merkle_proof leaves index = Ok p /\
                   merkle_root leaves = Some root /\ MerkleProof_verify p leaf root = Ok true
  | None => merkle_proof leaves index
              = Err (if decide (leaves = []) then EmptyTree else MerkleIndexOutOfRange)
  end.
Proof. by apply merkle_proof_spec. Qed.

(** [verify] never panics, and a proof with the tree's leaf count that it
    accepts under the tree's root shows the leaf stored at its index and has
    the tree's own siblings, unless one of its hashing steps collides. *)
Theorem merkle_proof_sound (leaves : list Hash32) (p : MerkleProof) (leaf root : Hash32)
    (Hroot : merkle_root leaves = Some root)
    (Hcount : uval (mp_leaf_count p) = Z.of_nat (length leaves)) :
  MerkleProof_verify p leaf root <> Panic /\
  (MerkleProof_verify p leaf root = Ok true ->
   (leaves !! Z.to_nat (mp_leaf_index p) = Some leaf /\
    mp_siblings p = row_siblings (length (mp_siblings p)) leaves (Z.to_nat (mp_leaf_index p)))
   \/ merkle_collision leaves leaf (Z.to_nat (mp_leaf_index p)) (mp_siblings p)).
Proof.
  pose proof (uint_range (mp_leaf_index p)).
  replace (MerkleProof_verify p leaf root) with
    (MerkleProof_verify (MkMerkleProof (mp_leaf_index p) (mp_leaf_count p) (mp_siblings p)) leaf root)
    by by destruct p.
  unfold MerkleProof_verify. cbn [mp_leaf_index mp_leaf_count mp_siblings].
  destruct (climb_total (mp_siblings p) leaf (Z.to_nat (mp_leaf_index p))) as [h Hc].
  rewrite Z2Nat.id in Hc by lia. rewrite Hc. split.
  { repeat (unfold fail_if; case_match; try done). }
  intros Hv. inv_ok. rewrite (expected_depth_spec _ _ Hcount) in Hx0.
  destruct (lookup_lt_is_Some_2 leaves (Z.to_nat (mp_leaf_index p))) as [v Hlk]; [lia|].
  destruct (merkle_root_Some leaves) as (r & Hr & Hrow).
  { apply lookup_lt_Some in Hlk. lia. }
  assert (r = root) as -> by congruence.
  assert (length (mp_siblings p) = Nat.log2_up (length leaves)) as Hlen.
  { apply (inj Z.of_nat). done. }
  destruct (climb_sound (mp_siblings p) leaves (Z.to_nat (mp_leaf_index p)) v leaf root)
    as [[-> Hs]|Hcol]; [done| | | |by right].
  - rewrite Z2Nat.id by lia. congruence.
  - rewrite Hlen. by eapply up_root.
  - by left.
Qed.
End merkle_properties.

(** Evaluations with the concrete digest, on three leaves (the last row is odd). *)
Definition sample_leaves : list Hash32 :=
  [array_rep 32 x11; array_rep 32 x22; array_rep 32 x33].
Definition sample_merkle_root : Hash32 := default ZERO (@merkle_root toy_sha256 sample_leaves).
Definition sample_merkle_proof : MerkleProof :=
  match @merkle_proof toy_sha256 sample_leaves 2 with
  | Ok p => p
  | _ => MkMerkleProof (uint_wrap 64 0) (uint_wrap 64 0) []
  end.

Lemma merkle_proof_complete_witness :
  Z.of_nat (length sample_leaves) < 2 ^ 64 /\
  exists p root, @merkle_proof toy_sha256 sample_leaves 2 = Ok p /\
    @MerkleProof_verify toy_sha256 p (array_rep 32 x33) root = Ok true.
Proof.
  split; [vm_compute; reflexivity|].
  destruct (@merkle_proof_complete toy_sha256 sample_leaves 2 ltac:(vm_compute; reflexivity))
    as (p & root & Hp & _ & Hv).
  by exists p, root.
Defined.

Lemma merkle_proof_sound_witness :
  @MerkleProof_verify toy_sha256 sample_merkle_proof (array_rep 32 x33) sample_merkle_root = Ok true /\
  ((sample_leaves !! 2%nat = Some (array_rep 32 x33) /\
    mp_siblings sample_merkle_proof
      = @row_siblings toy_sha256 (length (mp_siblings sample_merkle_proof)) sample_leaves 2)
   \/ @merkle_collision toy_sha256 sample_leaves (array_rep 32 x33) 2 (mp_siblings sample_merkle_proof)).
Proof.
  assert (@MerkleProof_verify toy_sha256 sample_merkle_proof (array_rep 32 x33) sample_merkle_root
            = Ok true) as Hv by (vm_compute; reflexivity).
  split; [exact Hv|].
  assert (@merkle_root toy_sha256 sample_leaves = Some sample_merkle_root) as Hr.
  { destruct (@merkle_root_Some toy_sha256 sample_leaves) as (r & E & _); [cbn; lia|].
    unfold sample_merkle_root. by rewrite E. }
  refine (proj2 (@merkle_proof_sound toy_sha256 sample_leaves sample_merkle_proof _ _ Hr _) Hv).
  vm_compute. reflexivity.
Defined.
