(* ===== verification/Records.v ===== *)
(** Shared parts of the protocol records of [crates/usdd-core/src/types.rs]:
    the schema-and-tag header, Ethereum addresses, outpoints, and the automation
    that discharges the [Codec] interface for a record from its field list. *)

From S2P Require Import Prelude Encoding Params Hashing.

Local Open Scope Z_scope.

Definition PROTOCOL_VERSION : u32 := uint_wrap 32 1.
Definition MAX_MINT_BATCH_SIZE : nat := 64.
Definition MAX_ELEMENTS_SCRIPT_LENGTH : nat := 128.

Definition SOLIDITY_DEPOSIT_ID_DOMAIN : Hash32 := Array (n:=32)
  [xc0; xbb; x4b; x99; x2d; xdf; xe4; x2d; x70; x53; x63; x46; xa5; x94; xfd; x97;
   x50; xdb; xf7; xe1; x05; x34; xed; x34; xae; xcd; xc7; x8d; x20; x3b; x88; xe0] eq_refl.
Definition SOLIDITY_BURN_LEAF_DOMAIN : Hash32 := Array (n:=32)
  [xb1; x5e; x96; x91; x0e; x56; x01; x34; x06; xf4; x16; x7f; x79; xc8; xb6; xe3;
   x69; xc3; xab; xf0; xb4; x09; xd5; x0a; x63; xe9; x9e; x09; x5b; x25; xfb; x94] eq_refl.
Definition BURN_ID_DOMAIN : Hash32 := Array (n:=32)
  [x58; x11; xf3; xff; x8b; x8f; x31; xfb; x49; xff; xb9; x1a; xfa; xb1; x31; x97;
   xc3; xd7; x2e; x92; x65; x49; xae; x29; xdb; xda; x46; xc6; x99; x8a; x3e; x45] eq_refl.

Definition TAG_VAULT_DEPOSIT : u16 := uint_wrap 16 0x0101.
Definition TAG_ETHEREUM_FINALITY : u16 := uint_wrap 16 0x0102.
Definition TAG_MINT_OUTPUT : u16 := uint_wrap 16 0x0103.
Definition TAG_MINT_BATCH : u16 := uint_wrap 16 0x0104.
Definition TAG_BURN : u16 := uint_wrap 16 0x0201.
Definition TAG_ELEMENTS_EVENT : u16 := uint_wrap 16 0x0202.
Definition TAG_SOLIDITY_BURN_CLAIM : u16 := uint_wrap 16 0x0203.
Definition TAG_SOLIDITY_ELEMENTS_STATE : u16 := uint_wrap 16 0x0204.

Definition encode_header (tag : u16) : option bytes := encode ENCODING_SCHEMA +++ encode tag.

Definition decode_header (expected_tag : u16) : dec unit :=
  schema ← Decoder_u16;
  lift (fail_if (negb (uval schema =? ENCODING_SCHEMA)) (InvalidValue "unsupported encoding schema"));;
  tag ← Decoder_u16;
  lift (fail_if (negb (uval tag =? expected_tag)) (InvalidTag "record" (uval tag))).

(** [value.validate()?] at the end of a decoder. *)
Definition checked {A : Type} (validate : A -> res DecodeError unit) (value : A) : dec A :=
  lift (validate value);; mret value.

Abbreviation EthAddress := (array 20).
Definition EthAddress_ZERO : EthAddress := array_rep 20 x00.
Definition EthAddress_is_zero (a : EthAddress) : bool := bool_decide (a = EthAddress_ZERO).
Definition EthAddress_to_hex (a : EthAddress) : bytes := encode_hex a.

Definition EthAddress_from_str (value : bytes) : res HexError EthAddress :=
  bs ← decode_hex value;
  fail_if (negb (length bs =? 20)%nat) (WrongLength 20 (length bs));;
  expect (array_try 20 bs).

Record OutPoint : Type := MkOutPoint { op_txid : Hash32; op_vout : u32 }.

#[export] Instance OutPoint_encode : CanonicalEncode OutPoint := fun o =>
  encode (op_txid o) +++ encode (op_vout o).
#[export] Instance OutPoint_decode : CanonicalDecode OutPoint :=
  txid ← Decoder_fixed 32;
  vout ← Decoder_u32;
  mret (MkOutPoint txid vout).

#[export] Instance OutPoint_eq_dec : EqDecision OutPoint.
Proof. solve_decision. Defined.

(** ** Automation *)

(** A header reader accepts exactly the bytes of its writer. *)
Class Header (m : dec unit) (e : option bytes) : Prop :=
  header_spec : forall d u d', m d = Ok (u, d') <-> reads e d d'.

#[export] Instance decode_header_spec tag : Header (decode_header tag) (encode_header tag).
Proof.
  intros d u d'.
  unfold decode_header, encode_header. split.
  - intros Hd. dec_fold. inv_dec. inv_ok.
    repeat match goal with E : uval _ = uval _ |- _ => apply uint_eq in E; subst end.
    apply reads_app. eauto.
  - intros Hr. inv_reads. dec_fold. dec_build; try done; try (by rewrite Z.eqb_refl).
    destruct u. apply (fail_if_Ok _ _ tt). by rewrite Z.eqb_refl.
Qed.

Lemma checked_Ok {A} (validate : A -> res DecodeError unit) (value x : A) d d' :
  checked validate value d = Ok (x, d') <-> validate value = Ok tt /\ x = value /\ d' = d.
Proof.
  unfold checked. rewrite dec_bind_Ok. split.
  - intros ([] & d1 & [Hv ->]%lift_Ok & [-> ->]%dec_ret_Ok). done.
  - intros (Hv & -> & ->). exists tt, d. rewrite lift_Ok, dec_ret_Ok. done.
Qed.

Ltac inv_record :=
  repeat (inv_dec;
    match goal with
    | H : ?m _ = Ok (tt, _) |- _ => apply (header_spec (m:=m)) in H
    | H : checked _ _ _ = Ok _ |- _ =>
        let V := fresh "Hvalid" in let E := fresh in let E' := fresh in
        apply checked_Ok in H as (V & E & E'); try subst
    end); inv_dec.

Ltac record_step :=
  first
  [ lazymatch goal with
    | |- checked _ _ _ = Ok _ => apply checked_Ok; split; [|split; [|reflexivity]]
    end
  | dec_step
  | lazymatch goal with
    | |- ?m _ = Ok (_, _) => apply (proj2 (header_spec (m:=m) _ tt _)); eassumption
    end ].

(** The two directions of [codec_spec] for a record whose decoder and encoder
    are the given definitions. *)
Ltac unfold_encode E :=
  repeat match goal with
  | |- context [@encode ?A ?I ?x] => change (@encode A I x) with (E x)
  | H : context [@encode ?A ?I ?x] |- _ => change (@encode A I x) with (E x) in H
  end; unfold E in *.
Ltac unfold_decode D :=
  match goal with
  | |- @decode_from ?A ?I ?d = _ <-> _ => change (@decode_from A I d) with (D d); unfold D
  end; dec_fold.
Ltac reads_each :=
  lazymatch goal with
  | |- reads (_ +++ _) _ _ => apply reads_app; eexists; split; [eassumption|reads_each]
  | _ => eassumption
  end.
Ltac record_codec_start D E :=
  let d := fresh "d" in let x := fresh "x" in let d' := fresh "d'" in
  intros d x d'; unfold_decode D; unfold_encode E; split.
Ltac record_forward :=
  let Hd := fresh "Hd" in intros Hd; inv_record; split; [try done|try reads_each].
Ltac record_backward :=
  inv_reads; repeat record_step; try done;
  try (match goal with |- ?x = _ => by destruct x | |- ?x = _ /\ _ => by destruct x end).
Ltac record_codec D E :=
  record_codec_start D E;
  [ record_forward
  | let Hv := fresh "Hv" in let Hr := fresh "Hr" in intros [Hv Hr]; record_backward ].

(** A record without a [validate] method. *)
#[export] Program Instance OutPoint_codec : Codec OutPoint := {| valid := fun _ => True |}.
Next Obligation. record_codec OutPoint_decode OutPoint_encode. Qed.
Next Obligation. intros x _. by eexists. Qed.

(** The first 24 bytes of a big-endian [uint256] that holds a [u64]. *)
Definition u256_of_u64 (x : u64) : bytes := repeat x00 24 ++ be_bytes 8 x.

Lemma uint_bytes_inj {w} (n : nat) (x y : uint w) :
  8 * Z.of_nat n = Zpos w -> be_bytes n x = be_bytes n y -> x = y.
Proof.
  intros Hw E. apply uint_eq. apply (f_equal be_val) in E. rewrite !be_val_bytes in E.
  assert (256 ^ Z.of_nat n = 2 ^ Zpos w) as Hp.
  { change 256 with (2 ^ 8). by rewrite <- Z.pow_mul_r, Hw by lia. }
  rewrite Hp, !Z.mod_small in E by apply uint_range. done.
Qed.

(** Split an equation between concatenations of fixed-width fields. *)
Ltac split_fields :=
  repeat match goal with
  | H : _ ++ _ = _ ++ _ |- _ =>
      let E := fresh "E" in
      apply app_eq_length_l in H as [E H];
      [|by rewrite ?arr_length, ?length_be_bytes]
  | H : arr _ = arr _ |- _ => apply array_eq in H
  | H : be_bytes ?n (uval _) = be_bytes ?n (uval _) |- _ => apply (uint_bytes_inj n) in H; [|done]
  end.
