(* ===== verification/Deposits.v ===== *)
(** Deposits and mint batches: the inbound records of
    [crates/usdd-core/src/types.rs].

    [VaultDeposit] and its commitment [deposit_id], the finality witness of the
    Ethereum guest, the recipient-level [MintOutput] and the [MintBatch] of 1 to
    64 consecutive deposits.  The theorems fix what each record accepts, show
    that the byte format is exact, that deposit identifiers separate deposits up
    to a SHA-256 collision, and that a batch built from deposits is valid and
    mints exactly one hundred base units per micro-USDT deposited. *)

From S2P Require Import Prelude Encoding Params Hashing Records.

Local Open Scope Z_scope.

Record VaultDeposit : Type := MkVaultDeposit {
  vd_ethereum_chain_id : u64;
  vd_vault : EthAddress;
  vd_usdt : EthAddress;
  vd_nonce : u64;
  vd_depositor : EthAddress;
  vd_usdt_amount_micro : u64;
  vd_elements_script : bytes;
  vd_user_salt : Hash32
}.

Definition VaultDeposit_validate (d : VaultDeposit) : res DecodeError unit :=
  fail_if (vd_ethereum_chain_id d =? 0) (InvalidValue "Ethereum chain ID is zero");;
  fail_if (EthAddress_is_zero (vd_vault d) || EthAddress_is_zero (vd_usdt d)
           || EthAddress_is_zero (vd_depositor d)) (InvalidValue "zero Ethereum address");;
  fail_if ((vd_usdt_amount_micro d =? 0)
           || (MAX_DEPOSIT_AMOUNT_USDT_MICRO <? vd_usdt_amount_micro d)
           || negb (bool_decide (is_Some (usdt_micro_to_usdd_base (vd_usdt_amount_micro d)))))
    (InvalidValue "invalid, excessive, or overflowing USDT amount");;
  fail_if ((length (vd_elements_script d) =? 0)%nat
           || (MAX_ELEMENTS_SCRIPT_LENGTH <? length (vd_elements_script d))%nat)
    (InvalidValue "invalid Elements script length").

(** The 208 bytes hashed into the deposit identifier, the script by its digest. *)
Definition deposit_preimage (d : VaultDeposit) (script_hash : Hash32) : bytes :=
  SOLIDITY_DEPOSIT_ID_DOMAIN ++ be_bytes 4 PROTOCOL_VERSION
  ++ u256_of_u64 (vd_ethereum_chain_id d) ++ vd_vault d ++ vd_usdt d
  ++ be_bytes 8 (vd_nonce d) ++ vd_depositor d ++ be_bytes 8 (vd_usdt_amount_micro d)
  ++ script_hash ++ vd_user_salt d.

(** [expect("validated deposits cannot overflow")] *)
Definition VaultDeposit_usdd_amount_base (d : VaultDeposit) : option u64 :=
  usdt_micro_to_usdd_base (vd_usdt_amount_micro d).

#[export] Instance VaultDeposit_encode : CanonicalEncode VaultDeposit := fun d =>
  encode_header TAG_VAULT_DEPOSIT +++ encode (vd_ethereum_chain_id d) +++ encode (vd_vault d)
  +++ encode (vd_usdt d) +++ encode (vd_nonce d) +++ encode (vd_depositor d)
  +++ encode (vd_usdt_amount_micro d) +++ encode (vd_elements_script d) +++ encode (vd_user_salt d).

#[export] Instance VaultDeposit_decode : CanonicalDecode VaultDeposit :=
  decode_header TAG_VAULT_DEPOSIT;;
  ethereum_chain_id ← Decoder_u64;
  vault ← Decoder_fixed 20;
  usdt ← Decoder_fixed 20;
  nonce ← Decoder_u64;
  depositor ← Decoder_fixed 20;
  usdt_amount_micro ← Decoder_u64;
  elements_script ← Decoder_bytes;
  user_salt ← Decoder_fixed 32;
  checked VaultDeposit_validate
    (MkVaultDeposit ethereum_chain_id vault usdt nonce depositor usdt_amount_micro
       elements_script user_salt).

Record EthereumFinalityWitness : Type := MkEthereumFinalityWitness {
  fw_ethereum_light_client_digest : Hash32;
  fw_finalized_beacon_slot : u64;
  fw_finalized_beacon_root : Hash32;
  fw_finalized_execution_block : Hash32;
  fw_finalized_execution_state_root : Hash32;
  fw_execution_block_number : u64;
  fw_execution_block_timestamp : u64
}.

Definition EthereumFinalityWitness_validate (f : EthereumFinalityWitness) : res DecodeError unit :=
  fail_if ((fw_finalized_beacon_slot f =? 0)
           || bool_decide (fw_ethereum_light_client_digest f = ZERO)
           || bool_decide (fw_finalized_beacon_root f = ZERO)
           || bool_decide (fw_finalized_execution_block f = ZERO)
           || bool_decide (fw_finalized_execution_state_root f = ZERO))
    (InvalidValue "invalid Ethereum finality witness").

#[export] Instance EthereumFinalityWitness_encode : CanonicalEncode EthereumFinalityWitness := fun f =>
  encode_header TAG_ETHEREUM_FINALITY +++ encode (fw_ethereum_light_client_digest f)
  +++ encode (fw_finalized_beacon_slot f) +++ encode (fw_finalized_beacon_root f)
  +++ encode (fw_finalized_execution_block f) +++ encode (fw_finalized_execution_state_root f)
  +++ encode (fw_execution_block_number f) +++ encode (fw_execution_block_timestamp f).

#[export] Instance EthereumFinalityWitness_decode : CanonicalDecode EthereumFinalityWitness :=
  decode_header TAG_ETHEREUM_FINALITY;;
  ethereum_light_client_digest ← Decoder_fixed 32;
  finalized_beacon_slot ← Decoder_u64;
  finalized_beacon_root ← Decoder_fixed 32;
  finalized_execution_block ← Decoder_fixed 32;
  finalized_execution_state_root ← Decoder_fixed 32;
  execution_block_number ← Decoder_u64;
  execution_block_timestamp ← Decoder_u64;
  checked EthereumFinalityWitness_validate
    (MkEthereumFinalityWitness ethereum_light_client_digest finalized_beacon_slot
       finalized_beacon_root finalized_execution_block finalized_execution_state_root
       execution_block_number execution_block_timestamp).

Record MintOutput : Type := MkMintOutput {
  mo_deposit_id : Hash32;
  mo_nonce : u64;
  mo_usdt_amount_micro : u64;
  mo_usdd_amount_base : u64;
  mo_elements_script : bytes
}.

Definition MintOutput_validate (o : MintOutput) : res DecodeError unit :=
  fail_if (bool_decide (mo_deposit_id o = ZERO)) (InvalidValue "zero deposit ID");;
  fail_if ((mo_usdt_amount_micro o =? 0)
           || (MAX_DEPOSIT_AMOUNT_USDT_MICRO <? mo_usdt_amount_micro o)
           || bool_decide (usdt_micro_to_usdd_base (mo_usdt_amount_micro o)
                           <> Some (mo_usdd_amount_base o)))
    (InvalidValue "USDT/USDD conversion mismatch");;
  fail_if ((length (mo_elements_script o) =? 0)%nat
           || (MAX_ELEMENTS_SCRIPT_LENGTH <? length (mo_elements_script o))%nat)
    (InvalidValue "invalid Elements script length").

#[export] Instance MintOutput_encode : CanonicalEncode MintOutput := fun o =>
  encode_header TAG_MINT_OUTPUT +++ encode (mo_deposit_id o) +++ encode (mo_nonce o)
  +++ encode (mo_usdt_amount_micro o) +++ encode (mo_usdd_amount_base o)
  +++ encode (mo_elements_script o).

#[export] Instance MintOutput_decode : CanonicalDecode MintOutput :=
  decode_header TAG_MINT_OUTPUT;;
  deposit_id ← Decoder_fixed 32;
  nonce ← Decoder_u64;
  usdt_amount_micro ← Decoder_u64;
  usdd_amount_base ← Decoder_u64;
  elements_script ← Decoder_bytes;
  checked MintOutput_validate
    (MkMintOutput deposit_id nonce usdt_amount_micro usdd_amount_base elements_script).

Record MintBatch : Type := MkMintBatch {
  mb_first_nonce : u64;
  mb_next_nonce : u64;
  mb_outputs : list MintOutput;
  mb_total_usdt_amount_micro : u64;
  mb_total_usdd_amount_base : u64
}.

(** One iteration of the loop of [validate], on the pair of running totals. *)
Definition MintBatch_validate_step (first_nonce : u64) (offset : nat) (output : MintOutput)
    (totals : u64 * u64) : res DecodeError (u64 * u64) :=
  MintOutput_validate output;;
  expected_nonce ← ok_or (checked_add first_nonce (uint_wrap 64 (Z.of_nat offset)))
    (InvalidValue "batch nonce overflow");
  fail_if (negb (mo_nonce output =? uval expected_nonce))
    (InvalidValue "mint output nonces are not consecutive");;
  usdt_total ← ok_or (checked_add totals.1 (mo_usdt_amount_micro output))
    (InvalidValue "batch USDT total overflow");
  usdd_total ← ok_or (checked_add totals.2 (mo_usdd_amount_base output))
    (InvalidValue "batch USDD total overflow");
  Ok (usdt_total, usdd_total).

Definition MintBatch_validate (b : MintBatch) : res DecodeError unit :=
  fail_if ((length (mb_outputs b) =? 0)%nat || (MAX_MINT_BATCH_SIZE <? length (mb_outputs b))%nat)
    (InvalidValue "mint batch size must be 1..64");;
  expected_next ← ok_or (checked_add (mb_first_nonce b)
                           (uint_wrap 64 (Z.of_nat (length (mb_outputs b)))))
    (InvalidValue "batch next nonce overflow");
  fail_if (negb (mb_next_nonce b =? uval expected_next)) (InvalidValue "wrong batch next nonce");;
  totals ← res_foldi (MintBatch_validate_step (mb_first_nonce b)) 0 (mb_outputs b)
             (uint_wrap 64 0, uint_wrap 64 0);
  fail_if (negb (uval totals.1 =? mb_total_usdt_amount_micro b)
           || negb (uval totals.2 =? mb_total_usdd_amount_base b)
           || bool_decide (usdt_micro_to_usdd_base totals.1 <> Some totals.2))
    (InvalidValue "wrong mint batch totals");;
  fail_if ((MAX_MINT_BATCH_USDT_MICRO <? uval totals.1) || (MAX_MINT_BATCH_USDD_BASE <? uval totals.2))
    (InvalidValue "mint batch exceeds Elements explicit-output budget").

#[export] Instance MintBatch_encode : CanonicalEncode MintBatch := fun b =>
  encode_header TAG_MINT_BATCH +++ encode (mb_first_nonce b) +++ encode (mb_next_nonce b)
  +++ match uint_try 8 (Z.of_nat (length (mb_outputs b))) with
      | Some count => encode count
      | None => None
      end
  +++ encode_seq (mb_outputs b)
  +++ encode (mb_total_usdt_amount_micro b) +++ encode (mb_total_usdd_amount_base b).

#[export] Instance MintBatch_decode : CanonicalDecode MintBatch :=
  decode_header TAG_MINT_BATCH;;
  first_nonce ← Decoder_u64;
  next_nonce ← Decoder_u64;
  count ← Decoder_u8;
  lift (fail_if ((uval count =? 0) || (Z.of_nat MAX_MINT_BATCH_SIZE <? uval count))
          (InvalidValue "mint batch size must be 1..64"));;
  outputs ← decode_seq (Z.to_nat (uval count));
  total_usdt_amount_micro ← Decoder_u64;
  total_usdd_amount_base ← Decoder_u64;
  checked MintBatch_validate
    (MkMintBatch first_nonce next_nonce outputs total_usdt_amount_micro total_usdd_amount_base).

Section deposits.
Context {H : Sha256}.

Definition VaultDeposit_elements_script_hash (d : VaultDeposit) : Hash32 :=
  hash_bytes (vd_elements_script d).

Definition VaultDeposit_deposit_id (d : VaultDeposit) : Hash32 :=
  hash_bytes (deposit_preimage d (VaultDeposit_elements_script_hash d)).

Definition MintOutput_from_deposit (d : VaultDeposit) : res DecodeError MintOutput :=
  VaultDeposit_validate d;;
  usdd_amount_base ← expect (VaultDeposit_usdd_amount_base d);
  Ok (MkMintOutput (VaultDeposit_deposit_id d) (vd_nonce d) (vd_usdt_amount_micro d)
        usdd_amount_base (vd_elements_script d)).

(** One iteration of the loop of [from_deposits], pushing one output. *)
Definition from_deposits_step (first : VaultDeposit) (offset : nat) (deposit : VaultDeposit)
    (outputs : list MintOutput) : res DecodeError (list MintOutput) :=
  VaultDeposit_validate deposit;;
  offset ← ok_or (uint_try 64 (Z.of_nat offset)) (InvalidValue "batch offset overflow");
  expected_nonce ← ok_or (checked_add (vd_nonce first) offset) (InvalidValue "batch nonce overflow");
  fail_if (negb (vd_nonce deposit =? uval expected_nonce))
    (InvalidValue "mint batch deposit nonces are not consecutive");;
  fail_if (negb (vd_ethereum_chain_id deposit =? vd_ethereum_chain_id first)
           || bool_decide (vd_vault deposit <> vd_vault first)
           || bool_decide (vd_usdt deposit <> vd_usdt first))
    (InvalidValue "mint batch mixes chains, vaults, or tokens");;
  output ← MintOutput_from_deposit deposit;
  Ok (outputs ++ [output]).

(** [outputs.iter().try_fold(0u64, |total, output| total.checked_add(..))] *)
Definition total_step (amount : MintOutput -> u64) (e : DecodeError) (_ : nat) (output : MintOutput)
    (total : u64) : res DecodeError u64 :=
  ok_or (checked_add total (amount output)) e.

Definition MintBatch_from_deposits (deposits : list VaultDeposit) : res DecodeError MintBatch :=
  fail_if ((length deposits =? 0)%nat || (MAX_MINT_BATCH_SIZE <? length deposits)%nat)
    (InvalidValue "mint batch size must be 1..64");;
  first ← expect (head deposits);
  VaultDeposit_validate first;;
  outputs ← res_foldi (from_deposits_step first) 0 deposits [];
  next_nonce ← ok_or (checked_add (vd_nonce first) (uint_wrap 64 (Z.of_nat (length deposits))))
    (InvalidValue "batch next nonce overflow");
  total_usdt_amount_micro ← res_foldi
    (total_step mo_usdt_amount_micro (InvalidValue "batch USDT total overflow")) 0 outputs (uint_wrap 64 0);
  total_usdd_amount_base ← res_foldi
    (total_step mo_usdd_amount_base (InvalidValue "batch USDD total overflow")) 0 outputs (uint_wrap 64 0);
  fail_if ((MAX_MINT_BATCH_USDT_MICRO <? uval total_usdt_amount_micro)
           || (MAX_MINT_BATCH_USDD_BASE <? uval total_usdd_amount_base))
    (InvalidValue "mint batch exceeds Elements explicit-output budget");;
  Ok (MkMintBatch (vd_nonce first) next_nonce outputs total_usdt_amount_micro total_usdd_amount_base).
End deposits.

(** ** What each record accepts *)

Definition script_ok (script : bytes) : Prop := (1 <= length script <= 128)%nat.
Definition amount_ok (micro : u64) : Prop := 1 <= micro <= 20000000000000.

Record VaultDeposit_wf (d : VaultDeposit) : Prop := {
  vdw_chain : uval (vd_ethereum_chain_id d) <> 0;
  vdw_vault : vd_vault d <> EthAddress_ZERO;
  vdw_usdt : vd_usdt d <> EthAddress_ZERO;
  vdw_depositor : vd_depositor d <> EthAddress_ZERO;
  vdw_amount : amount_ok (vd_usdt_amount_micro d);
  vdw_script : script_ok (vd_elements_script d)
}.

Record MintOutput_wf (o : MintOutput) : Prop := {
  mow_id : mo_deposit_id o <> ZERO;
  mow_amount : amount_ok (mo_usdt_amount_micro o);
  mow_base : uval (mo_usdd_amount_base o) = 100 * mo_usdt_amount_micro o;
  mow_script : script_ok (mo_elements_script o)
}.

Record MintBatch_wf (b : MintBatch) : Prop := {
  mbw_size : (1 <= length (mb_outputs b) <= 64)%nat;
  mbw_next : uval (mb_next_nonce b) = mb_first_nonce b + Z.of_nat (length (mb_outputs b));
  mbw_outputs : forall i o, mb_outputs b !! i = Some o ->
    MintOutput_wf o /\ uval (mo_nonce o) = mb_first_nonce b + Z.of_nat i;
  mbw_micro : uval (mb_total_usdt_amount_micro b) = sumZ (fun o => mo_usdt_amount_micro o) (mb_outputs b);
  mbw_base : uval (mb_total_usdd_amount_base b) = sumZ (fun o => mo_usdd_amount_base o) (mb_outputs b);
  mbw_cap : mb_total_usdt_amount_micro b <= 20000000000000
}.

Lemma micro_converts (m : u64) :
  m <= 20000000000000 -> is_Some (usdt_micro_to_usdd_base m).
Proof.
  intros Hm. destruct (usdt_micro_to_usdd_base m) eqn:E; [by eexists|].
  apply micro_to_base_None in E. lia.
Qed.

Lemma script_guard (s : bytes) :
  ((length s =? 0)%nat || (MAX_ELEMENTS_SCRIPT_LENGTH <? length s)%nat) = false <-> script_ok s.
Proof.
  unfold script_ok, MAX_ELEMENTS_SCRIPT_LENGTH.
  rewrite orb_false_iff, Nat.eqb_neq, Nat.ltb_ge. lia.
Qed.

Lemma VaultDeposit_validate_Ok d : VaultDeposit_validate d = Ok tt <-> VaultDeposit_wf d.
Proof.
  unfold VaultDeposit_validate, EthAddress_is_zero.
  rewrite !fail_then, fail_if_Ok, script_guard, !orb_false_iff, !bool_decide_eq_false,
    negb_bool_decide_false, !Z.eqb_neq, Z.ltb_ge, max_deposit_val.
  pose proof (uint_range (vd_usdt_amount_micro d)). split.
  - intros (? & [[? ?] ?] & [[? ?] ?] & ?). split; try done. unfold amount_ok. lia.
  - intros [? ? ? ? Ha Hs]. unfold amount_ok in Ha.
    repeat split; try done; try lia; try apply Hs. apply micro_converts. lia.
Qed.

Lemma MintOutput_validate_Ok o : MintOutput_validate o = Ok tt <-> MintOutput_wf o.
Proof.
  unfold MintOutput_validate.
  rewrite !fail_then, fail_if_Ok, script_guard, !orb_false_iff, !bool_decide_eq_false,
    Z.eqb_neq, Z.ltb_ge, max_deposit_val.
  pose proof (uint_range (mo_usdt_amount_micro o)). split.
  - intros (? & [[? ?] Hc] & ?). apply dec_stable in Hc. apply micro_to_base_Some in Hc.
    split; try done. unfold amount_ok. lia.
  - intros [? Ha Hb Hs]. unfold amount_ok in Ha. repeat split; try done; try lia; try apply Hs.
    rewrite (proj2 (micro_to_base_Some _ _) Hb). naive_solver.
Qed.

Lemma validate_step_Ok first i o (t t' : u64 * u64) :
  MintBatch_validate_step first i o t = Ok t' <->
  (MintOutput_wf o /\ uval (mo_nonce o) = first + Z.of_nat i mod 2 ^ 64) /\
  uval t'.1 = t.1 + mo_usdt_amount_micro o /\ uval t'.2 = t.2 + mo_usdd_amount_base o.
Proof.
  unfold MintBatch_validate_step. split.
  - intros Hs. inv_ok. apply MintOutput_validate_Ok in Hx.
    apply checked_add_Some in Hx0, Hx2, Hx3. rewrite uval_wrap in Hx0. cbn [fst snd].
    split; [split; [done|congruence]|done].
  - intros ((Hw & Hn) & Ht1 & Ht2). apply MintOutput_validate_Ok in Hw. rewrite Hw. cbn [mbind res_bind].
    rewrite (proj2 (checked_add_Some first (uint_wrap 64 (Z.of_nat i)) (mo_nonce o)) Hn). cbn [ok_or mbind res_bind].
    rewrite Z.eqb_refl. cbn [negb fail_if mbind res_bind].
    rewrite (proj2 (checked_add_Some _ _ t'.1) Ht1), (proj2 (checked_add_Some _ _ t'.2) Ht2).
    by destruct t'.
Qed.

Lemma validate_loop_Ok first l i (t t' : u64 * u64) :
  Z.of_nat (i + length l) < 2 ^ 64 ->
  res_foldi (MintBatch_validate_step first) i l t = Ok t' <->
  all_from (fun i o => MintOutput_wf o /\ uval (mo_nonce o) = first + Z.of_nat i) i l /\
  uval t'.1 = t.1 + sumZ (fun o => mo_usdt_amount_micro o) l /\
  uval t'.2 = t.2 + sumZ (fun o => mo_usdd_amount_base o) l.
Proof.
  revert i t. induction l as [|o l IH]; intros i t Hi; cbn [res_foldi sumZ foldr].
  - split.
    + intros [= ->]. split; [apply all_from_nil|]. lia.
    + intros (_ & H1 & H2). rewrite Z.add_0_r in H1, H2. f_equal. destruct t, t'.
      by f_equal; apply uint_eq.
  - cbn [length] in Hi. rewrite res_bind_Ok, all_from_cons.
    change (foldr _ 0 l) with (sumZ (fun o => uval (mo_usdt_amount_micro o)) l) at 1.
    change (foldr _ 0 l) with (sumZ (fun o => uval (mo_usdd_amount_base o)) l).
    setoid_rewrite validate_step_Ok. setoid_rewrite Z.mod_small; [|lia]. split.
    + intros (s & [Hp [H1 H2]] & Hr). apply IH in Hr as (Ha & H3 & H4); [|lia].
      split; [done|]. lia.
    + intros ((Hp & Ha) & H1 & H2).
      pose proof (sumZ_bounds (fun o => uval (mo_usdt_amount_micro o)) 0 (2 ^ 64) l
        ltac:(intros a _; pose proof (uint_range (mo_usdt_amount_micro a)); lia)).
      pose proof (sumZ_bounds (fun o => uval (mo_usdd_amount_base o)) 0 (2 ^ 64) l
        ltac:(intros a _; pose proof (uint_range (mo_usdd_amount_base a)); lia)).
      pose proof (uint_range t'.1). pose proof (uint_range t'.2). pose proof (uint_range t.1).
      pose proof (uint_range t.2). pose proof (uint_range (mo_usdt_amount_micro o)).
      pose proof (uint_range (mo_usdd_amount_base o)).
      exists (uint_wrap 64 (t.1 + mo_usdt_amount_micro o), uint_wrap 64 (t.2 + mo_usdd_amount_base o)).
      cbn [fst snd]. rewrite !(uval_wrap_small 64) by lia. split; [done|].
      apply IH; [lia|]. cbn [fst snd]. rewrite !(uval_wrap_small 64) by lia. split; [done|]. lia.
Qed.

Lemma size_guard {A : Type} (l : list A) :
  ((length l =? 0)%nat || (MAX_MINT_BATCH_SIZE <? length l)%nat) = false <->
  (1 <= length l <= 64)%nat.
Proof.
  unfold MAX_MINT_BATCH_SIZE. rewrite orb_false_iff, Nat.eqb_neq, Nat.ltb_ge. lia.
Qed.

(** Totals within a batch of well-formed outputs stay far below [2^64]. *)
Lemma outputs_totals (l : list MintOutput) :
  (forall o, o ∈ l -> MintOutput_wf o) ->
  sumZ (fun o => mo_usdd_amount_base o) l = 100 * sumZ (fun o => mo_usdt_amount_micro o) l /\
  Z.of_nat (length l) <= sumZ (fun o => mo_usdt_amount_micro o) l
    <= Z.of_nat (length l) * 20000000000000.
Proof.
  intros Hw. split.
  - apply sumZ_scale. intros o Ho. apply mow_base. by apply Hw.
  - pose proof (sumZ_bounds (fun o => uval (mo_usdt_amount_micro o)) 1 20000000000000 l
      ltac:(intros o Ho; apply (mow_amount _ (Hw o Ho)))). lia.
Qed.

Lemma all_from_elem (P : MintOutput -> Prop) (Q : nat -> MintOutput -> Prop) i l :
  all_from (fun i o => P o /\ Q i o) i l -> forall o, o ∈ l -> P o.
Proof. intros Ha o [k Hk]%list_elem_of_lookup. by apply (Ha k o Hk). Qed.

Lemma MintBatch_validate_Ok b : MintBatch_validate b = Ok tt <-> MintBatch_wf b.
Proof.
  unfold MintBatch_validate. rewrite fail_then, size_guard.
  pose proof (uint_range (mb_first_nonce b)).
  split.
  - intros (Hsize & Hb). apply res_bind_Ok in Hb as (nx & Hnx%ok_or_Ok%checked_add_Some & Hb).
    rewrite (uval_wrap_small 64) in Hnx by lia.
    apply fail_then in Hb as (Hn & Hb). apply res_bind_Ok in Hb as (t & Ht & Hb).
    apply validate_loop_Ok in Ht as (Ha & H1 & H2); [|lia].
    apply fail_then in Hb as (Hg & Hb). inv_ok.
    cbn [fst snd] in H1, H2. rewrite max_batch_usdt_val in *. rewrite (uval_wrap_small 64) in H1, H2 by lia.
    split; try lia; done.
  - intros [Hs Hn Ho Hm Hb Hc].
    assert (all_from (fun i o => MintOutput_wf o /\ uval (mo_nonce o) = mb_first_nonce b + Z.of_nat i)
              0 (mb_outputs b)) as Ha by (intros k o Hk; by apply Ho).
    destruct (outputs_totals (mb_outputs b)) as [H1 H2]; [by apply (all_from_elem _ _ _ _ Ha)|].
    split; [done|].
    apply res_bind_Ok. exists (mb_next_nonce b). split.
    { apply ok_or_Ok, checked_add_Some. by wrap_small. }
    apply fail_then. split; [by rewrite Z.eqb_refl|].
    apply res_bind_Ok. exists (mb_total_usdt_amount_micro b, mb_total_usdd_amount_base b). split.
    { apply validate_loop_Ok; [lia|]. cbn [fst snd]. wrap_small. split; [done|]. lia. }
    cbn [fst snd]. apply fail_then. rewrite !Z.eqb_refl. cbn [negb orb]. split.
    { apply bool_decide_eq_false. intros Hne. apply Hne. apply micro_to_base_Some. lia. }
    apply fail_if_Ok. rewrite max_batch_usdt_val, max_batch_usdd_val.
    apply orb_false_iff. rewrite !Z.ltb_ge. lia.
Qed.

(** ** Building a batch *)

Section from_deposits.
Context {H : Sha256}.

(** The deposits that one batch accepts. *)
Record deposits_ok (first : VaultDeposit) (ds : list VaultDeposit) : Prop := {
  dok_size : (1 <= length ds <= 64)%nat;
  dok_each : forall i d, ds !! i = Some d ->
    VaultDeposit_wf d /\ uval (vd_nonce d) = vd_nonce first + Z.of_nat i /\
    vd_ethereum_chain_id d = vd_ethereum_chain_id first /\
    vd_vault d = vd_vault first /\ vd_usdt d = vd_usdt first;
  dok_next : vd_nonce first + Z.of_nat (length ds) < 2 ^ 64;
  dok_cap : sumZ (fun d => vd_usdt_amount_micro d) ds <= 20000000000000
}.

Definition output_of (d : VaultDeposit) : MintOutput :=
  MkMintOutput (VaultDeposit_deposit_id d) (vd_nonce d) (vd_usdt_amount_micro d)
    (uint_wrap 64 (100 * vd_usdt_amount_micro d)) (vd_elements_script d).

(** The batch that [from_deposits] builds. *)
Definition batch_of (first : VaultDeposit) (ds : list VaultDeposit) : MintBatch :=
  let micro := sumZ (fun d => vd_usdt_amount_micro d) ds in
  MkMintBatch (vd_nonce first) (uint_wrap 64 (vd_nonce first + Z.of_nat (length ds)))
    (map output_of ds) (uint_wrap 64 micro) (uint_wrap 64 (100 * micro)).

Lemma from_deposit_Ok d o :
  MintOutput_from_deposit d = Ok o <-> VaultDeposit_wf d /\ o = output_of d.
Proof.
  unfold MintOutput_from_deposit, VaultDeposit_usdd_amount_base. rewrite <- VaultDeposit_validate_Ok.
  split.
  - intros Hf. inv_ok. apply micro_to_base_Some in Hx0. split; [done|].
    unfold output_of. f_equal. apply uint_eq. pose proof (uint_range x0).
    by rewrite <- Hx0, uint_wrap_uval.
  - intros [Hv ->]. rewrite Hv. cbn [mbind res_bind]. apply VaultDeposit_validate_Ok in Hv.
    pose proof (vdw_amount _ Hv) as Ha. unfold amount_ok in Ha.
    rewrite (proj2 (micro_to_base_Some _ (uint_wrap 64 (100 * vd_usdt_amount_micro d))));
      [done|rewrite (uval_wrap_small 64) by lia; lia].
Qed.

Lemma from_deposits_step_Ok first i d outs outs' :
  from_deposits_step first i d outs = Ok outs' <->
  (VaultDeposit_wf d /\ Z.of_nat i < 2 ^ 64 /\ uval (vd_nonce d) = vd_nonce first + Z.of_nat i /\
   vd_ethereum_chain_id d = vd_ethereum_chain_id first /\
   vd_vault d = vd_vault first /\ vd_usdt d = vd_usdt first) /\ outs' = outs ++ [output_of d].
Proof.
  unfold from_deposits_step. split.
  - intros Hs. inv_ok. apply VaultDeposit_validate_Ok in Hx. apply uint_try_Some in Hx0.
    apply checked_add_Some in Hx1. apply from_deposit_Ok in Hx4 as [_ ->].
    pose proof (uint_range x0).
    repeat match goal with H : ~ (_ <> _) |- _ => apply dec_stable in H end.
    split; [|done]. split; [done|]. split; [lia|]. split; [lia|]. split; [by apply uint_eq|done].
  - intros ((Hw & Hi & Hn & Hc & Hva & Hu) & ->).
    rewrite (proj2 (VaultDeposit_validate_Ok d) Hw), (proj2 (from_deposit_Ok d _) (conj Hw eq_refl)).
    rewrite (proj2 (uint_try_Some 64 _ (uint_wrap 64 (Z.of_nat i)))) by (rewrite (uval_wrap_small 64); lia).
    cbn [mbind res_bind ok_or].
    rewrite (proj2 (checked_add_Some _ _ (vd_nonce d)))
      by (rewrite (uval_wrap_small 64); lia).
    cbn [mbind res_bind ok_or]. rewrite Z.eqb_refl, Hc, Z.eqb_refl. cbn [negb orb fail_if].
    rewrite !bool_decide_eq_false_2 by (intros Hne; by apply Hne). done.
Qed.

Lemma total_loop_Ok amount e i l (t t' : u64) :
  res_foldi (total_step amount e) i l t = Ok t' <-> uval t' = t + sumZ (fun o => amount o) l.
Proof.
  revert i t. induction l as [|o l IH]; intros i t; cbn [res_foldi sumZ foldr].
  - split; [intros [= ->]; lia|]. intros E. f_equal. apply uint_eq. lia.
  - change (foldr _ 0 l) with (sumZ (fun o => uval (amount o)) l).
    rewrite res_bind_Ok. unfold total_step at 1. setoid_rewrite ok_or_Ok.
    setoid_rewrite checked_add_Some. setoid_rewrite IH. split.
    + intros (s & E1 & E2). lia.
    + intros E. exists (uint_wrap 64 (t + amount o)).
      pose proof (sumZ_bounds (fun o => uval (amount o)) 0 (2 ^ 64) l
        ltac:(intros a _; pose proof (uint_range (amount a)); lia)).
      pose proof (uint_range t). pose proof (uint_range t'). pose proof (uint_range (amount o)).
      rewrite (uval_wrap_small 64) by lia. lia.
Qed.

Lemma outputs_of_totals ds :
  (forall d, d ∈ ds -> VaultDeposit_wf d) ->
  sumZ (fun o => mo_usdt_amount_micro o) (map output_of ds)
    = sumZ (fun d => vd_usdt_amount_micro d) ds /\
  sumZ (fun o => mo_usdd_amount_base o) (map output_of ds)
    = 100 * sumZ (fun d => vd_usdt_amount_micro d) ds /\
  0 <= sumZ (fun d => vd_usdt_amount_micro d) ds <= Z.of_nat (length ds) * 20000000000000.
Proof.
  intros Hw. rewrite !sumZ_map. split; [done|]. split.
  - apply sumZ_scale. intros d Hd. pose proof (vdw_amount _ (Hw d Hd)) as Ha. unfold amount_ok in Ha.
    cbn [output_of mo_usdd_amount_base]. rewrite (uval_wrap_small 64) by lia. done.
  - pose proof (sumZ_bounds (fun d => uval (vd_usdt_amount_micro d)) 0 20000000000000 ds
      ltac:(intros d Hd; pose proof (vdw_amount _ (Hw d Hd)) as Ha; unfold amount_ok in Ha; lia)). lia.
Qed.

Lemma from_deposits_loop_Ok first ds outs :
  res_foldi (from_deposits_step first) 0 ds [] = Ok outs <->
  all_from (fun i d => VaultDeposit_wf d /\ Z.of_nat i < 2 ^ 64 /\
    uval (vd_nonce d) = vd_nonce first + Z.of_nat i /\
    vd_ethereum_chain_id d = vd_ethereum_chain_id first /\
    vd_vault d = vd_vault first /\ vd_usdt d = vd_usdt first) 0 ds /\ outs = map output_of ds.
Proof.
  rewrite (res_foldi_iff _ _ (fun s d => s ++ [output_of d]) (from_deposits_step_Ok first)).
  by rewrite fold_left_push.
Qed.

Lemma from_deposits_Ok first ds b :
  MintBatch_from_deposits (first :: ds) = Ok b <->
  deposits_ok first (first :: ds) /\ b = batch_of first (first :: ds).
Proof.
  unfold MintBatch_from_deposits. cbn [head expect]. set (l := first :: ds).
  pose proof (uint_range (vd_nonce first)). rewrite fail_then, size_guard. split.
  - intros (Hs & Hf). cbn [mbind res_bind] in Hf.
    apply res_bind_Ok in Hf as ([] & Hv & Hf). apply res_bind_Ok in Hf as (outs & Ho & Hf).
    apply from_deposits_loop_Ok in Ho as [Ha ->].
    destruct (outputs_of_totals l) as (H1 & H2 & H3).
    { intros d [k Hk]%list_elem_of_lookup. by apply (Ha k d Hk). }
    apply res_bind_Ok in Hf as (nx & Hnx%ok_or_Ok%checked_add_Some & Hf).
    rewrite (uval_wrap_small 64) in Hnx by lia. pose proof (uint_range nx).
    apply res_bind_Ok in Hf as (tm & Htm%total_loop_Ok & Hf).
    apply res_bind_Ok in Hf as (tb & Htb%total_loop_Ok & Hf).
    rewrite H1 in Htm. rewrite H2 in Htb. rewrite (uval_wrap_small 64) in Htm, Htb by lia.
    apply fail_then in Hf as (Hg & Hf). inv_ok. rewrite max_batch_usdt_val in *. split.
    + split; [done| |lia|lia]. intros i d Hd. pose proof (Ha i d Hd). naive_solver.
    + unfold batch_of. f_equal; apply uint_eq; rewrite ?(uval_wrap_small 64) by lia; lia.
  - intros [[Hs He Hn Hc] ->]. split; [done|]. cbn [mbind res_bind].
    assert (VaultDeposit_wf first) as Hw by by apply (He 0%nat first).
    rewrite (proj2 (VaultDeposit_validate_Ok first) Hw). cbn [mbind res_bind].
    destruct (outputs_of_totals l) as (H1 & H2 & H3).
    { intros d [k Hk]%list_elem_of_lookup. by apply (He k d Hk). }
    apply res_bind_Ok. exists (map output_of l). split.
    { apply from_deposits_loop_Ok. split; [|done]. intros i d Hd.
      pose proof (lookup_lt_Some _ _ _ Hd). pose proof (He i d Hd) as (? & ? & ? & ? & ?).
      split; [done|]. split; [lia|]. done. }
    set (micro := sumZ (fun d => uval (vd_usdt_amount_micro d)) l) in *.
    apply res_bind_Ok. exists (uint_wrap 64 (vd_nonce first + Z.of_nat (length l))). split.
    { apply ok_or_Ok, checked_add_Some. by wrap_small. }
    apply res_bind_Ok. exists (uint_wrap 64 micro). split.
    { apply total_loop_Ok. wrap_small. lia. }
    apply res_bind_Ok. exists (uint_wrap 64 (100 * micro)). split.
    { apply total_loop_Ok. wrap_small. lia. }
    apply fail_then. split; [|done]. wrap_small.
    rewrite max_batch_usdt_val, max_batch_usdd_val. apply orb_false_iff. rewrite !Z.ltb_ge. lia.
Qed.
End from_deposits.

(** ** The byte formats are exact *)

Lemma script_fits (s : bytes) : script_ok s -> Z.of_nat (length s) < 2 ^ 32.
Proof. unfold script_ok. lia. Qed.

#[export] Program Instance VaultDeposit_codec : Codec VaultDeposit :=
  {| valid := fun d => VaultDeposit_validate d = Ok tt |}.
Next Obligation.
  record_codec VaultDeposit_decode VaultDeposit_encode.
  apply VaultDeposit_validate_Ok in Hv. apply script_fits, Hv.
Qed.
Next Obligation.
  intros d Hd%VaultDeposit_validate_Ok. unfold_encode VaultDeposit_encode.
  destruct (codec_total (A:=bytes) (vd_elements_script d)) as [p ->]; [apply script_fits, Hd|].
  by eexists.
Qed.

#[export] Program Instance EthereumFinalityWitness_codec : Codec EthereumFinalityWitness :=
  {| valid := fun f => EthereumFinalityWitness_validate f = Ok tt |}.
Next Obligation. record_codec EthereumFinalityWitness_decode EthereumFinalityWitness_encode. Qed.
Next Obligation. intros f _. by eexists. Qed.

#[export] Program Instance MintOutput_codec : Codec MintOutput :=
  {| valid := fun o => MintOutput_validate o = Ok tt |}.
Next Obligation.
  record_codec MintOutput_decode MintOutput_encode.
  apply MintOutput_validate_Ok in Hv. apply script_fits, Hv.
Qed.
Next Obligation.
  intros o Ho%MintOutput_validate_Ok. unfold_encode MintOutput_encode.
  destruct (codec_total (A:=bytes) (mo_elements_script o)) as [p ->]; [apply script_fits, Ho|].
  by eexists.
Qed.

Lemma MintBatch_wf_outputs b :
  MintBatch_wf b -> Forall (fun o => MintOutput_validate o = Ok tt) (mb_outputs b).
Proof.
  intros Hb. apply Forall_forall. intros o [i Hi]%list_elem_of_lookup.
  by apply MintOutput_validate_Ok, (mbw_outputs _ Hb i o).
Qed.

#[export] Program Instance MintBatch_codec : Codec MintBatch :=
  {| valid := fun b => MintBatch_validate b = Ok tt |}.
Next Obligation.
  record_codec_start MintBatch_decode MintBatch_encode.
  - record_forward. apply fail_if_Ok in Hl. inv_ok. pose proof (uint_range v2).
    cbn [mb_first_nonce mb_next_nonce mb_outputs mb_total_usdt_amount_micro mb_total_usdd_amount_base].
    rewrite (proj2 (uint_try_Some 8 _ v2)) by lia. reads_each.
  - intros [Hv Hr]. apply MintBatch_validate_Ok in Hv as Hw. pose proof (mbw_size _ Hw).
    destruct (uint_try 8 _) as [c|] eqn:Ec.
    2: { apply uint_try_None in Ec. lia. }
    apply uint_try_Some in Ec. record_backward.
    + rewrite Ec. unfold MAX_MINT_BATCH_SIZE. apply orb_false_iff.
      rewrite Z.eqb_neq, Z.ltb_ge. lia.
    + split; [lia|by apply MintBatch_wf_outputs].
Qed.
Next Obligation.
  intros b Hb%MintBatch_validate_Ok. unfold_encode MintBatch_encode.
  destruct (encode_seq_total (mb_outputs b)) as [p ->]; [by apply MintBatch_wf_outputs|].
  pose proof (mbw_size _ Hb). destruct (uint_try 8 _) eqn:Ec; [by eexists|].
  apply uint_try_None in Ec. lia.
Qed.

(** ** Properties *)

(** Each inbound record is decoded from exactly one byte string, its own
    encoding, and exactly when it passes [validate]: no other bytes, no
    invalid record and no trailing data are ever accepted. *)
Theorem inbound_records_canonical :
  (forall bs d, decode_exact bs = Ok d <-> VaultDeposit_validate d = Ok tt /\ encode d = Some bs) /\
  (forall bs f, decode_exact bs = Ok f <->
     EthereumFinalityWitness_validate f = Ok tt /\ encode f = Some bs) /\
  (forall bs o, decode_exact bs = Ok o <-> MintOutput_validate o = Ok tt /\ encode o = Some bs) /\
  (forall bs b, decode_exact bs = Ok b <-> MintBatch_validate b = Ok tt /\ encode b = Some bs).
Proof.
  split; [|split; [|split]]; intros bs x.
  - exact (decode_exact_spec (A:=VaultDeposit) bs x).
  - exact (decode_exact_spec (A:=EthereumFinalityWitness) bs x).
  - exact (decode_exact_spec (A:=MintOutput) bs x).
  - exact (decode_exact_spec (A:=MintBatch) bs x).
Qed.

(** [MintBatch::validate] accepts exactly the batches of 1 to 64 outputs whose
    nonces count up from [first_nonce] to [next_nonce] without overflow, whose
    outputs each convert exactly, and whose totals are the true sums within
    the cap: wrapped totals or nonces never pass. *)
Theorem mint_batch_validate_iff (b : MintBatch) :
  MintBatch_validate b = Ok tt <->
  (1 <= length (mb_outputs b) <= 64)%nat /\
  uval (mb_next_nonce b) = mb_first_nonce b + Z.of_nat (length (mb_outputs b)) /\
  (forall i o, mb_outputs b !! i = Some o ->
     uval (mo_nonce o) = mb_first_nonce b + Z.of_nat i /\ mo_deposit_id o <> ZERO /\
     1 <= mo_usdt_amount_micro o <= MAX_DEPOSIT_AMOUNT_USDT_MICRO /\
     uval (mo_usdd_amount_base o) = 100 * mo_usdt_amount_micro o /\
     (1 <= length (mo_elements_script o) <= 128)%nat) /\
  uval (mb_total_usdt_amount_micro b) = sumZ (fun o => mo_usdt_amount_micro o) (mb_outputs b) /\
  uval (mb_total_usdd_amount_base b) = 100 * mb_total_usdt_amount_micro b /\
  mb_total_usdt_amount_micro b <= MAX_MINT_BATCH_USDT_MICRO.
Proof.
  rewrite MintBatch_validate_Ok, max_deposit_val, max_batch_usdt_val. split.
  - intros Hb. destruct (outputs_totals (mb_outputs b)) as [H1 _].
    { intros o [i Hi]%list_elem_of_lookup. apply (mbw_outputs _ Hb i o Hi). }
    destruct Hb as [Hs Hn Ho Hm Hb Hc].
    split; [done|]. split; [done|]. split; [|split; [done|split; [lia|done]]].
    intros i o Hi. destruct (Ho i o Hi) as [[? Ha ? ?] ?]. done.
  - intros (Hs & Hn & Ho & Hm & Hb & Hc).
    assert (forall o, o ∈ mb_outputs b -> MintOutput_wf o) as Hw.
    { intros o [i Hi]%list_elem_of_lookup. destruct (Ho i o Hi) as (? & ? & ? & ? & ?). done. }
    destruct (outputs_totals (mb_outputs b) Hw) as [H1 _].
    split; try done; [|lia]. intros i o Hi. split; [|apply (Ho i o Hi)].
    apply Hw, list_elem_of_lookup. by exists i.
Qed.

Section deposit_properties.
Context {H : Sha256}.

Lemma deposit_preimage_inj d e h k :
  deposit_preimage d h = deposit_preimage e k ->
  vd_ethereum_chain_id d = vd_ethereum_chain_id e /\ vd_vault d = vd_vault e /\
  vd_usdt d = vd_usdt e /\ vd_nonce d = vd_nonce e /\ vd_depositor d = vd_depositor e /\
  vd_usdt_amount_micro d = vd_usdt_amount_micro e /\ h = k /\ vd_user_salt d = vd_user_salt e.
Proof.
  unfold deposit_preimage, u256_of_u64. intros E. rewrite <- !app_assoc in E.
  do 2 apply app_inv_head in E. apply app_inv_head in E. split_fields. subst. done.
Qed.

Lemma deposit_ids_bind (d e : VaultDeposit)
    (Hid : VaultDeposit_deposit_id d = VaultDeposit_deposit_id e) :
  d = e \/ collision (vd_elements_script d) (vd_elements_script e) \/
  collision (deposit_preimage d (VaultDeposit_elements_script_hash d))
    (deposit_preimage e (VaultDeposit_elements_script_hash e)).
Proof.
  destruct (decide (deposit_preimage d (VaultDeposit_elements_script_hash d)
                    = deposit_preimage e (VaultDeposit_elements_script_hash e))) as [E|]; [|by right; right].
  apply deposit_preimage_inj in E as (? & ? & ? & ? & ? & ? & Hs & ?).
  destruct (decide (vd_elements_script d = vd_elements_script e)); [left|by right; left].
  destruct d, e; cbn in *; by subst.
Qed.

(** Two deposits with one [deposit_id] agree in every field the commitment
    covers, the recipient script included, unless SHA-256 collides on the two
    commitments or on the two scripts. *)
Theorem deposit_id_binding (d e : VaultDeposit)
    (Hid : VaultDeposit_deposit_id d = VaultDeposit_deposit_id e) :
  d = e \/ collision (vd_elements_script d) (vd_elements_script e) \/
  collision (deposit_preimage d (VaultDeposit_elements_script_hash d))
    (deposit_preimage e (VaultDeposit_elements_script_hash e)).
Proof. by apply deposit_ids_bind. Qed.

(** An error other than the two overflows of the totals. *)
Definition not_total_overflow (e : DecodeError) : Prop :=
  e <> InvalidValue "batch USDT total overflow" /\ e <> InvalidValue "batch USDD total overflow".

Lemma VaultDeposit_validate_errors d : errs_in not_total_overflow (VaultDeposit_validate d).
Proof. unfold VaultDeposit_validate. errs; done. Qed.

Lemma from_deposits_errors ds : errs_in not_total_overflow (MintBatch_from_deposits ds).
Proof.
  unfold MintBatch_from_deposits. apply errs_in_bind; [by errs|].
  intros u Hsize%fail_if_Ok%size_guard.
  apply errs_in_bind; [apply errs_in_expect; destruct ds; [cbn in Hsize; lia|by eexists]|].
  intros first Hfirst. apply errs_in_bind; [apply VaultDeposit_validate_errors|]. intros _ _.
  apply errs_in_bind.
  { errs. unfold from_deposits_step. errs; try done; [apply VaultDeposit_validate_errors|].
    unfold MintOutput_from_deposit. errs; try done; [apply VaultDeposit_validate_errors|].
    apply errs_in_expect, micro_converts. unfold VaultDeposit_usdd_amount_base.
    match goal with
    | u : unit, V : VaultDeposit_validate _ = Ok ?u' |- _ =>
        destruct u'; apply VaultDeposit_validate_Ok in V; apply (vdw_amount _ V)
    end. }
  intros outs [Ha ->]%from_deposits_loop_Ok.
  destruct (outputs_of_totals ds) as (H1 & H2 & H3).
  { intros d [k Hk]%list_elem_of_lookup. by apply (Ha k d Hk). }
  set (micro := sumZ (fun d => uval (vd_usdt_amount_micro d)) ds) in *.
  apply errs_in_bind; [by errs|]. intros nx _.
  rewrite (proj2 (total_loop_Ok mo_usdt_amount_micro _ 0 (map output_of ds) (uint_wrap 64 0)
    (uint_wrap 64 micro))) by (wrap_small; lia).
  cbn [mbind res_bind].
  rewrite (proj2 (total_loop_Ok mo_usdd_amount_base _ 0 (map output_of ds) (uint_wrap 64 0)
    (uint_wrap 64 (100 * micro)))) by (wrap_small; lia).
  by errs.
Qed.

(** C34: [from_deposits] succeeds on exactly the lists of 1 to 64 valid deposits
    into one vault with consecutive nonces and a capped total, and then returns
    the batch of their outputs with the exact totals; it never panics, and its
    total-overflow errors cannot occur. *)
Theorem from_deposits_spec (ds : list VaultDeposit) :
  (forall b, MintBatch_from_deposits ds = Ok b <->
     exists first, head ds = Some first /\ deposits_ok first ds /\ b = batch_of first ds) /\
  MintBatch_from_deposits ds <> Panic /\
  MintBatch_from_deposits ds <> Err (InvalidValue "batch USDT total overflow") /\
  MintBatch_from_deposits ds <> Err (InvalidValue "batch USDD total overflow").
Proof.
  split.
  { intros b. destruct ds as [|first ds].
    - split; [done|]. by intros (f & Hf & _).
    - rewrite from_deposits_Ok. split; [by exists first|]. by intros (f & [= <-] & ?). }
  pose proof (from_deposits_errors ds) as He.
  split; [|split]; intros E; rewrite E in He; by destruct He.
Qed.
End deposit_properties.

(** Two concrete deposits of consecutive nonces. *)
Definition sample_deposit (nonce amount : Z) : VaultDeposit :=
  MkVaultDeposit (uint_wrap 64 1) (array_rep 20 x01) (array_rep 20 x02) (uint_wrap 64 nonce)
    (array_rep 20 x03) (uint_wrap 64 amount) [x51] (array_rep 32 x04).

Lemma deposit_id_binding_witness :
  @VaultDeposit_deposit_id toy_sha256 (sample_deposit 7 1000000)
    = @VaultDeposit_deposit_id toy_sha256 (sample_deposit 8 2000000) /\
  (sample_deposit 7 1000000 = sample_deposit 8 2000000 \/
   @collision toy_sha256 [x51] [x51] \/
   @collision toy_sha256 (deposit_preimage (sample_deposit 7 1000000)
       (@VaultDeposit_elements_script_hash toy_sha256 (sample_deposit 7 1000000)))
     (deposit_preimage (sample_deposit 8 2000000)
       (@VaultDeposit_elements_script_hash toy_sha256 (sample_deposit 8 2000000)))).
Proof.
  assert (@VaultDeposit_deposit_id toy_sha256 (sample_deposit 7 1000000)
            = @VaultDeposit_deposit_id toy_sha256 (sample_deposit 8 2000000)) as Hid
    by (apply array_eq; vm_compute; reflexivity).
  split; [exact Hid|]. exact (@deposit_id_binding toy_sha256 _ _ Hid).
Defined.
