(* ===== verification/Burns.v ===== *)
(** Burns: the outbound records of [crates/usdd-core/src/types.rs].

    [Burn] (an irreversible Elements burn), its 65-byte [BurnPayload], the
    [SolidityBurnClaim] whose leaf enters the burn accumulator, and the
    [ElementsEvent] of the event claims.  The theorems show that the byte formats
    are exact, that a valid burn yields a valid payload and a valid claim, and
    that a leaf commits to its index, amount, recipient and outpoint up to a
    SHA-256 collision and is never an inner node of the accumulator. *)

From S2P Require Import Prelude Encoding Params Hashing BurnAccumulator Records.

Local Open Scope Z_scope.

Record BurnPayload : Type := MkBurnPayload {
  bpl_vault_id : Hash32;
  bpl_ethereum_recipient : EthAddress;
  bpl_amount_usdt_micro : u64
}.

Definition BurnPayload_ENCODED_LENGTH : nat := 65.

Definition BurnPayload_validate (p : BurnPayload) : res DecodeError unit :=
  fail_if (bool_decide (bpl_vault_id p = ZERO)
           || EthAddress_is_zero (bpl_ethereum_recipient p)
           || (bpl_amount_usdt_micro p =? 0)
           || (MAX_BURN_AMOUNT_USDT_MICRO <? bpl_amount_usdt_micro p)
           || negb (bool_decide (is_Some (usdt_micro_to_usdd_base (bpl_amount_usdt_micro p)))))
    (InvalidValue "invalid burn payload").

(** [*b"USDD"] *)
Definition USDD_MAGIC : array 4 := Array (n:=4) [x55; x53; x44; x44] eq_refl.

#[export] Instance BurnPayload_encode : CanonicalEncode BurnPayload := fun p =>
  encode USDD_MAGIC +++ encode (uint_wrap 8 1) +++ encode (bpl_vault_id p)
  +++ encode (bpl_ethereum_recipient p) +++ encode (bpl_amount_usdt_micro p).

(** The second disjunct of the header check is read only when the first fails. *)
#[export] Instance BurnPayload_decode : CanonicalDecode BurnPayload :=
  magic ← Decoder_fixed 4;
  lift (fail_if (bool_decide (magic <> USDD_MAGIC)) (InvalidValue "invalid burn payload header"));;
  version ← Decoder_u8;
  lift (fail_if (negb (uval version =? 1)) (InvalidValue "invalid burn payload header"));;
  vault_id ← Decoder_fixed 32;
  ethereum_recipient ← Decoder_fixed 20;
  amount_usdt_micro ← Decoder_u64;
  checked BurnPayload_validate (MkBurnPayload vault_id ethereum_recipient amount_usdt_micro).

Record SolidityBurnClaim : Type := MkSolidityBurnClaim {
  sbc_protocol_version : u32;
  sbc_elements_genesis_hash : Hash32;
  sbc_usdd_asset_id : Hash32;
  sbc_vault_id : Hash32;
  sbc_burn_txid_display : Hash32;
  sbc_burn_vout : u32;
  sbc_burn_id : Hash32;
  sbc_amount_usdt_micro : u64;
  sbc_recipient : EthAddress
}.

(** The 100 bytes hashed into a burn identifier. *)
Definition burn_id_preimage (elements_genesis : Hash32) (txid : Hash32) (vout : u32) : bytes :=
  BURN_ID_DOMAIN ++ elements_genesis ++ txid ++ be_bytes 4 vout.

(** The 201 bytes hashed into a leaf of the accumulator. *)
Definition burn_leaf_preimage (c : SolidityBurnClaim) (burn_index : u64) : bytes :=
  x00 :: SOLIDITY_BURN_LEAF_DOMAIN ++ be_bytes 4 (sbc_protocol_version c)
  ++ sbc_elements_genesis_hash c ++ sbc_usdd_asset_id c ++ sbc_vault_id c ++ sbc_burn_id c
  ++ be_bytes 8 burn_index ++ be_bytes 8 (sbc_amount_usdt_micro c) ++ sbc_recipient c.

Record Burn : Type := MkBurn {
  bu_vault_id : Hash32;
  bu_usdd_asset : Hash32;
  bu_usdd_amount_base : u64;
  bu_usdt_amount_micro : u64;
  bu_burn_outpoint : OutPoint;
  bu_ethereum_destination : EthAddress
}.

Definition Burn_validate (b : Burn) : res DecodeError unit :=
  fail_if (bool_decide (bu_vault_id b = ZERO) || EthAddress_is_zero (bu_ethereum_destination b))
    (InvalidValue "invalid vault or destination");;
  fail_if (bool_decide (bu_usdd_asset b = ZERO) || bool_decide (op_txid (bu_burn_outpoint b) = ZERO)
           || (bu_usdd_amount_base b =? 0)) (InvalidValue "invalid burn asset, outpoint, or amount");;
  fail_if (bool_decide (usdd_base_to_usdt_micro (bu_usdd_amount_base b)
                        <> Some (bu_usdt_amount_micro b)))
    (InvalidValue "burn is not exactly convertible to micro-USDT");;
  fail_if (MAX_BURN_AMOUNT_USDD_BASE <? bu_usdd_amount_base b)
    (InvalidValue "burn exceeds Elements explicit-output limit").

Definition Burn_burn_payload (b : Burn) : BurnPayload :=
  MkBurnPayload (bu_vault_id b) (bu_ethereum_destination b) (bu_usdt_amount_micro b).

#[export] Instance Burn_encode : CanonicalEncode Burn := fun b =>
  encode_header TAG_BURN +++ encode (bu_vault_id b) +++ encode (bu_usdd_asset b)
  +++ encode (bu_usdd_amount_base b) +++ encode (bu_usdt_amount_micro b)
  +++ encode (bu_burn_outpoint b) +++ encode (bu_ethereum_destination b).

#[export] Instance Burn_decode : CanonicalDecode Burn :=
  decode_header TAG_BURN;;
  vault_id ← Decoder_fixed 32;
  usdd_asset ← Decoder_fixed 32;
  usdd_amount_base ← Decoder_u64;
  usdt_amount_micro ← Decoder_u64;
  burn_outpoint ← decode_from;
  ethereum_destination ← Decoder_fixed 20;
  checked Burn_validate
    (MkBurn vault_id usdd_asset usdd_amount_base usdt_amount_micro burn_outpoint ethereum_destination).

Inductive ElementsEventKind : Type := EventMint | EventBurn.

#[export] Instance ElementsEventKind_eq_dec : EqDecision ElementsEventKind.
Proof. solve_decision. Defined.

(** [*self as u8] *)
Definition ElementsEventKind_as_u8 (k : ElementsEventKind) : u8 :=
  match k with EventMint => uint_wrap 8 1 | EventBurn => uint_wrap 8 2 end.

#[export] Instance ElementsEventKind_encode : CanonicalEncode ElementsEventKind := fun k =>
  encode (ElementsEventKind_as_u8 k).

#[export] Instance ElementsEventKind_decode : CanonicalDecode ElementsEventKind :=
  tag ← Decoder_u8;
  if uval tag =? 1 then mret EventMint
  else if uval tag =? 2 then mret EventBurn
  else lift (Err (InvalidTag "ElementsEventKind" (uval tag))).

Record ElementsEvent : Type := MkElementsEvent {
  ee_kind : ElementsEventKind;
  ee_event_id : Hash32;
  ee_outpoint : OutPoint;
  ee_usdd_amount_base : u64;
  ee_payload_commitment : Hash32;
  ee_elements_block_hash : Hash32;
  ee_elements_height : u64;
  ee_bitcoin_bmm_block_hash : Hash32;
  ee_bitcoin_bmm_height : u64;
  ee_bitcoin_confirmations : u32
}.

(** The check inlined at the end of the decoder. *)
Definition ElementsEvent_validate (e : ElementsEvent) : res DecodeError unit :=
  fail_if (bool_decide (ee_event_id e = ZERO) || bool_decide (op_txid (ee_outpoint e) = ZERO)
           || (ee_usdd_amount_base e =? 0) || bool_decide (ee_payload_commitment e = ZERO)
           || bool_decide (ee_elements_block_hash e = ZERO)
           || bool_decide (ee_bitcoin_bmm_block_hash e = ZERO))
    (InvalidValue "invalid Elements event").

#[export] Instance ElementsEvent_encode : CanonicalEncode ElementsEvent := fun e =>
  encode_header TAG_ELEMENTS_EVENT +++ encode (ee_kind e) +++ encode (ee_event_id e)
  +++ encode (ee_outpoint e) +++ encode (ee_usdd_amount_base e) +++ encode (ee_payload_commitment e)
  +++ encode (ee_elements_block_hash e) +++ encode (ee_elements_height e)
  +++ encode (ee_bitcoin_bmm_block_hash e) +++ encode (ee_bitcoin_bmm_height e)
  +++ encode (ee_bitcoin_confirmations e).

#[export] Instance ElementsEvent_decode : CanonicalDecode ElementsEvent :=
  decode_header TAG_ELEMENTS_EVENT;;
  kind ← decode_from;
  event_id ← Decoder_fixed 32;
  outpoint ← decode_from;
  usdd_amount_base ← Decoder_u64;
  payload_commitment ← Decoder_fixed 32;
  elements_block_hash ← Decoder_fixed 32;
  elements_height ← Decoder_u64;
  bitcoin_bmm_block_hash ← Decoder_fixed 32;
  bitcoin_bmm_height ← Decoder_u64;
  bitcoin_confirmations ← Decoder_u32;
  checked ElementsEvent_validate
    (MkElementsEvent kind event_id outpoint usdd_amount_base payload_commitment elements_block_hash
       elements_height bitcoin_bmm_block_hash bitcoin_bmm_height bitcoin_confirmations).

Section burns.
Context {H : Sha256}.

Definition Burn_redemption_id (b : Burn) (elements_genesis : Hash32) : Hash32 :=
  hash_bytes (burn_id_preimage elements_genesis (op_txid (bu_burn_outpoint b))
                (op_vout (bu_burn_outpoint b))).

Definition Burn_solidity_claim (b : Burn) (elements_genesis : Hash32) : SolidityBurnClaim :=
  MkSolidityBurnClaim PROTOCOL_VERSION elements_genesis (bu_usdd_asset b) (bu_vault_id b)
    (op_txid (bu_burn_outpoint b)) (op_vout (bu_burn_outpoint b))
    (Burn_redemption_id b elements_genesis) (bu_usdt_amount_micro b) (bu_ethereum_destination b).

Definition SolidityBurnClaim_validate (c : SolidityBurnClaim) : res DecodeError unit :=
  fail_if (negb (sbc_protocol_version c =? PROTOCOL_VERSION)
           || bool_decide (sbc_elements_genesis_hash c = ZERO)
           || bool_decide (sbc_usdd_asset_id c = ZERO)
           || bool_decide (sbc_vault_id c = ZERO)
           || bool_decide (sbc_burn_txid_display c = ZERO)
           || bool_decide (sbc_burn_id c = ZERO)
           || (sbc_amount_usdt_micro c =? 0)
           || EthAddress_is_zero (sbc_recipient c)) (InvalidValue "invalid Solidity burn claim");;
  fail_if (bool_decide (hash_bytes (burn_id_preimage (sbc_elements_genesis_hash c)
                                      (sbc_burn_txid_display c) (sbc_burn_vout c))
                        <> sbc_burn_id c)) (InvalidValue "burn ID does not bind outpoint").

Definition SolidityBurnClaim_burn_leaf (c : SolidityBurnClaim) (burn_index : u64)
    : res DecodeError Hash32 :=
  SolidityBurnClaim_validate c;;
  Ok (hash_bytes (burn_leaf_preimage c burn_index)).

#[export] Instance SolidityBurnClaim_encode : CanonicalEncode SolidityBurnClaim := fun c =>
  encode_header TAG_SOLIDITY_BURN_CLAIM +++ encode (sbc_protocol_version c)
  +++ encode (sbc_elements_genesis_hash c) +++ encode (sbc_usdd_asset_id c)
  +++ encode (sbc_vault_id c) +++ encode (sbc_burn_txid_display c) +++ encode (sbc_burn_vout c)
  +++ encode (sbc_burn_id c) +++ encode (sbc_amount_usdt_micro c) +++ encode (sbc_recipient c).

#[export] Instance SolidityBurnClaim_decode : CanonicalDecode SolidityBurnClaim :=
  decode_header TAG_SOLIDITY_BURN_CLAIM;;
  protocol_version ← Decoder_u32;
  elements_genesis_hash ← Decoder_fixed 32;
  usdd_asset_id ← Decoder_fixed 32;
  vault_id ← Decoder_fixed 32;
  burn_txid_display ← Decoder_fixed 32;
  burn_vout ← Decoder_u32;
  burn_id ← Decoder_fixed 32;
  amount_usdt_micro ← Decoder_u64;
  recipient ← Decoder_fixed 20;
  checked SolidityBurnClaim_validate
    (MkSolidityBurnClaim protocol_version elements_genesis_hash usdd_asset_id vault_id
       burn_txid_display burn_vout burn_id amount_usdt_micro recipient).

#[export] Program Instance SolidityBurnClaim_codec : Codec SolidityBurnClaim :=
  {| valid := fun c => SolidityBurnClaim_validate c = Ok tt |}.
Next Obligation. record_codec SolidityBurnClaim_decode SolidityBurnClaim_encode. Qed.
Next Obligation. intros c _. by eexists. Qed.
End burns.

(** ** The byte formats are exact *)

#[export] Program Instance BurnPayload_codec : Codec BurnPayload :=
  {| valid := fun p => BurnPayload_validate p = Ok tt |}.
Next Obligation.
  record_codec BurnPayload_decode BurnPayload_encode.
  inv_ok. match goal with N : ~ (_ <> _) |- _ => apply dec_stable in N as -> end.
  match goal with E : uval ?v = 1, R : reads (encode ?v) _ _ |- _ =>
    assert (v = uint_wrap 8 1) as -> by by apply uint_eq end.
  reads_each.
Qed.
Next Obligation. intros p _. by eexists. Qed.

#[export] Program Instance Burn_codec : Codec Burn := {| valid := fun b => Burn_validate b = Ok tt |}.
Next Obligation. record_codec Burn_decode Burn_encode. Qed.
Next Obligation. intros b _. by eexists. Qed.

#[export] Program Instance ElementsEventKind_codec : Codec ElementsEventKind :=
  {| valid := fun _ => True |}.
Next Obligation.
  intros d k d'. unfold_decode ElementsEventKind_decode. unfold_encode ElementsEventKind_encode. split.
  - intros Hd. inv_record. split; [done|].
    destruct (Z.eqb_spec (uval v) 1) as [E|_]; [|destruct (Z.eqb_spec (uval v) 2) as [E|_]; [|done]];
      inv_record; cbn [ElementsEventKind_as_u8];
      match goal with |- reads (encode ?w) _ _ => by replace w with v by by apply uint_eq end.
  - intros [_ Hr]. apply dec_bind_Ok. exists (ElementsEventKind_as_u8 k), d'.
    rewrite codec_spec. split; [done|]. by destruct k.
Qed.
Next Obligation. intros k _. by eexists. Qed.

#[export] Program Instance ElementsEvent_codec : Codec ElementsEvent :=
  {| valid := fun e => ElementsEvent_validate e = Ok tt |}.
Next Obligation. record_codec ElementsEvent_decode ElementsEvent_encode. Qed.
Next Obligation. intros e _. by eexists. Qed.


(** ** Properties *)

Section burn_properties.
Context {H : Sha256}.

(** Each outbound record is decoded from exactly its own encoding and exactly
    when its checks pass. *)
Theorem outbound_records_canonical :
  (forall bs b, decode_exact bs = Ok b <-> Burn_validate b = Ok tt /\ encode b = Some bs) /\
  (forall bs p, decode_exact bs = Ok p <-> BurnPayload_validate p = Ok tt /\ encode p = Some bs) /\
  (forall bs c, decode_exact bs = Ok c <-> SolidityBurnClaim_validate c = Ok tt /\ encode c = Some bs) /\
  (forall bs e, decode_exact bs = Ok e <-> ElementsEvent_validate e = Ok tt /\ encode e = Some bs) /\
  (forall (p : BurnPayload) bs, encode p = Some bs -> length bs = BurnPayload_ENCODED_LENGTH).
Proof.
  split; [|split; [|split; [|split]]].
  1-4: intros bs x.
  - exact (decode_exact_spec (A:=Burn) bs x).
  - exact (decode_exact_spec (A:=BurnPayload) bs x).
  - exact (decode_exact_spec (A:=SolidityBurnClaim) bs x).
  - exact (decode_exact_spec (A:=ElementsEvent) bs x).
  - intros p bs E. unfold encode, BurnPayload_encode, encode, array_encode, u8_encode, u64_encode in E.
    cbn [enc_app] in E. apply (inj Some) in E as <-.
    rewrite !length_app, !arr_length, !length_be_bytes. done.
Qed.

(** A valid burn has a valid 65-byte payload, and (for a nonzero genesis and
    burn identifier) a valid Solidity claim that carries the burn's amount,
    recipient and outpoint, and hence a leaf. *)
Theorem burn_claim_valid (b : Burn) (genesis : Hash32) (index : u64)
    (Hb : Burn_validate b = Ok tt) :
  BurnPayload_validate (Burn_burn_payload b) = Ok tt /\
  100 * bu_usdt_amount_micro b = bu_usdd_amount_base b /\
  (SolidityBurnClaim_validate (Burn_solidity_claim b genesis) = Ok tt <->
     genesis <> ZERO /\ Burn_redemption_id b genesis <> ZERO) /\
  (genesis <> ZERO -> Burn_redemption_id b genesis <> ZERO ->
   SolidityBurnClaim_burn_leaf (Burn_solidity_claim b genesis) index
     = Ok (hash_bytes (burn_leaf_preimage (Burn_solidity_claim b genesis) index))).
Proof.
  unfold Burn_validate, EthAddress_is_zero in Hb. inv_ok.
  match goal with N : ~ (_ <> _) |- _ => apply dec_stable, base_to_micro_Some in N as Hm end.
  rewrite max_burn_base_val in *. pose proof (uint_range (bu_usdt_amount_micro b)).
  assert (SolidityBurnClaim_validate (Burn_solidity_claim b genesis) = Ok tt <->
     genesis <> ZERO /\ Burn_redemption_id b genesis <> ZERO) as Hc.
  { unfold SolidityBurnClaim_validate, EthAddress_is_zero. rewrite fail_then, fail_if_Ok.
    cbn [Burn_solidity_claim sbc_protocol_version sbc_elements_genesis_hash sbc_usdd_asset_id
         sbc_vault_id sbc_burn_txid_display sbc_burn_vout sbc_burn_id sbc_amount_usdt_micro sbc_recipient].
    rewrite Z.eqb_refl, !orb_false_iff, !bool_decide_eq_false, Z.eqb_neq.
    fold (Burn_redemption_id b genesis). split; [tauto|].
    intros [Hg Hr]. split; [|by intros Hne; apply Hne]. repeat split; try done. lia. }
  split; [|split; [lia|split; [exact Hc|]]].
  - unfold BurnPayload_validate, Burn_burn_payload, EthAddress_is_zero.
    cbn [bpl_vault_id bpl_ethereum_recipient bpl_amount_usdt_micro].
    apply fail_if_Ok. rewrite !orb_false_iff, !bool_decide_eq_false, negb_bool_decide_false,
      Z.eqb_neq, Z.ltb_ge, max_burn_micro_val.
    repeat split; try done; try lia.
    destruct (usdt_micro_to_usdd_base (bu_usdt_amount_micro b)) eqn:E; [by eexists|].
    apply micro_to_base_None in E. lia.
  - intros Hg Hr. unfold SolidityBurnClaim_burn_leaf. by rewrite (proj2 Hc (conj Hg Hr)).
Qed.

Lemma burn_id_preimage_inj g g' t t' v v' :
  burn_id_preimage g t v = burn_id_preimage g' t' v' -> g = g' /\ t = t' /\ v = v'.
Proof.
  unfold burn_id_preimage. intros E. apply app_inv_head in E. split_fields. done.
Qed.

Lemma burn_leaf_preimage_inj c c' i i' :
  burn_leaf_preimage c i = burn_leaf_preimage c' i' ->
  sbc_protocol_version c = sbc_protocol_version c' /\
  sbc_elements_genesis_hash c = sbc_elements_genesis_hash c' /\
  sbc_usdd_asset_id c = sbc_usdd_asset_id c' /\ sbc_vault_id c = sbc_vault_id c' /\
  sbc_burn_id c = sbc_burn_id c' /\ i = i' /\
  sbc_amount_usdt_micro c = sbc_amount_usdt_micro c' /\ sbc_recipient c = sbc_recipient c'.
Proof.
  unfold burn_leaf_preimage. intros E. apply (f_equal tail) in E. cbn [tail] in E.
  apply app_inv_head in E. split_fields. done.
Qed.

(** The bytes that [validate] hashes to check a claim's burn identifier. *)
Definition claim_id_preimage (c : SolidityBurnClaim) : bytes :=
  burn_id_preimage (sbc_elements_genesis_hash c) (sbc_burn_txid_display c) (sbc_burn_vout c).

Lemma burn_leaf_claim_inj c c' i i' h :
  SolidityBurnClaim_burn_leaf c i = Ok h -> SolidityBurnClaim_burn_leaf c' i' = Ok h ->
  (c = c' /\ i = i') \/ collision (burn_leaf_preimage c i) (burn_leaf_preimage c' i')
  \/ collision (claim_id_preimage c) (claim_id_preimage c').
Proof.
  unfold SolidityBurnClaim_burn_leaf, SolidityBurnClaim_validate. intros Hc Hc'. inv_ok.
  repeat match goal with N : ~ (_ <> sbc_burn_id _) |- _ => apply dec_stable in N end.
  destruct (decide (burn_leaf_preimage c i = burn_leaf_preimage c' i')) as [E|]; [|by right; left].
  apply burn_leaf_preimage_inj in E as (? & Hg & ? & ? & Hb & ? & ? & ?).
  destruct (decide (claim_id_preimage c = claim_id_preimage c')) as [E|Hn].
  - apply burn_id_preimage_inj in E as (_ & ? & ?). left. destruct c, c'; cbn in *; by subst.
  - right; right. split; [done|]. unfold claim_id_preimage, hash_bytes in *. congruence.
Qed.

(** Two accepted claims with one leaf are the same claim at the same index,
    transaction and output included, unless SHA-256 collides on their leaf or
    identity preimages; and a leaf equal to an inner node of the accumulator is
    itself a collision. *)
Theorem burn_leaf_binding (c c' : SolidityBurnClaim) (i i' : u64) (h : Hash32)
    (Hc : SolidityBurnClaim_burn_leaf c i = Ok h) :
  (SolidityBurnClaim_burn_leaf c' i' = Ok h ->
   (c = c' /\ i = i') \/ collision (burn_leaf_preimage c i) (burn_leaf_preimage c' i')
   \/ collision (claim_id_preimage c) (claim_id_preimage c')) /\
  (forall l r, burn_accumulator_node l r = h -> collision (burn_leaf_preimage c i) (node_preimage l r)).
Proof.
  split; [by apply burn_leaf_claim_inj|].
  unfold SolidityBurnClaim_burn_leaf in Hc. inv_ok.
  intros l r Hn. split; [done|]. symmetry. exact Hn.
Qed.
End burn_properties.

(** A concrete burn of 0.5 USDT. *)
Definition sample_burn : Burn :=
  MkBurn (array_rep 32 x01) (array_rep 32 x02) (uint_wrap 64 50000000) (uint_wrap 64 500000)
    (MkOutPoint (array_rep 32 x03) (uint_wrap 32 1)) (array_rep 20 x04).

Lemma burn_claim_valid_witness :
  Burn_validate sample_burn = Ok tt /\
  BurnPayload_validate (Burn_burn_payload sample_burn) = Ok tt.
Proof.
  assert (Burn_validate sample_burn = Ok tt) as Hb by (vm_compute; reflexivity).
  split; [exact Hb|].
  exact (proj1 (@burn_claim_valid toy_sha256 sample_burn (array_rep 32 x05) (uint_wrap 64 0) Hb)).
Defined.

Lemma burn_leaf_binding_witness :
  exists h, @SolidityBurnClaim_burn_leaf toy_sha256
      (@Burn_solidity_claim toy_sha256 sample_burn (array_rep 32 x05)) (uint_wrap 64 0) = Ok h /\
  forall l r, @burn_accumulator_node toy_sha256 l r = h ->
    @collision toy_sha256
      (burn_leaf_preimage (@Burn_solidity_claim toy_sha256 sample_burn (array_rep 32 x05)) (uint_wrap 64 0))
      (node_preimage l r).
Proof.
  set (c := @Burn_solidity_claim toy_sha256 sample_burn (array_rep 32 x05)).
  set (h := @hash_bytes toy_sha256 (burn_leaf_preimage c (uint_wrap 64 0))).
  assert (@SolidityBurnClaim_burn_leaf toy_sha256 c (uint_wrap 64 0) = Ok h) as Hc.
  { unfold SolidityBurnClaim_burn_leaf.
    assert (@SolidityBurnClaim_validate toy_sha256 c = Ok tt) as -> by (vm_compute; reflexivity).
    reflexivity. }
  exists h. split; [exact Hc|].
  exact (proj2 (@burn_leaf_binding toy_sha256 c c (uint_wrap 64 0) (uint_wrap 64 0) h Hc)).
Defined.
