(* ===== verification/Keccak.v ===== *)
(** Solidity's [keccak256]: the Keccak-f[1600] sponge with a rate of 136 bytes
    and the padding [0x01 .. 0x80], for the domain constants of the contracts. *)

From S2P Require Import Prelude.

Local Open Scope Z_scope.

Definition lane_mask : Z := Z.ones 64.
Definition rotl (n x : Z) : Z := Z.land (Z.lor (Z.shiftl x n) (Z.shiftr x (64 - n))) lane_mask.

(** The 25 lanes of a state, lane [(x, y)] at [x + 5 * y]. *)
Definition lane (a : list Z) (x y : nat) : Z := nth (x mod 5 + 5 * (y mod 5)) a 0.
Definition tabulate (f : nat -> nat -> Z) : list Z := map (fun i => f (i mod 5)%nat (i / 5)%nat) (seq 0 25).

Definition rotations : list Z :=
  [0; 1; 62; 28; 27; 36; 44; 6; 55; 20; 3; 10; 43; 25; 39; 41; 45; 15; 21; 8; 18; 2; 61; 56; 14].
Definition round_constants : list Z :=
  [0x1; 0x8082; 0x800000000000808A; 0x8000000080008000; 0x808B; 0x80000001; 0x8000000080008081;
   0x8000000000008009; 0x8A; 0x88; 0x80008009; 0x8000000A; 0x8000808B; 0x800000000000008B;
   0x8000000000008089; 0x8000000000008003; 0x8000000000008002; 0x8000000000000080; 0x800A;
   0x800000008000000A; 0x8000000080008081; 0x8000000000008080; 0x80000001; 0x8000000080008008].

Definition theta (a : list Z) : list Z :=
  let column x := fold_left Z.lxor (map (lane a x) (seq 0 5)) 0 in
  let columns := map column (seq 0 5) in
  let c x := nth (x mod 5) columns 0 in
  tabulate (fun x y => Z.lxor (lane a x y) (Z.lxor (c (x + 4)%nat) (rotl 1 (c (x + 1)%nat)))).
Definition rho_pi (a : list Z) : list Z :=
  tabulate (fun x y => rotl (lane rotations (x + 3 * y) x) (lane a (x + 3 * y) x)).
Definition chi (a : list Z) : list Z :=
  tabulate (fun x y => Z.lxor (lane a x y)
                         (Z.land (Z.lxor (lane a (x + 1) y) lane_mask) (lane a (x + 2) y))).
Definition iota (constant : Z) (a : list Z) : list Z :=
  match a with [] => [] | a0 :: rest => Z.lxor a0 constant :: rest end.
Definition keccak_f (a : list Z) : list Z :=
  fold_left (fun a constant => iota constant (chi (rho_pi (theta a)))) round_constants a.

Definition keccak_rate : nat := 136.
Definition keccak_pad (message : bytes) : bytes :=
  match (keccak_rate - length message mod keccak_rate)%nat with
  | 1%nat => message ++ [x81]
  | free => message ++ x01 :: repeat x00 (free - 2) ++ [x80]
  end.
Definition absorb (a : list Z) (block : bytes) : list Z :=
  imap (fun i l => Z.lxor l (if (8 * i <? keccak_rate)%nat then le_val (slice (8 * i) (8 * i + 8) block) else 0)) a.
Fixpoint absorb_blocks (fuel : nat) (a : list Z) (padded : bytes) : list Z :=
  match fuel, padded with
  | S fuel, _ :: _ => absorb_blocks fuel (keccak_f (absorb a (take keccak_rate padded))) (drop keccak_rate padded)
  | _, _ => a
  end.
Definition keccak_256 (message : bytes) : array 32 :=
  let padded := keccak_pad message in
  let a := absorb_blocks (length padded / keccak_rate) (repeat 0 25) padded in
  subarray 32 0 (concat (map (le_bytes 8) (take 4 a))).

(** The published digest of the empty message. *)
Example keccak_256_empty : arr (keccak_256 []) =
  [xc5; xd2; x46; x01; x86; xf7; x23; x3c; x92; x7e; x7d; xb2; xdc; xc7; x03; xc0;
   xe5; x00; xb6; x53; xca; x82; x27; x3b; x7b; xfa; xd8; x04; x5d; x85; xa4; x70].
Proof. vm_compute. reflexivity. Qed.
