(* ===== verification/VaultContract.v ===== *)
(** The side of the vault contract that the Elements guest must agree with:
    [USDDVaultV1.sol] and [Sha256SparseMerkle.sol] under [contracts/src], as far
    as they name a finalized Elements state, its verifier statement, and the
    leaves and branches of the burn tree.

    Written from the Solidity sources, with the contract's own types, names and
    argument orders; nothing here refers to the Rust definitions of the same
    hashes. *)

From S2P Require Import Prelude Hashing Records Keccak.

Local Open Scope Z_scope.

(** ** [abi.encodePacked] *)

Inductive AbiValue : Type :=
| abi_bytes1 (b : byte)
| abi_uint32 (x : u32)
| abi_uint64 (x : u64)
| abi_uint256 (x : uint 256)
| abi_bytes32 (x : Hash32)
| abi_address (x : EthAddress).

(** Every value big endian at its own width, without padding. *)
Definition abi_packed (v : AbiValue) : bytes :=
  match v with
  | abi_bytes1 b => [b]
  | abi_uint32 x => be_bytes 4 x
  | abi_uint64 x => be_bytes 8 x
  | abi_uint256 x => be_bytes 32 x
  | abi_bytes32 x => arr x
  | abi_address x => arr x
  end.
Definition encodePacked (values : list AbiValue) : bytes := concat (map abi_packed values).

Definition sol_ELEMENTS_STATE_DOMAIN : Hash32 := keccak_256 (str "USDD_ELEMENTS_STATE_V1").
Definition sol_ELEMENTS_STATEMENT_DOMAIN : Hash32 := keccak_256 (str "USDD_ELEMENTS_STATEMENT_V1").
Definition sol_BURN_LEAF_DOMAIN : Hash32 := keccak_256 (str "USDD_BURN_LEAF_V1").
Definition sol_BURN_ID_DOMAIN : Hash32 := Array (n:=32)
  [x58; x11; xf3; xff; x8b; x8f; x31; xfb; x49; xff; xb9; x1a; xfa; xb1; x31; x97;
   xc3; xd7; x2e; x92; x65; x49; xae; x29; xdb; xda; x46; xc6; x99; x8a; x3e; x45] eq_refl.

(** ** State *)

Record ElementsBridgeState : Type := MkElementsBridgeState {
  sequence : u64;
  burnCount : u64;
  elementsTipHash : Hash32;
  elementsConsensusStateDigest : Hash32;
  cumulativeBurnRoot : Hash32;
  finalizedBitcoinBlockHash : Hash32;
  bitcoinHeight : u64;
  elementsHeight : u64;
  bitcoinMedianTimePast : u64;
  bitcoinChainwork : uint 256
}.

Record BurnClaim : Type := MkBurnClaim {
  protocolVersion : u32;
  elementsGenesisHash : Hash32;
  usddAssetId : Hash32;
  vaultId : Hash32;
  burnTxid : Hash32;
  burnVout : u32;
  burnId : Hash32;
  amountUSDT6 : u64;
  recipient : EthAddress
}.

(** The immutables and the storage that the functions below read. *)
Record USDDVaultV1 : Type := MkVault {
  block_chainid : uint 256;
  address_this : EthAddress;
  VAULT_ID : Hash32;
  VERIFIER_PROGRAM_ID : Hash32;
  VERIFIER_CONFIG_HASH : Hash32;
  ELEMENTS_GENESIS_HASH : Hash32;
  USDD_ASSET_ID : Hash32;
  finalizedState : ElementsBridgeState;
  bridgeStateHash : Hash32
}.

Section contract.
Context {H : Sha256}.

(** ** [Sha256SparseMerkle] *)

Definition sol_hashLeaf (leafDomain : Hash32) (protocolVersion : u32)
    (vaultId elementsGenesisHash usddAssetId burnId : Hash32) (burnIndex amount : u64)
    (recipient : EthAddress) : Hash32 :=
  hash_bytes (encodePacked
    [abi_bytes1 x00; abi_bytes32 leafDomain; abi_uint32 protocolVersion; abi_bytes32 elementsGenesisHash;
     abi_bytes32 usddAssetId; abi_bytes32 vaultId; abi_bytes32 burnId; abi_uint64 burnIndex;
     abi_uint64 amount; abi_address recipient]).

Definition sol_hashNode (left right : Hash32) : Hash32 :=
  hash_bytes (encodePacked [abi_bytes1 x01; abi_bytes32 left; abi_bytes32 right]).

(** The loop from [level] on, over the entries of [merkleBranch] that remain. *)
Fixpoint computeRoot_loop (level : nat) (merkleBranch : list Hash32) (index : u64) (node : Hash32) : Hash32 :=
  match merkleBranch with
  | [] => node
  | sibling :: merkleBranch =>
      computeRoot_loop (S level) merkleBranch index
        (if Z.land (Z.shiftr index (Z.of_nat level)) 1 =? 0
         then sol_hashNode node sibling else sol_hashNode sibling node)
  end.
Definition sol_computeRoot (leaf : Hash32) (index : u64) (merkleBranch : list Hash32) : Hash32 :=
  computeRoot_loop 0 merkleBranch index leaf.
Definition sol_verify (root leaf : Hash32) (index : u64) (merkleBranch : list Hash32) : bool :=
  bool_decide (sol_computeRoot leaf index merkleBranch = root).

(** [EMPTY] of [contracts/ENCODING.md]: the hash of an empty subtree of each height. *)
Fixpoint sol_EMPTY (h : nat) : Hash32 :=
  match h with
  | O => hash_bytes (encodePacked [abi_bytes1 x00])
  | S h => sol_hashNode (sol_EMPTY h) (sol_EMPTY h)
  end.

(** ** [USDDVaultV1] *)

Definition hashBurnLeaf (claim : BurnClaim) (burnIndex : u64) : Hash32 :=
  sol_hashLeaf sol_BURN_LEAF_DOMAIN (protocolVersion claim) (vaultId claim) (elementsGenesisHash claim)
    (usddAssetId claim) (burnId claim) burnIndex (amountUSDT6 claim) (recipient claim).

Definition computeBurnId (vault : USDDVaultV1) (burnTxid : Hash32) (burnVout : u32) : Hash32 :=
  hash_bytes (encodePacked
    [abi_bytes32 sol_BURN_ID_DOMAIN; abi_bytes32 (ELEMENTS_GENESIS_HASH vault); abi_bytes32 burnTxid;
     abi_uint32 burnVout]).

Definition hashStateContents (state_ : ElementsBridgeState) : Hash32 :=
  hash_bytes (encodePacked
    [abi_uint64 (sequence state_); abi_uint64 (burnCount state_); abi_bytes32 (elementsTipHash state_);
     abi_bytes32 (elementsConsensusStateDigest state_); abi_bytes32 (cumulativeBurnRoot state_);
     abi_bytes32 (finalizedBitcoinBlockHash state_); abi_uint64 (bitcoinHeight state_);
     abi_uint64 (elementsHeight state_); abi_uint64 (bitcoinMedianTimePast state_);
     abi_uint256 (bitcoinChainwork state_)]).

(** The next state hash and the statement the immutable verifier is called with. *)
Definition elementsStateStatement (vault : USDDVaultV1) (next : ElementsBridgeState) : Hash32 * Hash32 :=
  let current := finalizedState vault in
  let currentStateContentsHash := hashStateContents current in
  let nextStateContentsHash := hashStateContents next in
  let nextStateHash := hash_bytes (encodePacked
    [abi_bytes32 sol_ELEMENTS_STATE_DOMAIN; abi_bytes32 (bridgeStateHash vault);
     abi_bytes32 nextStateContentsHash]) in
  let statement := hash_bytes (encodePacked
    [abi_bytes32 sol_ELEMENTS_STATEMENT_DOMAIN; abi_uint256 (block_chainid vault);
     abi_address (address_this vault); abi_bytes32 (VAULT_ID vault);
     abi_bytes32 (VERIFIER_PROGRAM_ID vault); abi_bytes32 (VERIFIER_CONFIG_HASH vault);
     abi_bytes32 (ELEMENTS_GENESIS_HASH vault); abi_bytes32 (USDD_ASSET_ID vault);
     abi_bytes32 (bridgeStateHash vault); abi_bytes32 currentStateContentsHash;
     abi_bytes32 nextStateHash; abi_bytes32 nextStateContentsHash]) in
  (nextStateHash, statement).
End contract.
