(* ===== verification/ElementsState.v ===== *)
(** The outbound bridge state: [SolidityElementsBridgeState] of
    [crates/usdd-core/src/types.rs].

    The vault advances this state one accepted proof at a time with
    [validate_successor].  The theorems say exactly which successors are
    accepted and what every chain of accepted successors guarantees: no burn is
    lost, at most 64 burns enter per step, and heights and chain work grow. *)

From S2P Require Import Prelude Encoding Params Hashing BurnAccumulator Records.

Local Open Scope Z_scope.

Record SolidityElementsBridgeState : Type := MkElementsState {
  es_sequence : u64;
  es_burn_count : u64;
  es_elements_tip_hash : Hash32;
  es_elements_consensus_state_digest : Hash32;
  es_cumulative_burn_root : Hash32;
  es_finalized_bitcoin_block_hash : Hash32;
  es_bitcoin_height : u64;
  es_elements_height : u64;
  es_bitcoin_median_time_past : u64;
  es_bitcoin_chainwork : Hash32
}.

Definition ElementsState_is_zero (s : SolidityElementsBridgeState) : bool :=
  (es_sequence s =? 0) && (es_burn_count s =? 0)
  && bool_decide (es_elements_tip_hash s = ZERO)
  && bool_decide (es_elements_consensus_state_digest s = ZERO)
  && bool_decide (es_cumulative_burn_root s = ZERO)
  && bool_decide (es_finalized_bitcoin_block_hash s = ZERO)
  && (es_bitcoin_height s =? 0) && (es_elements_height s =? 0)
  && (es_bitcoin_median_time_past s =? 0)
  && bool_decide (es_bitcoin_chainwork s = ZERO).

(** The 200 bytes of the Solidity state tuple. *)
Definition ElementsState_packed_contents (s : SolidityElementsBridgeState) : bytes :=
  be_bytes 8 (es_sequence s) ++ be_bytes 8 (es_burn_count s) ++ es_elements_tip_hash s
  ++ es_elements_consensus_state_digest s ++ es_cumulative_burn_root s
  ++ es_finalized_bitcoin_block_hash s ++ be_bytes 8 (es_bitcoin_height s)
  ++ be_bytes 8 (es_elements_height s) ++ be_bytes 8 (es_bitcoin_median_time_past s)
  ++ es_bitcoin_chainwork s.

Section elements_state.
Context {H : Sha256}.

Definition ElementsState_validate (s : SolidityElementsBridgeState) : res DecodeError unit :=
  if ElementsState_is_zero s then Ok tt
  else
    fail_if (bool_decide (es_elements_tip_hash s = ZERO)
             || bool_decide (es_elements_consensus_state_digest s = ZERO)
             || bool_decide (es_cumulative_burn_root s = ZERO)
             || bool_decide (es_finalized_bitcoin_block_hash s = ZERO)
             || bool_decide (es_bitcoin_chainwork s = ZERO))
      (InvalidValue "invalid Solidity Elements state");;
    if es_burn_count s =? 0 then
      match burn_accumulator_empty 64 with
      | Ok empty =>
          fail_if (bool_decide (es_cumulative_burn_root s <> empty))
            (InvalidValue "noncanonical empty burn accumulator root")
      | _ => Panic
      end
    else Ok tt.

Definition ElementsState_validate_successor (s next : SolidityElementsBridgeState)
    : res DecodeError unit :=
  ElementsState_validate s;;
  ElementsState_validate next;;
  fail_if (ElementsState_is_zero next) (InvalidValue "zero successor Elements state");;
  expected ← ok_or (checked_add (es_sequence s) (uint_wrap 64 1))
    (InvalidValue "Elements state sequence overflow");
  fail_if (negb (es_sequence next =? uval expected)) (InvalidValue "wrong Elements state sequence");;
  fail_if (es_burn_count next <? es_burn_count s) (InvalidValue "burn count decreased");;
  fail_if (Z.of_nat MAX_BURN_APPENDS_PER_STATE_TRANSITION <? es_burn_count next - es_burn_count s)
    (InvalidValue "too many burns in one Elements state transition");;
  fail_if (negb (es_sequence s =? 0) && (es_burn_count next =? es_burn_count s)
           && bool_decide (es_cumulative_burn_root next <> es_cumulative_burn_root s))
    (InvalidValue "burn root changed without a burn");;
  fail_if (negb (es_sequence s =? 0)
           && bool_decide (es_elements_consensus_state_digest next
                           = es_elements_consensus_state_digest s))
    (InvalidValue "Elements consensus state digest did not advance");;
  fail_if ((es_bitcoin_height next <=? es_bitcoin_height s)
           || (es_elements_height next <=? es_elements_height s)
           || (es_bitcoin_median_time_past next <? es_bitcoin_median_time_past s)
           || array_leb (es_bitcoin_chainwork next) (es_bitcoin_chainwork s))
    (InvalidValue "Elements/Bitcoin finalized context did not advance").

Definition ElementsState_contents_hash (s : SolidityElementsBridgeState) : Hash32 :=
  hash_bytes (ElementsState_packed_contents s).

(** The header, then the packed contents without a length. *)
#[export] Instance ElementsState_encode : CanonicalEncode SolidityElementsBridgeState := fun s =>
  encode_header TAG_SOLIDITY_ELEMENTS_STATE +++ Some (ElementsState_packed_contents s).

#[export] Instance ElementsState_decode : CanonicalDecode SolidityElementsBridgeState :=
  decode_header TAG_SOLIDITY_ELEMENTS_STATE;;
  sequence ← Decoder_u64;
  burn_count ← Decoder_u64;
  elements_tip_hash ← Decoder_fixed 32;
  elements_consensus_state_digest ← Decoder_fixed 32;
  cumulative_burn_root ← Decoder_fixed 32;
  finalized_bitcoin_block_hash ← Decoder_fixed 32;
  bitcoin_height ← Decoder_u64;
  elements_height ← Decoder_u64;
  bitcoin_median_time_past ← Decoder_u64;
  bitcoin_chainwork ← Decoder_fixed 32;
  checked ElementsState_validate
    (MkElementsState sequence burn_count elements_tip_hash elements_consensus_state_digest
       cumulative_burn_root finalized_bitcoin_block_hash bitcoin_height elements_height
       bitcoin_median_time_past bitcoin_chainwork).

(** The states reached by [k] accepted successors. *)
Inductive elements_run (s : SolidityElementsBridgeState) : nat -> SolidityElementsBridgeState -> Prop :=
| elements_run_here : elements_run s 0 s
| elements_run_step k t u :
    elements_run s k t -> ElementsState_validate_successor t u = Ok tt -> elements_run s (S k) u.

(** ** Exactness of the byte format *)

Lemma ElementsState_encode_fields s :
  encode s = encode_header TAG_SOLIDITY_ELEMENTS_STATE +++ encode (es_sequence s)
    +++ encode (es_burn_count s) +++ encode (es_elements_tip_hash s)
    +++ encode (es_elements_consensus_state_digest s) +++ encode (es_cumulative_burn_root s)
    +++ encode (es_finalized_bitcoin_block_hash s) +++ encode (es_bitcoin_height s)
    +++ encode (es_elements_height s) +++ encode (es_bitcoin_median_time_past s)
    +++ encode (es_bitcoin_chainwork s).
Proof. reflexivity. Qed.

#[export] Program Instance ElementsState_codec : Codec SolidityElementsBridgeState :=
  {| valid := fun s => ElementsState_validate s = Ok tt |}.
Next Obligation.
  intros d x d'. rewrite ElementsState_encode_fields. unfold_decode ElementsState_decode. split.
  - record_forward.
  - intros [Hv Hr]. record_backward.
Qed.
Next Obligation. intros s _. by eexists. Qed.

(** ** What a successor must satisfy *)

Lemma ElementsState_validate_Ok s :
  ElementsState_validate s = Ok tt <->
  ElementsState_is_zero s = true \/
  (es_elements_tip_hash s <> ZERO /\ es_elements_consensus_state_digest s <> ZERO /\
   es_cumulative_burn_root s <> ZERO /\ es_finalized_bitcoin_block_hash s <> ZERO /\
   es_bitcoin_chainwork s <> ZERO /\
   (uval (es_burn_count s) = 0 -> es_cumulative_burn_root s = empty_loop 64)).
Proof.
  unfold ElementsState_validate. destruct (ElementsState_is_zero s); [naive_solver|].
  rewrite fail_then, !orb_false_iff, !bool_decide_eq_false, empty_Ok by lia.
  destruct (Z.eqb_spec (es_burn_count s) 0); [rewrite fail_if_Ok, bool_decide_eq_false|].
  - split.
    + intros ((((? & ?) & ?) & ?) & Hn). apply dec_stable in Hn. right. tauto.
    + intros [|(? & ? & ? & ? & ? & E)]; [done|]. split; [tauto|].
      intros Hne. apply Hne, E, e.
  - naive_solver.
Qed.

(** The accepted successors, in terms of the numbers involved. *)
Record elements_successor (s n : SolidityElementsBridgeState) : Prop := {
  esu_valid : ElementsState_validate s = Ok tt;
  esu_next_valid : ElementsState_validate n = Ok tt;
  esu_nonzero : ElementsState_is_zero n = false;
  esu_sequence : uval (es_sequence n) = es_sequence s + 1;
  esu_burns : es_burn_count s <= es_burn_count n <= es_burn_count s + 64;
  esu_root : uval (es_sequence s) <> 0 -> es_burn_count n = es_burn_count s ->
    es_cumulative_burn_root n = es_cumulative_burn_root s;
  esu_digest : uval (es_sequence s) <> 0 ->
    es_elements_consensus_state_digest n <> es_elements_consensus_state_digest s;
  esu_bitcoin : es_bitcoin_height s < es_bitcoin_height n;
  esu_elements : es_elements_height s < es_elements_height n;
  esu_mtp : es_bitcoin_median_time_past s <= es_bitcoin_median_time_past n;
  esu_work : be_val (es_bitcoin_chainwork s) < be_val (es_bitcoin_chainwork n)
}.

Lemma array_leb_false {n} (a b : array n) : array_leb a b = false <-> be_val b < be_val a.
Proof. rewrite <- not_true_iff_false, array_leb_iff. lia. Qed.

Lemma validate_successor_Ok s n :
  ElementsState_validate_successor s n = Ok tt <-> elements_successor s n.
Proof.
  unfold ElementsState_validate_successor, MAX_BURN_APPENDS_PER_STATE_TRANSITION. split.
  - intros Hs. inv_ok. apply checked_add_Some in Hx2.
    change (uval (uint_wrap 64 1)) with 1 in Hx2.
    match goal with W : array_leb _ _ = false |- _ => apply array_leb_false in W end.
    apply andb_false_iff in Hx6 as [Hr|Hr], Hx7 as [Hd|Hd]; rewrite ?andb_false_iff in Hr; inv_ok;
      split; try done; try lia; intros; try lia; try done;
      (destruct Hr as [Hr|Hr]; inv_ok; [lia|congruence]) || (apply dec_stable in Hr; done).
  - intros [Hv Hn Hz Hseq Hb Hr Hd Hbt Hel Hm Hw]. rewrite Hv, Hn, Hz. cbn [mbind res_bind fail_if].
    rewrite (proj2 (checked_add_Some (es_sequence s) (uint_wrap 64 1) (es_sequence n)))
      by (rewrite uval_wrap_small by lia; done).
    cbn [ok_or mbind res_bind]. rewrite Z.eqb_refl. cbn [negb fail_if mbind res_bind].
    rewrite !fail_then, fail_if_Ok, !orb_false_iff, !andb_false_iff, !Z.ltb_ge, !Z.leb_gt,
      array_leb_false, !bool_decide_eq_false, !negb_false_iff, Z.eqb_eq, Z.eqb_neq.
    split; [lia|]. split; [lia|].
    destruct (decide (uval (es_sequence s) = 0)) as [E|E].
    { split; [by left; left|]. split; [by left|]. lia. }
    split.
    { destruct (decide (uval (es_burn_count n) = es_burn_count s)) as [Ec|Ec]; [|by left; right].
      right. intros Hne. apply Hne, Hr; [done|]. by apply uint_eq. }
    split; [right; by apply Hd|]. lia.
Qed.
End elements_state.

(** ** Properties *)

Section elements_properties.
Context {H : Sha256}.

(** [validate_successor] accepts exactly the successors that are valid and
    nonzero, advance the sequence by one, add 0 to 64 burns, change neither the
    root without a burn nor keep the consensus digest, and strictly advance both
    heights and the (big-endian) chain work. *)
Theorem elements_successor_iff (s n : SolidityElementsBridgeState) :
  ElementsState_validate_successor s n = Ok tt <-> elements_successor s n.
Proof. apply validate_successor_Ok. Qed.

(** C37: Along [k] accepted successors the sequence grows by exactly [k], both
    heights and the chain work by at least [k], median time never goes back, and
    the burn count never decreases and grows by at most [64 * k]. *)
Theorem elements_run_monotone (s t : SolidityElementsBridgeState) (k : nat)
    (Hrun : elements_run s k t) :
  uval (es_sequence t) = es_sequence s + Z.of_nat k /\
  es_burn_count s <= es_burn_count t <= es_burn_count s + 64 * Z.of_nat k /\
  es_bitcoin_height s + Z.of_nat k <= es_bitcoin_height t /\
  es_elements_height s + Z.of_nat k <= es_elements_height t /\
  es_bitcoin_median_time_past s <= es_bitcoin_median_time_past t /\
  be_val (es_bitcoin_chainwork s) + Z.of_nat k <= be_val (es_bitcoin_chainwork t) /\
  (es_burn_count t = es_burn_count s -> uval (es_sequence s) <> 0 ->
   es_cumulative_burn_root t = es_cumulative_burn_root s).
Proof.
  induction Hrun as [|k t u Hrun IH Hs]; [repeat split; try lia; done|].
  apply validate_successor_Ok in Hs as [? ? ? Hseq Hb Hr Hd Hbt Hel Hm Hw].
  destruct IH as (I1 & I2 & I3 & I4 & I5 & I6 & I7).
  repeat (split; [lia|]). intros E Hz. apply (f_equal uval) in E.
  pose proof (uint_range (es_sequence s)).
  rewrite Hr by (lia || (apply uint_eq; lia)). apply I7; [apply uint_eq; lia|done].
Qed.

(** The state is decoded from exactly its own 204-byte encoding, and its
    packed contents determine it. *)
Theorem elements_state_canonical :
  (forall bs s, decode_exact bs = Ok s <-> ElementsState_validate s = Ok tt /\ encode s = Some bs) /\
  (forall s, length (ElementsState_packed_contents s) = 200%nat) /\
  (forall s t, ElementsState_packed_contents s = ElementsState_packed_contents t -> s = t) /\
  (forall s t, ElementsState_contents_hash s = ElementsState_contents_hash t ->
     s = t \/ collision (ElementsState_packed_contents s) (ElementsState_packed_contents t)).
Proof.
  assert (forall s t, ElementsState_packed_contents s = ElementsState_packed_contents t -> s = t) as Hinj.
  { intros s t. unfold ElementsState_packed_contents. intros E. split_fields.
    destruct s, t; cbn in *; by subst. }
  split; [intros bs s; exact (decode_exact_spec (A:=SolidityElementsBridgeState) bs s)|].
  split; [|split; [exact Hinj|]].
  - intros s. unfold ElementsState_packed_contents.
    by rewrite !length_app, !arr_length, !length_be_bytes.
  - intros s t E. destruct (decide (ElementsState_packed_contents s = ElementsState_packed_contents t));
      [left; by apply Hinj|right; done].
Qed.
End elements_properties.

(** Two concrete consecutive states; the second appends one burn. *)
Definition sample_state (n : Z) (burns : Z) (digest : byte) : SolidityElementsBridgeState :=
  MkElementsState (uint_wrap 64 n) (uint_wrap 64 burns) (array_rep 32 x01) (array_rep 32 digest)
    (array_rep 32 digest) (array_rep 32 x03) (uint_wrap 64 (100 + n)) (uint_wrap 64 (10 + n))
    (uint_wrap 64 (1000 + n)) (array_rep 32 digest).

Lemma elements_run_monotone_witness :
  @elements_run toy_sha256 (sample_state 1 5 x10) 1 (sample_state 2 6 x11) /\
  be_val (es_bitcoin_chainwork (sample_state 1 5 x10)) + 1
    <= be_val (es_bitcoin_chainwork (sample_state 2 6 x11)).
Proof.
  assert (@elements_run toy_sha256 (sample_state 1 5 x10) 1 (sample_state 2 6 x11)) as Hrun.
  { eapply elements_run_step; [apply elements_run_here|]. vm_compute. reflexivity. }
  split; [exact Hrun|].
  pose proof (@elements_run_monotone toy_sha256 _ _ _ Hrun) as (_ & _ & _ & _ & _ & Hw & _). exact Hw.
Defined.
