(* ===== verification/Controller.v ===== *)
(** The mint controller: [MintControllerState] of [crates/usdd-core/src/types.rs].

    The Elements controller output carries this state; each transaction replaces
    it by the result of [apply_mint_batch] or [apply_heartbeat].  The theorems
    give the exact acceptance condition and result of both transitions and, for
    every sequence of accepted transitions, that deposit nonces are minted
    once each and in order, that the minted total is exactly one hundred base
    units per deposited micro-USDT, and that finality only moves forward. *)

From S2P Require Import Prelude Encoding Params Hashing Records Deposits.

Local Open Scope Z_scope.

Record MintControllerState : Type := MkMintControllerState {
  mc_version : u32;
  mc_sequence : u64;
  mc_next_mint_nonce : u64;
  mc_ethereum_light_client_digest : Hash32;
  mc_finalized_beacon_slot : u64;
  mc_finalized_beacon_root : Hash32;
  mc_finalized_execution_state_root : Hash32;
  mc_total_minted_usdd_base : u64;
  mc_configuration_hash : Hash32
}.

Definition MintControllerState_validate (s : MintControllerState) : res DecodeError unit :=
  fail_if (negb (mc_version s =? PROTOCOL_VERSION)
           || bool_decide (mc_configuration_hash s = ZERO)
           || bool_decide (mc_ethereum_light_client_digest s = ZERO))
    (InvalidValue "invalid controller identity");;
  (if mc_finalized_beacon_slot s =? 0 then
     fail_if (negb (mc_sequence s =? 0) || negb (mc_total_minted_usdd_base s =? 0)
              || bool_decide (mc_finalized_beacon_root s <> ZERO)
              || bool_decide (mc_finalized_execution_state_root s <> ZERO))
       (InvalidValue "invalid bootstrap controller state")
   else
     fail_if (bool_decide (mc_finalized_beacon_root s = ZERO)
              || bool_decide (mc_finalized_execution_state_root s = ZERO))
       (InvalidValue "zero finalized state commitment"));;
  fail_if (negb (mc_total_minted_usdd_base s mod USDD_UNITS_PER_USDT_MICRO =? 0))
    (InvalidValue "nonconvertible minted total").

Definition MintControllerState_bootstrap (configuration_hash : Hash32) (first_mint_nonce : u64)
    (finality : EthereumFinalityWitness) : res DecodeError MintControllerState :=
  EthereumFinalityWitness_validate finality;;
  let value := MkMintControllerState PROTOCOL_VERSION (uint_wrap 64 0) first_mint_nonce
                 (fw_ethereum_light_client_digest finality) (fw_finalized_beacon_slot finality)
                 (fw_finalized_beacon_root finality) (fw_finalized_execution_state_root finality)
                 (uint_wrap 64 0) configuration_hash in
  MintControllerState_validate value;;
  Ok value.

Definition validate_finality_advance (s : MintControllerState) (finality : EthereumFinalityWitness)
    : res DecodeError unit :=
  fail_if (fw_finalized_beacon_slot finality <? mc_finalized_beacon_slot s)
    (InvalidValue "Ethereum finality regressed");;
  slot_gap ← ok_or (checked_sub (fw_finalized_beacon_slot finality) (mc_finalized_beacon_slot s))
    (InvalidValue "Ethereum finality regressed");
  fail_if (MAX_ETHEREUM_FINALITY_SLOT_GAP <? uval slot_gap)
    (InvalidValue "Ethereum finalized slot gap exceeds 4096");;
  fail_if ((fw_finalized_beacon_slot finality =? mc_finalized_beacon_slot s)
           && negb (mc_finalized_beacon_slot s =? 0)
           && (bool_decide (fw_finalized_beacon_root finality <> mc_finalized_beacon_root s)
               || bool_decide (fw_finalized_execution_state_root finality
                               <> mc_finalized_execution_state_root s)
               || bool_decide (fw_ethereum_light_client_digest finality
                               <> mc_ethereum_light_client_digest s)))
    (InvalidValue "conflicting Ethereum state at the same finalized slot");;
  fail_if ((mc_finalized_beacon_slot s <? fw_finalized_beacon_slot finality)
           && bool_decide (fw_ethereum_light_client_digest finality
                           = mc_ethereum_light_client_digest s))
    (InvalidValue "Ethereum light-client digest did not advance").

Definition apply_mint_batch (s : MintControllerState) (batch : MintBatch)
    (finality : EthereumFinalityWitness) : res DecodeError MintControllerState :=
  MintControllerState_validate s;;
  MintBatch_validate batch;;
  EthereumFinalityWitness_validate finality;;
  fail_if (negb (mb_first_nonce batch =? mc_next_mint_nonce s))
    (InvalidValue "mint batch nonce is not next");;
  validate_finality_advance s finality;;
  sequence ← ok_or (checked_add (mc_sequence s) (uint_wrap 64 1))
    (InvalidValue "controller sequence overflow");
  total ← ok_or (checked_add (mc_total_minted_usdd_base s) (mb_total_usdd_amount_base batch))
    (InvalidValue "minted supply overflow");
  let next := MkMintControllerState (mc_version s) sequence (mb_next_nonce batch)
                (fw_ethereum_light_client_digest finality) (fw_finalized_beacon_slot finality)
                (fw_finalized_beacon_root finality) (fw_finalized_execution_state_root finality)
                total (mc_configuration_hash s) in
  MintControllerState_validate next;;
  Ok next.

Definition apply_heartbeat (s : MintControllerState) (finality : EthereumFinalityWitness)
    : res DecodeError MintControllerState :=
  MintControllerState_validate s;;
  EthereumFinalityWitness_validate finality;;
  fail_if (fw_finalized_beacon_slot finality <=? mc_finalized_beacon_slot s)
    (InvalidValue "heartbeat must advance to a strictly newer finalized beacon slot");;
  validate_finality_advance s finality;;
  sequence ← ok_or (checked_add (mc_sequence s) (uint_wrap 64 1))
    (InvalidValue "controller sequence overflow");
  let next := MkMintControllerState (mc_version s) sequence (mc_next_mint_nonce s)
                (fw_ethereum_light_client_digest finality) (fw_finalized_beacon_slot finality)
                (fw_finalized_beacon_root finality) (fw_finalized_execution_state_root finality)
                (mc_total_minted_usdd_base s) (mc_configuration_hash s) in
  MintControllerState_validate next;;
  Ok next.

Definition validate_bmm_finality_freshness (execution_block_timestamp authenticated_bmm_parent_mtp : u64)
    : res DecodeError unit :=
  fail_if ((execution_block_timestamp =? 0) || (authenticated_bmm_parent_mtp =? 0))
    (InvalidValue "zero Ethereum timestamp or BMM parent MTP");;
  fail_if (MAX_FINALIZED_TO_BMM_MTP_AGE_SECONDS
             <? Z.abs (execution_block_timestamp - authenticated_bmm_parent_mtp))
    (InvalidValue "Ethereum finalized time differs from BMM parent MTP by over six hours").

#[export] Instance MintControllerState_encode : CanonicalEncode MintControllerState := fun s =>
  encode (mc_version s) +++ encode (mc_sequence s) +++ encode (mc_next_mint_nonce s)
  +++ encode (mc_ethereum_light_client_digest s) +++ encode (mc_finalized_beacon_slot s)
  +++ encode (mc_finalized_beacon_root s) +++ encode (mc_finalized_execution_state_root s)
  +++ encode (mc_total_minted_usdd_base s) +++ encode (mc_configuration_hash s).

#[export] Instance MintControllerState_decode : CanonicalDecode MintControllerState :=
  version ← Decoder_u32;
  sequence ← Decoder_u64;
  next_mint_nonce ← Decoder_u64;
  ethereum_light_client_digest ← Decoder_fixed 32;
  finalized_beacon_slot ← Decoder_u64;
  finalized_beacon_root ← Decoder_fixed 32;
  finalized_execution_state_root ← Decoder_fixed 32;
  total_minted_usdd_base ← Decoder_u64;
  configuration_hash ← Decoder_fixed 32;
  checked MintControllerState_validate
    (MkMintControllerState version sequence next_mint_nonce ethereum_light_client_digest
       finalized_beacon_slot finalized_beacon_root finalized_execution_state_root
       total_minted_usdd_base configuration_hash).

(** ** Sequences of transitions *)

Inductive controller_event : Type :=
| Mint (batch : MintBatch) (finality : EthereumFinalityWitness)
| Heartbeat (finality : EthereumFinalityWitness).

Definition controller_step (s : MintControllerState) (e : controller_event)
    : res DecodeError MintControllerState :=
  match e with
  | Mint batch finality => apply_mint_batch s batch finality
  | Heartbeat finality => apply_heartbeat s finality
  end.

Fixpoint controller_run (s : MintControllerState) (es : list controller_event)
    : res DecodeError MintControllerState :=
  match es with
  | [] => Ok s
  | e :: es => s' ← controller_step s e; controller_run s' es
  end.

(** Everything a sequence of transitions mints, in order. *)
Definition minted (es : list controller_event) : list MintOutput :=
  flat_map (fun e => match e with Mint batch _ => mb_outputs batch | Heartbeat _ => [] end) es.

(** ** Acceptance conditions *)

Record finality_ok (f : EthereumFinalityWitness) : Prop := {
  fok_slot : uval (fw_finalized_beacon_slot f) <> 0;
  fok_digest : fw_ethereum_light_client_digest f <> ZERO;
  fok_root : fw_finalized_beacon_root f <> ZERO;
  fok_block : fw_finalized_execution_block f <> ZERO;
  fok_state : fw_finalized_execution_state_root f <> ZERO
}.

Lemma finality_validate_Ok f : EthereumFinalityWitness_validate f = Ok tt <-> finality_ok f.
Proof.
  unfold EthereumFinalityWitness_validate.
  rewrite fail_if_Ok, !orb_false_iff, !bool_decide_eq_false, Z.eqb_neq.
  split; [intros ((((? & ?) & ?) & ?) & ?); by split|intros [? ? ? ? ?]; tauto].
Qed.

(** The condition under which finality may move from [s] to [f]. *)
Record finality_advance (s : MintControllerState) (f : EthereumFinalityWitness) : Prop := {
  fa_slot : mc_finalized_beacon_slot s <= fw_finalized_beacon_slot f
              <= mc_finalized_beacon_slot s + 4096;
  fa_same : fw_finalized_beacon_slot f = mc_finalized_beacon_slot s ->
    uval (mc_finalized_beacon_slot s) <> 0 ->
    fw_finalized_beacon_root f = mc_finalized_beacon_root s /\
    fw_finalized_execution_state_root f = mc_finalized_execution_state_root s /\
    fw_ethereum_light_client_digest f = mc_ethereum_light_client_digest s;
  fa_newer : mc_finalized_beacon_slot s < fw_finalized_beacon_slot f ->
    fw_ethereum_light_client_digest f <> mc_ethereum_light_client_digest s
}.

Lemma finality_advance_Ok s f : validate_finality_advance s f = Ok tt <-> finality_advance s f.
Proof.
  unfold validate_finality_advance. split.
  - intros Hs. inv_ok. apply checked_sub_Some in Hx0. rewrite slot_gap_val in *.
    split; [lia| |].
    + intros E Hz. rewrite !andb_false_iff, !orb_false_iff, !bool_decide_eq_false in Hx2.
      destruct Hx2 as [[Hx2|Hx2]|[[H1 H2] H3]]; inv_ok; [congruence|done|].
      by apply dec_stable in H1, H2, H3.
    + intros Hlt. apply andb_false_iff in Hs as [Hs|Hs]; inv_ok; [lia|done].
  - intros [Hslot Hsame Hnew]. pose proof (uint_range (mc_finalized_beacon_slot s)).
    pose proof (uint_range (fw_finalized_beacon_slot f)).
    rewrite fail_then, Z.ltb_ge. split; [lia|].
    rewrite (proj2 (checked_sub_Some _ _ (uint_wrap 64 (fw_finalized_beacon_slot f - mc_finalized_beacon_slot s))))
      by by wrap_small.
    cbn [ok_or mbind res_bind]. wrap_small.
    rewrite !fail_then, fail_if_Ok, Z.ltb_ge, slot_gap_val. split; [lia|].
    rewrite !andb_false_iff, !orb_false_iff, !bool_decide_eq_false, Z.eqb_neq, Z.ltb_ge,
      negb_false_iff, Z.eqb_eq. split.
    + destruct (decide (uval (mc_finalized_beacon_slot s) = 0)) as [|Hz]; [by left; right|].
      destruct (decide (uval (fw_finalized_beacon_slot f) = mc_finalized_beacon_slot s)) as [E|];
        [|by left; left].
      right. destruct Hsame as (? & ? & ?); [by apply uint_eq|done|]. naive_solver.
    + destruct (decide (uval (fw_finalized_beacon_slot f) <= mc_finalized_beacon_slot s));
        [by left|right; apply Hnew; lia].
Qed.

(** The state after finality [f], with the given nonce and total. *)
Definition advanced (s : MintControllerState) (f : EthereumFinalityWitness) (nonce total : u64)
    : MintControllerState :=
  MkMintControllerState (mc_version s) (uint_wrap 64 (mc_sequence s + 1)) nonce
    (fw_ethereum_light_client_digest f) (fw_finalized_beacon_slot f) (fw_finalized_beacon_root f)
    (fw_finalized_execution_state_root f) total (mc_configuration_hash s).

(** A valid state stays valid when finality is valid and the total stays convertible. *)
Lemma advanced_valid s f nonce (total : u64) :
  MintControllerState_validate s = Ok tt -> finality_ok f -> (100 | total) ->
  MintControllerState_validate (advanced s f nonce total) = Ok tt.
Proof.
  intros Hs [Hslot Hd Hr Hb He] Ht. unfold MintControllerState_validate in *.
  cbn [advanced mc_version mc_configuration_hash mc_ethereum_light_client_digest
       mc_finalized_beacon_slot mc_finalized_beacon_root mc_finalized_execution_state_root
       mc_total_minted_usdd_base].
  apply fail_then in Hs as [Hs _]. inv_ok.
  rewrite fail_then, !orb_false_iff, !bool_decide_eq_false, negb_false_iff, Z.eqb_eq.
  split; [done|]. rewrite (proj2 (Z.eqb_neq (fw_finalized_beacon_slot f) 0) Hslot).
  rewrite !bool_decide_eq_false_2 by done. cbn [orb fail_if mbind res_bind].
  apply fail_if_Ok. rewrite units_val. by rewrite (proj2 (Z.mod_divide _ 100 ltac:(lia)) Ht).
Qed.

Lemma valid_total s :
  MintControllerState_validate s = Ok tt -> (100 | mc_total_minted_usdd_base s).
Proof.
  unfold MintControllerState_validate. intros Hs. inv_ok. rewrite units_val in Hs.
  by apply Z.mod_divide.
Qed.

Lemma apply_mint_batch_Ok s b f s' :
  apply_mint_batch s b f = Ok s' <->
  MintControllerState_validate s = Ok tt /\ MintBatch_wf b /\ finality_ok f /\
  mb_first_nonce b = mc_next_mint_nonce s /\ finality_advance s f /\
  mc_sequence s + 1 < 2 ^ 64 /\
  mc_total_minted_usdd_base s + mb_total_usdd_amount_base b < 2 ^ 64 /\
  s' = advanced s f (mb_next_nonce b)
         (uint_wrap 64 (mc_total_minted_usdd_base s + mb_total_usdd_amount_base b)).
Proof.
  pose proof (uint_range (mc_sequence s)). pose proof (uint_range (mc_total_minted_usdd_base s)).
  pose proof (uint_range (mb_total_usdd_amount_base b)).
  unfold apply_mint_batch. split.
  - intros Ha. inv_ok. apply checked_add_Some in Hx4, Hx5.
    change (uval (uint_wrap 64 1)) with 1 in Hx4.
    match type of Hx4 with uval ?n = _ => pose proof (uint_range n) end.
    match type of Hx5 with uval ?n = _ => pose proof (uint_range n) end.
    split; [done|]. split; [by apply MintBatch_validate_Ok|].
    split; [by apply finality_validate_Ok|]. split; [by apply uint_eq|].
    split; [by apply finality_advance_Ok|]. split; [lia|]. split; [lia|].
    unfold advanced. f_equal; apply uint_eq; by wrap_small.
  - intros (Hv & Hb & Hf & Hn & Ha & Hs & Ht & ->).
    rewrite Hv, (proj2 (MintBatch_validate_Ok b) Hb), (proj2 (finality_validate_Ok f) Hf), Hn,
      Z.eqb_refl, (proj2 (finality_advance_Ok s f) Ha).
    cbn [mbind res_bind negb fail_if].
    rewrite (proj2 (checked_add_Some (mc_sequence s) (uint_wrap 64 1) (uint_wrap 64 (mc_sequence s + 1))))
      by by wrap_small.
    rewrite (proj2 (checked_add_Some (mc_total_minted_usdd_base s) (mb_total_usdd_amount_base b)
      (uint_wrap 64 (mc_total_minted_usdd_base s + mb_total_usdd_amount_base b)))) by by wrap_small.
    cbn [ok_or mbind res_bind]. fold (advanced s f (mb_next_nonce b)
      (uint_wrap 64 (mc_total_minted_usdd_base s + mb_total_usdd_amount_base b))).
    rewrite advanced_valid; try done. wrap_small.
    apply Z.divide_add_r; [by apply valid_total|].
    destruct (outputs_totals (mb_outputs b)) as [E _].
    { intros o [i Hi]%list_elem_of_lookup. apply (mbw_outputs _ Hb i o Hi). }
    rewrite (mbw_base _ Hb), E. apply Z.divide_factor_l.
Qed.

Lemma apply_heartbeat_Ok s f s' :
  apply_heartbeat s f = Ok s' <->
  MintControllerState_validate s = Ok tt /\ finality_ok f /\
  mc_finalized_beacon_slot s < fw_finalized_beacon_slot f /\ finality_advance s f /\
  mc_sequence s + 1 < 2 ^ 64 /\
  s' = advanced s f (mc_next_mint_nonce s) (mc_total_minted_usdd_base s).
Proof.
  pose proof (uint_range (mc_sequence s)). unfold apply_heartbeat. split.
  - intros Ha. inv_ok. apply checked_add_Some in Hx3.
    change (uval (uint_wrap 64 1)) with 1 in Hx3.
    match type of Hx3 with uval ?n = _ => pose proof (uint_range n) end.
    split; [done|]. split; [by apply finality_validate_Ok|]. split; [lia|].
    split; [by apply finality_advance_Ok|]. split; [lia|].
    unfold advanced. f_equal; apply uint_eq; by wrap_small.
  - intros (Hv & Hf & Hlt & Ha & Hs & ->).
    rewrite Hv, (proj2 (finality_validate_Ok f) Hf), (proj2 (Z.leb_gt _ _) Hlt),
      (proj2 (finality_advance_Ok s f) Ha).
    cbn [mbind res_bind fail_if].
    rewrite (proj2 (checked_add_Some (mc_sequence s) (uint_wrap 64 1) (uint_wrap 64 (mc_sequence s + 1))))
      by by wrap_small.
    cbn [ok_or mbind res_bind].
    fold (advanced s f (mc_next_mint_nonce s) (mc_total_minted_usdd_base s)).
    rewrite advanced_valid; try done. by apply valid_total.
Qed.

(** ** Invariants of runs *)

(** What one accepted event does to the state. *)
Lemma controller_step_spec s e s' :
  controller_step s e = Ok s' ->
  MintControllerState_validate s = Ok tt /\ MintControllerState_validate s' = Ok tt /\
  (forall i o, minted [e] !! i = Some o -> uval (mo_nonce o) = mc_next_mint_nonce s + Z.of_nat i) /\
  uval (mc_next_mint_nonce s') = mc_next_mint_nonce s + Z.of_nat (length (minted [e])) /\
  uval (mc_total_minted_usdd_base s')
    = mc_total_minted_usdd_base s + 100 * sumZ (fun o => mo_usdt_amount_micro o) (minted [e]) /\
  (forall o, o ∈ minted [e] -> MintOutput_wf o) /\
  uval (mc_sequence s') = mc_sequence s + 1 /\
  mc_version s' = mc_version s /\ mc_configuration_hash s' = mc_configuration_hash s /\
  mc_finalized_beacon_slot s <= mc_finalized_beacon_slot s' <= mc_finalized_beacon_slot s + 4096.
Proof.
  pose proof (uint_range (mc_sequence s)). pose proof (uint_range (mc_total_minted_usdd_base s)).
  destruct e as [b f|f]; cbn [controller_step minted flat_map app].
  - rewrite app_nil_r. intros (Hv & Hb & Hf & Hn & Ha & Hs & Ht & ->)%apply_mint_batch_Ok.
    pose proof (uint_range (mb_total_usdd_amount_base b)).
    assert (forall o, o ∈ mb_outputs b -> MintOutput_wf o) as Hw.
    { intros o [i Hi]%list_elem_of_lookup. apply (mbw_outputs _ Hb i o Hi). }
    destruct (outputs_totals (mb_outputs b) Hw) as [E _]. rewrite (mbw_base _ Hb), E in *.
    split; [done|]. split.
    { apply advanced_valid; [done|done|]. wrap_small.
      apply Z.divide_add_r; [by apply valid_total|apply Z.divide_factor_l]. }
    cbn [advanced mc_next_mint_nonce mc_total_minted_usdd_base mc_sequence mc_version
         mc_configuration_hash mc_finalized_beacon_slot]. wrap_small.
    split; [intros i o Hi; rewrite <- Hn; apply (mbw_outputs _ Hb i o Hi)|].
    split; [rewrite <- Hn; apply (mbw_next _ Hb)|]. split; [done|]. split; [done|].
    split; [done|]. split; [done|]. split; [done|]. apply (fa_slot _ _ Ha).
  - intros (Hv & Hf & Hlt & Ha & Hs & ->)%apply_heartbeat_Ok.
    split; [done|]. split; [apply advanced_valid; [done|done|by apply valid_total]|].
    cbn [advanced mc_next_mint_nonce mc_total_minted_usdd_base mc_sequence mc_version
         mc_configuration_hash mc_finalized_beacon_slot length sumZ foldr]. wrap_small.
    split; [done|]. split; [lia|]. split; [lia|]. split; [by intros o ?%elem_of_nil|].
    split; [done|]. split; [done|]. split; [done|]. apply (fa_slot _ _ Ha).
Qed.

Lemma minted_cons e es : minted (e :: es) = minted [e] ++ minted es.
Proof. unfold minted. cbn [flat_map]. by rewrite app_nil_r. Qed.

Lemma controller_run_spec s es s' :
  controller_run s es = Ok s' ->
  (forall i o, minted es !! i = Some o -> uval (mo_nonce o) = mc_next_mint_nonce s + Z.of_nat i) /\
  uval (mc_next_mint_nonce s') = mc_next_mint_nonce s + Z.of_nat (length (minted es)) /\
  uval (mc_total_minted_usdd_base s')
    = mc_total_minted_usdd_base s + 100 * sumZ (fun o => mo_usdt_amount_micro o) (minted es) /\
  (forall o, o ∈ minted es -> MintOutput_wf o) /\
  uval (mc_sequence s') = mc_sequence s + Z.of_nat (length es) /\
  mc_version s' = mc_version s /\ mc_configuration_hash s' = mc_configuration_hash s /\
  mc_finalized_beacon_slot s <= mc_finalized_beacon_slot s'
    <= mc_finalized_beacon_slot s + 4096 * Z.of_nat (length es).
Proof.
  revert s. induction es as [|e es IH]; intros s; cbn [controller_run].
  - intros [= <-]. cbn [minted flat_map length sumZ foldr].
    split; [done|]. split; [lia|]. split; [lia|]. split; [by intros o ?%elem_of_nil|].
    split; [lia|]. split; [done|]. split; [done|lia].
  - intros (t & Hstep & Hrun)%res_bind_Ok.
    apply controller_step_spec in Hstep as (_ & _ & S1 & S2 & S3 & S4 & S5 & S6 & S7 & S8).
    apply IH in Hrun as (I1 & I2 & I3 & I4 & I5 & I6 & I7 & I8).
    rewrite minted_cons, sumZ_app, length_app. cbn [length].
    split.
    { intros i o [Hi|[Hge Hi]]%lookup_app_Some; [by apply S1|].
      rewrite (I1 _ _ Hi). lia. }
    split; [lia|]. split; [lia|].
    split; [intros o [Ho|Ho]%elem_of_app; [by apply S4|by apply I4]|].
    split; [lia|]. split; [congruence|]. split; [congruence|lia].
Qed.

Lemma controller_run_valid s es s' :
  MintControllerState_validate s = Ok tt -> controller_run s es = Ok s' ->
  MintControllerState_validate s' = Ok tt.
Proof.
  revert s. induction es as [|e es IH]; intros s Hs; cbn [controller_run]; [by intros [= <-]|].
  intros (t & Hstep & Hrun)%res_bind_Ok. apply controller_step_spec in Hstep as (_ & Ht & _).
  by apply (IH t).
Qed.

#[export] Program Instance MintControllerState_codec : Codec MintControllerState :=
  {| valid := fun s => MintControllerState_validate s = Ok tt |}.
Next Obligation. record_codec MintControllerState_decode MintControllerState_encode. Qed.
Next Obligation. intros s _. by eexists. Qed.

Lemma controller_encode_length s bs : encode s = Some bs -> length bs = 164%nat.
Proof.
  unfold encode, MintControllerState_encode, encode, array_encode, u32_encode, u64_encode.
  cbn [enc_app]. intros E. apply (inj Some) in E as <-.
  by rewrite !length_app, !arr_length, !length_be_bytes.
Qed.

(** ** Properties *)

(** C4: Over every sequence of accepted transitions, the deposits minted carry
    exactly the nonces from the first state's next nonce to the last state's,
    once each and in order (no deposit nonce is ever minted twice or skipped),
    and the minted total grows by exactly one hundred base units per micro-USDT
    of the minted deposits, never wrapping. *)
Theorem controller_no_double_mint (s s' : MintControllerState) (es : list controller_event)
    (Hrun : controller_run s es = Ok s') :
  (forall i o, minted es !! i = Some o -> uval (mo_nonce o) = mc_next_mint_nonce s + Z.of_nat i) /\
  NoDup (map mo_nonce (minted es)) /\
  uval (mc_next_mint_nonce s') = mc_next_mint_nonce s + Z.of_nat (length (minted es)) /\
  uval (mc_total_minted_usdd_base s')
    = mc_total_minted_usdd_base s + sumZ (fun o => mo_usdd_amount_base o) (minted es) /\
  sumZ (fun o => mo_usdd_amount_base o) (minted es)
    = 100 * sumZ (fun o => mo_usdt_amount_micro o) (minted es).
Proof.
  apply controller_run_spec in Hrun as (I1 & I2 & I3 & I4 & _).
  destruct (outputs_totals (minted es) I4) as [E _].
  split; [done|]. split.
  - apply NoDup_alt. intros i j n Hi Hj. change (map ?f ?l) with (f <$> l) in Hi, Hj.
    apply list_lookup_fmap_Some in Hi as (o & -> & Hi), Hj as (o' & Ho & Hj).
    pose proof (I1 _ _ Hi). pose proof (I1 _ _ Hj). rewrite Ho in *. lia.
  - split; [done|]. split; [lia|done].
Qed.

(** Over every sequence of accepted transitions the sequence number counts
    the transitions, the version and configuration never change, and the
    finalized slot never goes back and advances by at most 4096 per transition. *)
Theorem controller_finality_monotone (s s' : MintControllerState) (es : list controller_event)
    (Hrun : controller_run s es = Ok s') :
  uval (mc_sequence s') = mc_sequence s + Z.of_nat (length es) /\
  mc_version s' = mc_version s /\ mc_configuration_hash s' = mc_configuration_hash s /\
  mc_finalized_beacon_slot s <= mc_finalized_beacon_slot s'
    <= mc_finalized_beacon_slot s + MAX_ETHEREUM_FINALITY_SLOT_GAP * Z.of_nat (length es).
Proof.
  rewrite slot_gap_val. apply controller_run_spec in Hrun as (_ & _ & _ & _ & I5 & I6 & I7 & I8). done.
Qed.

(** C31: A batch that was minted can never be minted again: after it and any
    further accepted transitions, applying it fails with the nonce error. *)
Theorem mint_batch_no_replay (s s' : MintControllerState) (b : MintBatch)
    (f f' : EthereumFinalityWitness) (es : list controller_event)
    (Hrun : controller_run s (Mint b f :: es) = Ok s')
    (Hf : EthereumFinalityWitness_validate f' = Ok tt) :
  apply_mint_batch s' b f' = Err (InvalidValue "mint batch nonce is not next").
Proof.
  cbn [controller_run controller_step] in Hrun.
  apply res_bind_Ok in Hrun as (t & Hstep & Hrun).
  pose proof (controller_step_spec s (Mint b f) t Hstep) as (_ & Ht & _).
  apply apply_mint_batch_Ok in Hstep as (Hv & Hb & Hf1 & Hn & _ & _ & _ & ->).
  assert (MintControllerState_validate s' = Ok tt) as Hvalid
    by by eapply controller_run_valid.
  apply controller_run_spec in Hrun as (_ & I2 & _).
  cbn [advanced mc_next_mint_nonce] in I2.
  pose proof (mbw_next _ Hb). pose proof (mbw_size _ Hb).
  unfold apply_mint_batch. rewrite Hvalid, (proj2 (MintBatch_validate_Ok b) Hb), Hf.
  cbn [mbind res_bind]. rewrite (proj2 (Z.eqb_neq _ _)) by lia. done.
Qed.

(** [apply_mint_batch] accepts exactly a valid state, batch and finality with
    the next nonce, admissible finality and room for sequence and total, and
    returns exactly the advanced state; its own final check never fails. *)
Theorem apply_mint_batch_iff (s : MintControllerState) (b : MintBatch)
    (f : EthereumFinalityWitness) (s' : MintControllerState) :
  apply_mint_batch s b f = Ok s' <->
  (MintControllerState_validate s = Ok tt /\ MintBatch_validate b = Ok tt /\
   EthereumFinalityWitness_validate f = Ok tt) /\
  mb_first_nonce b = mc_next_mint_nonce s /\ finality_advance s f /\
  mc_sequence s + 1 < 2 ^ 64 /\
  mc_total_minted_usdd_base s + mb_total_usdd_amount_base b < 2 ^ 64 /\
  s' = advanced s f (mb_next_nonce b)
         (uint_wrap 64 (mc_total_minted_usdd_base s + mb_total_usdd_amount_base b)).
Proof. rewrite apply_mint_batch_Ok, MintBatch_validate_Ok, finality_validate_Ok. tauto. Qed.

(** [apply_heartbeat] accepts exactly a strictly newer admissible finality on
    a valid state, and changes nothing but the finality fields and sequence. *)
Theorem apply_heartbeat_iff (s : MintControllerState) (f : EthereumFinalityWitness)
    (s' : MintControllerState) :
  apply_heartbeat s f = Ok s' <->
  MintControllerState_validate s = Ok tt /\ EthereumFinalityWitness_validate f = Ok tt /\
  mc_finalized_beacon_slot s < fw_finalized_beacon_slot f
    <= mc_finalized_beacon_slot s + MAX_ETHEREUM_FINALITY_SLOT_GAP /\
  fw_ethereum_light_client_digest f <> mc_ethereum_light_client_digest s /\
  mc_sequence s + 1 < 2 ^ 64 /\
  s' = advanced s f (mc_next_mint_nonce s) (mc_total_minted_usdd_base s).
Proof.
  rewrite apply_heartbeat_Ok, finality_validate_Ok, slot_gap_val. split.
  - intros (Hv & Hf & Hlt & [Ha Hs Hn] & Hq & ->). repeat (split; [done || lia || by apply Hn|]). done.
  - intros (Hv & Hf & Hlt & Hd & Hq & ->). split; [done|]. split; [done|]. split; [lia|].
    split; [|done]. split; [lia| |done]. intros E. apply (f_equal uval) in E. lia.
Qed.

(** [bootstrap] succeeds exactly for a valid finality witness and a nonzero
    configuration, and its state is valid, at sequence zero with nothing minted. *)
Theorem bootstrap_spec (configuration_hash : Hash32) (first_nonce : u64) (f : EthereumFinalityWitness) :
  (is_ok (MintControllerState_bootstrap configuration_hash first_nonce f) = true <->
     EthereumFinalityWitness_validate f = Ok tt /\ configuration_hash <> ZERO) /\
  (forall s, MintControllerState_bootstrap configuration_hash first_nonce f = Ok s ->
     MintControllerState_validate s = Ok tt /\ uval (mc_sequence s) = 0 /\
     mc_next_mint_nonce s = first_nonce /\ uval (mc_total_minted_usdd_base s) = 0 /\
     mc_configuration_hash s = configuration_hash /\
     mc_finalized_beacon_slot s = fw_finalized_beacon_slot f).
Proof.
  unfold MintControllerState_bootstrap. split.
  - split.
    + destruct (EthereumFinalityWitness_validate f) as [[]| |]; [|done..]. cbn [mbind res_bind].
      match goal with |- is_ok (MintControllerState_validate ?v ≫= _) = _ -> _ =>
        destruct (MintControllerState_validate v) as [[]| |] eqn:E end; [|done..].
      intros _. split; [done|]. unfold MintControllerState_validate in E. by inv_ok.
    + intros [Hf Hc]. rewrite Hf. cbn [mbind res_bind]. apply finality_validate_Ok in Hf as [Hslot Hd Hr Hb He].
      match goal with |- is_ok (MintControllerState_validate ?v ≫= _) = _ =>
        replace (MintControllerState_validate v) with (Ok (E:=DecodeError) tt); [done|] end.
      symmetry. unfold MintControllerState_validate.
      cbn [mc_version mc_configuration_hash mc_ethereum_light_client_digest mc_finalized_beacon_slot
           mc_finalized_beacon_root mc_finalized_execution_state_root mc_total_minted_usdd_base].
      rewrite (proj2 (Z.eqb_neq (fw_finalized_beacon_slot f) 0) Hslot).
      by rewrite !bool_decide_eq_false_2 by done.
  - intros s Hs. inv_ok. done.
Qed.

(** The freshness check accepts exactly two nonzero times at most six hours
    apart, in either order. *)
Theorem bmm_freshness_iff (timestamp mtp : u64) :
  validate_bmm_finality_freshness timestamp mtp = Ok tt <->
  uval timestamp <> 0 /\ uval mtp <> 0 /\ - 21600 <= timestamp - mtp <= 21600.
Proof.
  unfold validate_bmm_finality_freshness.
  change (uval MAX_FINALIZED_TO_BMM_MTP_AGE_SECONDS) with 21600.
  rewrite fail_then, fail_if_Ok, orb_false_iff, !Z.eqb_neq, Z.ltb_ge. lia.
Qed.

(** The controller state is decoded from exactly its own 164-byte encoding,
    and exactly when it is valid. *)
Theorem controller_state_canonical (bs : bytes) (s : MintControllerState) :
  (decode_exact bs = Ok s <-> MintControllerState_validate s = Ok tt /\ encode s = Some bs) /\
  (encode s = Some bs -> length bs = 164%nat).
Proof.
  split; [exact (decode_exact_spec (A:=MintControllerState) bs s)|apply controller_encode_length].
Qed.

(** A concrete run: bootstrap, then one batch of two deposits, then a heartbeat. *)
Definition sample_finality (slot : Z) (digest : byte) : EthereumFinalityWitness :=
  MkEthereumFinalityWitness (array_rep 32 digest) (uint_wrap 64 slot) (array_rep 32 x21)
    (array_rep 32 x22) (array_rep 32 x23) (uint_wrap 64 1) (uint_wrap 64 1).
Definition sample_controller : MintControllerState :=
  MkMintControllerState PROTOCOL_VERSION (uint_wrap 64 0) (uint_wrap 64 7) (array_rep 32 x30)
    (uint_wrap 64 100) (array_rep 32 x31) (array_rep 32 x32) (uint_wrap 64 0) (array_rep 32 x33).
Definition sample_batch : MintBatch :=
  @batch_of toy_sha256 (sample_deposit 7 1000000) [sample_deposit 7 1000000; sample_deposit 8 2000000].
Definition sample_events : list controller_event :=
  [Mint sample_batch (sample_finality 200 x40); Heartbeat (sample_finality 300 x41)].
Definition sample_final : MintControllerState :=
  match controller_run sample_controller sample_events with Ok s => s | _ => sample_controller end.

Lemma sample_run_ok : is_ok (controller_run sample_controller sample_events) = true.
Proof. vm_compute. reflexivity. Qed.

Lemma sample_run : controller_run sample_controller sample_events = Ok sample_final.
Proof.
  unfold sample_final. pose proof sample_run_ok as Hok.
  by destruct (controller_run sample_controller sample_events).
Qed.

Lemma controller_no_double_mint_witness :
  controller_run sample_controller sample_events = Ok sample_final /\
  uval (mc_next_mint_nonce sample_final) = 9 /\
  uval (mc_total_minted_usdd_base sample_final) = 300000000.
Proof.
  pose proof (controller_no_double_mint _ _ _ sample_run) as (_ & _ & Hn & Ht & _).
  split; [exact sample_run|]. split; [rewrite Hn; vm_compute; reflexivity|rewrite Ht; vm_compute; reflexivity].
Defined.

Lemma controller_finality_monotone_witness :
  controller_run sample_controller sample_events = Ok sample_final /\
  uval (mc_sequence sample_final) = 2.
Proof.
  split; [exact sample_run|].
  pose proof (controller_finality_monotone _ _ _ sample_run) as (Hq & _). rewrite Hq. vm_compute. reflexivity.
Defined.

Lemma mint_batch_no_replay_witness :
  apply_mint_batch sample_final sample_batch (sample_finality 301 x42)
    = Err (InvalidValue "mint batch nonce is not next").
Proof.
  apply (mint_batch_no_replay sample_controller sample_final sample_batch (sample_finality 200 x40)
           (sample_finality 301 x42) [Heartbeat (sample_finality 300 x41)]).
  - exact sample_run.
  - vm_compute. reflexivity.
Defined.
