(* ===== verification/Solvency.v ===== *)
(** The cross-chain audit: [crates/usdd-core/src/audit.rs].

    [reconstruct_audit_snapshot] replays deposits, mints, burns and payouts in
    four loops and checks the conservation equations of the snapshot.  The
    theorems characterise exactly which histories pass: every mint consumes its
    deposit, every payout pays one burn exactly once, and the vault holds what
    the circulating supply and the pending operations require. *)

From S2P Require Import Prelude Encoding Params Hashing Records.

Local Open Scope Z_scope.


Record AuditedDeposit : Type := MkAuditedDeposit {
  ad_nonce : u64; ad_deposit_id : Hash32; ad_amount_usdt_micro : u64 }.
Record AuditedMint : Type := MkAuditedMint {
  am_nonce : u64; am_deposit_id : Hash32; am_amount_usdd_base : u64 }.
Record AuditedBurn : Type := MkAuditedBurn {
  ab_burn_index : u64; ab_burn_id : Hash32; ab_amount_usdd_base : u64; ab_recipient : EthAddress }.
Record AuditedPayout : Type := MkAuditedPayout {
  ap_burn_id : Hash32; ap_amount_usdt_micro : u64; ap_recipient : EthAddress }.

Record AuditSnapshot : Type := MkAuditSnapshot {
  as_actual_vault_usdt_micro : u64;
  as_recorded_backing_usdt_micro : u64;
  as_total_deposited_usdt_micro : u64;
  as_total_paid_usdt_micro : u64;
  as_total_minted_usdd_base : u64;
  as_total_burned_usdd_base : u64;
  as_deposits_unminted_usdt_micro : u64;
  as_burns_unpaid_usdt_micro : u64
}.

Record AuditReport : Type := MkAuditReport {
  ar_expected_backing_usdt_micro : u128;
  ar_recorded_backing_usdt_micro : u128;
  ar_physical_surplus_usdt_micro : u128;
  ar_circulating_usdd_base : u128
}.

Inductive AuditError : Type :=
| NonConvertibleSupply (name : string)
| BurnExceedsMint
| PaidExceedsDeposited
| DepositMintPartitionMismatch (deposited accounted : u128)
| BurnPayoutPartitionMismatch (burned accounted : u128)
| PhysicalReserveShortfall (required actual : u128)
| RecordedBackingMismatch (expected actual : u128)
| ConservationUnderflow
| ZeroAuditIdentifier (name : string)
| NonSequentialDepositNonce (expected actual : u64)
| NonSequentialMintNonce (expected actual : u64)
| NonSequentialBurnIndex (expected actual : u64)
| DuplicateDepositId
| DuplicateBurnId
| MintDoesNotMatchDeposit
| PayoutWithoutBurn
| PayoutDoesNotMatchBurn
| DuplicatePayout
| AuditTotalOverflow.

(** [x as u128], and [a + b], [a - b], [a * b] on [u128] (wrapping in release). *)
Definition as_u128 (x : u64) : u128 := uint_wrap 128 x.
Definition add128 (a b : u128) : u128 := uint_wrap 128 (a + b).
Definition sub128 (a b : u128) : u128 := uint_wrap 128 (a - b).
Definition mul128 (a b : u128) : u128 := uint_wrap 128 (a * b).

Definition AuditSnapshot_verify (s : AuditSnapshot) : res AuditError AuditReport :=
  minted ← ok_or (usdd_base_to_usdt_micro (as_total_minted_usdd_base s))
    (NonConvertibleSupply "minted USDD");
  let minted_micro := as_u128 minted in
  burned ← ok_or (usdd_base_to_usdt_micro (as_total_burned_usdd_base s))
    (NonConvertibleSupply "burned USDD");
  let burned_micro := as_u128 burned in
  fail_if (minted_micro <? burned_micro) BurnExceedsMint;;
  fail_if (as_total_deposited_usdt_micro s <? as_total_paid_usdt_micro s) PaidExceedsDeposited;;
  let deposit_partition := add128 minted_micro (as_u128 (as_deposits_unminted_usdt_micro s)) in
  fail_if (negb (deposit_partition =? as_u128 (as_total_deposited_usdt_micro s)))
    (DepositMintPartitionMismatch (as_u128 (as_total_deposited_usdt_micro s)) deposit_partition);;
  let burn_partition := add128 (as_u128 (as_total_paid_usdt_micro s))
                          (as_u128 (as_burns_unpaid_usdt_micro s)) in
  fail_if (negb (burn_partition =? burned_micro))
    (BurnPayoutPartitionMismatch burned_micro burn_partition);;
  let backing_from_vault :=
    as_u128 (uint_wrap 64 (as_total_deposited_usdt_micro s - as_total_paid_usdt_micro s)) in
  fail_if (negb (backing_from_vault =? as_u128 (as_recorded_backing_usdt_micro s)))
    (RecordedBackingMismatch backing_from_vault (as_u128 (as_recorded_backing_usdt_micro s)));;
  expected ← ok_or (v ← checked_sub minted_micro burned_micro;
                    v ← checked_add v (as_u128 (as_deposits_unminted_usdt_micro s));
                    checked_add v (as_u128 (as_burns_unpaid_usdt_micro s))) ConservationUnderflow;
  fail_if (negb (uval expected =? backing_from_vault))
    (RecordedBackingMismatch expected backing_from_vault);;
  fail_if (as_u128 (as_actual_vault_usdt_micro s) <? backing_from_vault)
    (PhysicalReserveShortfall backing_from_vault (as_u128 (as_actual_vault_usdt_micro s)));;
  Ok (MkAuditReport expected backing_from_vault
        (sub128 (as_u128 (as_actual_vault_usdt_micro s)) backing_from_vault)
        (mul128 (sub128 minted_micro burned_micro) (as_u128 USDD_UNITS_PER_USDT_MICRO))).

(** The body of the loop over deposits. *)
Definition audit_deposit (expected : nat) (deposit : AuditedDeposit)
    (st : gmap u64 AuditedDeposit * gset Hash32 * u64)
    : res AuditError (gmap u64 AuditedDeposit * gset Hash32 * u64) :=
  let '(deposits_by_nonce, deposit_ids, total_deposited) := st in
  expected ← ok_or (uint_try 64 (Z.of_nat expected)) AuditTotalOverflow;
  fail_if (negb (ad_nonce deposit =? uval expected))
    (NonSequentialDepositNonce expected (ad_nonce deposit));;
  fail_if (bool_decide (ad_deposit_id deposit = ZERO)) (ZeroAuditIdentifier "deposit");;
  fail_if (bool_decide (ad_deposit_id deposit ∈ deposit_ids)) DuplicateDepositId;;
  fail_if (ad_amount_usdt_micro deposit =? 0) MintDoesNotMatchDeposit;;
  total_deposited ← ok_or (checked_add total_deposited (ad_amount_usdt_micro deposit)) AuditTotalOverflow;
  Ok (<[ad_nonce deposit := deposit]> deposits_by_nonce,
      {[ad_deposit_id deposit]} ∪ deposit_ids, total_deposited).

(** The body of the loop over mints. *)
Definition audit_mint (deposits_by_nonce : gmap u64 AuditedDeposit) (expected : nat)
    (mint : AuditedMint) (total_minted : u64) : res AuditError u64 :=
  expected ← ok_or (uint_try 64 (Z.of_nat expected)) AuditTotalOverflow;
  fail_if (negb (am_nonce mint =? uval expected)) (NonSequentialMintNonce expected (am_nonce mint));;
  deposit ← ok_or (deposits_by_nonce !! am_nonce mint) MintDoesNotMatchDeposit;
  expected_amount ← ok_or (checked_mul (ad_amount_usdt_micro deposit) USDD_UNITS_PER_USDT_MICRO)
    AuditTotalOverflow;
  fail_if (bool_decide (am_deposit_id mint <> ad_deposit_id deposit)
           || negb (am_amount_usdd_base mint =? uval expected_amount)) MintDoesNotMatchDeposit;;
  ok_or (checked_add total_minted (am_amount_usdd_base mint)) AuditTotalOverflow.

(** The body of the loop over burns. *)
Definition audit_burn (expected : nat) (burn : AuditedBurn) (st : gmap Hash32 AuditedBurn * u64)
    : res AuditError (gmap Hash32 AuditedBurn * u64) :=
  let '(burns_by_id, total_burned) := st in
  expected ← ok_or (uint_try 64 (Z.of_nat expected)) AuditTotalOverflow;
  fail_if (negb (ab_burn_index burn =? uval expected)) (NonSequentialBurnIndex expected (ab_burn_index burn));;
  fail_if (bool_decide (ab_burn_id burn = ZERO) || EthAddress_is_zero (ab_recipient burn))
    (ZeroAuditIdentifier "burn");;
  fail_if (bool_decide (usdd_base_to_usdt_micro (ab_amount_usdd_base burn) = None))
    (NonConvertibleSupply "burned USDD");;
  fail_if (bool_decide (is_Some (burns_by_id !! ab_burn_id burn))) DuplicateBurnId;;
  total_burned ← ok_or (checked_add total_burned (ab_amount_usdd_base burn)) AuditTotalOverflow;
  Ok (<[ab_burn_id burn := burn]> burns_by_id, total_burned).

(** The body of the loop over payouts. *)
Definition audit_payout (burns_by_id : gmap Hash32 AuditedBurn) (_ : nat) (payout : AuditedPayout)
    (st : gset Hash32 * u64) : res AuditError (gset Hash32 * u64) :=
  let '(paid_ids, total_paid) := st in
  fail_if (bool_decide (ap_burn_id payout = ZERO) || EthAddress_is_zero (ap_recipient payout))
    (ZeroAuditIdentifier "payout");;
  fail_if (bool_decide (ap_burn_id payout ∈ paid_ids)) DuplicatePayout;;
  burn ← ok_or (burns_by_id !! ap_burn_id payout) PayoutWithoutBurn;
  expected_amount ← ok_or (usdd_base_to_usdt_micro (ab_amount_usdd_base burn))
    (NonConvertibleSupply "burned USDD");
  fail_if (negb (ap_amount_usdt_micro payout =? uval expected_amount)
           || bool_decide (ap_recipient payout <> ab_recipient burn)) PayoutDoesNotMatchBurn;;
  total_paid ← ok_or (checked_add total_paid (ap_amount_usdt_micro payout)) AuditTotalOverflow;
  Ok ({[ap_burn_id payout]} ∪ paid_ids, total_paid).

Definition reconstruct_audit_snapshot (actual_vault_usdt_micro recorded_backing_usdt_micro : u64)
    (deposits : list AuditedDeposit) (mints : list AuditedMint) (burns : list AuditedBurn)
    (payouts : list AuditedPayout) : res AuditError (AuditSnapshot * AuditReport) :=
  '(deposits_by_nonce, _, total_deposited) ←
    res_foldi audit_deposit 0 deposits (∅, ∅, uint_wrap 64 0);
  total_minted ← res_foldi (audit_mint deposits_by_nonce) 0 mints (uint_wrap 64 0);
  '(burns_by_id, total_burned) ← res_foldi audit_burn 0 burns (∅, uint_wrap 64 0);
  '(_, total_paid) ← res_foldi (audit_payout burns_by_id) 0 payouts (∅, uint_wrap 64 0);
  minted_micro ← ok_or (usdd_base_to_usdt_micro total_minted) (NonConvertibleSupply "minted USDD");
  burned_micro ← ok_or (usdd_base_to_usdt_micro total_burned) (NonConvertibleSupply "burned USDD");
  deposits_unminted ← ok_or (checked_sub total_deposited minted_micro) MintDoesNotMatchDeposit;
  burns_unpaid ← ok_or (checked_sub burned_micro total_paid) PayoutDoesNotMatchBurn;
  let snapshot := MkAuditSnapshot actual_vault_usdt_micro recorded_backing_usdt_micro total_deposited
                    total_paid total_minted total_burned deposits_unminted burns_unpaid in
  report ← AuditSnapshot_verify snapshot;
  Ok (snapshot, report).

(** ** The conservation equations *)

Lemma as_u128_val x : uval (as_u128 x) = x.
Proof. unfold as_u128. pose proof (uint_range x). by wrap_small. Qed.

(** What [verify] demands of a snapshot. *)
Record snapshot_balanced (s : AuditSnapshot) : Prop := {
  sb_burned : as_total_burned_usdd_base s <= as_total_minted_usdd_base s;
  sb_paid : as_total_paid_usdt_micro s <= as_total_deposited_usdt_micro s;
  sb_mints : uval (as_total_minted_usdd_base s)
    = 100 * (as_total_deposited_usdt_micro s - as_deposits_unminted_usdt_micro s);
  sb_burns : uval (as_total_burned_usdd_base s)
    = 100 * (as_total_paid_usdt_micro s + as_burns_unpaid_usdt_micro s);
  sb_recorded : uval (as_recorded_backing_usdt_micro s)
    = as_total_deposited_usdt_micro s - as_total_paid_usdt_micro s;
  sb_physical : as_recorded_backing_usdt_micro s <= as_actual_vault_usdt_micro s
}.

(** The report of a balanced snapshot. *)
Definition report_of (s : AuditSnapshot) : AuditReport :=
  MkAuditReport (as_u128 (as_recorded_backing_usdt_micro s))
    (as_u128 (as_recorded_backing_usdt_micro s))
    (uint_wrap 128 (as_actual_vault_usdt_micro s - as_recorded_backing_usdt_micro s))
    (uint_wrap 128 (as_total_minted_usdd_base s - as_total_burned_usdd_base s)).

Ltac audit_ranges s :=
  pose proof (uint_range (as_actual_vault_usdt_micro s));
  pose proof (uint_range (as_recorded_backing_usdt_micro s));
  pose proof (uint_range (as_total_deposited_usdt_micro s));
  pose proof (uint_range (as_total_paid_usdt_micro s));
  pose proof (uint_range (as_total_minted_usdd_base s));
  pose proof (uint_range (as_total_burned_usdd_base s));
  pose proof (uint_range (as_deposits_unminted_usdt_micro s));
  pose proof (uint_range (as_burns_unpaid_usdt_micro s)).

Lemma verify_Ok_forward s r :
  AuditSnapshot_verify s = Ok r -> snapshot_balanced s /\ r = report_of s.
Proof.
  audit_ranges s. intros Hv. unfold AuditSnapshot_verify in Hv. inv_ok.
  unfold add128, sub128, mul128 in *.
  apply base_to_micro_Some in Hx, Hx0.
  repeat match goal with x : u64 |- _ =>
    lazymatch goal with _ : 0 <= uval x < _ |- _ => fail | _ => pose proof (uint_range x) end end.
  rewrite !as_u128_val in *.
  rewrite !(uval_wrap_small 64) in * by lia. rewrite !(uval_wrap_small 128) in * by lia.
  split; [split; lia|]. unfold report_of.
  f_equal; apply uint_eq; rewrite ?as_u128_val, ?uval_wrap_small; try lia.
  all: rewrite ?as_u128_val, ?uval_wrap_small; try lia.
  all: rewrite ?units_val; try lia.
Qed.

Lemma verify_Ok_backward s : snapshot_balanced s -> AuditSnapshot_verify s = Ok (report_of s).
Proof.
  audit_ranges s. intros [Hb Hp Hm Hbu Hr Hph]. unfold AuditSnapshot_verify.
  set (m := uint_wrap 64 (as_total_deposited_usdt_micro s - as_deposits_unminted_usdt_micro s)).
  set (b := uint_wrap 64 (as_total_paid_usdt_micro s + as_burns_unpaid_usdt_micro s)).
  assert (uval m = as_total_deposited_usdt_micro s - as_deposits_unminted_usdt_micro s) as Em
    by (unfold m; wrap_small; lia).
  assert (uval b = as_total_paid_usdt_micro s + as_burns_unpaid_usdt_micro s) as Eb
    by (unfold b; wrap_small; lia).
  clearbody m b.
  rewrite (proj2 (base_to_micro_Some (as_total_minted_usdd_base s) m)) by lia.
  rewrite (proj2 (base_to_micro_Some (as_total_burned_usdd_base s) b)) by lia.
  cbn [ok_or mbind res_bind]. unfold add128, sub128, mul128. rewrite !as_u128_val, units_val.
  rewrite !(uval_wrap_small 64) by lia. rewrite !(uval_wrap_small 128 (m - b)) by lia.
  rewrite !(uval_wrap_small 128) by lia.
  rewrite (proj2 (Z.ltb_ge m b)), (proj2 (Z.ltb_ge _ (as_total_paid_usdt_micro s))) by lia.
  cbn [fail_if mbind res_bind].
  rewrite !(proj2 (Z.eqb_eq _ _)) by lia. cbn [negb fail_if mbind res_bind].
  unfold checked_sub, checked_add. rewrite !as_u128_val.
  rewrite (proj2 (uint_try_Some 128 (m - b) (uint_wrap 128 (m - b)))) by (wrap_small; lia).
  cbn [mbind option_bind]. rewrite uval_wrap_small by lia.
  rewrite (proj2 (uint_try_Some 128 _ (uint_wrap 128 (m - b + as_deposits_unminted_usdt_micro s))))
    by (wrap_small; lia).
  cbn [mbind option_bind]. rewrite uval_wrap_small by lia.
  rewrite (proj2 (uint_try_Some 128 _ (as_u128 (as_recorded_backing_usdt_micro s))))
    by (rewrite as_u128_val; lia).
  cbn [ok_or mbind res_bind]. rewrite as_u128_val.
  rewrite (proj2 (Z.eqb_eq _ _)) by lia. cbn [negb fail_if mbind res_bind].
  rewrite (proj2 (Z.ltb_ge _ _)) by lia. cbn [fail_if mbind res_bind].
  unfold report_of. f_equal. f_equal; apply uint_eq; rewrite ?as_u128_val; wrap_small; lia.
Qed.

(** ** The four loops *)

Definition sum64 {A : Type} (f : A -> u64) (l : list A) : u64 := uint_wrap 64 (sumZ (fun a => f a) l).

Lemma sum64_val {A : Type} (f : A -> u64) l :
  sumZ (fun a => uval (f a)) l < 2 ^ 64 -> uval (sum64 f l) = sumZ (fun a => uval (f a)) l.
Proof.
  intros Hs. unfold sum64. rewrite uval_wrap_small; [done|].
  pose proof (sumZ_bounds (fun a => uval (f a)) 0 (2 ^ 64) l
    ltac:(intros a _; pose proof (uint_range (f a)); lia)). lia.
Qed.

(** A checked running total. *)
Lemma running_total {A : Type} (f : A -> u64) l a (t : u64) :
  sumZ (fun a => uval (f a)) l < 2 ^ 64 ->
  checked_add (sum64 f l) (f a) = Some t <->
  sumZ (fun a => uval (f a)) (l ++ [a]) < 2 ^ 64 /\ t = sum64 f (l ++ [a]).
Proof.
  intros Hs. rewrite checked_add_Some, (sum64_val f l Hs).
  assert (sumZ (fun a => uval (f a)) (l ++ [a]) = sumZ (fun a => uval (f a)) l + f a) as E
    by (rewrite sumZ_app; cbn; lia).
  pose proof (uint_range t). split.
  - intros Ht. split; [lia|]. apply uint_eq. rewrite sum64_val; lia.
  - intros [Hlt ->]. rewrite sum64_val; lia.
Qed.

(** The deposits seen so far, by nonce and by identifier. *)
Definition deposits_state (l : list AuditedDeposit) : gmap u64 AuditedDeposit * gset Hash32 * u64 :=
  (fold_left (fun m d => <[ad_nonce d := d]> m) l ∅,
   fold_left (fun s d => {[ad_deposit_id d]} ∪ s) l ∅, sum64 ad_amount_usdt_micro l).

Lemma fold_left_snoc {A B : Type} (f : B -> A -> B) l x b :
  fold_left f (l ++ [x]) b = f (fold_left f l b) x.
Proof. by rewrite fold_left_app. Qed.

Lemma elem_of_ids {A : Type} (f : A -> Hash32) (l : list A) h :
  h ∈ fold_left (fun s d => {[f d]} ∪ s) l (∅ : gset Hash32) <-> h ∈ map f l.
Proof.
  induction l as [|x l IH] using rev_ind; [set_solver|].
  rewrite fold_left_snoc, map_app. cbn. set_solver.
Qed.

(** The n-th deposit carries nonce [n], a fresh nonzero identifier and a positive amount. *)
Record deposits_audited (l : list AuditedDeposit) : Prop := {
  da_each : forall i d, l !! i = Some d ->
    uval (ad_nonce d) = Z.of_nat i /\ ad_deposit_id d <> ZERO /\ uval (ad_amount_usdt_micro d) <> 0;
  da_nodup : NoDup (map ad_deposit_id l);
  da_total : sumZ (fun d => ad_amount_usdt_micro d) l < 2 ^ 64
}.

Definition deposit_good (pre : list AuditedDeposit) (d : AuditedDeposit) : Prop :=
  uval (ad_nonce d) = Z.of_nat (length pre) /\ ad_deposit_id d <> ZERO /\
  ad_deposit_id d ∉ map ad_deposit_id pre /\ uval (ad_amount_usdt_micro d) <> 0 /\
  sumZ (fun d => ad_amount_usdt_micro d) (pre ++ [d]) < 2 ^ 64.

Lemma sumZ_snoc_lt {A : Type} (f : A -> u64) l x b :
  sumZ (fun a => uval (f a)) (l ++ [x]) < b -> sumZ (fun a => uval (f a)) l < b.
Proof. rewrite sumZ_app. cbn. pose proof (uint_range (f x)). lia. Qed.

Lemma lookup_snoc_Some' {A : Type} (l : list A) x i y :
  (l ++ [x]) !! i = Some y <-> l !! i = Some y \/ (i = length l /\ y = x).
Proof.
  split.
  - intros [Hi|[Hge Hi]]%lookup_app_Some; [by left|right].
    destruct (i - length l)%nat eqn:E; [|by destruct n]. injection Hi as <-. split; [lia|done].
  - intros [Hi|[-> ->]]; [by apply lookup_app_l_Some|].
    by rewrite lookup_app_r, Nat.sub_diag by lia.
Qed.

Lemma deposits_audited_snoc l d :
  deposits_audited (l ++ [d]) <-> deposits_audited l /\ deposit_good l d.
Proof.
  split.
  - intros [He Hn Ht]. rewrite map_app in Hn. cbn in Hn. apply NoDup_snoc in Hn as [Hn Hd].
    destruct (He (length l) d) as (? & ? & ?); [apply lookup_snoc_Some'; by right|].
    split; [|done]. split; [|done|by eapply sumZ_snoc_lt].
    intros i e Hi. apply He, lookup_snoc_Some'. by left.
  - intros [[He Hn Ht] (? & ? & ? & ? & ?)]. split; [| |done].
    + intros i e [Hi|[-> ->]]%lookup_snoc_Some'; [by apply He|done].
    + rewrite map_app. cbn. by apply NoDup_snoc.
Qed.

Lemma audit_deposit_step pre d s' :
  sumZ (fun d => ad_amount_usdt_micro d) pre < 2 ^ 64 ->
  audit_deposit (length pre) d (deposits_state pre) = Ok s' <->
  deposit_good pre d /\ s' = deposits_state (pre ++ [d]).
Proof.
  intros Hs. unfold audit_deposit, deposits_state at 1, deposit_good.
  rewrite <- (elem_of_ids ad_deposit_id). split.
  - intros Ha. inv_ok. apply uint_try_Some in Hx. apply running_total in Hx4 as [Ht ->]; [|done].
    split; [repeat split; try done; lia|]. unfold deposits_state. by rewrite !fold_left_snoc.
  - intros ((Hn & Hz & Hi & Ha & Ht) & ->). pose proof (uint_range (ad_nonce d)).
    rewrite (proj2 (uint_try_Some 64 _ (ad_nonce d)) Hn). cbn [ok_or mbind res_bind].
    rewrite Z.eqb_refl, !bool_decide_eq_false_2, (proj2 (Z.eqb_neq _ _)) by done.
    cbn [negb fail_if mbind res_bind].
    rewrite (proj2 (running_total ad_amount_usdt_micro pre d _ Hs) (conj Ht eq_refl)).
    cbn [ok_or mbind res_bind]. unfold deposits_state. by rewrite !fold_left_snoc.
Qed.

Lemma audit_deposits_Ok l s' :
  res_foldi audit_deposit 0 l (∅, ∅, uint_wrap 64 0) = Ok s' <->
  deposits_audited l /\ s' = deposits_state l.
Proof.
  rewrite <- (ok_from_global deposit_good deposits_audited).
  - apply (res_foldi_prefix audit_deposit deposits_state deposit_good
      (fun pre => sumZ (fun d => ad_amount_usdt_micro d) pre < 2 ^ 64)) with (pre := []).
    + intros pre d _ (_ & _ & _ & _ & Ht). done.
    + apply audit_deposit_step.
    + cbn. lia.
  - split; [done|apply NoDup_nil_2|cbn; lia].
  - apply deposits_audited_snoc.
Qed.

(** Deposits are found under their own index. *)
Lemma deposits_lookup l (n : u64) :
  deposits_audited l -> (deposits_state l).1.1 !! n = l !! Z.to_nat n.
Proof.
  cbn [deposits_state fst]. induction l as [|d l IH] using rev_ind; intros Hl; [done|].
  apply deposits_audited_snoc in Hl as [Hl (Hn & _)]. rewrite fold_left_snoc.
  pose proof (uint_range n). destruct (decide (ad_nonce d = n)) as [<-|Hne].
  - rewrite lookup_insert_eq, Hn, Nat2Z.id. symmetry. apply lookup_snoc_Some'. by right.
  - rewrite lookup_insert_ne, IH by done. rewrite lookup_app.
    destruct (l !! Z.to_nat n) eqn:E; [done|]. apply lookup_ge_None in E.
    assert (uval n <> uval (ad_nonce d)) by (intros Hu; apply Hne; by apply uint_eq).
    destruct (Z.to_nat n - length l)%nat eqn:Em; [lia|done].
Qed.

(** The n-th mint consumes the n-th deposit exactly. *)
Definition mint_matches (ds : list AuditedDeposit) (i : nat) (m : AuditedMint) : Prop :=
  uval (am_nonce m) = Z.of_nat i /\
  exists d, ds !! i = Some d /\ am_deposit_id m = ad_deposit_id d /\
    uval (am_amount_usdd_base m) = 100 * ad_amount_usdt_micro d.

Record mints_audited (ds : list AuditedDeposit) (l : list AuditedMint) : Prop := {
  ma_each : forall i m, l !! i = Some m -> mint_matches ds i m;
  ma_total : sumZ (fun m => am_amount_usdd_base m) l < 2 ^ 64
}.

Definition mint_good (ds : list AuditedDeposit) (pre : list AuditedMint) (m : AuditedMint) : Prop :=
  mint_matches ds (length pre) m /\ sumZ (fun m => am_amount_usdd_base m) (pre ++ [m]) < 2 ^ 64.

Lemma mints_audited_snoc ds l m :
  mints_audited ds (l ++ [m]) <-> mints_audited ds l /\ mint_good ds l m.
Proof.
  split.
  - intros [He Ht]. split; [split; [|by eapply sumZ_snoc_lt]|split; [|done]].
    + intros i e Hi. apply He, lookup_snoc_Some'. by left.
    + apply He, lookup_snoc_Some'. by right.
  - intros [[He Ht] [Hm Ht']]. split; [|done].
    intros i e [Hi|[-> ->]]%lookup_snoc_Some'; [by apply He|done].
Qed.

Lemma audit_mint_step ds pre m t :
  deposits_audited ds -> sumZ (fun m => am_amount_usdd_base m) pre < 2 ^ 64 ->
  audit_mint (deposits_state ds).1.1 (length pre) m (sum64 am_amount_usdd_base pre) = Ok t <->
  mint_good ds pre m /\ t = sum64 am_amount_usdd_base (pre ++ [m]).
Proof.
  intros Hds Hs. unfold audit_mint, mint_good, mint_matches. split.
  - intros Ha. inv_ok. apply uint_try_Some in Hx. rewrite deposits_lookup in Hx1 by done.
    apply checked_mul_Some in Hx2. rewrite units_val in Hx2.
    apply running_total in Ha as [Ht ->]; [|done].
    repeat match goal with H : ~ (_ <> _) |- _ => apply dec_stable in H end.
    split; [|done]. split; [|done]. split; [lia|]. eexists.
    split; [replace (length pre) with (Z.to_nat (am_nonce m)) by lia; exact Hx1|]. split; [done|lia].
  - intros (((Hn & d & Hd & Hid & Hamt) & Ht) & ->). pose proof (uint_range (am_amount_usdd_base m)).
    rewrite (proj2 (uint_try_Some 64 _ (am_nonce m)) Hn). cbn [ok_or mbind res_bind].
    rewrite Z.eqb_refl, deposits_lookup, Hn, Nat2Z.id, Hd by done. cbn [negb fail_if ok_or mbind res_bind].
    rewrite (proj2 (checked_mul_Some _ _ (am_amount_usdd_base m))) by (rewrite units_val; lia).
    cbn [ok_or mbind res_bind]. rewrite Z.eqb_refl, bool_decide_eq_false_2 by (intros Hne; by apply Hne).
    cbn [negb orb fail_if mbind res_bind].
    by rewrite (proj2 (running_total am_amount_usdd_base pre m _ Hs) (conj Ht eq_refl)).
Qed.

Lemma audit_mints_Ok ds l t :
  deposits_audited ds ->
  res_foldi (audit_mint (deposits_state ds).1.1) 0 l (uint_wrap 64 0) = Ok t <->
  mints_audited ds l /\ t = sum64 am_amount_usdd_base l.
Proof.
  intros Hds. rewrite <- (ok_from_global (mint_good ds) (mints_audited ds)).
  - apply (res_foldi_prefix (audit_mint (deposits_state ds).1.1) (sum64 am_amount_usdd_base)
      (mint_good ds) (fun pre => sumZ (fun m => am_amount_usdd_base m) pre < 2 ^ 64)) with (pre := []).
    + by intros pre m _ [_ Ht].
    + intros pre m s' Hs. by apply audit_mint_step.
    + cbn. lia.
  - split; [done|cbn; lia].
  - apply mints_audited_snoc.
Qed.

(** The n-th burn carries index [n], a fresh nonzero identifier and a convertible amount. *)
Record burns_audited (l : list AuditedBurn) : Prop := {
  ba_each : forall i b, l !! i = Some b ->
    uval (ab_burn_index b) = Z.of_nat i /\ ab_burn_id b <> ZERO /\
    ab_recipient b <> EthAddress_ZERO /\ ab_amount_usdd_base b mod 100 = 0;
  ba_nodup : NoDup (map ab_burn_id l);
  ba_total : sumZ (fun b => ab_amount_usdd_base b) l < 2 ^ 64
}.

Definition burn_good (pre : list AuditedBurn) (b : AuditedBurn) : Prop :=
  uval (ab_burn_index b) = Z.of_nat (length pre) /\ ab_burn_id b <> ZERO /\
  ab_recipient b <> EthAddress_ZERO /\ ab_amount_usdd_base b mod 100 = 0 /\
  ab_burn_id b ∉ map ab_burn_id pre /\ sumZ (fun b => ab_amount_usdd_base b) (pre ++ [b]) < 2 ^ 64.

Lemma burns_audited_snoc l b : burns_audited (l ++ [b]) <-> burns_audited l /\ burn_good l b.
Proof.
  split.
  - intros [He Hn Ht]. rewrite map_app in Hn. cbn in Hn. apply NoDup_snoc in Hn as [Hn Hd].
    destruct (He (length l) b) as (? & ? & ? & ?); [apply lookup_snoc_Some'; by right|].
    split; [|done]. split; [|done|by eapply sumZ_snoc_lt].
    intros i e Hi. apply He, lookup_snoc_Some'. by left.
  - intros [[He Hn Ht] (? & ? & ? & ? & ? & ?)]. split; [| |done].
    + intros i e [Hi|[-> ->]]%lookup_snoc_Some'; [by apply He|done].
    + rewrite map_app. cbn. by apply NoDup_snoc.
Qed.

Definition burns_map (l : list AuditedBurn) : gmap Hash32 AuditedBurn :=
  fold_left (fun m b => <[ab_burn_id b := b]> m) l ∅.

Lemma burns_map_Some l h b :
  NoDup (map ab_burn_id l) -> burns_map l !! h = Some b <-> b ∈ l /\ ab_burn_id b = h.
Proof.
  unfold burns_map. induction l as [|c l IH] using rev_ind; intros Hn.
  - cbn. rewrite lookup_empty. split; [done|]. by intros [?%elem_of_nil _].
  - rewrite map_app in Hn. cbn in Hn. apply NoDup_snoc in Hn as [Hn Hc].
    rewrite fold_left_snoc. specialize (IH Hn).
    rewrite elem_of_app, list_elem_of_singleton. destruct (decide (ab_burn_id c = h)) as [<-|Hne].
    + rewrite lookup_insert_eq. split; [intros [= <-]; split; [by right|done]|].
      intros [[Hb| ->] E]; [|done]. exfalso. apply Hc. rewrite <- E. by apply list_elem_of_fmap_2.
    + rewrite lookup_insert_ne, IH by done. naive_solver.
Qed.

Lemma burns_map_None l h : burns_map l !! h = None <-> h ∉ map ab_burn_id l.
Proof.
  unfold burns_map. induction l as [|c l IH] using rev_ind.
  - cbn. rewrite lookup_empty. split; [intros _; apply not_elem_of_nil|done].
  - rewrite fold_left_snoc, map_app, elem_of_app. cbn. rewrite list_elem_of_singleton.
    rewrite lookup_insert_None, IH. naive_solver.
Qed.

Definition burns_state (l : list AuditedBurn) : gmap Hash32 AuditedBurn * u64 :=
  (burns_map l, sum64 ab_amount_usdd_base l).

Lemma audit_burn_step pre b s' :
  sumZ (fun b => ab_amount_usdd_base b) pre < 2 ^ 64 ->
  audit_burn (length pre) b (burns_state pre) = Ok s' <->
  burn_good pre b /\ s' = burns_state (pre ++ [b]).
Proof.
  intros Hs. unfold audit_burn, burns_state at 1, burn_good, EthAddress_is_zero.
  assert (usdd_base_to_usdt_micro (ab_amount_usdd_base b) = None <->
          ab_amount_usdd_base b mod 100 <> 0) as Hconv.
  { unfold usdd_base_to_usdt_micro. rewrite units_val.
    destruct (Z.eqb_spec (ab_amount_usdd_base b mod 100) 0); cbn; naive_solver. }
  rewrite <- burns_map_None. split.
  - intros Ha. inv_ok. apply uint_try_Some in Hx. apply running_total in Hx4 as [Ht ->]; [|done].
    split; [|unfold burns_state, burns_map; by rewrite fold_left_snoc].
    split; [lia|]. split; [done|]. split; [done|].
    split; [destruct (decide (ab_amount_usdd_base b mod 100 = 0)); [done|tauto]|].
    split; [by apply eq_None_not_Some|done].
  - intros ((Hn & Hz & Hr & Hm & Hi & Ht) & ->). pose proof (uint_range (ab_burn_index b)).
    rewrite (proj2 (uint_try_Some 64 _ (ab_burn_index b)) Hn). cbn [ok_or mbind res_bind].
    rewrite Z.eqb_refl, !bool_decide_eq_false_2 by (done || tauto || by apply eq_None_not_Some).
    cbn [negb orb fail_if mbind res_bind].
    rewrite (proj2 (running_total ab_amount_usdd_base pre b _ Hs) (conj Ht eq_refl)).
    cbn [ok_or mbind res_bind]. unfold burns_state, burns_map. by rewrite fold_left_snoc.
Qed.

Lemma audit_burns_Ok l s' :
  res_foldi audit_burn 0 l (∅, uint_wrap 64 0) = Ok s' <-> burns_audited l /\ s' = burns_state l.
Proof.
  rewrite <- (ok_from_global burn_good burns_audited).
  - apply (res_foldi_prefix audit_burn burns_state burn_good
      (fun pre => sumZ (fun b => ab_amount_usdd_base b) pre < 2 ^ 64)) with (pre := []).
    + by intros pre b _ (_ & _ & _ & _ & _ & Ht).
    + apply audit_burn_step.
    + cbn. lia.
  - split; [done|apply NoDup_nil_2|cbn; lia].
  - apply burns_audited_snoc.
Qed.

(** A payout pays one burn, exactly. *)
Definition payout_pays (bs : list AuditedBurn) (p : AuditedPayout) : Prop :=
  exists b, b ∈ bs /\ ab_burn_id b = ap_burn_id p /\
    uval (ab_amount_usdd_base b) = 100 * ap_amount_usdt_micro p /\
    ap_recipient p = ab_recipient b.

Record payouts_audited (bs : list AuditedBurn) (l : list AuditedPayout) : Prop := {
  pa_each : forall p, p ∈ l -> payout_pays bs p;
  pa_nodup : NoDup (map ap_burn_id l);
  pa_total : sumZ (fun p => ap_amount_usdt_micro p) l < 2 ^ 64
}.

Definition payout_good (bs : list AuditedBurn) (pre : list AuditedPayout) (p : AuditedPayout) : Prop :=
  payout_pays bs p /\ ap_burn_id p ∉ map ap_burn_id pre /\
  sumZ (fun p => ap_amount_usdt_micro p) (pre ++ [p]) < 2 ^ 64.

Lemma payouts_audited_snoc bs l p :
  payouts_audited bs (l ++ [p]) <-> payouts_audited bs l /\ payout_good bs l p.
Proof.
  split.
  - intros [He Hn Ht]. rewrite map_app in Hn. cbn in Hn. apply NoDup_snoc in Hn as [Hn Hp].
    split; [split; [|done|by eapply sumZ_snoc_lt]|split; [|done]].
    + intros q Hq. apply He, elem_of_app. by left.
    + apply He, elem_of_app. right. by left.
  - intros [[He Hn Ht] (Hp & Hi & Ht')]. split; [| |done].
    + intros q [Hq|Hq]%elem_of_app; [by apply He|]. by apply list_elem_of_singleton in Hq as ->.
    + rewrite map_app. cbn. by apply NoDup_snoc.
Qed.

Definition payouts_state (l : list AuditedPayout) : gset Hash32 * u64 :=
  (fold_left (fun s p => {[ap_burn_id p]} ∪ s) l ∅, sum64 ap_amount_usdt_micro l).

Lemma audit_payout_step bs pre p s' :
  burns_audited bs -> sumZ (fun p => ap_amount_usdt_micro p) pre < 2 ^ 64 ->
  audit_payout (burns_map bs) (length pre) p (payouts_state pre) = Ok s' <->
  payout_good bs pre p /\ s' = payouts_state (pre ++ [p]).
Proof.
  intros Hbs Hs. unfold audit_payout, payouts_state at 1, payout_good, payout_pays, EthAddress_is_zero.
  rewrite <- (elem_of_ids ap_burn_id). split.
  - intros Ha. inv_ok.
    match goal with L : burns_map _ !! _ = Some _ |- _ => apply (burns_map_Some bs) in L as [Hb Hid]; [|apply Hbs] end.
    match goal with C : usdd_base_to_usdt_micro _ = Some _ |- _ => apply base_to_micro_Some in C as Hc end.
    match goal with C : checked_add _ _ = Some _ |- _ => apply running_total in C as [Ht ->]; [|done] end.
    repeat match goal with H : ~ (_ <> _) |- _ => apply dec_stable in H end.
    split; [|unfold payouts_state; by rewrite fold_left_snoc].
    split; [|done]. eexists. split; [exact Hb|]. split; [done|]. split; [lia|done].
  - intros (((b & Hb & Hid & Hamt & Hr) & Hi & Ht) & ->).
    apply list_elem_of_lookup in Hb as Hi'. destruct Hi' as [i Hi'].
    destruct (ba_each _ Hbs i b Hi') as (_ & Hz & Hrz & _).
    rewrite !bool_decide_eq_false_2 by (congruence || done).
    cbn [orb fail_if mbind res_bind].
    rewrite (proj2 (burns_map_Some bs _ b (ba_nodup _ Hbs)) (conj Hb Hid)). cbn [ok_or mbind res_bind].
    rewrite (proj2 (base_to_micro_Some _ (ap_amount_usdt_micro p)) Hamt). cbn [ok_or mbind res_bind].
    rewrite Z.eqb_refl. cbn [negb orb fail_if mbind res_bind].
    rewrite bool_decide_eq_false_2 by (intros Hne; by apply Hne). cbn [fail_if mbind res_bind].
    rewrite (proj2 (running_total ap_amount_usdt_micro pre p _ Hs) (conj Ht eq_refl)).
    cbn [ok_or mbind res_bind]. unfold payouts_state. by rewrite fold_left_snoc.
Qed.

Lemma audit_payouts_Ok bs l s' :
  burns_audited bs ->
  res_foldi (audit_payout (burns_map bs)) 0 l (∅, uint_wrap 64 0) = Ok s' <->
  payouts_audited bs l /\ s' = payouts_state l.
Proof.
  intros Hbs. rewrite <- (ok_from_global (payout_good bs) (payouts_audited bs)).
  - apply (res_foldi_prefix (audit_payout (burns_map bs)) payouts_state (payout_good bs)
      (fun pre => sumZ (fun p => ap_amount_usdt_micro p) pre < 2 ^ 64)) with (pre := []).
    + by intros pre p _ (_ & _ & Ht).
    + intros pre p s'' Hs. by apply audit_payout_step.
    + cbn. lia.
  - split; [by intros p ?%elem_of_nil|apply NoDup_nil_2|cbn; lia].
  - apply payouts_audited_snoc.
Qed.

(** ** Totals of an audited history *)

Lemma mints_total ds l :
  mints_audited ds l ->
  sumZ (fun m => am_amount_usdd_base m) l
    = 100 * sumZ (fun d => ad_amount_usdt_micro d) (take (length l) ds).
Proof.
  induction l as [|m l IH] using rev_ind; intros Hl; [done|].
  apply mints_audited_snoc in Hl as [Hl [(_ & d & Hd & _ & Ha) _]].
  rewrite sumZ_app, (IH Hl), length_app. cbn [length sumZ foldr].
  rewrite Nat.add_1_r, (take_S_r _ _ _ Hd), sumZ_app. cbn [sumZ foldr]. lia.
Qed.

Lemma sumZ_take_le {A : Type} (f : A -> u64) n l :
  0 <= sumZ (fun a => uval (f a)) (take n l) <= sumZ (fun a => uval (f a)) l.
Proof.
  rewrite <- (take_drop n l) at 3. rewrite sumZ_app.
  pose proof (sumZ_bounds (fun a => uval (f a)) 0 (2 ^ 64) (drop n l)
    ltac:(intros a _; pose proof (uint_range (f a)); lia)).
  pose proof (sumZ_bounds (fun a => uval (f a)) 0 (2 ^ 64) (take n l)
    ltac:(intros a _; pose proof (uint_range (f a)); lia)). lia.
Qed.

Lemma burns_total_divides bs : burns_audited bs -> (100 | sumZ (fun b => ab_amount_usdd_base b) bs).
Proof.
  induction bs as [|b bs IH] using rev_ind; intros Hb; [by exists 0|].
  apply burns_audited_snoc in Hb as [Hb (_ & _ & _ & Hm & _)].
  rewrite sumZ_app. cbn [sumZ foldr]. rewrite Z.add_0_r.
  apply Z.divide_add_r; [by apply IH|]. by apply Z.mod_divide.
Qed.

(** Distinct payouts cannot exceed the burns they pay. *)
Lemma payouts_total bs ps :
  (forall p, p ∈ ps -> payout_pays bs p) -> NoDup (map ap_burn_id ps) ->
  100 * sumZ (fun p => ap_amount_usdt_micro p) ps <= sumZ (fun b => ab_amount_usdd_base b) bs.
Proof.
  revert bs. induction ps as [|p ps IH]; intros bs Hp Hn.
  - pose proof (sumZ_take_le ab_amount_usdd_base 0 bs). cbn in *. lia.
  - destruct (Hp p ltac:(left)) as (b & Hb & Hid & Hamt & _).
    apply list_elem_of_split in Hb as (l1 & l2 & ->).
    cbn [map] in Hn. apply NoDup_cons in Hn as [Hi Hn].
    rewrite sumZ_app. cbn [sumZ foldr].
    change (foldr _ 0 ps) with (sumZ (fun p => uval (ap_amount_usdt_micro p)) ps).
    change (foldr _ 0 l2) with (sumZ (fun b => uval (ab_amount_usdd_base b)) l2).
    enough (100 * sumZ (fun p => uval (ap_amount_usdt_micro p)) ps
      <= sumZ (fun b => uval (ab_amount_usdd_base b)) (l1 ++ l2)) by (rewrite sumZ_app in *; lia).
    apply IH; [|done]. intros q Hq. destruct (Hp q ltac:(by right)) as (c & Hc & Hcid & ? & ?).
    exists c. split; [|done]. apply elem_of_app in Hc as [Hc|Hc]; [apply elem_of_app; by left|].
    apply elem_of_cons in Hc as [->|Hc]; [|apply elem_of_app; by right].
    exfalso. apply Hi. rewrite <- Hid, Hcid. by apply list_elem_of_fmap_2.
Qed.

(** ** The whole reconstruction *)

(** The snapshot of a history. *)
Definition snapshot_of (actual recorded : u64) (ds : list AuditedDeposit) (ms : list AuditedMint)
    (bs : list AuditedBurn) (ps : list AuditedPayout) : AuditSnapshot :=
  let deposited := sumZ (fun d => ad_amount_usdt_micro d) ds in
  let minted := sumZ (fun m => am_amount_usdd_base m) ms in
  let burned := sumZ (fun b => ab_amount_usdd_base b) bs in
  let paid := sumZ (fun p => ap_amount_usdt_micro p) ps in
  MkAuditSnapshot actual recorded (uint_wrap 64 deposited) (uint_wrap 64 paid) (uint_wrap 64 minted)
    (uint_wrap 64 burned) (uint_wrap 64 (deposited - minted / 100)) (uint_wrap 64 (burned / 100 - paid)).

Record history_audited (ds : list AuditedDeposit) (ms : list AuditedMint) (bs : list AuditedBurn)
    (ps : list AuditedPayout) : Prop := {
  ha_deposits : deposits_audited ds;
  ha_mints : mints_audited ds ms;
  ha_burns : burns_audited bs;
  ha_payouts : payouts_audited bs ps
}.

(** The sums of an audited history, without any wrap-around. *)
Record history_sums (ds : list AuditedDeposit) (ms : list AuditedMint) (bs : list AuditedBurn)
    (ps : list AuditedPayout) (s : AuditSnapshot) : Prop := {
  hs_deposited : uval (as_total_deposited_usdt_micro s) = sumZ (fun d => ad_amount_usdt_micro d) ds;
  hs_minted : uval (as_total_minted_usdd_base s) = sumZ (fun m => am_amount_usdd_base m) ms;
  hs_burned : uval (as_total_burned_usdd_base s) = sumZ (fun b => ab_amount_usdd_base b) bs;
  hs_paid : uval (as_total_paid_usdt_micro s) = sumZ (fun p => ap_amount_usdt_micro p) ps;
  hs_unminted : uval (as_total_minted_usdd_base s)
    = 100 * (as_total_deposited_usdt_micro s - as_deposits_unminted_usdt_micro s);
  hs_unpaid : uval (as_total_burned_usdd_base s)
    = 100 * (as_total_paid_usdt_micro s + as_burns_unpaid_usdt_micro s)
}.

Lemma snapshot_of_sums actual recorded ds ms bs ps :
  history_audited ds ms bs ps ->
  history_sums ds ms bs ps (snapshot_of actual recorded ds ms bs ps).
Proof.
  intros [Hd Hm Hb Hp].
  pose proof (mints_total ds ms Hm) as Em. pose proof (burns_total_divides bs Hb) as [k Ek].
  pose proof (payouts_total bs ps (pa_each _ _ Hp) (pa_nodup _ _ Hp)).
  pose proof (sumZ_take_le ad_amount_usdt_micro (length ms) ds).
  pose proof (sumZ_take_le ap_amount_usdt_micro 0 ps).
  pose proof (da_total _ Hd). pose proof (ma_total _ _ Hm). pose proof (ba_total _ Hb).
  pose proof (pa_total _ _ Hp). unfold snapshot_of.
  assert (sumZ (fun m => uval (am_amount_usdd_base m)) ms / 100
    = sumZ (fun d => uval (ad_amount_usdt_micro d)) (take (length ms) ds)) as E1
    by (rewrite Em, Z.mul_comm; apply Z.div_mul; lia).
  assert (sumZ (fun b => uval (ab_amount_usdd_base b)) bs / 100 = k) as E2
    by (rewrite Ek; apply Z.div_mul; lia).
  cbn [take sumZ foldr] in *.
  split; cbn [as_total_deposited_usdt_micro as_total_minted_usdd_base as_total_burned_usdd_base
    as_total_paid_usdt_micro as_deposits_unminted_usdt_micro as_burns_unpaid_usdt_micro];
    rewrite ?E1, ?E2; rewrite !uval_wrap_small by lia; lia.
Qed.

(** What is left after the loops is [verify] of the snapshot. *)
Lemma reconstruct_after_loops actual recorded ds ms bs ps :
  history_audited ds ms bs ps ->
  reconstruct_audit_snapshot actual recorded ds ms bs ps =
  (report ← AuditSnapshot_verify (snapshot_of actual recorded ds ms bs ps);
   Ok (snapshot_of actual recorded ds ms bs ps, report)).
Proof.
  intros Hh. pose proof (snapshot_of_sums actual recorded ds ms bs ps Hh) as Hs.
  destruct Hh as [Hd Hm Hb Hp]. unfold reconstruct_audit_snapshot.
  rewrite (proj2 (audit_deposits_Ok ds _) (conj Hd eq_refl)). unfold deposits_state at 1.
  cbn [mbind res_bind].
  change (fold_left (fun m d => <[ad_nonce d := d]> m) ds ∅) with (deposits_state ds).1.1.
  rewrite (proj2 (audit_mints_Ok ds ms _ Hd) (conj Hm eq_refl)). cbn [mbind res_bind].
  rewrite (proj2 (audit_burns_Ok bs _) (conj Hb eq_refl)). unfold burns_state. cbn [mbind res_bind].
  rewrite (proj2 (audit_payouts_Ok bs ps _ Hb) (conj Hp eq_refl)). unfold payouts_state.
  cbn [mbind res_bind].
  destruct Hs as [S1 S2 S3 S4 S5 S6].
  set (s := snapshot_of actual recorded ds ms bs ps) in *. audit_ranges s.
  change (sum64 am_amount_usdd_base ms) with (as_total_minted_usdd_base s).
  change (sum64 ab_amount_usdd_base bs) with (as_total_burned_usdd_base s).
  change (sum64 ad_amount_usdt_micro ds) with (as_total_deposited_usdt_micro s).
  change (sum64 ap_amount_usdt_micro ps) with (as_total_paid_usdt_micro s).
  rewrite (proj2 (base_to_micro_Some (as_total_minted_usdd_base s)
    (uint_wrap 64 (as_total_deposited_usdt_micro s - as_deposits_unminted_usdt_micro s))))
    by (rewrite (uval_wrap_small 64 (as_total_deposited_usdt_micro s - as_deposits_unminted_usdt_micro s))
          by lia; lia).
  rewrite (proj2 (base_to_micro_Some (as_total_burned_usdd_base s)
    (uint_wrap 64 (as_total_paid_usdt_micro s + as_burns_unpaid_usdt_micro s))))
    by (rewrite (uval_wrap_small 64 (as_total_paid_usdt_micro s + as_burns_unpaid_usdt_micro s))
          by lia; lia).
  cbn [ok_or mbind res_bind].
  assert (checked_sub (as_total_deposited_usdt_micro s)
    (uint_wrap 64 (as_total_deposited_usdt_micro s - as_deposits_unminted_usdt_micro s))
    = Some (as_deposits_unminted_usdt_micro s)) as ->.
  { apply checked_sub_Some.
    rewrite (uval_wrap_small 64 (as_total_deposited_usdt_micro s - as_deposits_unminted_usdt_micro s))
      by lia. lia. }
  assert (checked_sub (uint_wrap 64 (as_total_paid_usdt_micro s + as_burns_unpaid_usdt_micro s))
    (as_total_paid_usdt_micro s) = Some (as_burns_unpaid_usdt_micro s)) as ->.
  { apply checked_sub_Some.
    rewrite (uval_wrap_small 64 (as_total_paid_usdt_micro s + as_burns_unpaid_usdt_micro s)) by lia.
    lia. }
  reflexivity.
Qed.

Lemma reconstruct_audited actual recorded ds ms bs ps x :
  reconstruct_audit_snapshot actual recorded ds ms bs ps = Ok x -> history_audited ds ms bs ps.
Proof.
  unfold reconstruct_audit_snapshot. intros Hr.
  apply res_bind_Ok in Hr as (st & Hd & Hr). apply audit_deposits_Ok in Hd as [Hd ->].
  unfold deposits_state at 1 in Hr. 
  change (fold_left (fun m d => <[ad_nonce d := d]> m) ds ∅) with (deposits_state ds).1.1 in Hr.
  apply res_bind_Ok in Hr as (t & Hm & Hr). apply (audit_mints_Ok ds ms t Hd) in Hm as [Hm _].
  apply res_bind_Ok in Hr as (st & Hb & Hr). apply audit_burns_Ok in Hb as [Hb ->].
  unfold burns_state in Hr.
  apply res_bind_Ok in Hr as (st & Hp & _). apply (audit_payouts_Ok bs ps st Hb) in Hp as [Hp _].
  by split.
Qed.

(** On a snapshot whose partitions hold, only three checks can still fail. *)
Definition conservation_failure (s : AuditSnapshot) (e : AuditError) : Prop :=
  (e = BurnExceedsMint /\ as_total_minted_usdd_base s < as_total_burned_usdd_base s) \/
  (exists x y, e = RecordedBackingMismatch x y /\
     uval (as_recorded_backing_usdt_micro s)
       <> as_total_deposited_usdt_micro s - as_total_paid_usdt_micro s) \/
  (exists x y, e = PhysicalReserveShortfall x y /\
     as_actual_vault_usdt_micro s < as_recorded_backing_usdt_micro s).

Lemma verify_errors ds ms bs ps s :
  history_sums ds ms bs ps s -> errs_in (conservation_failure s) (AuditSnapshot_verify s).
Proof.
  audit_ranges s. intros [_ _ _ _ Hm Hb]. unfold AuditSnapshot_verify.
  set (m := uint_wrap 64 (as_total_deposited_usdt_micro s - as_deposits_unminted_usdt_micro s)).
  set (b := uint_wrap 64 (as_total_paid_usdt_micro s + as_burns_unpaid_usdt_micro s)).
  assert (uval m = as_total_deposited_usdt_micro s - as_deposits_unminted_usdt_micro s) as Em
    by (unfold m; wrap_small; lia).
  assert (uval b = as_total_paid_usdt_micro s + as_burns_unpaid_usdt_micro s) as Eb
    by (unfold b; wrap_small; lia).
  clearbody m b.
  rewrite (proj2 (base_to_micro_Some (as_total_minted_usdd_base s) m)) by lia.
  rewrite (proj2 (base_to_micro_Some (as_total_burned_usdd_base s) b)) by lia.
  cbn [ok_or mbind res_bind]. unfold add128. rewrite !as_u128_val.
  destruct (Z.ltb_spec m b); [left; split; [done|lia]|]. cbn [fail_if mbind res_bind].
  rewrite (proj2 (Z.ltb_ge _ (as_total_paid_usdt_micro s))) by lia. cbn [fail_if mbind res_bind].
  rewrite !(uval_wrap_small 64) by lia. rewrite !(uval_wrap_small 128) by lia.
  rewrite (proj2 (Z.eqb_eq (m + _) _)), (proj2 (Z.eqb_eq (_ + _) b)) by lia.
  cbn [negb fail_if mbind res_bind].
  destruct (Z.eqb_spec (as_total_deposited_usdt_micro s - as_total_paid_usdt_micro s)
              (as_recorded_backing_usdt_micro s)) as [E|E]; cbn [negb fail_if mbind res_bind].
  2: { right; left. eexists _, _. split; [done|lia]. }
  unfold checked_sub, checked_add. rewrite !as_u128_val.
  rewrite (proj2 (uint_try_Some 128 (m - b) (uint_wrap 128 (m - b)))) by (wrap_small; lia).
  cbn [mbind option_bind]. rewrite uval_wrap_small by lia.
  rewrite (proj2 (uint_try_Some 128 _ (uint_wrap 128 (m - b + as_deposits_unminted_usdt_micro s))))
    by (wrap_small; lia).
  cbn [mbind option_bind]. rewrite uval_wrap_small by lia.
  rewrite (proj2 (uint_try_Some 128 _ (as_u128 (as_recorded_backing_usdt_micro s))))
    by (rewrite as_u128_val; lia).
  cbn [ok_or mbind res_bind]. rewrite as_u128_val, (proj2 (Z.eqb_eq _ _)) by lia.
  cbn [negb fail_if mbind res_bind].
  destruct (Z.ltb_spec (as_actual_vault_usdt_micro s)
    (as_total_deposited_usdt_micro s - as_total_paid_usdt_micro s)); [|done].
  right; right. eexists _, _. split; [done|lia].
Qed.

(** ** Properties *)

(** [verify] accepts exactly the balanced snapshots (burns within mints,
    payouts within deposits, both partitions exact, recorded backing equal to
    deposits less payouts and covered by the vault) and reports their backing,
    surplus and circulating supply; none of its 128-bit sums wraps. *)
Theorem audit_verify_iff (s : AuditSnapshot) (r : AuditReport) :
  AuditSnapshot_verify s = Ok r <->
  snapshot_balanced s /\
  uval (ar_expected_backing_usdt_micro r) = as_recorded_backing_usdt_micro s /\
  uval (ar_recorded_backing_usdt_micro r) = as_recorded_backing_usdt_micro s /\
  uval (ar_physical_surplus_usdt_micro r)
    = as_actual_vault_usdt_micro s - as_recorded_backing_usdt_micro s /\
  uval (ar_circulating_usdd_base r) = as_total_minted_usdd_base s - as_total_burned_usdd_base s.
Proof.
  audit_ranges s. split.
  - intros [Hb ->]%verify_Ok_forward. split; [done|]. destruct Hb. unfold report_of.
    cbn [ar_expected_backing_usdt_micro ar_recorded_backing_usdt_micro
         ar_physical_surplus_usdt_micro ar_circulating_usdd_base].
    rewrite !as_u128_val, !uval_wrap_small by lia. done.
  - intros (Hb & H7 & H8 & H9 & H10). rewrite (verify_Ok_backward s Hb). f_equal. destruct Hb.
    destruct r. unfold report_of. cbn in *. f_equal; apply uint_eq;
      rewrite ?as_u128_val, ?uval_wrap_small by lia; done.
Qed.

(** Success, by the history and its sums. *)
Lemma reconstruct_Ok (actual recorded : u64) (ds : list AuditedDeposit)
    (ms : list AuditedMint) (bs : list AuditedBurn) (ps : list AuditedPayout)
    (s : AuditSnapshot) (r : AuditReport) :
  reconstruct_audit_snapshot actual recorded ds ms bs ps = Ok (s, r) <->
  history_audited ds ms bs ps /\
  sumZ (fun b => ab_amount_usdd_base b) bs <= sumZ (fun m => am_amount_usdd_base m) ms /\
  uval recorded = sumZ (fun d => ad_amount_usdt_micro d) ds - sumZ (fun p => ap_amount_usdt_micro p) ps /\
  recorded <= actual /\
  s = snapshot_of actual recorded ds ms bs ps /\ r = report_of s.
Proof.
  split.
  - intros Hr. pose proof (reconstruct_audited _ _ _ _ _ _ _ Hr) as Hh.
    rewrite (reconstruct_after_loops _ _ _ _ _ _ Hh) in Hr.
    apply res_bind_Ok in Hr as (r' & [Hb ->]%verify_Ok_forward & Hr). injection Hr as <- <-.
    destruct (snapshot_of_sums actual recorded ds ms bs ps Hh) as [S1 S2 S3 S4 S5 S6].
    destruct Hb as [B1 B2 B3 B4 B5 B6].
    rewrite S2, S3 in B1. rewrite S1, S4 in B5. done.
  - intros (Hh & Hb & Hr & Hp & -> & ->). rewrite (reconstruct_after_loops _ _ _ _ _ _ Hh).
    destruct (snapshot_of_sums actual recorded ds ms bs ps Hh) as [S1 S2 S3 S4 S5 S6].
    rewrite verify_Ok_backward; [done|].
    pose proof (uint_range (as_burns_unpaid_usdt_micro (snapshot_of actual recorded ds ms bs ps))).
    pose proof (uint_range (as_deposits_unminted_usdt_micro (snapshot_of actual recorded ds ms bs ps))).
    split; try done; rewrite ?S1, ?S2, ?S3, ?S4; try done; lia.
Qed.

(** C14: A reconstruction succeeds on exactly the histories in which the n-th
    deposit, mint and burn carry number n, every mint consumes its deposit in
    full, every payout pays one burn exactly and only once, burns do not exceed
    mints, the recorded backing is deposits less payouts and the vault covers
    it; the snapshot then holds the true sums of the history. *)
Theorem audit_reconstruct_iff (actual recorded : u64) (ds : list AuditedDeposit)
    (ms : list AuditedMint) (bs : list AuditedBurn) (ps : list AuditedPayout)
    (s : AuditSnapshot) (r : AuditReport) :
  reconstruct_audit_snapshot actual recorded ds ms bs ps = Ok (s, r) <->
  history_audited ds ms bs ps /\
  sumZ (fun b => ab_amount_usdd_base b) bs <= sumZ (fun m => am_amount_usdd_base m) ms /\
  uval recorded = sumZ (fun d => ad_amount_usdt_micro d) ds - sumZ (fun p => ap_amount_usdt_micro p) ps /\
  recorded <= actual /\
  s = snapshot_of actual recorded ds ms bs ps /\ r = report_of s.
Proof. apply reconstruct_Ok. Qed.

(** On a history whose records are individually sound, the reconstruction can
    fail only for one of the three real conservation failures: the partition,
    underflow and convertibility errors of the code are unreachable there, and
    it never panics. *)
Theorem audit_reconstruct_errors (actual recorded : u64) (ds : list AuditedDeposit)
    (ms : list AuditedMint) (bs : list AuditedBurn) (ps : list AuditedPayout)
    (Hh : history_audited ds ms bs ps) :
  errs_in (conservation_failure (snapshot_of actual recorded ds ms bs ps))
    (reconstruct_audit_snapshot actual recorded ds ms bs ps).
Proof.
  rewrite (reconstruct_after_loops _ _ _ _ _ _ Hh). apply errs_in_bind; [|done].
  eapply verify_errors. by apply snapshot_of_sums.
Qed.

(** A concrete history: two deposits, one mint, one burn, not yet paid. *)
Definition sample_deposits : list AuditedDeposit :=
  [MkAuditedDeposit (uint_wrap 64 0) (array_rep 32 x01) (uint_wrap 64 5000);
   MkAuditedDeposit (uint_wrap 64 1) (array_rep 32 x02) (uint_wrap 64 7000)].
Definition sample_mints : list AuditedMint :=
  [MkAuditedMint (uint_wrap 64 0) (array_rep 32 x01) (uint_wrap 64 500000)].
Definition sample_burns : list AuditedBurn :=
  [MkAuditedBurn (uint_wrap 64 0) (array_rep 32 x05) (uint_wrap 64 200000) (array_rep 20 x06)].

Lemma sample_history : history_audited sample_deposits sample_mints sample_burns [].
Proof.
  apply (reconstruct_audited (uint_wrap 64 12000) (uint_wrap 64 12000) _ _ _ _
    (match reconstruct_audit_snapshot (uint_wrap 64 12000) (uint_wrap 64 12000)
             sample_deposits sample_mints sample_burns [] with
     | Ok x => x
     | _ => (snapshot_of (uint_wrap 64 0) (uint_wrap 64 0) [] [] [] [],
             report_of (snapshot_of (uint_wrap 64 0) (uint_wrap 64 0) [] [] [] []))
     end)).
  assert (is_ok (reconstruct_audit_snapshot (uint_wrap 64 12000) (uint_wrap 64 12000)
             sample_deposits sample_mints sample_burns []) = true) as Hok by (vm_compute; reflexivity).
  by destruct (reconstruct_audit_snapshot _ _ _ _ _ _).
Qed.

(** The vault of the sample is short of its recorded backing. *)
Lemma audit_reconstruct_errors_witness :
  history_audited sample_deposits sample_mints sample_burns [] /\
  errs_in (conservation_failure (snapshot_of (uint_wrap 64 11999) (uint_wrap 64 12000)
             sample_deposits sample_mints sample_burns []))
    (reconstruct_audit_snapshot (uint_wrap 64 11999) (uint_wrap 64 12000)
       sample_deposits sample_mints sample_burns []).
Proof.
  split; [exact sample_history|].
  exact (audit_reconstruct_errors (uint_wrap 64 11999) (uint_wrap 64 12000) _ _ _ _ sample_history).
Defined.
