(* ===== verification/ManifestFile.v ===== *)
(** The protocol manifest: [crates/usdd-core/src/manifest.rs].

    The immutable deployment commitments, their validation, the four derived
    commitments (vault identifier, controller configuration, outbound verifier
    configuration, initial controller state) and the canonical byte format.  The
    theorems fix what a valid manifest is, show that its identifier and each
    derived hash bind the fields they cover, and that the initial controller
    state it commits to is a valid state with nothing minted. *)

From S2P Require Import Prelude Encoding Params Hashing BurnAccumulator Records Deposits Controller.

Local Open Scope Z_scope.

Definition TAG_MANIFEST : u16 := uint_wrap 16 0x4001.

Definition SOLIDITY_VAULT_ID_DOMAIN : Hash32 := Array (n:=32)
  [xfb; x55; x81; xac; xfc; xed; x59; xc7; x4e; x84; x98; x62; x35; x0b; x68; xb4;
   x7d; x96; xb0; x8d; x64; xe0; x95; xa1; xcb; xd3; xb7; x8a; x12; x98; xa3; x5c] eq_refl.

Record ProtocolManifest : Type := MkProtocolManifest {
  pm_ethereum_chain_id : u64;
  pm_ethereum_genesis : Hash32;
  pm_bitcoin_genesis : Hash32;
  pm_elements_genesis : Hash32;
  pm_drivechain_slot : u8;
  pm_usdt : EthAddress;
  pm_usdd_asset : Hash32;
  pm_usdd_reissuance_token : Hash32;
  pm_usdd_public_abf : Hash32;
  pm_vault : EthAddress;
  pm_vault_id : Hash32;
  pm_vault_code_hash : Hash32;
  pm_proof_verifier : EthAddress;
  pm_proof_verifier_runtime_code_hash : Hash32;
  pm_verifier_config_hash : Hash32;
  pm_ethereum_guest_program_id : Hash32;
  pm_elements_guest_program_id : Hash32;
  pm_sp1_version_major : u16;
  pm_sp1_version_minor : u16;
  pm_sp1_version_patch : u16;
  pm_sp1_git_commit : array 20;
  pm_compressed_proof_circuit_version : u16;
  pm_compressed_proof_codec_version : u16;
  pm_recursion_verifier_constants_hash : Hash32;
  pm_public_digest_tag : u8;
  pm_bootstrap_finalized_beacon_slot : u64;
  pm_bootstrap_finalized_beacon_root : Hash32;
  pm_bootstrap_execution_state_root : Hash32;
  pm_bootstrap_eth_light_client_digest : Hash32;
  pm_controller_cmr : Hash32;
  pm_controller_configuration_hash : Hash32;
  pm_domain_separator_table_hash : Hash32;
  pm_issuance_txid_display : Hash32;
  pm_issuance_vout : u32;
  pm_asset_entropy : Hash32;
  pm_initial_controller_state_hash : Hash32;
  pm_active_liability_cap_usdt_micro : u64;
  pm_minimum_activation_chainwork : Hash32;
  pm_max_ethereum_finality_slot_gap : u64;
  pm_max_finalized_to_bmm_mtp_age_seconds : u64;
  pm_minimum_bitcoin_confirmations : u32;
  pm_first_deposit_nonce : u64;
  pm_usdt_display_decimals : u8;
  pm_usdd_display_decimals : u8;
  pm_usdd_units_per_usdt_micro : u64
}.

Inductive ManifestError : Type :=
| ZeroField (name : string)
| WrongDrivechainSlot (expected actual : u8)
| WrongAmountScale
| WrongSp1Identity
| WrongDomainSeparatorTable
| WrongControllerConfiguration
| WrongOutboundVerifierConfiguration
| WrongFinalityThresholds
| WrongVaultId
| WrongLiabilityCap
| WrongFirstDepositNonce
| WrongInitialControllerState
| Encoding (e : DecodeError).

(** The payloads of the derived commitments. *)
Definition vault_id_preimage (m : ProtocolManifest) : bytes :=
  SOLIDITY_VAULT_ID_DOMAIN ++ u256_of_u64 (pm_ethereum_chain_id m) ++ pm_vault m ++ pm_usdt m
   ++ pm_proof_verifier m ++ pm_elements_guest_program_id m ++ pm_verifier_config_hash m
   ++ pm_elements_genesis m ++ pm_usdd_asset m
   ++ u256_of_u64 (pm_active_liability_cap_usdt_micro m) ++ pm_minimum_activation_chainwork m.

Definition controller_configuration_payload (m : ProtocolManifest) : bytes :=
  be_bytes 8 (pm_ethereum_chain_id m) ++ pm_ethereum_genesis m
   ++ be_bytes 1 (pm_drivechain_slot m) ++ pm_usdt m ++ pm_vault m ++ pm_vault_code_hash m
   ++ pm_ethereum_guest_program_id m ++ be_bytes 2 (pm_sp1_version_major m)
   ++ be_bytes 2 (pm_sp1_version_minor m) ++ be_bytes 2 (pm_sp1_version_patch m)
   ++ pm_sp1_git_commit m ++ be_bytes 2 (pm_compressed_proof_circuit_version m)
   ++ be_bytes 2 (pm_compressed_proof_codec_version m)
   ++ pm_recursion_verifier_constants_hash m ++ be_bytes 1 (pm_public_digest_tag m)
   ++ be_bytes 8 (pm_bootstrap_finalized_beacon_slot m) ++ pm_bootstrap_finalized_beacon_root m
   ++ pm_bootstrap_execution_state_root m ++ pm_bootstrap_eth_light_client_digest m
   ++ pm_domain_separator_table_hash m ++ be_bytes 8 (pm_active_liability_cap_usdt_micro m)
   ++ be_bytes 8 (pm_max_ethereum_finality_slot_gap m)
   ++ be_bytes 8 (pm_max_finalized_to_bmm_mtp_age_seconds m)
   ++ be_bytes 8 (pm_first_deposit_nonce m) ++ be_bytes 1 (pm_usdt_display_decimals m)
   ++ be_bytes 1 (pm_usdd_display_decimals m) ++ be_bytes 8 (pm_usdd_units_per_usdt_micro m).

Definition outbound_verifier_payload (m : ProtocolManifest) (depth appends : u8) : bytes :=
  be_bytes 2 ENCODING_SCHEMA ++ be_bytes 8 (pm_ethereum_chain_id m) ++ pm_bitcoin_genesis m
   ++ pm_elements_genesis m ++ be_bytes 1 (pm_drivechain_slot m) ++ pm_vault m
   ++ pm_usdd_asset m ++ pm_elements_guest_program_id m ++ be_bytes 2 (pm_sp1_version_major m)
   ++ be_bytes 2 (pm_sp1_version_minor m) ++ be_bytes 2 (pm_sp1_version_patch m)
   ++ pm_sp1_git_commit m ++ be_bytes 2 (pm_compressed_proof_circuit_version m)
   ++ be_bytes 2 (pm_compressed_proof_codec_version m)
   ++ pm_recursion_verifier_constants_hash m ++ be_bytes 1 (pm_public_digest_tag m)
   ++ pm_domain_separator_table_hash m ++ pm_minimum_activation_chainwork m
   ++ be_bytes 4 (pm_minimum_bitcoin_confirmations m) ++ be_bytes 1 depth ++ be_bytes 1 appends.

Definition initial_controller_state (m : ProtocolManifest) : MintControllerState :=
  MkMintControllerState (uint_wrap 32 1) (uint_wrap 64 0) (pm_first_deposit_nonce m)
    (pm_bootstrap_eth_light_client_digest m) (pm_bootstrap_finalized_beacon_slot m)
    (pm_bootstrap_finalized_beacon_root m) (pm_bootstrap_execution_state_root m)
    (uint_wrap 64 0) (pm_controller_configuration_hash m).

(** The array of named hashes that must not be zero. *)
Definition manifest_hashes (m : ProtocolManifest) : list (string * Hash32) :=
  [("ethereum_genesis"%string, pm_ethereum_genesis m);
   ("bitcoin_genesis"%string, pm_bitcoin_genesis m);
   ("elements_genesis"%string, pm_elements_genesis m);
   ("usdd_asset"%string, pm_usdd_asset m);
   ("usdd_reissuance_token"%string, pm_usdd_reissuance_token m);
   ("usdd_public_abf"%string, pm_usdd_public_abf m);
   ("vault_id"%string, pm_vault_id m);
   ("vault_code_hash"%string, pm_vault_code_hash m);
   ("proof_verifier_runtime_code_hash"%string, pm_proof_verifier_runtime_code_hash m);
   ("verifier_config_hash"%string, pm_verifier_config_hash m);
   ("ethereum_guest_program_id"%string, pm_ethereum_guest_program_id m);
   ("elements_guest_program_id"%string, pm_elements_guest_program_id m);
   ("recursion_verifier_constants_hash"%string, pm_recursion_verifier_constants_hash m);
   ("bootstrap_finalized_beacon_root"%string, pm_bootstrap_finalized_beacon_root m);
   ("bootstrap_execution_state_root"%string, pm_bootstrap_execution_state_root m);
   ("bootstrap_eth_light_client_digest"%string, pm_bootstrap_eth_light_client_digest m);
   ("controller_cmr"%string, pm_controller_cmr m);
   ("controller_configuration_hash"%string, pm_controller_configuration_hash m);
   ("domain_separator_table_hash"%string, pm_domain_separator_table_hash m);
   ("issuance_txid_display"%string, pm_issuance_txid_display m);
   ("asset_entropy"%string, pm_asset_entropy m);
   ("initial_controller_state_hash"%string, pm_initial_controller_state_hash m);
   ("minimum_activation_chainwork"%string, pm_minimum_activation_chainwork m)].

Definition nonzero_hash (_ : nat) (entry : string * Hash32) (_ : unit) : res ManifestError unit :=
  fail_if (bool_decide (entry.2 = ZERO)) (ZeroField entry.1).

Section manifest.
Context {H : Sha256}.

Definition compute_vault_id (m : ProtocolManifest) : Hash32 := hash_bytes (vault_id_preimage m).

Definition compute_controller_configuration_hash (m : ProtocolManifest) : option Hash32 :=
  domain_hash ControllerConfig (controller_configuration_payload m).

Definition compute_outbound_verifier_config_hash (m : ProtocolManifest) : option Hash32 :=
  depth ← uint_try 8 (Z.of_nat BURN_ACCUMULATOR_DEPTH);
  appends ← uint_try 8 (Z.of_nat MAX_BURN_APPENDS_PER_STATE_TRANSITION);
  domain_hash OutboundVerifierConfig (outbound_verifier_payload m depth appends).

Definition compute_initial_controller_state_hash (m : ProtocolManifest) : option Hash32 :=
  bs ← encode (initial_controller_state m); Some (hash_bytes bs).

Definition ProtocolManifest_validate (m : ProtocolManifest) : res ManifestError unit :=
  fail_if (pm_ethereum_chain_id m =? 0) (ZeroField "ethereum_chain_id");;
  res_foldi nonzero_hash 0 (manifest_hashes m) tt;;
  fail_if (EthAddress_is_zero (pm_usdt m)) (ZeroField "usdt");;
  fail_if (EthAddress_is_zero (pm_vault m)) (ZeroField "vault");;
  fail_if (EthAddress_is_zero (pm_proof_verifier m)) (ZeroField "proof_verifier");;
  fail_if (negb (pm_drivechain_slot m =? DRIVECHAIN_SLOT))
    (WrongDrivechainSlot DRIVECHAIN_SLOT (pm_drivechain_slot m));;
  fail_if ((pm_minimum_bitcoin_confirmations m <? MINIMUM_BITCOIN_CONFIRMATIONS)
           || negb (pm_max_ethereum_finality_slot_gap m =? MAX_ETHEREUM_FINALITY_SLOT_GAP)
           || negb (pm_max_finalized_to_bmm_mtp_age_seconds m =? MAX_FINALIZED_TO_BMM_MTP_AGE_SECONDS))
    WrongFinalityThresholds;;
  fail_if (pm_bootstrap_finalized_beacon_slot m =? 0) (ZeroField "bootstrap_finalized_beacon_slot");;
  fail_if (negb (pm_usdt_display_decimals m =? 6) || negb (pm_usdd_display_decimals m =? 8)
           || negb (pm_usdd_units_per_usdt_micro m =? USDD_UNITS_PER_USDT_MICRO)
           || negb (USDT_SCALE =? 1000000) || negb (USDD_SCALE =? 100000000)) WrongAmountScale;;
  fail_if (negb (pm_sp1_version_major m =? SP1_VERSION_MAJOR)
           || negb (pm_sp1_version_minor m =? SP1_VERSION_MINOR)
           || negb (pm_sp1_version_patch m =? SP1_VERSION_PATCH)
           || bool_decide (pm_sp1_git_commit m <> SP1_GIT_COMMIT)
           || negb (pm_compressed_proof_circuit_version m =? SP1_COMPRESSED_CIRCUIT_VERSION)
           || negb (pm_compressed_proof_codec_version m =? SP1_COMPRESSED_CODEC_VERSION)
           || negb (pm_public_digest_tag m =? SHA256_DIGEST_TAG)) WrongSp1Identity;;
  fail_if (bool_decide (pm_domain_separator_table_hash m <> domain_separator_table_hash))
    WrongDomainSeparatorTable;;
  controller_configuration ← expect (compute_controller_configuration_hash m);
  fail_if (bool_decide (pm_controller_configuration_hash m <> controller_configuration))
    WrongControllerConfiguration;;
  verifier_config ← expect (compute_outbound_verifier_config_hash m);
  fail_if (bool_decide (pm_verifier_config_hash m <> verifier_config))
    WrongOutboundVerifierConfiguration;;
  fail_if (negb (pm_active_liability_cap_usdt_micro m =? ACTIVE_LIABILITY_CAP_USDT_MICRO))
    WrongLiabilityCap;;
  fail_if (negb (pm_first_deposit_nonce m =? 0)) WrongFirstDepositNonce;;
  fail_if (bool_decide (pm_vault_id m <> compute_vault_id m)) WrongVaultId;;
  initial_state ← expect (compute_initial_controller_state_hash m);
  fail_if (bool_decide (pm_initial_controller_state_hash m <> initial_state))
    WrongInitialControllerState.

#[export] Instance ProtocolManifest_encode : CanonicalEncode ProtocolManifest := fun m =>
  encode ENCODING_SCHEMA +++ encode TAG_MANIFEST
  +++ encode (pm_ethereum_chain_id m)
  +++ encode (pm_ethereum_genesis m)
  +++ encode (pm_bitcoin_genesis m)
  +++ encode (pm_elements_genesis m)
  +++ encode (pm_drivechain_slot m)
  +++ encode (pm_usdt m)
  +++ encode (pm_usdd_asset m)
  +++ encode (pm_usdd_reissuance_token m)
  +++ encode (pm_usdd_public_abf m)
  +++ encode (pm_vault m)
  +++ encode (pm_vault_id m)
  +++ encode (pm_vault_code_hash m)
  +++ encode (pm_proof_verifier m)
  +++ encode (pm_proof_verifier_runtime_code_hash m)
  +++ encode (pm_verifier_config_hash m)
  +++ encode (pm_ethereum_guest_program_id m)
  +++ encode (pm_elements_guest_program_id m)
  +++ encode (pm_sp1_version_major m)
  +++ encode (pm_sp1_version_minor m)
  +++ encode (pm_sp1_version_patch m)
  +++ encode (pm_sp1_git_commit m)
  +++ encode (pm_compressed_proof_circuit_version m)
  +++ encode (pm_compressed_proof_codec_version m)
  +++ encode (pm_recursion_verifier_constants_hash m)
  +++ encode (pm_public_digest_tag m)
  +++ encode (pm_bootstrap_finalized_beacon_slot m)
  +++ encode (pm_bootstrap_finalized_beacon_root m)
  +++ encode (pm_bootstrap_execution_state_root m)
  +++ encode (pm_bootstrap_eth_light_client_digest m)
  +++ encode (pm_controller_cmr m)
  +++ encode (pm_controller_configuration_hash m)
  +++ encode (pm_domain_separator_table_hash m)
  +++ encode (pm_issuance_txid_display m)
  +++ encode (pm_issuance_vout m)
  +++ encode (pm_asset_entropy m)
  +++ encode (pm_initial_controller_state_hash m)
  +++ encode (pm_active_liability_cap_usdt_micro m)
  +++ encode (pm_minimum_activation_chainwork m)
  +++ encode (pm_max_ethereum_finality_slot_gap m)
  +++ encode (pm_max_finalized_to_bmm_mtp_age_seconds m)
  +++ encode (pm_minimum_bitcoin_confirmations m)
  +++ encode (pm_first_deposit_nonce m)
  +++ encode (pm_usdt_display_decimals m)
  +++ encode (pm_usdd_display_decimals m)
  +++ encode (pm_usdd_units_per_usdt_micro m).

#[export] Instance ProtocolManifest_decode : CanonicalDecode ProtocolManifest :=
  schema ← Decoder_u16;
  lift (fail_if (negb (uval schema =? ENCODING_SCHEMA)) (InvalidValue "invalid manifest header"));;
  tag ← Decoder_u16;
  lift (fail_if (negb (uval tag =? TAG_MANIFEST)) (InvalidValue "invalid manifest header"));;
  ethereum_chain_id ← Decoder_u64;
  ethereum_genesis ← Decoder_fixed 32;
  bitcoin_genesis ← Decoder_fixed 32;
  elements_genesis ← Decoder_fixed 32;
  drivechain_slot ← Decoder_u8;
  usdt ← Decoder_fixed 20;
  usdd_asset ← Decoder_fixed 32;
  usdd_reissuance_token ← Decoder_fixed 32;
  usdd_public_abf ← Decoder_fixed 32;
  vault ← Decoder_fixed 20;
  vault_id ← Decoder_fixed 32;
  vault_code_hash ← Decoder_fixed 32;
  proof_verifier ← Decoder_fixed 20;
  proof_verifier_runtime_code_hash ← Decoder_fixed 32;
  verifier_config_hash ← Decoder_fixed 32;
  ethereum_guest_program_id ← Decoder_fixed 32;
  elements_guest_program_id ← Decoder_fixed 32;
  sp1_version_major ← Decoder_u16;
  sp1_version_minor ← Decoder_u16;
  sp1_version_patch ← Decoder_u16;
  sp1_git_commit ← Decoder_fixed 20;
  compressed_proof_circuit_version ← Decoder_u16;
  compressed_proof_codec_version ← Decoder_u16;
  recursion_verifier_constants_hash ← Decoder_fixed 32;
  public_digest_tag ← Decoder_u8;
  bootstrap_finalized_beacon_slot ← Decoder_u64;
  bootstrap_finalized_beacon_root ← Decoder_fixed 32;
  bootstrap_execution_state_root ← Decoder_fixed 32;
  bootstrap_eth_light_client_digest ← Decoder_fixed 32;
  controller_cmr ← Decoder_fixed 32;
  controller_configuration_hash ← Decoder_fixed 32;
  domain_separator_table_hash ← Decoder_fixed 32;
  issuance_txid_display ← Decoder_fixed 32;
  issuance_vout ← Decoder_u32;
  asset_entropy ← Decoder_fixed 32;
  initial_controller_state_hash ← Decoder_fixed 32;
  active_liability_cap_usdt_micro ← Decoder_u64;
  minimum_activation_chainwork ← Decoder_fixed 32;
  max_ethereum_finality_slot_gap ← Decoder_u64;
  max_finalized_to_bmm_mtp_age_seconds ← Decoder_u64;
  minimum_bitcoin_confirmations ← Decoder_u32;
  first_deposit_nonce ← Decoder_u64;
  usdt_display_decimals ← Decoder_u8;
  usdd_display_decimals ← Decoder_u8;
  usdd_units_per_usdt_micro ← Decoder_u64;
  checked (fun value => map_err (fun _ => InvalidValue "invalid protocol manifest")
                          (ProtocolManifest_validate value))
    (MkProtocolManifest ethereum_chain_id ethereum_genesis bitcoin_genesis elements_genesis drivechain_slot
       usdt usdd_asset usdd_reissuance_token usdd_public_abf vault vault_id vault_code_hash
       proof_verifier proof_verifier_runtime_code_hash verifier_config_hash
       ethereum_guest_program_id elements_guest_program_id sp1_version_major
       sp1_version_minor sp1_version_patch sp1_git_commit compressed_proof_circuit_version
       compressed_proof_codec_version recursion_verifier_constants_hash public_digest_tag
       bootstrap_finalized_beacon_slot bootstrap_finalized_beacon_root
       bootstrap_execution_state_root bootstrap_eth_light_client_digest controller_cmr
       controller_configuration_hash domain_separator_table_hash issuance_txid_display
       issuance_vout asset_entropy initial_controller_state_hash
       active_liability_cap_usdt_micro minimum_activation_chainwork
       max_ethereum_finality_slot_gap max_finalized_to_bmm_mtp_age_seconds
       minimum_bitcoin_confirmations first_deposit_nonce usdt_display_decimals
       usdd_display_decimals usdd_units_per_usdt_micro).

Definition ProtocolManifest_manifest_id (m : ProtocolManifest) : res ManifestError Hash32 :=
  ProtocolManifest_validate m;;
  bs ← expect (encode m);
  expect (domain_hash Manifest bs).

(** ** The byte format is exact *)

#[export] Program Instance ProtocolManifest_codec : Codec ProtocolManifest :=
  {| valid := fun m => ProtocolManifest_validate m = Ok tt |}.
Next Obligation.
  record_codec ProtocolManifest_decode ProtocolManifest_encode.
  - by apply map_err_Ok in Hvalid.
  - inv_ok. repeat match goal with E : uval _ = uval _ |- _ => apply uint_eq in E; subst end.
    reads_each.
  - apply map_err_Ok. by destruct x.
Qed.
Next Obligation. intros m _. by eexists. Qed.
End manifest.

(** ** What a valid manifest is *)

(** The checks that involve no derived hash. *)
Record manifest_static (m : ProtocolManifest) : Prop := {
  ms_chain : uval (pm_ethereum_chain_id m) <> 0;
  ms_usdt : pm_usdt m <> EthAddress_ZERO;
  ms_vault : pm_vault m <> EthAddress_ZERO;
  ms_verifier : pm_proof_verifier m <> EthAddress_ZERO;
  ms_slot : uval (pm_drivechain_slot m) = 24;
  ms_confirmations : 100 <= pm_minimum_bitcoin_confirmations m;
  ms_gap : uval (pm_max_ethereum_finality_slot_gap m) = 4096;
  ms_age : uval (pm_max_finalized_to_bmm_mtp_age_seconds m) = 21600;
  ms_bootstrap : uval (pm_bootstrap_finalized_beacon_slot m) <> 0;
  ms_usdt_decimals : uval (pm_usdt_display_decimals m) = 6;
  ms_usdd_decimals : uval (pm_usdd_display_decimals m) = 8;
  ms_units : uval (pm_usdd_units_per_usdt_micro m) = 100;
  ms_sp1 : uval (pm_sp1_version_major m) = 6 /\ uval (pm_sp1_version_minor m) = 3 /\
           uval (pm_sp1_version_patch m) = 1 /\ pm_sp1_git_commit m = SP1_GIT_COMMIT;
  ms_proof : uval (pm_compressed_proof_circuit_version m) = 1 /\
             uval (pm_compressed_proof_codec_version m) = 1 /\ uval (pm_public_digest_tag m) = 1;
  ms_cap : uval (pm_active_liability_cap_usdt_micro m) = 1000000000000000;
  ms_nonce : uval (pm_first_deposit_nonce m) = 0
}.

(** The fields covered by each derived commitment. *)
Definition same_controller_configuration (m n : ProtocolManifest) : Prop :=
  pm_ethereum_chain_id m = pm_ethereum_chain_id n /\
  pm_ethereum_genesis m = pm_ethereum_genesis n /\
  pm_drivechain_slot m = pm_drivechain_slot n /\
  pm_usdt m = pm_usdt n /\
  pm_vault m = pm_vault n /\
  pm_vault_code_hash m = pm_vault_code_hash n /\
  pm_ethereum_guest_program_id m = pm_ethereum_guest_program_id n /\
  pm_sp1_version_major m = pm_sp1_version_major n /\
  pm_sp1_version_minor m = pm_sp1_version_minor n /\
  pm_sp1_version_patch m = pm_sp1_version_patch n /\
  pm_sp1_git_commit m = pm_sp1_git_commit n /\
  pm_compressed_proof_circuit_version m = pm_compressed_proof_circuit_version n /\
  pm_compressed_proof_codec_version m = pm_compressed_proof_codec_version n /\
  pm_recursion_verifier_constants_hash m = pm_recursion_verifier_constants_hash n /\
  pm_public_digest_tag m = pm_public_digest_tag n /\
  pm_bootstrap_finalized_beacon_slot m = pm_bootstrap_finalized_beacon_slot n /\
  pm_bootstrap_finalized_beacon_root m = pm_bootstrap_finalized_beacon_root n /\
  pm_bootstrap_execution_state_root m = pm_bootstrap_execution_state_root n /\
  pm_bootstrap_eth_light_client_digest m = pm_bootstrap_eth_light_client_digest n /\
  pm_domain_separator_table_hash m = pm_domain_separator_table_hash n /\
  pm_active_liability_cap_usdt_micro m = pm_active_liability_cap_usdt_micro n /\
  pm_max_ethereum_finality_slot_gap m = pm_max_ethereum_finality_slot_gap n /\
  pm_max_finalized_to_bmm_mtp_age_seconds m = pm_max_finalized_to_bmm_mtp_age_seconds n /\
  pm_first_deposit_nonce m = pm_first_deposit_nonce n /\
  pm_usdt_display_decimals m = pm_usdt_display_decimals n /\
  pm_usdd_display_decimals m = pm_usdd_display_decimals n /\
  pm_usdd_units_per_usdt_micro m = pm_usdd_units_per_usdt_micro n.

Definition same_vault_identity (m n : ProtocolManifest) : Prop :=
  pm_ethereum_chain_id m = pm_ethereum_chain_id n /\
  pm_vault m = pm_vault n /\
  pm_usdt m = pm_usdt n /\
  pm_proof_verifier m = pm_proof_verifier n /\
  pm_elements_guest_program_id m = pm_elements_guest_program_id n /\
  pm_verifier_config_hash m = pm_verifier_config_hash n /\
  pm_elements_genesis m = pm_elements_genesis n /\
  pm_usdd_asset m = pm_usdd_asset n /\
  pm_active_liability_cap_usdt_micro m = pm_active_liability_cap_usdt_micro n /\
  pm_minimum_activation_chainwork m = pm_minimum_activation_chainwork n.

Definition same_outbound_verifier (m n : ProtocolManifest) : Prop :=
  pm_ethereum_chain_id m = pm_ethereum_chain_id n /\
  pm_bitcoin_genesis m = pm_bitcoin_genesis n /\
  pm_elements_genesis m = pm_elements_genesis n /\
  pm_drivechain_slot m = pm_drivechain_slot n /\
  pm_vault m = pm_vault n /\
  pm_usdd_asset m = pm_usdd_asset n /\
  pm_elements_guest_program_id m = pm_elements_guest_program_id n /\
  pm_sp1_version_major m = pm_sp1_version_major n /\
  pm_sp1_version_minor m = pm_sp1_version_minor n /\
  pm_sp1_version_patch m = pm_sp1_version_patch n /\
  pm_sp1_git_commit m = pm_sp1_git_commit n /\
  pm_compressed_proof_circuit_version m = pm_compressed_proof_circuit_version n /\
  pm_compressed_proof_codec_version m = pm_compressed_proof_codec_version n /\
  pm_recursion_verifier_constants_hash m = pm_recursion_verifier_constants_hash n /\
  pm_public_digest_tag m = pm_public_digest_tag n /\
  pm_domain_separator_table_hash m = pm_domain_separator_table_hash n /\
  pm_minimum_activation_chainwork m = pm_minimum_activation_chainwork n /\
  pm_minimum_bitcoin_confirmations m = pm_minimum_bitcoin_confirmations n.

(** The manifest with its five derived hashes replaced. *)
Definition with_derived (m : ProtocolManifest) (table configuration verifier vault initial : Hash32)
    : ProtocolManifest :=
  MkProtocolManifest (pm_ethereum_chain_id m) (pm_ethereum_genesis m) (pm_bitcoin_genesis m)
     (pm_elements_genesis m) (pm_drivechain_slot m) (pm_usdt m) (pm_usdd_asset m)
     (pm_usdd_reissuance_token m) (pm_usdd_public_abf m) (pm_vault m) vault
     (pm_vault_code_hash m) (pm_proof_verifier m) (pm_proof_verifier_runtime_code_hash m)
     verifier (pm_ethereum_guest_program_id m) (pm_elements_guest_program_id m)
     (pm_sp1_version_major m) (pm_sp1_version_minor m) (pm_sp1_version_patch m)
     (pm_sp1_git_commit m) (pm_compressed_proof_circuit_version m)
     (pm_compressed_proof_codec_version m) (pm_recursion_verifier_constants_hash m)
     (pm_public_digest_tag m) (pm_bootstrap_finalized_beacon_slot m)
     (pm_bootstrap_finalized_beacon_root m) (pm_bootstrap_execution_state_root m)
     (pm_bootstrap_eth_light_client_digest m) (pm_controller_cmr m) configuration table
     (pm_issuance_txid_display m) (pm_issuance_vout m) (pm_asset_entropy m) initial
     (pm_active_liability_cap_usdt_micro m) (pm_minimum_activation_chainwork m)
     (pm_max_ethereum_finality_slot_gap m) (pm_max_finalized_to_bmm_mtp_age_seconds m)
     (pm_minimum_bitcoin_confirmations m) (pm_first_deposit_nonce m)
     (pm_usdt_display_decimals m) (pm_usdd_display_decimals m)
     (pm_usdd_units_per_usdt_micro m).

Section manifest_facts.
Context {H : Sha256}.

(** The derived hashes of a manifest agree with its other fields. *)
Record manifest_derived (m : ProtocolManifest) : Prop := {
  md_table : pm_domain_separator_table_hash m = domain_separator_table_hash;
  md_configuration : compute_controller_configuration_hash m = Some (pm_controller_configuration_hash m);
  md_verifier : compute_outbound_verifier_config_hash m = Some (pm_verifier_config_hash m);
  md_vault : pm_vault_id m = compute_vault_id m;
  md_initial : compute_initial_controller_state_hash m = Some (pm_initial_controller_state_hash m)
}.

Lemma nonzero_hashes_Ok i l u :
  res_foldi nonzero_hash i l u = Ok tt <-> Forall (fun e => e.2 <> ZERO) l.
Proof.
  revert i u. induction l as [|e l IH]; intros i []; cbn [res_foldi].
  - split; [constructor|done].
  - rewrite Forall_cons, res_bind_Ok. unfold nonzero_hash at 1. setoid_rewrite fail_if_Ok.
    setoid_rewrite bool_decide_eq_false. setoid_rewrite IH. split.
    + by intros (_ & ? & ?).
    + intros [? ?]. by exists tt.
Qed.

Lemma expect_then {E A B : Type} (o : option A) (f : A -> res E B) (b : B) :
  (expect o ≫= f) = Ok b <-> exists a, o = Some a /\ f a = Ok b.
Proof. rewrite res_bind_Ok. by setoid_rewrite expect_Ok. Qed.

Lemma differs_false {A : Type} `{EqDecision A} (x y : A) : bool_decide (x <> y) = false <-> x = y.
Proof.
  rewrite bool_decide_eq_false. split; [apply dec_stable|]. intros -> Hne. by apply Hne.
Qed.

Lemma manifest_validate_Ok m :
  ProtocolManifest_validate m = Ok tt <->
  manifest_static m /\ manifest_derived m /\ Forall (fun e => e.2 <> ZERO) (manifest_hashes m).
Proof.
  unfold ProtocolManifest_validate, EthAddress_is_zero.
  change (uval DRIVECHAIN_SLOT) with 24. change (uval MINIMUM_BITCOIN_CONFIRMATIONS) with 100.
  rewrite slot_gap_val, units_val.
  change (uval MAX_FINALIZED_TO_BMM_MTP_AGE_SECONDS) with 21600.
  change (uval SP1_VERSION_MAJOR) with 6. change (uval SP1_VERSION_MINOR) with 3.
  change (uval SP1_VERSION_PATCH) with 1. change (uval SP1_COMPRESSED_CIRCUIT_VERSION) with 1.
  change (uval SP1_COMPRESSED_CODEC_VERSION) with 1. change (uval SHA256_DIGEST_TAG) with 1.
  change (uval ACTIVE_LIABILITY_CAP_USDT_MICRO) with 1000000000000000.
  split.
  - intros Hv. inv_ok.
    repeat match goal with N : ~ (_ <> _) |- _ => apply dec_stable in N end.
    match goal with N : res_foldi nonzero_hash _ _ _ = Ok _ |- _ => apply nonzero_hashes_Ok in N end.
    split; [by split|]. split; [|done]. split; congruence.
  - intros ([] & [] & Hz). rewrite !fail_then. split; [by apply Z.eqb_neq|].
    rewrite (proj2 (nonzero_hashes_Ok 0 (manifest_hashes m) tt) Hz). cbn [mbind res_bind].
    destruct ms_sp2 as (? & ? & ? & ?), ms_proof0 as (? & ? & ?).
    repeat (rewrite fail_then; split;
      [rewrite ?orb_false_iff, ?negb_false_iff, ?Z.eqb_eq, ?Z.eqb_neq, ?Z.ltb_ge, ?differs_false,
         ?bool_decide_eq_false; repeat split; done || lia|]).
    apply expect_then. exists (pm_controller_configuration_hash m). split; [done|].
    rewrite fail_then, differs_false. split; [done|].
    apply expect_then. exists (pm_verifier_config_hash m). split; [done|].
    rewrite fail_then, differs_false. split; [done|].
    rewrite fail_then, negb_false_iff, Z.eqb_eq. split; [done|].
    rewrite fail_then, negb_false_iff, Z.eqb_eq. split; [done|].
    rewrite fail_then, differs_false. split; [done|].
    apply expect_then. exists (pm_initial_controller_state_hash m). split; [done|].
    by rewrite fail_if_Ok, differs_false.
Qed.
End manifest_facts.

(** ** Properties *)

Section manifest_properties.
Context {H : Sha256}.

Lemma controller_payload_inj m n :
  controller_configuration_payload m = controller_configuration_payload n ->
  same_controller_configuration m n.
Proof. unfold controller_configuration_payload. intros E. split_fields. by repeat split. Qed.

Lemma vault_id_preimage_inj m n :
  vault_id_preimage m = vault_id_preimage n -> same_vault_identity m n.
Proof.
  unfold vault_id_preimage, u256_of_u64. intros E. rewrite <- !app_assoc in E.
  split_fields. by repeat split.
Qed.

Lemma outbound_payload_inj m n d a :
  outbound_verifier_payload m d a = outbound_verifier_payload n d a -> same_outbound_verifier m n.
Proof. unfold outbound_verifier_payload. intros E. apply app_inv_head in E. split_fields. by repeat split. Qed.

(** A manifest is decoded from exactly its own encoding and exactly when it is
    valid, and two valid manifests with one identifier are equal unless SHA-256
    collides on the bytes hashed for them. *)
Theorem manifest_canonical :
  (forall bs m, decode_exact bs = Ok m <-> ProtocolManifest_validate m = Ok tt /\ encode m = Some bs) /\
  (forall m n h, ProtocolManifest_manifest_id m = Ok h -> ProtocolManifest_manifest_id n = Ok h ->
     m = n \/ exists x y, (bs ← encode m; domain_preimage Manifest bs) = Some x /\
                          (bs ← encode n; domain_preimage Manifest bs) = Some y /\ collision x y).
Proof.
  split; [intros bs m; exact (decode_exact_spec (A:=ProtocolManifest) bs m)|].
  intros m n h Hm Hn. unfold ProtocolManifest_manifest_id in *. inv_ok.
  destruct (domain_hash_collision _ _ _ _ _ Hm Hn) as (x & y & Ex & Ey & [[_ E]|Hc]).
  - left. subst. by eapply (encode_inj m n).
  - right. exists x, y. split; [|split; [|done]].
    + match goal with N : encode m = Some _ |- _ => rewrite N end. exact Ex.
    + match goal with N : encode n = Some _ |- _ => rewrite N end. exact Ey.
Qed.

(** C40: The derived hashes of valid manifests bind what they cover: equal
    controller-configuration, vault or outbound-verifier commitments mean equal
    covered fields, unless SHA-256 collides on the two payloads. *)
Theorem manifest_commitments_binding (m n : ProtocolManifest)
    (Hm : ProtocolManifest_validate m = Ok tt) (Hn : ProtocolManifest_validate n = Ok tt) :
  (pm_controller_configuration_hash m = pm_controller_configuration_hash n ->
   same_controller_configuration m n \/
   exists x y, domain_preimage ControllerConfig (controller_configuration_payload m) = Some x /\
     domain_preimage ControllerConfig (controller_configuration_payload n) = Some y /\ collision x y) /\
  (pm_vault_id m = pm_vault_id n ->
   same_vault_identity m n \/ collision (vault_id_preimage m) (vault_id_preimage n)) /\
  (pm_verifier_config_hash m = pm_verifier_config_hash n ->
   same_outbound_verifier m n \/
   exists d a x y, domain_preimage OutboundVerifierConfig (outbound_verifier_payload m d a) = Some x /\
     domain_preimage OutboundVerifierConfig (outbound_verifier_payload n d a) = Some y /\ collision x y).
Proof.
  apply manifest_validate_Ok in Hm as (_ & [_ Cm Vm Im _] & _).
  apply manifest_validate_Ok in Hn as (_ & [_ Cn Vn In _] & _). split; [|split].
  - intros E. rewrite E in Cm. unfold compute_controller_configuration_hash in *.
    destruct (domain_hash_collision _ _ _ _ _ Cm Cn) as (x & y & Ex & Ey & [[_ Ep]|Hc]).
    + left. by apply controller_payload_inj.
    + right. by exists x, y.
  - intros E. rewrite Im, In in E. unfold compute_vault_id, hash_bytes in E.
    destruct (decide (vault_id_preimage m = vault_id_preimage n)) as [Ep|Hne];
      [left; by apply vault_id_preimage_inj|right; by split].
  - intros E. rewrite E in Vm. unfold compute_outbound_verifier_config_hash in *.
    destruct (uint_try 8 (Z.of_nat BURN_ACCUMULATOR_DEPTH)) as [d|]; [|done].
    destruct (uint_try 8 (Z.of_nat MAX_BURN_APPENDS_PER_STATE_TRANSITION)) as [a|]; [|done].
    cbn [mbind option_bind] in Vm, Vn.
    destruct (domain_hash_collision _ _ _ _ _ Vm Vn) as (x & y & Ex & Ey & [[_ Ep]|Hc]).
    + left. by eapply outbound_payload_inj.
    + right. by exists d, a, x, y.
Qed.

(** A valid manifest commits to a valid initial controller state: the one that
    [bootstrap] builds from any valid finality witness matching its bootstrap
    fields, at sequence and nonce zero with nothing minted, and its hash is that
    of the state's 164-byte encoding. *)
Theorem manifest_initial_state (m : ProtocolManifest) (f : EthereumFinalityWitness)
    (Hm : ProtocolManifest_validate m = Ok tt)
    (Hf : EthereumFinalityWitness_validate f = Ok tt)
    (Hslot : fw_finalized_beacon_slot f = pm_bootstrap_finalized_beacon_slot m)
    (Hroot : fw_finalized_beacon_root f = pm_bootstrap_finalized_beacon_root m)
    (Hstate : fw_finalized_execution_state_root f = pm_bootstrap_execution_state_root m)
    (Hdigest : fw_ethereum_light_client_digest f = pm_bootstrap_eth_light_client_digest m) :
  MintControllerState_bootstrap (pm_controller_configuration_hash m) (pm_first_deposit_nonce m) f
    = Ok (initial_controller_state m) /\
  MintControllerState_validate (initial_controller_state m) = Ok tt /\
  uval (mc_next_mint_nonce (initial_controller_state m)) = 0 /\
  exists bs, encode (initial_controller_state m) = Some bs /\ length bs = 164%nat /\
    pm_initial_controller_state_hash m = hash_bytes bs.
Proof.
  apply manifest_validate_Ok in Hm as ([] & [_ _ _ _ Hi] & Hz).
  assert (pm_controller_configuration_hash m <> ZERO) as Hc
    by (rewrite Forall_forall in Hz; apply (Hz ("controller_configuration_hash"%string, pm_controller_configuration_hash m));
        unfold manifest_hashes; set_solver).
  unfold MintControllerState_bootstrap. rewrite Hf, Hslot, Hroot, Hstate, Hdigest.
  cbn [mbind res_bind].
  change (MkMintControllerState PROTOCOL_VERSION (uint_wrap 64 0) (pm_first_deposit_nonce m)
    (pm_bootstrap_eth_light_client_digest m) (pm_bootstrap_finalized_beacon_slot m)
    (pm_bootstrap_finalized_beacon_root m) (pm_bootstrap_execution_state_root m) (uint_wrap 64 0)
    (pm_controller_configuration_hash m)) with (initial_controller_state m).
  assert (MintControllerState_validate (initial_controller_state m) = Ok tt) as Hv.
  { apply finality_validate_Ok in Hf as [F1 F2 F3 F4 F5].
    rewrite Hdigest in F2. rewrite Hroot in F3. rewrite Hstate in F5.
    unfold MintControllerState_validate, initial_controller_state.
    cbn [mc_version mc_configuration_hash mc_ethereum_light_client_digest mc_finalized_beacon_slot
         mc_finalized_beacon_root mc_finalized_execution_state_root mc_total_minted_usdd_base].
    rewrite (proj2 (Z.eqb_neq (pm_bootstrap_finalized_beacon_slot m) 0)) by done.
    by rewrite !bool_decide_eq_false_2 by done. }
  rewrite Hv. split; [done|]. split; [done|]. split; [done|].
  unfold compute_initial_controller_state_hash in Hi.
  destruct (encode (initial_controller_state m)) as [bs|] eqn:E; [|done].
  exists bs. split; [done|]. split; [by eapply controller_encode_length|]. cbn in Hi. congruence.
Qed.
End manifest_properties.

(** ** The derived hashes are not circular *)

Section manifest_completion.
Context {H : Sha256}.

(** Fill in the derived hashes, each from fields already known. *)
Definition complete_manifest (m : ProtocolManifest) : ProtocolManifest :=
  let m1 := with_derived m domain_separator_table_hash ZERO ZERO ZERO ZERO in
  let configuration := default ZERO (compute_controller_configuration_hash m1) in
  let verifier := default ZERO (compute_outbound_verifier_config_hash m1) in
  let m2 := with_derived m domain_separator_table_hash configuration verifier ZERO ZERO in
  with_derived m domain_separator_table_hash configuration verifier (compute_vault_id m2)
    (default ZERO (compute_initial_controller_state_hash m2)).

Lemma configuration_total m : exists h, compute_controller_configuration_hash m = Some h.
Proof.
  apply domain_hash_total. unfold controller_configuration_payload.
  by rewrite !length_app, !arr_length, !length_be_bytes.
Qed.

Lemma verifier_total m : exists h, compute_outbound_verifier_config_hash m = Some h.
Proof.
  unfold compute_outbound_verifier_config_hash.
  destruct (uint_try 8 (Z.of_nat BURN_ACCUMULATOR_DEPTH)) as [d|] eqn:E1.
  2: { apply uint_try_None in E1. exfalso. apply E1. done. }
  destruct (uint_try 8 (Z.of_nat MAX_BURN_APPENDS_PER_STATE_TRANSITION)) as [a|] eqn:E2.
  2: { apply uint_try_None in E2. exfalso. apply E2. done. }
  cbn [mbind option_bind]. apply domain_hash_total. unfold outbound_verifier_payload.
  by rewrite !length_app, !arr_length, !length_be_bytes.
Qed.

(** The derived commitments never depend on one another in a circle: every
    choice of the remaining fields that passes the static checks extends to a
    valid manifest, as long as no hash in it is zero. *)
Theorem manifest_noncircular (m : ProtocolManifest) (Hs : manifest_static m)
    (Hz : Forall (fun e => e.2 <> ZERO) (manifest_hashes (complete_manifest m))) :
  ProtocolManifest_validate (complete_manifest m) = Ok tt.
Proof.
  apply manifest_validate_Ok. split; [destruct Hs; by split|]. split; [|done].
  set (m1 := with_derived m domain_separator_table_hash ZERO ZERO ZERO ZERO).
  split.
  - reflexivity.
  - change (compute_controller_configuration_hash (complete_manifest m))
      with (compute_controller_configuration_hash m1).
    change (pm_controller_configuration_hash (complete_manifest m))
      with (default ZERO (compute_controller_configuration_hash m1)).
    by destruct (configuration_total m1) as [h ->].
  - change (compute_outbound_verifier_config_hash (complete_manifest m))
      with (compute_outbound_verifier_config_hash m1).
    change (pm_verifier_config_hash (complete_manifest m))
      with (default ZERO (compute_outbound_verifier_config_hash m1)).
    by destruct (verifier_total m1) as [h ->].
  - reflexivity.
  - reflexivity.
Qed.
End manifest_completion.

(** A concrete manifest under the concrete digest. *)
Definition sample_base : ProtocolManifest :=
  let h b := array_rep 32 b in
  MkProtocolManifest (uint_wrap 64 1) (h x01) (h x02) (h x03) (uint_wrap 8 24) (array_rep 20 x04)
    (h x05) (h x06) (h x07) (array_rep 20 x08) ZERO (h x0a) (array_rep 20 x0b) (h x0c) ZERO
    (h x0d) (h x0e) (uint_wrap 16 6) (uint_wrap 16 3) (uint_wrap 16 1) SP1_GIT_COMMIT
    (uint_wrap 16 1) (uint_wrap 16 1) (h x0f) (uint_wrap 8 1) (uint_wrap 64 100) (h x31) (h x32)
    (h x30) (h x13) ZERO ZERO (h x14) (uint_wrap 32 0) (h x15) ZERO
    (uint_wrap 64 1000000000000000) (h x16) (uint_wrap 64 4096) (uint_wrap 64 21600)
    (uint_wrap 32 100) (uint_wrap 64 0) (uint_wrap 8 6) (uint_wrap 8 8) (uint_wrap 64 100).
Definition sample_manifest : ProtocolManifest := @complete_manifest toy_sha256 sample_base.

Lemma sample_manifest_valid : @ProtocolManifest_validate toy_sha256 sample_manifest = Ok tt.
Proof. vm_compute. reflexivity. Qed.

Lemma manifest_noncircular_witness :
  manifest_static sample_base /\ @ProtocolManifest_validate toy_sha256 sample_manifest = Ok tt.
Proof.
  pose proof (proj1 (@manifest_validate_Ok toy_sha256 sample_manifest) sample_manifest_valid)
    as (Hs & _ & Hz).
  assert (manifest_static sample_base) as Hb by (destruct Hs; by split).
  split; [exact Hb|]. exact (@manifest_noncircular toy_sha256 sample_base Hb Hz).
Defined.

Lemma manifest_commitments_binding_witness :
  same_vault_identity sample_manifest sample_manifest \/
  @collision toy_sha256 (vault_id_preimage sample_manifest) (vault_id_preimage sample_manifest).
Proof.
  exact (proj1 (proj2 (@manifest_commitments_binding toy_sha256 sample_manifest sample_manifest
    sample_manifest_valid sample_manifest_valid)) eq_refl).
Defined.

Lemma manifest_initial_state_witness :
  MintControllerState_validate (initial_controller_state sample_manifest) = Ok tt.
Proof.
  refine (proj1 (proj2 (@manifest_initial_state toy_sha256 sample_manifest
    (MkEthereumFinalityWitness (array_rep 32 x30) (uint_wrap 64 100) (array_rep 32 x31)
       (array_rep 32 x40) (array_rep 32 x32) (uint_wrap 64 1) (uint_wrap 64 1))
    sample_manifest_valid _ eq_refl eq_refl eq_refl eq_refl))).
  vm_compute. reflexivity.
Defined.

