(* ===== verification/Claims.v ===== *)
(** The proof records of [crates/usdd-proof-core/src/claims.rs].

    A claim is what a guest is asked to prove, a public output is what its proof
    exposes: deposits and heartbeats towards the Elements controller, Elements
    state transitions towards the Ethereum vault.  The theorems show that the
    byte formats are exact, that claim identifiers bind claims up to a SHA-256
    collision, and that a public output towards Elements validates exactly when
    it is a transition of the mint controller. *)

From S2P Require Import Prelude Encoding Params Hashing BurnAccumulator Records Deposits Burns.
From S2P Require Import ElementsState Controller.

Local Open Scope Z_scope.

Definition TAG_ETHEREUM_DEPOSIT_CLAIM : u16 := uint_wrap 16 0x5101.
Definition TAG_DEPOSIT_PUBLIC_OUTPUT : u16 := uint_wrap 16 0x5201.
Definition TAG_ELEMENTS_STATE_TRANSITION_CLAIM : u16 := uint_wrap 16 0x5103.
Definition TAG_BURN_APPEND : u16 := uint_wrap 16 0x5104.
Definition TAG_ELEMENTS_STATE_PUBLIC_OUTPUT : u16 := uint_wrap 16 0x5203.
Definition TAG_ETHEREUM_HEARTBEAT_CLAIM : u16 := uint_wrap 16 0x5105.
Definition TAG_HEARTBEAT_PUBLIC_OUTPUT : u16 := uint_wrap 16 0x5204.

Definition proof_encode_header (tag : u16) : option bytes := encode ENCODING_SCHEMA +++ encode tag.

(** The tag is read only when the schema matches ([||] short-circuits). *)
Definition proof_decode_header (tag : u16) : dec unit :=
  schema ← Decoder_u16;
  lift (fail_if (negb (uval schema =? ENCODING_SCHEMA)) (InvalidValue "invalid proof record header"));;
  found ← Decoder_u16;
  lift (fail_if (negb (uval found =? tag)) (InvalidValue "invalid proof record header")).

(** [u8::try_from(items.len()).expect(..)] and then the items. *)
Definition encode_counted {A : Type} `{CanonicalEncode A} (items : list A) : option bytes :=
  match uint_try 8 (Z.of_nat (length items)) with
  | Some count => encode count
  | None => None
  end +++ encode_seq items.

(** ** Records *)

Record EthereumDepositClaim : Type := MkEthereumDepositClaim {
  dc_manifest_id : Hash32;
  dc_prior_state : MintControllerState;
  dc_finality : EthereumFinalityWitness;
  dc_deposits : list VaultDeposit
}.

Record EthereumHeartbeatClaim : Type := MkEthereumHeartbeatClaim {
  hc_manifest_id : Hash32;
  hc_prior_state : MintControllerState;
  hc_finality : EthereumFinalityWitness
}.

Record BurnAppend : Type := MkBurnAppend {
  bap_burn : Burn;
  bap_empty_branch : BurnProof
}.

Record ElementsStateTransitionClaim : Type := MkElementsStateTransitionClaim {
  tc_manifest_id : Hash32;
  tc_prior_bridge_state_hash : Hash32;
  tc_prior_state : SolidityElementsBridgeState;
  tc_next_state : SolidityElementsBridgeState;
  tc_appended_burns : list BurnAppend
}.

Record DepositPublicOutput : Type := MkDepositPublicOutput {
  dpo_manifest_id : Hash32;
  dpo_claim_id : Hash32;
  dpo_prior_state : MintControllerState;
  dpo_next_state : MintControllerState;
  dpo_finalized_execution_block_timestamp : u64;
  dpo_mint_batch : MintBatch
}.

Record HeartbeatPublicOutput : Type := MkHeartbeatPublicOutput {
  hpo_manifest_id : Hash32;
  hpo_claim_id : Hash32;
  hpo_prior_state : MintControllerState;
  hpo_next_state : MintControllerState;
  hpo_finalized_execution_block_timestamp : u64
}.

Record ElementsStatePublicOutput : Type := MkElementsStatePublicOutput {
  epo_manifest_id : Hash32;
  epo_claim_id : Hash32;
  epo_prior_bridge_state_hash : Hash32;
  epo_next_bridge_state_hash : Hash32;
  epo_verifier_statement : Hash32;
  epo_prior_state : SolidityElementsBridgeState;
  epo_next_state : SolidityElementsBridgeState
}.

(** ** Encoders *)

#[export] Instance EthereumDepositClaim_encode : CanonicalEncode EthereumDepositClaim := fun c =>
  proof_encode_header TAG_ETHEREUM_DEPOSIT_CLAIM +++ encode (dc_manifest_id c)
  +++ encode (dc_prior_state c) +++ encode (dc_finality c) +++ encode_counted (dc_deposits c).

#[export] Instance EthereumHeartbeatClaim_encode : CanonicalEncode EthereumHeartbeatClaim := fun c =>
  proof_encode_header TAG_ETHEREUM_HEARTBEAT_CLAIM +++ encode (hc_manifest_id c)
  +++ encode (hc_prior_state c) +++ encode (hc_finality c).

#[export] Instance BurnAppend_encode : CanonicalEncode BurnAppend := fun a =>
  proof_encode_header TAG_BURN_APPEND +++ encode (bap_burn a) +++ encode (bap_empty_branch a).

#[export] Instance ElementsStateTransitionClaim_encode
    : CanonicalEncode ElementsStateTransitionClaim := fun c =>
  proof_encode_header TAG_ELEMENTS_STATE_TRANSITION_CLAIM +++ encode (tc_manifest_id c)
  +++ encode (tc_prior_bridge_state_hash c) +++ encode (tc_prior_state c)
  +++ encode (tc_next_state c) +++ encode_counted (tc_appended_burns c).

#[export] Instance DepositPublicOutput_encode : CanonicalEncode DepositPublicOutput := fun o =>
  proof_encode_header TAG_DEPOSIT_PUBLIC_OUTPUT +++ encode (dpo_manifest_id o)
  +++ encode (dpo_claim_id o) +++ encode (dpo_prior_state o) +++ encode (dpo_next_state o)
  +++ encode (dpo_finalized_execution_block_timestamp o) +++ encode (dpo_mint_batch o).

#[export] Instance HeartbeatPublicOutput_encode : CanonicalEncode HeartbeatPublicOutput := fun o =>
  proof_encode_header TAG_HEARTBEAT_PUBLIC_OUTPUT +++ encode (hpo_manifest_id o)
  +++ encode (hpo_claim_id o) +++ encode (hpo_prior_state o) +++ encode (hpo_next_state o)
  +++ encode (hpo_finalized_execution_block_timestamp o).

#[export] Instance ElementsStatePublicOutput_encode : CanonicalEncode ElementsStatePublicOutput := fun o =>
  proof_encode_header TAG_ELEMENTS_STATE_PUBLIC_OUTPUT +++ encode (epo_manifest_id o)
  +++ encode (epo_claim_id o) +++ encode (epo_prior_bridge_state_hash o)
  +++ encode (epo_next_bridge_state_hash o) +++ encode (epo_verifier_statement o)
  +++ encode (epo_prior_state o) +++ encode (epo_next_state o).

(** ** Validation *)

Section validation.
Context {H : Sha256}.

Definition EthereumDepositClaim_validate (c : EthereumDepositClaim) : res DecodeError unit :=
  fail_if (bool_decide (dc_manifest_id c = ZERO)) (InvalidValue "zero manifest ID");;
  MintControllerState_validate (dc_prior_state c);;
  EthereumFinalityWitness_validate (dc_finality c);;
  MintBatch_from_deposits (dc_deposits c);;
  Ok tt.

Definition EthereumHeartbeatClaim_validate (c : EthereumHeartbeatClaim) : res DecodeError unit :=
  fail_if (bool_decide (hc_manifest_id c = ZERO)) (InvalidValue "zero manifest ID");;
  MintControllerState_validate (hc_prior_state c);;
  EthereumFinalityWitness_validate (hc_finality c).

Definition ElementsStatePublicOutput_validate (o : ElementsStatePublicOutput) : res DecodeError unit :=
  fail_if (bool_decide (epo_manifest_id o = ZERO) || bool_decide (epo_claim_id o = ZERO)
           || bool_decide (epo_next_bridge_state_hash o = ZERO)
           || bool_decide (epo_verifier_statement o = ZERO)
           || negb (Bool.eqb (ElementsState_is_zero (epo_prior_state o))
                      (bool_decide (epo_prior_bridge_state_hash o = ZERO))))
    (InvalidValue "invalid Elements state public output");;
  ElementsState_validate_successor (epo_prior_state o) (epo_next_state o).

Definition EthereumDepositClaim_claim_id (c : EthereumDepositClaim) : option Hash32 :=
  bs ← encode c; domain_hash EthereumStateClaimDomain bs.
Definition EthereumHeartbeatClaim_claim_id (c : EthereumHeartbeatClaim) : option Hash32 :=
  bs ← encode c; domain_hash EthereumStateClaimDomain bs.
Definition ElementsStateTransitionClaim_claim_id (c : ElementsStateTransitionClaim) : option Hash32 :=
  bs ← encode c; domain_hash ElementsEventClaimDomain bs.
Definition DepositPublicOutput_output_id (o : DepositPublicOutput) : option Hash32 :=
  bs ← encode o; domain_hash DepositPublicOutputDomain bs.
End validation.

Definition DepositPublicOutput_validate (o : DepositPublicOutput) : res DecodeError unit :=
  let prior := dpo_prior_state o in
  let next := dpo_next_state o in
  let batch := dpo_mint_batch o in
  let unbound := InvalidValue "deposit output does not bind the controller transition" in
  fail_if (bool_decide (dpo_manifest_id o = ZERO) || bool_decide (dpo_claim_id o = ZERO)
           || (dpo_finalized_execution_block_timestamp o =? 0))
    (InvalidValue "invalid deposit public output");;
  MintControllerState_validate prior;;
  MintControllerState_validate next;;
  MintBatch_validate batch;;
  expected_total ← ok_or (checked_add (mc_total_minted_usdd_base prior) (mb_total_usdd_amount_base batch))
    (InvalidValue "minted supply overflow");
  fail_if (negb (mc_version next =? mc_version prior)) unbound;;
  expected_sequence ← ok_or (checked_add (mc_sequence prior) (uint_wrap 64 1))
    (InvalidValue "controller sequence overflow");
  fail_if (negb (mc_sequence next =? uval expected_sequence)
           || negb (mc_next_mint_nonce next =? mb_next_nonce batch)
           || negb (mb_first_nonce batch =? mc_next_mint_nonce prior)
           || negb (mc_total_minted_usdd_base next =? uval expected_total)
           || bool_decide (mc_configuration_hash next <> mc_configuration_hash prior)
           || (mc_finalized_beacon_slot next <? mc_finalized_beacon_slot prior)
           || (MAX_ETHEREUM_FINALITY_SLOT_GAP
                 <? saturating_sub (mc_finalized_beacon_slot next) (mc_finalized_beacon_slot prior))
           || ((mc_finalized_beacon_slot next =? mc_finalized_beacon_slot prior)
               && (bool_decide (mc_ethereum_light_client_digest next
                                <> mc_ethereum_light_client_digest prior)
                   || bool_decide (mc_finalized_beacon_root next <> mc_finalized_beacon_root prior)
                   || bool_decide (mc_finalized_execution_state_root next
                                   <> mc_finalized_execution_state_root prior)))
           || ((mc_finalized_beacon_slot prior <? mc_finalized_beacon_slot next)
               && bool_decide (mc_ethereum_light_client_digest next
                               = mc_ethereum_light_client_digest prior)))
    unbound.

Definition HeartbeatPublicOutput_validate (o : HeartbeatPublicOutput) : res DecodeError unit :=
  let prior := hpo_prior_state o in
  let next := hpo_next_state o in
  let unbound := InvalidValue "heartbeat output does not bind a state-only transition" in
  fail_if (bool_decide (hpo_manifest_id o = ZERO) || bool_decide (hpo_claim_id o = ZERO)
           || (hpo_finalized_execution_block_timestamp o =? 0))
    (InvalidValue "invalid heartbeat public output");;
  MintControllerState_validate prior;;
  MintControllerState_validate next;;
  fail_if (negb (mc_version next =? mc_version prior)) unbound;;
  expected_sequence ← ok_or (checked_add (mc_sequence prior) (uint_wrap 64 1))
    (InvalidValue "controller sequence overflow");
  fail_if (negb (mc_sequence next =? uval expected_sequence)
           || negb (mc_next_mint_nonce next =? mc_next_mint_nonce prior)
           || negb (mc_total_minted_usdd_base next =? mc_total_minted_usdd_base prior)
           || bool_decide (mc_configuration_hash next <> mc_configuration_hash prior)
           || (mc_finalized_beacon_slot next <=? mc_finalized_beacon_slot prior)
           || bool_decide (mc_ethereum_light_client_digest next
                           = mc_ethereum_light_client_digest prior)
           || (MAX_ETHEREUM_FINALITY_SLOT_GAP
                 <? saturating_sub (mc_finalized_beacon_slot next) (mc_finalized_beacon_slot prior)))
    unbound.

(** ** Decoders *)

#[export] Instance BurnAppend_decode : CanonicalDecode BurnAppend :=
  proof_decode_header TAG_BURN_APPEND;;
  burn ← decode_from;
  empty_branch ← decode_from;
  mret (MkBurnAppend burn empty_branch).

#[export] Instance EthereumHeartbeatClaim_decode : CanonicalDecode EthereumHeartbeatClaim :=
  proof_decode_header TAG_ETHEREUM_HEARTBEAT_CLAIM;;
  manifest_id ← Decoder_fixed 32;
  prior_state ← decode_from;
  finality ← decode_from;
  checked EthereumHeartbeatClaim_validate (MkEthereumHeartbeatClaim manifest_id prior_state finality).

#[export] Instance DepositPublicOutput_decode : CanonicalDecode DepositPublicOutput :=
  proof_decode_header TAG_DEPOSIT_PUBLIC_OUTPUT;;
  manifest_id ← Decoder_fixed 32;
  claim_id ← Decoder_fixed 32;
  prior_state ← decode_from;
  next_state ← decode_from;
  finalized_execution_block_timestamp ← Decoder_u64;
  mint_batch ← decode_from;
  checked DepositPublicOutput_validate
    (MkDepositPublicOutput manifest_id claim_id prior_state next_state
       finalized_execution_block_timestamp mint_batch).

#[export] Instance HeartbeatPublicOutput_decode : CanonicalDecode HeartbeatPublicOutput :=
  proof_decode_header TAG_HEARTBEAT_PUBLIC_OUTPUT;;
  manifest_id ← Decoder_fixed 32;
  claim_id ← Decoder_fixed 32;
  prior_state ← decode_from;
  next_state ← decode_from;
  finalized_execution_block_timestamp ← Decoder_u64;
  checked HeartbeatPublicOutput_validate
    (MkHeartbeatPublicOutput manifest_id claim_id prior_state next_state
       finalized_execution_block_timestamp).


(** ** Exactness of the byte formats *)

#[export] Instance proof_decode_header_spec tag :
  Header (proof_decode_header tag) (proof_encode_header tag).
Proof.
  intros d u d'. unfold proof_decode_header, proof_encode_header. split.
  - intros Hd. dec_fold. inv_dec. inv_ok.
    repeat match goal with E : uval _ = uval _ |- _ => apply uint_eq in E; subst end.
    apply reads_app. eauto.
  - intros Hr. inv_reads. dec_fold. dec_build; try done; try (by rewrite Z.eqb_refl).
    destruct u. apply (fail_if_Ok _ _ tt). by rewrite Z.eqb_refl.
Qed.

Section counted.
Context {A : Type} {EA : CanonicalEncode A} {DA : CanonicalDecode A} {CA : Codec A}.

Lemma reads_counted (xs : list A) d d' :
  reads (encode_counted xs) d d' <->
  exists count : u8, uval count = Z.of_nat (length xs) /\ reads (encode count +++ encode_seq xs) d d'.
Proof.
  unfold encode_counted. destruct (uint_try 8 _) as [c|] eqn:Ec.
  - apply uint_try_Some in Ec. split; [by exists c|].
    intros (c' & Hc & Hr). by replace c with c' by by apply uint_eq; congruence.
  - apply uint_try_None in Ec. split; [by intros (? & ? & _)|].
    intros (c & Hc & _). pose proof (uint_range c). lia.
Qed.

Lemma encode_counted_total (xs : list A) :
  (length xs <= 64)%nat -> Forall (valid A) xs -> exists p, encode_counted xs = Some p.
Proof.
  intros Hl Hv. unfold encode_counted. destruct (encode_seq_total xs Hv) as [p ->].
  destruct (uint_try 8 _) eqn:Ec; [by eexists|]. apply uint_try_None in Ec. lia.
Qed.
End counted.

#[export] Program Instance BurnAppend_codec : Codec BurnAppend :=
  {| valid := fun a => Burn_validate (bap_burn a) = Ok tt |}.
Next Obligation. record_codec BurnAppend_decode BurnAppend_encode. Qed.
Next Obligation.
  intros a Ha. unfold_encode BurnAppend_encode.
  destruct (codec_total (A:=Burn) (bap_burn a)) as [p ->]; [exact Ha|].
  destruct (codec_total (A:=BurnProof) (bap_empty_branch a)) as [q ->]; [done|by eexists].
Qed.

#[export] Program Instance EthereumHeartbeatClaim_codec : Codec EthereumHeartbeatClaim :=
  {| valid := fun c => EthereumHeartbeatClaim_validate c = Ok tt |}.
Next Obligation.
  record_codec EthereumHeartbeatClaim_decode EthereumHeartbeatClaim_encode;
    unfold EthereumHeartbeatClaim_validate in Hv; by inv_ok.
Qed.
Next Obligation. intros c _. by eexists. Qed.

#[export] Program Instance HeartbeatPublicOutput_codec : Codec HeartbeatPublicOutput :=
  {| valid := fun o => HeartbeatPublicOutput_validate o = Ok tt |}.
Next Obligation.
  record_codec HeartbeatPublicOutput_decode HeartbeatPublicOutput_encode;
    unfold HeartbeatPublicOutput_validate in Hv; by inv_ok.
Qed.
Next Obligation. intros o _. by eexists. Qed.

#[export] Program Instance DepositPublicOutput_codec : Codec DepositPublicOutput :=
  {| valid := fun o => DepositPublicOutput_validate o = Ok tt |}.
Next Obligation.
  record_codec DepositPublicOutput_decode DepositPublicOutput_encode;
    unfold DepositPublicOutput_validate in Hv; by inv_ok.
Qed.
Next Obligation.
  intros o Ho. unfold_encode DepositPublicOutput_encode.
  destruct (codec_total (A:=MintBatch) (dpo_mint_batch o)) as [p ->];
    [unfold DepositPublicOutput_validate in Ho; by inv_ok|by eexists].
Qed.

(** ** The records whose decoders hash *)

Section claim_codecs.
Context {H : Sha256}.

#[export] Instance EthereumDepositClaim_decode : CanonicalDecode EthereumDepositClaim :=
  proof_decode_header TAG_ETHEREUM_DEPOSIT_CLAIM;;
  manifest_id ← Decoder_fixed 32;
  prior_state ← decode_from;
  finality ← decode_from;
  count ← Decoder_u8;
  lift (fail_if ((uval count =? 0) || (Z.of_nat MAX_MINT_BATCH_SIZE <? uval count))
          (InvalidValue "deposit proof batch must be 1..64"));;
  deposits ← decode_seq (Z.to_nat (uval count));
  checked EthereumDepositClaim_validate
    (MkEthereumDepositClaim manifest_id prior_state finality deposits).

#[export] Instance ElementsStateTransitionClaim_decode : CanonicalDecode ElementsStateTransitionClaim :=
  proof_decode_header TAG_ELEMENTS_STATE_TRANSITION_CLAIM;;
  manifest_id ← Decoder_fixed 32;
  prior_bridge_state_hash ← Decoder_fixed 32;
  prior_state ← decode_from;
  next_state ← decode_from;
  count ← Decoder_u8;
  lift (fail_if (Z.of_nat MAX_BURN_APPENDS_PER_STATE_TRANSITION <? uval count)
          (InvalidValue "too many burns in state transition"));;
  appended_burns ← decode_seq (Z.to_nat (uval count));
  mret (MkElementsStateTransitionClaim manifest_id prior_bridge_state_hash prior_state next_state
          appended_burns).

#[export] Instance ElementsStatePublicOutput_decode : CanonicalDecode ElementsStatePublicOutput :=
  proof_decode_header TAG_ELEMENTS_STATE_PUBLIC_OUTPUT;;
  manifest_id ← Decoder_fixed 32;
  claim_id ← Decoder_fixed 32;
  prior_bridge_state_hash ← Decoder_fixed 32;
  next_bridge_state_hash ← Decoder_fixed 32;
  verifier_statement ← Decoder_fixed 32;
  prior_state ← decode_from;
  next_state ← decode_from;
  checked ElementsStatePublicOutput_validate
    (MkElementsStatePublicOutput manifest_id claim_id prior_bridge_state_hash
       next_bridge_state_hash verifier_statement prior_state next_state).

Lemma deposit_claim_deposits c :
  EthereumDepositClaim_validate c = Ok tt ->
  (1 <= length (dc_deposits c) <= 64)%nat /\ Forall (valid VaultDeposit) (dc_deposits c).
Proof.
  unfold EthereumDepositClaim_validate. intros Hv. inv_ok.
  match goal with E : MintBatch_from_deposits _ = Ok ?b |- _ => rename E into Hb end.
  destruct (dc_deposits c) as [|first ds]; [done|].
  apply from_deposits_Ok in Hb as [[Hs He _ _] _]. split; [done|].
  apply Forall_forall. intros d [i Hi]%list_elem_of_lookup.
  apply VaultDeposit_validate_Ok, (He i d Hi).
Qed.

#[export] Program Instance EthereumDepositClaim_codec : Codec EthereumDepositClaim :=
  {| valid := fun c => EthereumDepositClaim_validate c = Ok tt |}.
Next Obligation.
  record_codec_start EthereumDepositClaim_decode EthereumDepositClaim_encode.
  - record_forward. apply fail_if_Ok in Hl. inv_ok.
    cbn [dc_manifest_id dc_prior_state dc_finality dc_deposits].
    do 4 (apply reads_app; eexists; split; [eassumption|]).
    apply reads_counted. eexists. split; [|reads_each].
    match goal with |- uval ?v = _ => pose proof (uint_range v) end. lia.
  - intros [Hv Hr]. destruct (deposit_claim_deposits x Hv) as [Hs Hd]. inv_reads.
    apply reads_counted in Hr as (count & Hc & Hr). inv_reads.
    pose proof Hv as Hw. unfold EthereumDepositClaim_validate in Hw. inv_ok.
    record_backward.
    + rewrite Hc. unfold MAX_MINT_BATCH_SIZE. apply orb_false_iff. rewrite Z.eqb_neq, Z.ltb_ge. lia.
    + split; [lia|done].
Qed.
Next Obligation.
  intros c Hc. unfold_encode EthereumDepositClaim_encode.
  destruct (deposit_claim_deposits c Hc) as [Hs Hd].
  destruct (encode_counted_total (dc_deposits c)) as [p ->]; [lia|done|by eexists].
Qed.

(** The transition claim has no check of its own beyond those of its parts. *)
Record transition_claim_wf (c : ElementsStateTransitionClaim) : Prop := {
  tcw_prior : ElementsState_validate (tc_prior_state c) = Ok tt;
  tcw_next : ElementsState_validate (tc_next_state c) = Ok tt;
  tcw_count : (length (tc_appended_burns c) <= 64)%nat;
  tcw_burns : Forall (fun a => Burn_validate (bap_burn a) = Ok tt) (tc_appended_burns c)
}.

#[export] Program Instance ElementsStateTransitionClaim_codec : Codec ElementsStateTransitionClaim :=
  {| valid := transition_claim_wf |}.
Next Obligation.
  record_codec_start ElementsStateTransitionClaim_decode ElementsStateTransitionClaim_encode.
  - record_forward.
    + apply fail_if_Ok in Hl. inv_ok. unfold MAX_BURN_APPENDS_PER_STATE_TRANSITION in *.
      split; try done. cbn [tc_appended_burns]. lia.
    + cbn [tc_manifest_id tc_prior_bridge_state_hash tc_prior_state tc_next_state tc_appended_burns].
      do 5 (apply reads_app; eexists; split; [eassumption|]).
      apply reads_counted. eexists. split; [|reads_each].
      match goal with |- uval ?v = _ => pose proof (uint_range v) end. lia.
  - intros [[Hp Hn Hs Hb] Hr]. inv_reads.
    apply reads_counted in Hr as (count & Hc & Hr). inv_reads. record_backward.
    + rewrite Hc. unfold MAX_BURN_APPENDS_PER_STATE_TRANSITION. rewrite Z.ltb_ge. lia.
    + split; [lia|done].
Qed.
Next Obligation.
  intros c [_ _ Hs Hb]. unfold_encode ElementsStateTransitionClaim_encode.
  destruct (encode_counted_total (tc_appended_burns c)) as [p ->]; [done|exact Hb|by eexists].
Qed.

#[export] Program Instance ElementsStatePublicOutput_codec : Codec ElementsStatePublicOutput :=
  {| valid := fun o => ElementsStatePublicOutput_validate o = Ok tt |}.
Next Obligation.
  record_codec ElementsStatePublicOutput_decode ElementsStatePublicOutput_encode;
    unfold ElementsStatePublicOutput_validate in Hv; inv_ok;
    match goal with V : ElementsState_validate_successor _ _ = Ok _ |- _ =>
      apply validate_successor_Ok in V; by apply V end.
Qed.
Next Obligation. intros o _. by eexists. Qed.
End claim_codecs.

(** ** Public outputs are transitions of the controller *)

(** The finality witness a public output shows of its next state.  The execution
    block hash is not part of the state; any nonzero hash stands for it. *)
Definition finality_of (next : MintControllerState) (timestamp : u64) : EthereumFinalityWitness :=
  MkEthereumFinalityWitness (mc_ethereum_light_client_digest next) (mc_finalized_beacon_slot next)
    (mc_finalized_beacon_root next) (mc_finalized_beacon_root next)
    (mc_finalized_execution_state_root next) (uint_wrap 64 0) timestamp.

Lemma finality_of_ok next timestamp :
  MintControllerState_validate next = Ok tt -> uval (mc_sequence next) <> 0 ->
  finality_ok (finality_of next timestamp).
Proof.
  unfold MintControllerState_validate. intros Hv Hs.
  apply fail_then in Hv as [Hi Hv]. apply res_bind_Ok in Hv as ([] & Hz & _). inv_ok.
  destruct (Z.eqb_spec (mc_finalized_beacon_slot next) 0); inv_ok; by split.
Qed.

(** A finality witness enters a transition only by what [finality_of] keeps. *)
Lemma advanced_finality s f nonce total next :
  next = advanced s f nonce total ->
  forall timestamp, next = advanced s (finality_of next timestamp) nonce total /\
    (finality_advance s f -> finality_advance s (finality_of next timestamp)) /\
    (finality_ok f -> finality_ok (finality_of next timestamp)).
Proof.
  intros -> timestamp. split; [done|]. split.
  - intros [? ? ?]. by split.
  - intros [? ? ? ? ?]. by split.
Qed.

Lemma finality_guards s next timestamp :
  uval (mc_finalized_beacon_slot next) <> 0 ->
  mc_finalized_beacon_slot s <= mc_finalized_beacon_slot next
  /\ saturating_sub (mc_finalized_beacon_slot next) (mc_finalized_beacon_slot s) <= 4096
  /\ (uval (mc_finalized_beacon_slot next) = mc_finalized_beacon_slot s ->
      mc_ethereum_light_client_digest next = mc_ethereum_light_client_digest s /\
      mc_finalized_beacon_root next = mc_finalized_beacon_root s /\
      mc_finalized_execution_state_root next = mc_finalized_execution_state_root s)
  /\ (mc_finalized_beacon_slot s < mc_finalized_beacon_slot next ->
      mc_ethereum_light_client_digest next <> mc_ethereum_light_client_digest s)
  <-> finality_advance s (finality_of next timestamp).
Proof.
  intros Hz. unfold saturating_sub. split.
  - intros (H1 & H2 & H3 & H4). split; cbn [finality_of fw_finalized_beacon_slot]; [lia| |done].
    intros E _. apply (f_equal uval) in E. apply H3 in E. tauto.
  - intros [H1 H2 H3]. cbn [finality_of fw_finalized_beacon_slot] in *.
    split; [lia|]. split; [lia|]. split; [|done].
    intros E. destruct H2 as (? & ? & ?); [by apply uint_eq|congruence|]. done.
Qed.

(** The same four conditions as the decoder of outputs tests them. *)
Lemma finality_tests s next :
  (mc_finalized_beacon_slot next <? mc_finalized_beacon_slot s) = false /\
  (MAX_ETHEREUM_FINALITY_SLOT_GAP
     <? saturating_sub (mc_finalized_beacon_slot next) (mc_finalized_beacon_slot s)) = false /\
  ((mc_finalized_beacon_slot next =? mc_finalized_beacon_slot s)
   && (bool_decide (mc_ethereum_light_client_digest next <> mc_ethereum_light_client_digest s)
       || bool_decide (mc_finalized_beacon_root next <> mc_finalized_beacon_root s)
       || bool_decide (mc_finalized_execution_state_root next
                       <> mc_finalized_execution_state_root s))) = false /\
  ((mc_finalized_beacon_slot s <? mc_finalized_beacon_slot next)
   && bool_decide (mc_ethereum_light_client_digest next = mc_ethereum_light_client_digest s)) = false
  <->
  mc_finalized_beacon_slot s <= mc_finalized_beacon_slot next
  /\ saturating_sub (mc_finalized_beacon_slot next) (mc_finalized_beacon_slot s) <= 4096
  /\ (uval (mc_finalized_beacon_slot next) = mc_finalized_beacon_slot s ->
      mc_ethereum_light_client_digest next = mc_ethereum_light_client_digest s /\
      mc_finalized_beacon_root next = mc_finalized_beacon_root s /\
      mc_finalized_execution_state_root next = mc_finalized_execution_state_root s)
  /\ (mc_finalized_beacon_slot s < mc_finalized_beacon_slot next ->
      mc_ethereum_light_client_digest next <> mc_ethereum_light_client_digest s).
Proof.
  rewrite slot_gap_val, !Z.ltb_ge, !andb_false_iff, !orb_false_iff, !bool_decide_eq_false,
    Z.eqb_neq, Z.ltb_ge. split.
  - intros (H1 & H2 & H3 & H4). split; [done|]. split; [done|]. split.
    + intros E. destruct H3 as [H3|[[D1 D2] D3]]; [done|].
      by apply dec_stable in D1, D2, D3.
    + intros L. destruct H4; [lia|done].
  - intros (H1 & H2 & H3 & H4). split; [done|]. split; [done|].
    destruct (decide (uval (mc_finalized_beacon_slot next) = mc_finalized_beacon_slot s)) as [E|E].
    + destruct (H3 E) as (-> & -> & ->). split; [right; naive_solver|left; lia].
    + split; [by left|right]. apply H4. lia.
Qed.

Lemma mint_transition_of_next s b next timestamp :
  apply_mint_batch s b (finality_of next timestamp) = Ok next <->
  MintControllerState_validate s = Ok tt /\ MintControllerState_validate next = Ok tt /\
  MintBatch_validate b = Ok tt /\
  uval (mc_total_minted_usdd_base next)
    = mc_total_minted_usdd_base s + mb_total_usdd_amount_base b /\
  mc_version next = mc_version s /\ uval (mc_sequence next) = mc_sequence s + 1 /\
  mc_next_mint_nonce next = mb_next_nonce b /\ mb_first_nonce b = mc_next_mint_nonce s /\
  mc_configuration_hash next = mc_configuration_hash s /\
  finality_advance s (finality_of next timestamp).
Proof.
  pose proof (uint_range (mc_sequence s)). pose proof (uint_range (mc_total_minted_usdd_base s)).
  pose proof (uint_range (mb_total_usdd_amount_base b)).
  rewrite apply_mint_batch_Ok, <- MintBatch_validate_Ok. split.
  - intros (Hv & Hb & Hf & Hn & Ha & Hs & Ht & E).
    assert (MintControllerState_validate next = Ok tt) as Hnext.
    { apply (controller_step_spec s (Mint b (finality_of next timestamp)) next). cbn [controller_step].
      apply apply_mint_batch_Ok. rewrite <- MintBatch_validate_Ok. done. }
    split; [done|]. split; [done|]. split; [done|].
    pose proof (f_equal mc_version E). pose proof (f_equal mc_sequence E) as Es.
    pose proof (f_equal mc_next_mint_nonce E). pose proof (f_equal mc_configuration_hash E).
    pose proof (f_equal mc_total_minted_usdd_base E) as Et.
    cbn [advanced mc_version mc_sequence mc_next_mint_nonce mc_configuration_hash
         mc_total_minted_usdd_base] in *.
    rewrite Es, Et. wrap_small. done.
  - intros (Hv & Hnext & Hb & Ht & Hver & Hs & Hn & Hf & Hc & Ha).
    pose proof (uint_range (mc_sequence next)). pose proof (uint_range (mc_total_minted_usdd_base next)).
    split; [done|]. split; [done|]. split; [apply finality_of_ok; [done|lia]|].
    split; [done|]. split; [done|]. split; [lia|]. split; [lia|].
    unfold advanced. rewrite <- Ht, <- Hs, <- Hn, !uint_wrap_uval. destruct next. cbn in *. by subst.
Qed.

Lemma heartbeat_transition_of_next s next timestamp :
  apply_heartbeat s (finality_of next timestamp) = Ok next <->
  MintControllerState_validate s = Ok tt /\ MintControllerState_validate next = Ok tt /\
  mc_version next = mc_version s /\ uval (mc_sequence next) = mc_sequence s + 1 /\
  mc_next_mint_nonce next = mc_next_mint_nonce s /\
  mc_total_minted_usdd_base next = mc_total_minted_usdd_base s /\
  mc_configuration_hash next = mc_configuration_hash s /\
  mc_finalized_beacon_slot s < mc_finalized_beacon_slot next
    <= mc_finalized_beacon_slot s + 4096 /\
  mc_ethereum_light_client_digest next <> mc_ethereum_light_client_digest s.
Proof.
  pose proof (uint_range (mc_sequence s)). rewrite apply_heartbeat_Ok. split.
  - intros (Hv & Hf & Hlt & Ha & Hs & E).
    assert (MintControllerState_validate next = Ok tt) as Hnext.
    { apply (controller_step_spec s (Heartbeat (finality_of next timestamp)) next).
      by apply apply_heartbeat_Ok. }
    destruct Ha as [Hslot _ Hnew]. cbn [finality_of fw_finalized_beacon_slot] in *.
    split; [done|]. split; [done|].
    pose proof (f_equal mc_version E). pose proof (f_equal mc_sequence E) as Es.
    pose proof (f_equal mc_next_mint_nonce E). pose proof (f_equal mc_configuration_hash E).
    pose proof (f_equal mc_total_minted_usdd_base E).
    cbn [advanced mc_version mc_sequence mc_next_mint_nonce mc_configuration_hash
         mc_total_minted_usdd_base] in *.
    rewrite Es. wrap_small. repeat (split; [done || lia|]). by apply Hnew.
  - intros (Hv & Hnext & Hver & Hs & Hn & Ht & Hc & Hslot & Hd).
    pose proof (uint_range (mc_sequence next)).
    split; [done|]. split; [apply finality_of_ok; [done|lia]|].
    cbn [finality_of fw_finalized_beacon_slot]. split; [lia|].
    split. { split; cbn [finality_of fw_finalized_beacon_slot]; [lia| |done].
             intros E. apply (f_equal uval) in E. lia. }
    split; [lia|]. unfold advanced. rewrite <- Hs, <- Hn, <- Ht, !uint_wrap_uval.
    destruct next. cbn in *. by subst.
Qed.

(** The identifiers and the timestamp every output towards Elements carries. *)
Definition output_identified (manifest_id claim_id : Hash32) (timestamp : u64) : Prop :=
  manifest_id <> ZERO /\ claim_id <> ZERO /\ uval timestamp <> 0.

Lemma output_identified_guard m c (t : u64) :
  (bool_decide (m = ZERO) || bool_decide (c = ZERO) || (t =? 0)) = false <-> output_identified m c t.
Proof. unfold output_identified. rewrite !orb_false_iff, !bool_decide_eq_false, Z.eqb_neq. tauto. Qed.

Lemma DepositPublicOutput_validate_Ok o :
  DepositPublicOutput_validate o = Ok tt <->
  output_identified (dpo_manifest_id o) (dpo_claim_id o) (dpo_finalized_execution_block_timestamp o) /\
  apply_mint_batch (dpo_prior_state o) (dpo_mint_batch o)
    (finality_of (dpo_next_state o) (dpo_finalized_execution_block_timestamp o)) = Ok (dpo_next_state o).
Proof.
  pose proof (uint_range (mc_sequence (dpo_prior_state o))).
  rewrite mint_transition_of_next. unfold DepositPublicOutput_validate.
  rewrite fail_then, output_identified_guard. apply and_iff_compat_l. split.
  - intros Hv. inv_ok. apply checked_add_Some in Hx2, Hx4. change (uval (uint_wrap 64 1)) with 1 in Hx4.
    do 3 (split; [done|]). split; [congruence|]. split; [by apply uint_eq|]. split; [congruence|].
    split; [by apply uint_eq|]. split; [by apply uint_eq|]. split; [by apply dec_stable|].
    apply finality_guards.
    + apply (fok_slot _ (finality_of_ok _ (uint_wrap 64 0) Hx0 ltac:(lia))).
    + apply finality_tests. by rewrite !Z.ltb_ge.
  - intros (Hp & Hn & Hb & Ht & Hver & Hs & Hnn & Hf & Hc & Ha).
    pose proof (fok_slot _ (finality_of_ok (dpo_next_state o) (uint_wrap 64 0) Hn ltac:(lia))) as Hz.
    apply finality_guards, finality_tests in Ha as (T1 & T2 & T3 & T4); [|exact Hz].
    rewrite Hp, Hn, Hb. cbn [mbind res_bind].
    rewrite (proj2 (checked_add_Some (mc_total_minted_usdd_base (dpo_prior_state o))
      (mb_total_usdd_amount_base (dpo_mint_batch o)) (mc_total_minted_usdd_base (dpo_next_state o))) Ht).
    cbn [ok_or mbind res_bind]. rewrite Hver, (Z.eqb_refl (uval (mc_version (dpo_prior_state o)))). cbn [negb fail_if mbind res_bind].
    rewrite (proj2 (checked_add_Some (mc_sequence (dpo_prior_state o)) (uint_wrap 64 1)
      (mc_sequence (dpo_next_state o))) Hs).
    cbn [ok_or mbind res_bind]. apply fail_if_Ok.
    rewrite T1, T2, T3, T4, !Z.eqb_refl, Hnn, Hf, !Z.eqb_refl, Hc.
    by rewrite bool_decide_eq_false_2 by naive_solver.
Qed.

Lemma HeartbeatPublicOutput_validate_Ok o :
  HeartbeatPublicOutput_validate o = Ok tt <->
  output_identified (hpo_manifest_id o) (hpo_claim_id o) (hpo_finalized_execution_block_timestamp o) /\
  apply_heartbeat (hpo_prior_state o)
    (finality_of (hpo_next_state o) (hpo_finalized_execution_block_timestamp o)) = Ok (hpo_next_state o).
Proof.
  rewrite heartbeat_transition_of_next. unfold HeartbeatPublicOutput_validate.
  rewrite fail_then, output_identified_guard. apply and_iff_compat_l. unfold saturating_sub.
  rewrite slot_gap_val. split.
  - intros Hv. inv_ok. apply checked_add_Some in Hx2. change (uval (uint_wrap 64 1)) with 1 in Hx2.
    do 2 (split; [done|]). split; [by apply uint_eq|]. split; [congruence|].
    split; [by apply uint_eq|]. split; [by apply uint_eq|]. split; [by apply dec_stable|].
    split; [lia|done].
  - intros (Hp & Hn & Hver & Hs & Hnn & Ht & Hc & Hslot & Hd).
    rewrite Hp, Hn. cbn [mbind res_bind]. rewrite Hver, (Z.eqb_refl (uval (mc_version (hpo_prior_state o)))). cbn [negb fail_if mbind res_bind].
    rewrite (proj2 (checked_add_Some (mc_sequence (hpo_prior_state o)) (uint_wrap 64 1)
      (mc_sequence (hpo_next_state o))) Hs).
    cbn [ok_or mbind res_bind]. apply fail_if_Ok. rewrite Hnn, Ht, Hc, !Z.eqb_refl.
    rewrite (bool_decide_eq_false_2 _ Hd), bool_decide_eq_false_2 by naive_solver.
    rewrite (proj2 (Z.leb_gt _ _)), (proj2 (Z.ltb_ge _ _)) by lia. done.
Qed.

(** An output of a transition under any finality validates when identified. *)
Lemma deposit_output_valid o f :
  apply_mint_batch (dpo_prior_state o) (dpo_mint_batch o) f = Ok (dpo_next_state o) ->
  DepositPublicOutput_validate o = Ok tt <->
  output_identified (dpo_manifest_id o) (dpo_claim_id o) (dpo_finalized_execution_block_timestamp o).
Proof.
  intros Ha. rewrite DepositPublicOutput_validate_Ok. split; [by intros [? _]|]. intros Hi. split; [done|].
  apply apply_mint_batch_Ok in Ha as (? & ? & Hok & ? & Hadv & ? & ? & E).
  destruct (advanced_finality _ _ _ _ _ E (dpo_finalized_execution_block_timestamp o))
    as (E' & Hadv' & Hok'). apply apply_mint_batch_Ok. tauto.
Qed.

Lemma heartbeat_output_valid o f :
  apply_heartbeat (hpo_prior_state o) f = Ok (hpo_next_state o) ->
  HeartbeatPublicOutput_validate o = Ok tt <->
  output_identified (hpo_manifest_id o) (hpo_claim_id o) (hpo_finalized_execution_block_timestamp o).
Proof.
  intros Ha. rewrite HeartbeatPublicOutput_validate_Ok. split; [by intros [? _]|]. intros Hi. split; [done|].
  apply apply_heartbeat_Ok in Ha as (? & Hok & Hlt & Hadv & ? & E).
  destruct (advanced_finality _ _ _ _ _ E (hpo_finalized_execution_block_timestamp o))
    as (E' & Hadv' & Hok'). apply apply_heartbeat_Ok.
  pose proof (f_equal mc_finalized_beacon_slot E) as Es. cbn [advanced mc_finalized_beacon_slot] in Es.
  cbn [finality_of fw_finalized_beacon_slot]. rewrite Es. tauto.
Qed.

(** Outputs of valid parts are determined by their encodings, valid or not:
    compare two encodings field by field. *)
Ltac same_field E E' :=
  let F := fresh "F" in let F' := fresh "F'" in
  match type of E with @encode ?A _ ?a +++ _ = _ => match type of E' with encode ?b +++ _ = _ =>
    edestruct (enc_app_inj (A:=A) a b) as (-> & ? & F & F');
      [first [exact I|assumption]|first [exact I|assumption]|exact E|exact E'|];
      clear E E'; rename F into E, F' into E'
  end end.
Ltac same_header E E' :=
  let Eh := fresh in let Eh' := fresh in let Eq := fresh in
  apply enc_app_Some in E as (? & ? & Eh & E & ->), E' as (? & ? & Eh' & E' & Eq);
  rewrite Eh in Eh'; apply (inj Some) in Eh' as <-; apply app_inv_head in Eq as ->.

Lemma deposit_output_encode_inj o o' p :
  MintControllerState_validate (dpo_prior_state o) = Ok tt ->
  MintControllerState_validate (dpo_next_state o) = Ok tt ->
  MintBatch_validate (dpo_mint_batch o) = Ok tt ->
  DepositPublicOutput_validate o' = Ok tt ->
  encode o = Some p -> encode o' = Some p -> o = o'.
Proof.
  intros Hp Hn Hb Ho'. unfold DepositPublicOutput_validate in Ho'. inv_ok.
  unfold_encode DepositPublicOutput_encode. intros E E'.
  destruct o as [o1 o2 o3 o4 o5 o6], o' as [q1 q2 q3 q4 q5 q6].
  cbn [dpo_manifest_id dpo_claim_id dpo_prior_state dpo_next_state
       dpo_finalized_execution_block_timestamp dpo_mint_batch] in *.
  same_header E E'. do 5 same_field E E'.
  f_equal. eapply (encode_inj (A:=MintBatch)); [exact Hb|eassumption|exact E|exact E'].
Qed.

Lemma heartbeat_output_encode_inj o o' p :
  MintControllerState_validate (hpo_prior_state o) = Ok tt ->
  MintControllerState_validate (hpo_next_state o) = Ok tt ->
  HeartbeatPublicOutput_validate o' = Ok tt ->
  encode o = Some p -> encode o' = Some p -> o = o'.
Proof.
  intros Hp Hn Ho'. unfold HeartbeatPublicOutput_validate in Ho'. inv_ok.
  unfold_encode HeartbeatPublicOutput_encode. intros E E'.
  destruct o as [o1 o2 o3 o4 o5], o' as [q1 q2 q3 q4 q5].
  cbn [hpo_manifest_id hpo_claim_id hpo_prior_state hpo_next_state
       hpo_finalized_execution_block_timestamp] in *.
  same_header E E'. do 4 same_field E E'.
  f_equal. eapply (encode_inj (A:=u64)); [exact I|exact I|exact E|exact E'].
Qed.

Lemma elements_output_encode_inj {H : Sha256} o o' p :
  ElementsState_validate (epo_prior_state o) = Ok tt ->
  ElementsState_validate (epo_next_state o) = Ok tt ->
  ElementsStatePublicOutput_validate o' = Ok tt ->
  encode o = Some p -> encode o' = Some p -> o = o'.
Proof.
  intros Hp Hn Ho'. unfold ElementsStatePublicOutput_validate in Ho'.
  apply fail_then in Ho' as [_ [Vp Vn _ _ _ _ _ _ _ _ _]%validate_successor_Ok].
  unfold_encode ElementsStatePublicOutput_encode. intros E E'.
  destruct o as [o1 o2 o3 o4 o5 o6 o7], o' as [q1 q2 q3 q4 q5 q6 q7].
  cbn [epo_manifest_id epo_claim_id epo_prior_bridge_state_hash epo_next_bridge_state_hash
       epo_verifier_statement epo_prior_state epo_next_state] in *.
  same_header E E'. do 6 same_field E E'.
  f_equal. eapply (encode_inj (A:=SolidityElementsBridgeState)); [exact Hn|exact Vn|exact E|exact E'].
Qed.

(** ** Identifiers *)

Section identifiers.
Context {H : Sha256}.

(** The bytes hashed into the identifier of a record under domain [D]. *)
Definition id_preimage {A : Type} `{CanonicalEncode A} (D : Domain) (x : A) : option bytes :=
  bs ← encode x; domain_preimage D bs.

(** One identifier of two records is one record, one encoding, or a collision. *)
Lemma id_collision {A B : Type} `{CanonicalEncode A} `{CanonicalEncode B} (D : Domain) (x : A) (y : B) h :
  (bs ← encode x; domain_hash D bs) = Some h -> (bs ← encode y; domain_hash D bs) = Some h ->
  (exists p, encode x = Some p /\ encode y = Some p) \/
  exists p q, id_preimage D x = Some p /\ id_preimage D y = Some q /\ collision p q.
Proof.
  intros (p & Ep & Hp)%bind_Some (q & Eq & Hq)%bind_Some.
  destruct (domain_hash_collision _ _ _ _ _ Hp Hq) as (u & v & Eu & Ev & [[_ E]|Hc]).
  - left. exists p. split; [done|]. by rewrite E.
  - right. exists u, v. unfold id_preimage. rewrite Ep, Eq. done.
Qed.

Lemma header_prefix tag p q : proof_encode_header tag +++ p = Some q -> slice 2 4 q = be_bytes 2 tag.
Proof.
  intros (x & y & Ex & _ & ->)%enc_app_Some. unfold proof_encode_header, encode, u16_encode in Ex.
  cbn [enc_app] in Ex. apply (inj Some) in Ex as <-. rewrite <- !app_assoc. reflexivity.
Qed.

(** Different record tags never share an encoding. *)
Lemma header_differs (t u : u16) p q bs :
  proof_encode_header t +++ p = Some bs -> proof_encode_header u +++ q = Some bs -> uval t = u.
Proof.
  intros Hp%header_prefix Hq%header_prefix. rewrite Hp in Hq.
  apply (uint_bytes_inj 2 t u) in Hq; [by subst|done].
Qed.
End identifiers.

(** ** Properties *)

Section claim_properties.
Context {H : Sha256}.

(** Each proof record is decoded from exactly its own encoding, and exactly
    when it (and, for the transition claim, each of its parts) validates. *)
Theorem proof_records_canonical :
  (forall bs c, decode_exact bs = Ok c <-> EthereumDepositClaim_validate c = Ok tt /\ encode c = Some bs) /\
  (forall bs c, decode_exact bs = Ok c <-> EthereumHeartbeatClaim_validate c = Ok tt /\ encode c = Some bs) /\
  (forall bs a, decode_exact bs = Ok a <-> Burn_validate (bap_burn a) = Ok tt /\ encode a = Some bs) /\
  (forall bs c, decode_exact bs = Ok c <-> transition_claim_wf c /\ encode c = Some bs) /\
  (forall bs o, decode_exact bs = Ok o <-> DepositPublicOutput_validate o = Ok tt /\ encode o = Some bs) /\
  (forall bs o, decode_exact bs = Ok o <-> HeartbeatPublicOutput_validate o = Ok tt /\ encode o = Some bs) /\
  (forall bs o, decode_exact bs = Ok o <->
     ElementsStatePublicOutput_validate o = Ok tt /\ encode o = Some bs).
Proof.
  split; [|split; [|split; [|split; [|split; [|split]]]]]; intros bs x.
  - exact (decode_exact_spec (A:=EthereumDepositClaim) bs x).
  - exact (decode_exact_spec (A:=EthereumHeartbeatClaim) bs x).
  - exact (decode_exact_spec (A:=BurnAppend) bs x).
  - exact (decode_exact_spec (A:=ElementsStateTransitionClaim) bs x).
  - exact (decode_exact_spec (A:=DepositPublicOutput) bs x).
  - exact (decode_exact_spec (A:=HeartbeatPublicOutput) bs x).
  - exact (decode_exact_spec (A:=ElementsStatePublicOutput) bs x).
Qed.

(** C15: A public output towards Elements validates exactly when it names a
    manifest, a claim and a time and its next state is the one the mint
    controller computes from its prior state for some finality witness: deposits
    by [apply_mint_batch] of the output's batch, heartbeats by [apply_heartbeat]. *)
Theorem ethereum_outputs_are_transitions :
  (forall o, DepositPublicOutput_validate o = Ok tt <->
     output_identified (dpo_manifest_id o) (dpo_claim_id o) (dpo_finalized_execution_block_timestamp o) /\
     exists f, fw_execution_block_timestamp f = dpo_finalized_execution_block_timestamp o /\
       apply_mint_batch (dpo_prior_state o) (dpo_mint_batch o) f = Ok (dpo_next_state o)) /\
  (forall o, HeartbeatPublicOutput_validate o = Ok tt <->
     output_identified (hpo_manifest_id o) (hpo_claim_id o) (hpo_finalized_execution_block_timestamp o) /\
     exists f, fw_execution_block_timestamp f = hpo_finalized_execution_block_timestamp o /\
       apply_heartbeat (hpo_prior_state o) f = Ok (hpo_next_state o)).
Proof.
  split; intros o; (split;
    [rewrite ?DepositPublicOutput_validate_Ok, ?HeartbeatPublicOutput_validate_Ok; intros [Hi Ha];
     split; [done|]; eexists; split; [|exact Ha]; done|]); intros (Hi & f & _ & Ha).
  - by apply (deposit_output_valid o f).
  - by apply (heartbeat_output_valid o f).
Qed.

(** A claim identifier determines the claim: two claims of one kind with one
    identifier are equal and a deposit claim never shares its identifier with a
    heartbeat claim, unless SHA-256 collides on the two claims' encodings. *)
Theorem claim_ids_bind (h : Hash32) :
  (forall c d, EthereumDepositClaim_validate c = Ok tt -> EthereumDepositClaim_validate d = Ok tt ->
     EthereumDepositClaim_claim_id c = Some h -> EthereumDepositClaim_claim_id d = Some h ->
     c = d \/ exists x y, id_preimage EthereumStateClaimDomain c = Some x /\
                          id_preimage EthereumStateClaimDomain d = Some y /\ collision x y) /\
  (forall c d, EthereumHeartbeatClaim_validate c = Ok tt -> EthereumHeartbeatClaim_validate d = Ok tt ->
     EthereumHeartbeatClaim_claim_id c = Some h -> EthereumHeartbeatClaim_claim_id d = Some h ->
     c = d \/ exists x y, id_preimage EthereumStateClaimDomain c = Some x /\
                          id_preimage EthereumStateClaimDomain d = Some y /\ collision x y) /\
  (forall c d, transition_claim_wf c -> transition_claim_wf d ->
     ElementsStateTransitionClaim_claim_id c = Some h -> ElementsStateTransitionClaim_claim_id d = Some h ->
     c = d \/ exists x y, id_preimage ElementsEventClaimDomain c = Some x /\
                          id_preimage ElementsEventClaimDomain d = Some y /\ collision x y) /\
  (forall c d, EthereumDepositClaim_claim_id c = Some h -> EthereumHeartbeatClaim_claim_id d = Some h ->
     exists x y, id_preimage EthereumStateClaimDomain c = Some x /\
                 id_preimage EthereumStateClaimDomain d = Some y /\ collision x y).
Proof.
  split; [|split; [|split]]; intros c d.
  1-3: intros Hc Hd Ec Ed; destruct (id_collision _ c d h Ec Ed) as [(p & Ep & Eq)|Hcol];
    [left; by apply (encode_inj c d p)|by right].
  intros Ec Ed. destruct (id_collision _ c d h Ec Ed) as [(p & Ep & Eq)|Hcol]; [|done].
  apply (header_differs _ _ _ _ p Ep) in Eq. vm_compute in Eq. discriminate Eq.
Qed.
End claim_properties.

(** A concrete deposit claim and heartbeat claim on the sample controller.  The
    witness digest keeps the first 32 bytes only, so their identifiers agree. *)
Definition sample_deposit_claim : EthereumDepositClaim :=
  MkEthereumDepositClaim (array_rep 32 x08) sample_controller (sample_finality 200 x40)
    [sample_deposit 7 1000000; sample_deposit 8 2000000].
Definition sample_heartbeat_claim : EthereumHeartbeatClaim :=
  MkEthereumHeartbeatClaim (array_rep 32 x08) sample_controller (sample_finality 200 x40).
Definition sample_claim_id : Hash32 :=
  default ZERO (@EthereumDepositClaim_claim_id toy_sha256 sample_deposit_claim).

Lemma claim_ids_bind_witness :
  @EthereumDepositClaim_claim_id toy_sha256 sample_deposit_claim = Some sample_claim_id /\
  @EthereumHeartbeatClaim_claim_id toy_sha256 sample_heartbeat_claim = Some sample_claim_id /\
  exists x y, id_preimage EthereumStateClaimDomain sample_deposit_claim = Some x /\
    id_preimage EthereumStateClaimDomain sample_heartbeat_claim = Some y /\ @collision toy_sha256 x y.
Proof.
  assert (@EthereumDepositClaim_claim_id toy_sha256 sample_deposit_claim = Some sample_claim_id) as Hd
    by (apply array_option_eq; vm_compute; reflexivity).
  assert (@EthereumHeartbeatClaim_claim_id toy_sha256 sample_heartbeat_claim = Some sample_claim_id) as Hh
    by (apply array_option_eq; vm_compute; reflexivity).
  split; [exact Hd|]. split; [exact Hh|].
  destruct (@claim_ids_bind toy_sha256 sample_claim_id) as (_ & _ & _ & Hcross).
  exact (Hcross sample_deposit_claim sample_heartbeat_claim Hd Hh).
Defined.
