(* ===== verification/Readers.v ===== *)
(** Readers whose errors are not [DecodeError]: the strict envelopes of
    [crates/usdd-proof-core] read with the same [Decoder] but report their own
    errors, into which [?] converts the decoder's by [From]. *)

From S2P Require Import Prelude Encoding.

Local Open Scope Z_scope.

Definition reader (E A : Type) : Type := Decoder -> res E (A * Decoder).

#[export] Instance reader_ret (E : Type) : MRet (reader E) := fun A a d => Ok (a, d).
#[export] Instance reader_bind (E : Type) : MBind (reader E) := fun A B f m d =>
  match m d with
  | Ok (a, d') => f a d'
  | Err e => Err e
  | Panic => Panic
  end.

(** [decoder.read()?] through [From<DecodeError>]. *)
Definition convert {E A : Type} (from : DecodeError -> E) (m : dec A) : reader E A := fun d =>
  map_err from (m d).

(** [result?] of a computation that does not read. *)
Definition raise {E A : Type} (m : res E A) : reader E A := fun d =>
  match m with Ok a => Ok (a, d) | Err e => Err e | Panic => Panic end.

(** [decoder.remaining()] *)
Definition ask_remaining {E : Type} : reader E nat := fun d => Ok (Decoder_remaining d, d).

(** A reader run on a whole input. *)
Definition run {E A : Type} (m : reader E A) (bs : bytes) : res E A :=
  match m (Decoder_new bs) with Ok (a, _) => Ok a | Err e => Err e | Panic => Panic end.

Lemma reader_bind_Ok {E A B} (m : reader E A) (f : A -> reader E B) d b d' :
  (m ≫= f) d = Ok (b, d') <-> exists a d1, m d = Ok (a, d1) /\ f a d1 = Ok (b, d').
Proof.
  unfold mbind, reader_bind. destruct (m d) as [[a d1]| |]; split; try done;
    try (intros (? & ? & ? & ?); done).
  - eauto.
  - by intros (? & ? & [= <- <-] & ?).
Qed.

Lemma reader_ret_Ok {E A} (a b : A) d d' : (mret a : reader E A) d = Ok (b, d') <-> b = a /\ d' = d.
Proof. unfold mret, reader_ret. naive_solver. Qed.

Lemma raise_Ok {E A} (m : res E A) d a d' : raise m d = Ok (a, d') <-> m = Ok a /\ d' = d.
Proof. unfold raise. destruct m; naive_solver. Qed.

Lemma ask_remaining_Ok {E} d n d' :
  (ask_remaining : reader E nat) d = Ok (n, d') <-> n = length (unread d) /\ d' = d.
Proof. unfold ask_remaining. rewrite remaining_unread. naive_solver. Qed.

Lemma convert_Ok {E A} (from : DecodeError -> E) (m : dec A) d a d' :
  convert from m d = Ok (a, d') <-> m d = Ok (a, d').
Proof. unfold convert, map_err. destruct (m d); naive_solver. Qed.

Lemma convert_codec {E A} `{Codec A} (from : DecodeError -> E) d (x : A) d' :
  convert from decode_from d = Ok (x, d') <-> valid A x /\ reads (encode x) d d'.
Proof. by rewrite convert_Ok, codec_spec. Qed.

Lemma run_Ok {E A} (m : reader E A) bs a :
  run m bs = Ok a <-> exists d, m (Decoder_new bs) = Ok (a, d).
Proof.
  unfold run. destruct (m (Decoder_new bs)) as [[b d]| |]; split; try done;
    try (intros (? & ?); done).
  - intros [= ->]. by exists d.
  - by intros (? & [= -> _]).
Qed.

(** Reading all of an input with nothing left over is reading its encoding. *)
Lemma reads_whole e bs d : reads e (Decoder_new bs) d /\ unread d = [] <->
  e = Some bs /\ d = advance (Decoder_new bs) (length bs).
Proof.
  split.
  - intros [(p & -> & Hu & ->) Hd]. rewrite unread_new, Hd, app_nil_r in Hu. by subst.
  - intros [-> ->]. assert (unread (advance (Decoder_new bs) (length bs)) = []) as E.
    { apply (unread_advance _ bs); [by rewrite unread_new, app_nil_r|done]. }
    split; [|done]. apply reads_Some. by rewrite E, unread_new, app_nil_r.
Qed.

(** [decoder.take(n)] reads any [n] bytes. *)
Lemma take_reads n d p d' : Decoder_take n d = Ok (p, d') <-> length p = n /\ reads (Some p) d d'.
Proof. rewrite take_spec, reads_Some. split; [by intros (<- & ? & ->)|by intros (<- & ? & ->)]. Qed.

(** Split a successful run into its reads, or rebuild it from them. *)
Ltac inv_reader :=
  repeat match goal with
  | H : run _ _ = Ok _ |- _ => let d := fresh "d" in apply run_Ok in H as (d & H)
  | H : @mbind (reader _) _ _ _ _ _ _ = Ok _ |- _ =>
      let a := fresh "v" in let d := fresh "d" in let E := fresh "Hd" in
      apply reader_bind_Ok in H as (a & d & E & H)
  | H : @mret (reader _) _ _ _ _ = Ok _ |- _ =>
      let H1 := fresh in let H2 := fresh in apply reader_ret_Ok in H as [H1 H2]; try subst
  | H : raise _ _ = Ok _ |- _ =>
      let H1 := fresh "Hl" in let H2 := fresh in apply raise_Ok in H as [H1 H2]; try subst
  | H : ask_remaining _ = Ok _ |- _ =>
      let H1 := fresh "Hn" in let H2 := fresh in apply ask_remaining_Ok in H as [H1 H2]; try subst
  | H : convert _ decode_from _ = Ok _ |- _ =>
      let V := fresh "Hv" in let R := fresh "Hr" in apply convert_codec in H as [V R]
  | H : convert _ (Decoder_take _) _ = Ok _ |- _ =>
      let V := fresh "Hv" in let R := fresh "Hr" in apply convert_Ok, take_reads in H as [V R]
  | u : unit |- _ => destruct u
  end.
Ltac reader_step :=
  lazymatch goal with
  | |- run _ _ = Ok _ => apply run_Ok; eexists
  | |- @mbind (reader _) _ _ _ _ _ _ = Ok _ => apply reader_bind_Ok; eexists _, _; split
  | |- @mret (reader _) _ _ _ _ = Ok _ => apply reader_ret_Ok
  | |- raise _ _ = Ok _ => apply raise_Ok; split; [|reflexivity]
  | |- ask_remaining _ = Ok _ => apply ask_remaining_Ok; split; reflexivity
  | |- convert _ decode_from _ = Ok _ => apply convert_codec; split; [|eassumption]
  | |- convert _ (Decoder_take _) _ = Ok _ => apply convert_Ok, take_reads; split; [|eassumption]
  end.
