(* ===== verification/Journal.v ===== *)
(** The strict proof journal: [crates/usdd-proof-core/src/journal.rs].

    [StrictJournal] is the envelope around the public values of every accepted
    proof.  The theorems show that its constructors build only journals whose
    payload is one of the three typed public outputs, that [decode_strict]
    accepts exactly the encodings of such journals, and what [verify_expected]
    adds. *)

From S2P Require Import Prelude Encoding Params Hashing BurnAccumulator Records Deposits Burns.
From S2P Require Import ElementsState Controller Claims Readers.

Local Open Scope Z_scope.

(** [*b"USDDJNL1"] and [*b"SUCCESS!"] *)
Definition JOURNAL_MAGIC : array 8 :=
  Array (n:=8) [x55; x53; x44; x44; x4a; x4e; x4c; x31] eq_refl.
Definition JOURNAL_SUCCESS_MARKER : array 8 :=
  Array (n:=8) [x53; x55; x43; x43; x45; x53; x53; x21] eq_refl.

(** [DigestAlgorithm::Sha256 as u8]; the enum has this one case. *)
Definition DigestAlgorithm_Sha256 : u8 := uint_wrap 8 1.

Inductive StatementKind : Type := EthereumState | ElementsStateKind.

#[export] Instance StatementKind_eq_dec : EqDecision StatementKind.
Proof. solve_decision. Defined.

(** [self.statement_kind as u8] *)
Definition StatementKind_as_u8 (k : StatementKind) : u8 :=
  match k with EthereumState => uint_wrap 8 1 | ElementsStateKind => uint_wrap 8 2 end.

Inductive JournalError : Type :=
| JournalDecode (e : DecodeError)
| WrongMagic
| UnsupportedSchema (value : u16)
| UnsupportedDigest (value : u8)
| GuestNotSuccessful
| UnsupportedStatementKind (value : u8)
| ZeroProgramId
| EmptyPayload
| PayloadDigestMismatch
| JournalTrailingBytes (count : nat)
| JournalNonCanonicalEncoding
| WrongProgramId
| WrongStatementKind
| InvalidPayloadForStatement.

Definition StatementKind_decode (tag : u8) : res JournalError StatementKind :=
  if uval tag =? 1 then Ok EthereumState
  else if uval tag =? 2 then Ok ElementsStateKind
  else Err (UnsupportedStatementKind tag).

Record StrictJournal : Type := MkStrictJournal {
  sj_statement_kind : StatementKind;
  sj_program_id : Hash32;
  sj_payload_sha256 : Hash32;
  sj_payload : bytes
}.

Inductive TypedPublicValues : Type :=
| TypedDeposit (value : DepositPublicOutput)
| TypedHeartbeat (value : HeartbeatPublicOutput)
| TypedElementsState (value : ElementsStatePublicOutput).

#[export] Instance StrictJournal_encode : CanonicalEncode StrictJournal := fun j =>
  encode JOURNAL_MAGIC +++ encode ENCODING_SCHEMA +++ encode DigestAlgorithm_Sha256
  +++ encode JOURNAL_SUCCESS_MARKER +++ encode (StatementKind_as_u8 (sj_statement_kind j))
  +++ encode (sj_program_id j) +++ encode (sj_payload_sha256 j) +++ encode (sj_payload j).

Section journal.
Context {H : Sha256}.

(** [if let Ok(value) = T::decode_exact(payload)] falls through on an error only. *)
Definition TypedPublicValues_decode (statement_kind : StatementKind) (payload : bytes)
    : res JournalError TypedPublicValues :=
  match statement_kind with
  | EthereumState =>
      match decode_exact (A:=DepositPublicOutput) payload with
      | Ok value => Ok (TypedDeposit value)
      | Panic => Panic
      | Err _ =>
          match decode_exact (A:=HeartbeatPublicOutput) payload with
          | Ok value => Ok (TypedHeartbeat value)
          | Panic => Panic
          | Err _ => Err InvalidPayloadForStatement
          end
      end
  | ElementsStateKind =>
      value ← map_err (fun _ => InvalidPayloadForStatement)
                (decode_exact (A:=ElementsStatePublicOutput) payload);
      Ok (TypedElementsState value)
  end.

Definition StrictJournal_new (statement_kind : StatementKind) (program_id : Hash32) (payload : bytes)
    : res JournalError StrictJournal :=
  fail_if (bool_decide (program_id = ZERO)) ZeroProgramId;;
  fail_if (length payload =? 0)%nat EmptyPayload;;
  TypedPublicValues_decode statement_kind payload;;
  Ok (MkStrictJournal statement_kind program_id (hash_bytes payload) payload).

Definition decode_strict_fields (bs : bytes) : reader JournalError StrictJournal :=
  magic ← convert JournalDecode (Decoder_fixed 8);
  raise (fail_if (bool_decide (magic <> JOURNAL_MAGIC)) WrongMagic);;
  schema ← convert JournalDecode Decoder_u16;
  raise (fail_if (negb (uval schema =? ENCODING_SCHEMA)) (UnsupportedSchema schema));;
  digest_tag ← convert JournalDecode Decoder_u8;
  raise (fail_if (negb (uval digest_tag =? DigestAlgorithm_Sha256)) (UnsupportedDigest digest_tag));;
  marker ← convert JournalDecode (Decoder_fixed 8);
  raise (fail_if (bool_decide (marker <> JOURNAL_SUCCESS_MARKER)) GuestNotSuccessful);;
  kind_tag ← convert JournalDecode Decoder_u8;
  statement_kind ← raise (StatementKind_decode kind_tag);
  program_id ← convert JournalDecode (Decoder_fixed 32);
  raise (fail_if (bool_decide (program_id = ZERO)) ZeroProgramId);;
  payload_sha256 ← convert JournalDecode (Decoder_fixed 32);
  payload ← convert JournalDecode Decoder_bytes;
  raise (fail_if (length payload =? 0)%nat EmptyPayload);;
  remaining ← ask_remaining;
  raise (fail_if (negb (remaining =? 0)%nat) (JournalTrailingBytes remaining));;
  raise (fail_if (bool_decide (hash_bytes payload <> payload_sha256)) PayloadDigestMismatch);;
  raise (TypedPublicValues_decode statement_kind payload);;
  let value := MkStrictJournal statement_kind program_id payload_sha256 payload in
  encoded ← raise (expect (encode value));
  raise (fail_if (bool_decide (encoded <> bs)) JournalNonCanonicalEncoding);;
  mret value.

Definition StrictJournal_decode_strict (bs : bytes) : res JournalError StrictJournal :=
  run (decode_strict_fields bs) bs.

(** [expect("StrictJournal constructors validate typed public values")] *)
Definition StrictJournal_typed_payload (j : StrictJournal) : res JournalError TypedPublicValues :=
  match TypedPublicValues_decode (sj_statement_kind j) (sj_payload j) with
  | Ok value => Ok value
  | _ => Panic
  end.

Definition StrictJournal_verify_expected (bs : bytes) (expected_program_id : Hash32)
    (expected_statement_kind : StatementKind) : res JournalError StrictJournal :=
  journal ← StrictJournal_decode_strict bs;
  fail_if (bool_decide (sj_program_id journal <> expected_program_id)) WrongProgramId;;
  fail_if (bool_decide (sj_statement_kind journal <> expected_statement_kind)) WrongStatementKind;;
  Ok journal.

(** ** What a journal carries *)

(** The payload is the encoding of a valid record of the statement's kind. *)
Definition payload_of (k : StatementKind) (payload : bytes) (t : TypedPublicValues) : Prop :=
  match k, t with
  | EthereumState, TypedDeposit o => DepositPublicOutput_validate o = Ok tt /\ encode o = Some payload
  | EthereumState, TypedHeartbeat o => HeartbeatPublicOutput_validate o = Ok tt /\ encode o = Some payload
  | ElementsStateKind, TypedElementsState o =>
      ElementsStatePublicOutput_validate o = Ok tt /\ encode o = Some payload
  | _, _ => False
  end.

(** A record with another tag is refused at its header. *)
Lemma header_refused (t u : u16) q bs :
  proof_encode_header u +++ q = Some bs -> uval t <> u ->
  proof_decode_header t (Decoder_new bs) = Err (InvalidValue "invalid proof record header").
Proof.
  intros Hq Hne. assert (exists d, reads (proof_encode_header u) (Decoder_new bs) d) as (d & Hr).
  { apply enc_app_Some in Hq as (x & y & Hx & _ & ->). eexists. rewrite Hx. by apply (reads_complete x _ y). }
  apply reads_app in Hr as (d1 & R1 & R2).
  apply (codec_read (A:=u16)) in R1, R2; [|done..].
  unfold proof_decode_header. dec_fold. unfold mbind, dec_bind. rewrite R1.
  cbn [lift]. rewrite Z.eqb_refl. cbn [negb fail_if lift]. rewrite R2.
  by rewrite (proj2 (Z.eqb_neq u t)) by done.
Qed.

Lemma deposit_decode_refused (o : HeartbeatPublicOutput) payload :
  encode o = Some payload ->
  decode_exact (A:=DepositPublicOutput) payload = Err (InvalidValue "invalid proof record header").
Proof.
  intros Eo. unfold decode_exact, decode_from, DepositPublicOutput_decode.
  unfold mbind, dec_bind at 1.
  by rewrite (header_refused TAG_DEPOSIT_PUBLIC_OUTPUT TAG_HEARTBEAT_PUBLIC_OUTPUT _ payload Eo).
Qed.

Lemma payload_of_decode k payload t :
  payload_of k payload t <->
  match k, t with
  | EthereumState, TypedDeposit o => decode_exact payload = Ok o
  | EthereumState, TypedHeartbeat o => decode_exact payload = Ok o
  | ElementsStateKind, TypedElementsState o => decode_exact payload = Ok o
  | _, _ => False
  end.
Proof.
  destruct k, t as [o|o|o]; cbn [payload_of]; try done; symmetry.
  - exact (decode_exact_spec (A:=DepositPublicOutput) payload o).
  - exact (decode_exact_spec (A:=HeartbeatPublicOutput) payload o).
  - exact (decode_exact_spec (A:=ElementsStatePublicOutput) payload o).
Qed.

Lemma typed_decode_Ok k payload t :
  TypedPublicValues_decode k payload = Ok t <-> payload_of k payload t.
Proof.
  rewrite payload_of_decode. unfold TypedPublicValues_decode. destruct k.
  - assert (forall o, decode_exact (A:=HeartbeatPublicOutput) payload = Ok o ->
      decode_exact (A:=DepositPublicOutput) payload = Err (InvalidValue "invalid proof record header")) as Hx.
    { intros o [_ Ho]%(decode_exact_spec (A:=HeartbeatPublicOutput)). by apply (deposit_decode_refused o). }
    destruct (decode_exact (A:=DepositPublicOutput) payload) as [o|e|],
      (decode_exact (A:=HeartbeatPublicOutput) payload) as [o'|e'|], t as [v|v|v];
      naive_solver.
  - destruct (decode_exact (A:=ElementsStatePublicOutput) payload) as [o|e|], t as [v|v|v];
      cbn; naive_solver.
Qed.

(** The journals the constructors build. *)
Record journal_wf (j : StrictJournal) : Prop := {
  jw_program : sj_program_id j <> ZERO;
  jw_payload : sj_payload j <> [];
  jw_digest : sj_payload_sha256 j = hash_bytes (sj_payload j);
  jw_typed : exists t, payload_of (sj_statement_kind j) (sj_payload j) t
}.

Lemma nonempty_guard (bs : bytes) : (length bs =? 0)%nat = false <-> bs <> [].
Proof. rewrite Nat.eqb_neq. destruct bs; cbn; split; done. Qed.

Lemma StrictJournal_new_Ok k program payload j :
  StrictJournal_new k program payload = Ok j <->
  journal_wf j /\ sj_statement_kind j = k /\ sj_program_id j = program /\ sj_payload j = payload.
Proof.
  unfold StrictJournal_new. rewrite !fail_then, bool_decide_eq_false, nonempty_guard, res_bind_Ok.
  setoid_rewrite typed_decode_Ok. split.
  - intros (Hp & He & t & Ht & [= <-]). split; [|done]. split; try done. by exists t.
  - intros ([Hp He Hd [t Ht]] & <- & <- & <-). split; [done|]. split; [done|].
    exists t. split; [done|]. rewrite <- Hd. by destruct j.
Qed.

Lemma StatementKind_decode_Ok tag k : StatementKind_decode tag = Ok k <-> tag = StatementKind_as_u8 k.
Proof.
  unfold StatementKind_decode. rewrite uint_eq_iff.
  destruct (Z.eqb_spec tag 1) as [->|]; [|destruct (Z.eqb_spec tag 2) as [->|]]; destruct k;
    cbn [StatementKind_as_u8]; rewrite ?uval_wrap_small by lia; naive_solver lia.
Qed.

Lemma decode_strict_Ok bs j :
  StrictJournal_decode_strict bs = Ok j <-> journal_wf j /\ encode j = Some bs.
Proof.
  unfold StrictJournal_decode_strict, decode_strict_fields. dec_fold. split.
  - intros Hj. inv_reader.
    match goal with E : TypedPublicValues_decode _ _ = Ok _ |- _ => apply typed_decode_Ok in E end.
    match goal with E : expect _ = Ok _ |- _ => apply expect_Ok in E as Henc end.
    repeat match goal with E : fail_if _ _ = Ok _ |- _ => apply fail_if_Ok in E end.
    match goal with E : (length _ =? 0)%nat = false |- _ => apply nonempty_guard in E end. inv_ok.
    repeat match goal with E : ~ (_ <> _) |- _ => apply dec_stable in E end. subst.
    split; [|done]. split; try done. cbn [sj_statement_kind sj_payload]. by eexists.
  - intros [[Hp He Hd [t Ht]] Hj]. pose proof (proj2 (reads_whole _ _ _) (conj Hj eq_refl)) as [Hr Hu].
    assert (Z.of_nat (length (sj_payload j)) < 2 ^ 32) as Hlen.
    { unfold_encode StrictJournal_encode. repeat (apply enc_app_Some in Hj as (? & ? & _ & Hj & _)).
      apply vec_encode_Some in Hj as [Hlen _]. exact Hlen. }
    unfold_encode StrictJournal_encode. inv_reads. repeat reader_step; try done.
    all: try apply (fail_if_Ok _ _ tt).
    all: try (apply bool_decide_eq_false_2; naive_solver); try (by rewrite Z.eqb_refl).
    + by apply StatementKind_decode_Ok.
    + by apply nonempty_guard.
    + by rewrite Hu.
    + by apply typed_decode_Ok.
    + apply expect_Ok. destruct j. exact Hj.
    + by destruct j.
Qed.
Lemma verify_expected_Ok bs program k j :
  StrictJournal_verify_expected bs program k = Ok j <->
  journal_wf j /\ encode j = Some bs /\ sj_program_id j = program /\ sj_statement_kind j = k.
Proof.
  unfold StrictJournal_verify_expected. rewrite res_bind_Ok.
  setoid_rewrite decode_strict_Ok. setoid_rewrite fail_then. setoid_rewrite fail_then.
  setoid_rewrite bool_decide_eq_false. split.
  - intros (j' & [Hw Hb] & Hp & Hk & [= ->]). apply dec_stable in Hp, Hk. done.
  - intros (Hw & Hb & <- & <-). exists j. naive_solver.
Qed.
End journal.

(** ** Properties *)

Section journal_properties.
Context {H : Sha256}.

(** C38: The journal's constructors accept exactly nonempty typed payloads under a
    nonzero program: [new] builds exactly the well-formed journals,
    [decode_strict] accepts exactly the encodings of well-formed journals (so
    its final canonicity check never rejects one), [verify_expected] those of
    the expected program and kind, and [typed_payload] returns the one record
    the payload encodes. *)
Theorem journal_strict_iff :
  (forall k program payload j, StrictJournal_new k program payload = Ok j <->
     journal_wf j /\ sj_statement_kind j = k /\ sj_program_id j = program /\ sj_payload j = payload) /\
  (forall bs j, StrictJournal_decode_strict bs = Ok j <-> journal_wf j /\ encode j = Some bs) /\
  (forall bs program k j, StrictJournal_verify_expected bs program k = Ok j <->
     journal_wf j /\ encode j = Some bs /\ sj_program_id j = program /\ sj_statement_kind j = k) /\
  (forall j t, StrictJournal_typed_payload j = Ok t <->
     payload_of (sj_statement_kind j) (sj_payload j) t).
Proof.
  split; [exact StrictJournal_new_Ok|]. split; [exact decode_strict_Ok|]. split; [exact verify_expected_Ok|].
  intros j t. rewrite <- typed_decode_Ok. unfold StrictJournal_typed_payload.
  destruct (TypedPublicValues_decode _ _); naive_solver.
Qed.
End journal_properties.
