(* ===== verification/Annex.v ===== *)
(** The SP1 proof annex: [crates/usdd-proof-core/src/annex.rs].

    [Sp1ProofAnnex] is the annex of an Elements transaction that carries a proof
    and its public values.  The theorems show that [decode_strict] accepts
    exactly the canonical encodings of well-formed annexes, and what
    [verify_strict_journal] establishes about the annex and the journal in it.

    [usize] has the width of the target ([PtrWidth]). *)

From S2P Require Import Prelude Encoding Params Hashing BurnAccumulator Records Deposits Burns.
From S2P Require Import ElementsState Controller Claims Readers Journal.

Local Open Scope Z_scope.

Definition SP1_ANNEX_TAG : u8 := uint_wrap 8 0x50.
(** [*b"USDDSP1\0"] *)
Definition SP1_ANNEX_MAGIC : array 8 :=
  Array (n:=8) [x55; x53; x44; x44; x53; x50; x31; x00] eq_refl.
Definition SP1_ANNEX_HEADER_SIZE : Z := 55.
Definition SP1_ANNEX_MAX_SIZE : Z := 512 * 1024.
Definition SP1_PUBLIC_VALUES_MAX_SIZE : Z := 16 * 1024.

Record Sp1ProofAnnex : Type := MkSp1ProofAnnex {
  an_statement_kind : StatementKind;
  an_guest_program_id : Hash32;
  an_public_values : bytes;
  an_proof : bytes
}.

Inductive AnnexError : Type :=
| AnnexDecode (e : DecodeError)
| AnnexTooLarge
| AnnexTruncated
| AnnexWrongTag
| AnnexWrongMagic
| AnnexWrongVersion
| AnnexWrongProofSystem
| AnnexWrongStatementKind
| AnnexWrongDigestMode
| AnnexNonzeroFlags
| AnnexEmptyPublicValues
| AnnexPublicValuesTooLarge
| AnnexEmptyProof
| AnnexZeroGuestProgramId
| AnnexWrongGuestProgramId
| AnnexLengthMismatch
| AnnexNonCanonicalEncoding
| AnnexJournal (e : JournalError).

#[export] Instance Sp1ProofAnnex_encode : CanonicalEncode Sp1ProofAnnex := fun a =>
  encode SP1_ANNEX_TAG +++ encode SP1_ANNEX_MAGIC +++ encode (uint_wrap 8 1) +++ encode (uint_wrap 8 1)
  +++ encode (StatementKind_as_u8 (an_statement_kind a)) +++ encode (uint_wrap 8 1)
  +++ encode (uint_wrap 16 0)
  +++ match uint_try 32 (Z.of_nat (length (an_public_values a))),
            uint_try 32 (Z.of_nat (length (an_proof a))) with
      | Some public_len, Some proof_len => encode public_len +++ encode proof_len
      | _, _ => None
      end
  +++ encode (an_guest_program_id a) +++ Some (an_public_values a) +++ Some (an_proof a).

Section annex.
Context {W : PtrWidth}.

(** [a.checked_add(b)] on [usize]. *)
Definition usize_checked_add (a b : Z) : option Z :=
  s ← usize_try (a + b); Some (uval s).

(** [u32 as usize] *)
Definition u32_as_usize (x : u32) : Z := uval (uint_wrap usize_bits x).

Definition annex_size (public_values_len proof_len : Z) : option Z :=
  value ← usize_checked_add SP1_ANNEX_HEADER_SIZE public_values_len;
  usize_checked_add value proof_len.

Definition Sp1ProofAnnex_validate (a : Sp1ProofAnnex) : res AnnexError unit :=
  fail_if (bool_decide (an_guest_program_id a = ZERO)) AnnexZeroGuestProgramId;;
  fail_if (length (an_public_values a) =? 0)%nat AnnexEmptyPublicValues;;
  fail_if (SP1_PUBLIC_VALUES_MAX_SIZE <? Z.of_nat (length (an_public_values a)))
    AnnexPublicValuesTooLarge;;
  fail_if (length (an_proof a) =? 0)%nat AnnexEmptyProof;;
  size ← ok_or (annex_size (Z.of_nat (length (an_public_values a))) (Z.of_nat (length (an_proof a))))
    AnnexTooLarge;
  fail_if (SP1_ANNEX_MAX_SIZE <? size) AnnexTooLarge.

Definition Sp1ProofAnnex_new (statement_kind : StatementKind) (guest_program_id : Hash32)
    (public_values proof : bytes) : res AnnexError Sp1ProofAnnex :=
  let value := MkSp1ProofAnnex statement_kind guest_program_id public_values proof in
  fail_if (bool_decide (an_statement_kind value <> EthereumState)) AnnexWrongStatementKind;;
  Sp1ProofAnnex_validate value;;
  Ok value.

Definition annex_fields (bs : bytes) : reader AnnexError Sp1ProofAnnex :=
  tag ← convert AnnexDecode Decoder_u8;
  raise (fail_if (negb (uval tag =? SP1_ANNEX_TAG)) AnnexWrongTag);;
  magic ← convert AnnexDecode (Decoder_fixed 8);
  raise (fail_if (bool_decide (magic <> SP1_ANNEX_MAGIC)) AnnexWrongMagic);;
  version ← convert AnnexDecode Decoder_u8;
  raise (fail_if (negb (uval version =? 1)) AnnexWrongVersion);;
  proof_system ← convert AnnexDecode Decoder_u8;
  raise (fail_if (negb (uval proof_system =? 1)) AnnexWrongProofSystem);;
  kind ← convert AnnexDecode Decoder_u8;
  statement_kind ← raise (if uval kind =? 1 then Ok EthereumState else Err AnnexWrongStatementKind);
  digest_mode ← convert AnnexDecode Decoder_u8;
  raise (fail_if (negb (uval digest_mode =? 1)) AnnexWrongDigestMode);;
  flags ← convert AnnexDecode Decoder_u16;
  raise (fail_if (negb (uval flags =? 0)) AnnexNonzeroFlags);;
  public_len ← convert AnnexDecode Decoder_u32;
  proof_len ← convert AnnexDecode Decoder_u32;
  guest_program_id ← convert AnnexDecode (Decoder_fixed 32);
  expected_len ← raise (ok_or (annex_size (u32_as_usize public_len) (u32_as_usize proof_len))
                          AnnexLengthMismatch);
  raise (fail_if (negb (expected_len =? Z.of_nat (length bs))) AnnexLengthMismatch);;
  public_values ← convert AnnexDecode (Decoder_take (Z.to_nat (u32_as_usize public_len)));
  proof ← convert AnnexDecode (Decoder_take (Z.to_nat (u32_as_usize proof_len)));
  remaining ← ask_remaining;
  raise (fail_if (negb (remaining =? 0)%nat) AnnexLengthMismatch);;
  let value := MkSp1ProofAnnex statement_kind guest_program_id public_values proof in
  raise (Sp1ProofAnnex_validate value);;
  encoded ← raise (expect (encode value));
  raise (fail_if (bool_decide (encoded <> bs)) AnnexNonCanonicalEncoding);;
  mret value.

Definition Sp1ProofAnnex_decode_strict (bs : bytes) : res AnnexError Sp1ProofAnnex :=
  fail_if (SP1_ANNEX_MAX_SIZE <? Z.of_nat (length bs)) AnnexTooLarge;;
  fail_if (Z.of_nat (length bs) <? SP1_ANNEX_HEADER_SIZE) AnnexTruncated;;
  run (annex_fields bs) bs.

Definition verify_strict_journal {H : Sha256} (bs : bytes) (expected_program_id : Hash32)
    (expected_kind : StatementKind) : res AnnexError (Sp1ProofAnnex * StrictJournal) :=
  annex ← Sp1ProofAnnex_decode_strict bs;
  fail_if (bool_decide (an_statement_kind annex <> expected_kind)) AnnexWrongStatementKind;;
  fail_if (bool_decide (an_guest_program_id annex <> expected_program_id)) AnnexWrongGuestProgramId;;
  journal ← map_err AnnexJournal
    (StrictJournal_verify_expected (an_public_values annex) expected_program_id expected_kind);
  Ok (annex, journal).

(** ** What an annex is *)

Record annex_wf (a : Sp1ProofAnnex) : Prop := {
  anw_kind : an_statement_kind a = EthereumState;
  anw_program : an_guest_program_id a <> ZERO;
  anw_public : 1 <= Z.of_nat (length (an_public_values a)) <= 16384;
  anw_proof : an_proof a <> [];
  anw_size : 55 + Z.of_nat (length (an_public_values a)) + Z.of_nat (length (an_proof a)) <= 524288
}.

Context (Hwidth : 32 <= Zpos usize_bits).

Lemma usize_room : 2 ^ 32 <= 2 ^ Zpos usize_bits.
Proof. apply Z.pow_le_mono_r; lia. Qed.

Lemma u32_as_usize_val (x : u32) : u32_as_usize x = x.
Proof.
  unfold u32_as_usize. pose proof usize_room. pose proof (uint_range x). rewrite uval_wrap_small by lia. done.
Qed.

Lemma annex_size_Some (p q : nat) (s : Z) :
  annex_size (Z.of_nat p) (Z.of_nat q) = Some s <->
  s = 55 + Z.of_nat p + Z.of_nat q /\ s < 2 ^ Zpos usize_bits.
Proof.
  unfold annex_size, usize_checked_add, usize_try, SP1_ANNEX_HEADER_SIZE.
  destruct (uint_try usize_bits (55 + Z.of_nat p)) as [x|] eqn:Ex; cbn.
  - apply uint_try_Some in Ex. rewrite Ex.
    destruct (uint_try usize_bits (55 + Z.of_nat p + Z.of_nat q)) as [y|] eqn:Ey; cbn.
    + apply uint_try_Some in Ey. pose proof (uint_range y). split; [intros [= <-]; lia|intros [-> _]; congruence].
    + apply uint_try_None in Ey. split; [done|lia].
  - apply uint_try_None in Ex. split; [done|lia].
Qed.

Lemma annex_validate_Ok a :
  an_statement_kind a = EthereumState /\ Sp1ProofAnnex_validate a = Ok tt <-> annex_wf a.
Proof.
  unfold Sp1ProofAnnex_validate, SP1_PUBLIC_VALUES_MAX_SIZE, SP1_ANNEX_MAX_SIZE. pose proof usize_room.
  rewrite !fail_then, bool_decide_eq_false, !nonempty_guard, Z.ltb_ge, res_bind_Ok.
  setoid_rewrite ok_or_Ok. setoid_rewrite fail_if_Ok. setoid_rewrite Z.ltb_ge.
  setoid_rewrite annex_size_Some. split.
  - intros (Hk & Hp & He & Hl & Hq & s & [-> _] & Hs). assert (length (an_public_values a) <> 0%nat) by (by destruct (an_public_values a)).
    split; try done; lia.
  - intros [Hk Hp Hl Hq Hs]. do 2 (split; [done|]). split; [intros E; rewrite E in Hl; cbn in Hl; lia|].
    split; [lia|]. split; [done|]. eexists. split; [split; [reflexivity|lia]|lia].
Qed.

(** The encoding of a well-formed annex, its two lengths made explicit. *)
Lemma annex_encode_fields a : annex_wf a -> exists p q : u32,
  uval p = Z.of_nat (length (an_public_values a)) /\ uval q = Z.of_nat (length (an_proof a)) /\
  encode a = encode SP1_ANNEX_TAG +++ encode SP1_ANNEX_MAGIC +++ encode (uint_wrap 8 1)
    +++ encode (uint_wrap 8 1) +++ encode (StatementKind_as_u8 EthereumState) +++ encode (uint_wrap 8 1)
    +++ encode (uint_wrap 16 0) +++ (encode p +++ encode q) +++ encode (an_guest_program_id a)
    +++ Some (an_public_values a) +++ Some (an_proof a).
Proof.
  intros [Hk _ Hl _ Hs]. unfold_encode Sp1ProofAnnex_encode. rewrite Hk.
  destruct (uint_try 32 (Z.of_nat (length (an_public_values a)))) as [p|] eqn:Ep;
    [|apply uint_try_None in Ep; lia].
  destruct (uint_try 32 (Z.of_nat (length (an_proof a)))) as [q|] eqn:Eq;
    [|apply uint_try_None in Eq; lia].
  apply uint_try_Some in Ep, Eq. by exists p, q.
Qed.

Lemma annex_encode_length a bs : annex_wf a -> encode a = Some bs ->
  Z.of_nat (length bs) = 55 + Z.of_nat (length (an_public_values a)) + Z.of_nat (length (an_proof a)).
Proof.
  intros Hw. destruct (annex_encode_fields a Hw) as (p & q & _ & _ & ->).
  unfold encode, array_encode, u8_encode, u16_encode, u32_encode. cbn [enc_app].
  intros E. apply (inj Some) in E as <-.
  rewrite !length_app, !arr_length, !length_be_bytes. lia.
Qed.

Lemma annex_decode_Ok bs a :
  Sp1ProofAnnex_decode_strict bs = Ok a <-> annex_wf a /\ encode a = Some bs.
Proof.
  unfold Sp1ProofAnnex_decode_strict, annex_fields. dec_fold. rewrite !fail_then, !Z.ltb_ge. split.
  - intros (_ & _ & Ha). inv_reader.
    match goal with E : expect _ = Ok _ |- _ => apply expect_Ok in E as Henc end.
    match goal with E : fail_if (bool_decide (?e <> bs)) _ = Ok _ |- _ =>
      apply fail_if_Ok, bool_decide_eq_false, dec_stable in E as -> end.
    split; [|done]. apply annex_validate_Ok. split; [|done]. cbn [an_statement_kind].
    match goal with E : (if _ then Ok EthereumState else _) = Ok _ |- _ => revert E; case_match; naive_solver end.
  - intros [Hw Hb]. pose proof (annex_encode_length a bs Hw Hb) as Hlen.
    pose proof (proj2 (reads_whole _ _ _) (conj Hb eq_refl)) as [Hr Hu]. pose proof usize_room.
    destruct (annex_encode_fields a Hw) as (p & q & Hp & Hq & Ha). rewrite Ha in Hr.
    pose proof Hw as [Hk Hpr Hl Hne Hs]. unfold SP1_ANNEX_MAX_SIZE, SP1_ANNEX_HEADER_SIZE.
    assert (MkSp1ProofAnnex EthereumState (an_guest_program_id a) (an_public_values a) (an_proof a) = a)
      as Ea by (destruct a; cbn in *; by subst).
    split; [lia|]. split; [lia|]. inv_reads. repeat reader_step; try done.
    all: try apply (fail_if_Ok _ _ tt); try (by rewrite Z.eqb_refl).
    all: try (apply bool_decide_eq_false_2; naive_solver).
    + apply ok_or_Ok. rewrite !u32_as_usize_val, Hp, Hq. apply annex_size_Some. lia.
    + rewrite u32_as_usize_val, Hp. lia.
    + rewrite u32_as_usize_val, Hq. lia.
    + by rewrite Hu.
    + rewrite Ea. by apply annex_validate_Ok.
    + rewrite Ea. by apply expect_Ok.
Qed.
End annex.

(** ** Properties *)

Section annex_properties.
Context {W : PtrWidth} {H : Sha256}.

(** On a target whose [usize] has at least 32 bits, [decode_strict] accepts
    exactly the encodings of well-formed annexes (an inbound statement, a
    nonzero program, 1 to 16384 bytes of public values, a nonempty proof, at
    most 512 KiB in all), [new] builds exactly those, and
    [verify_strict_journal] succeeds exactly when the public values are the
    encoding of a well-formed journal of the same, expected program and kind; an
    outbound kind is never accepted. *)
Theorem annex_strict_iff (Hwidth : 32 <= Zpos usize_bits) :
  (forall bs a, Sp1ProofAnnex_decode_strict bs = Ok a <-> annex_wf a /\ encode a = Some bs) /\
  (forall k program public proof a, Sp1ProofAnnex_new k program public proof = Ok a <->
     annex_wf a /\ a = MkSp1ProofAnnex k program public proof) /\
  (forall bs program k a j, verify_strict_journal bs program k = Ok (a, j) <->
     annex_wf a /\ encode a = Some bs /\ journal_wf j /\ encode j = Some (an_public_values a) /\
     an_guest_program_id a = program /\ sj_program_id j = program /\
     k = EthereumState /\ sj_statement_kind j = EthereumState).
Proof.
  split; [by intros; apply annex_decode_Ok|]. split.
  - intros k program public proof a. unfold Sp1ProofAnnex_new. cbn zeta.
    rewrite fail_then, bool_decide_eq_false, res_bind_Ok. cbn [an_statement_kind].
    rewrite <- (annex_validate_Ok Hwidth a). split.
    + intros (Hk & [] & Hv & [= <-]). apply dec_stable in Hk. done.
    + intros ([Hk Hv] & ->). cbn [an_statement_kind] in Hk. split; [naive_solver|]. by exists tt.
  - intros bs program k a j. unfold verify_strict_journal. rewrite res_bind_Ok.
    pose proof verify_expected_Ok as Hj.
    setoid_rewrite (annex_decode_Ok Hwidth). split.
    + intros (a' & [Hw Hb] & Hr). inv_ok.
      repeat match goal with N : ~ (_ <> _) |- _ => apply dec_stable in N end.
      match goal with E : StrictJournal_verify_expected _ _ _ = Ok _ |- _ =>
        apply Hj in E as (Hjw & Hje & Hjp & Hjk) end.
      pose proof (anw_kind _ Hw). naive_solver congruence.
    + intros (Hw & Hb & Hjw & Hje & Hp & Hjp & -> & Hjk). exists a. split; [done|].
      rewrite (anw_kind _ Hw), Hp, !bool_decide_eq_false_2 by naive_solver.
      cbn [fail_if mbind res_bind]. by rewrite (proj2 (Hj _ _ _ _) (conj Hjw (conj Hje (conj Hjp Hjk)))).
Qed.
End annex_properties.

(** A concrete annex around a heartbeat of the sample controller. *)
Definition sample_heartbeat_output : HeartbeatPublicOutput :=
  MkHeartbeatPublicOutput (array_rep 32 x08) (array_rep 32 x09) sample_controller
    (advanced sample_controller (sample_finality 200 x40) (uint_wrap 64 7) (uint_wrap 64 0))
    (uint_wrap 64 1).
Definition sample_annex : option Sp1ProofAnnex :=
  payload ← encode sample_heartbeat_output;
  journal ← match @StrictJournal_new toy_sha256 EthereumState (array_rep 32 x07) payload with
            | Ok j => Some j
            | _ => None
            end;
  public ← encode journal;
  Some (MkSp1ProofAnnex EthereumState (array_rep 32 x07) public [x09; x08; x07]).
Definition sample_annex_bytes : bytes := default [] (sample_annex ≫= encode).

Lemma annex_strict_iff_witness :
  32 <= Zpos (usize_bits (PtrWidth:=64%positive)) /\
  exists a j, @verify_strict_journal 64%positive toy_sha256 sample_annex_bytes (array_rep 32 x07) EthereumState
    = Ok (a, j) /\ annex_wf a /\ encode j = Some (an_public_values a).
Proof.
  assert (32 <= Zpos (usize_bits (PtrWidth:=64%positive))) as Hw by (vm_compute; discriminate).
  split; [exact Hw|].
  destruct (@annex_strict_iff 64%positive toy_sha256 Hw) as (_ & _ & Hv).
  destruct (@verify_strict_journal 64%positive toy_sha256 sample_annex_bytes (array_rep 32 x07) EthereumState)
    as [[a j]|e|] eqn:E; [|exfalso; vm_compute in E; discriminate E..].
  exists a, j. split; [reflexivity|]. apply Hv in E as (Ha & _ & _ & Hj & _). split; [exact Ha|exact Hj].
Defined.
