(* ===== verification/Totality.v ===== *)
(** No input makes a decoder panic.

    Every decoder of the protocol runs on bytes an adversary chooses, inside
    proof guests and consensus code.  [NoPanic] is the interface a record's
    decoder promises; it is discharged here for every record, for the typed
    journal payloads, and for the two strict envelopes, whose own [expect]s are
    shown unreachable. *)

From S2P Require Import Prelude Encoding Params Hashing BurnAccumulator Merkle Records Deposits Burns.
From S2P Require Import ElementsState Controller ManifestFile Claims Readers Journal Annex.

Local Open Scope Z_scope.

Definition never {E A : Type} (r : res E A) : Prop := r <> Panic.

Lemma never_errs {E A : Type} (r : res E A) : never r <-> errs_in (fun _ => True) r.
Proof. destruct r; cbn; unfold never; naive_solver. Qed.

Lemma never_bind {E A B : Type} (m : res E A) (f : A -> res E B) :
  never m -> (forall a, m = Ok a -> never (f a)) -> never (m ≫= f).
Proof. unfold never. destruct m; cbn; naive_solver. Qed.

Lemma never_fail_if {E : Type} (b : bool) (e : E) : never (fail_if b e).
Proof. by destruct b. Qed.

Lemma never_map_err {E F A : Type} (f : E -> F) (m : res E A) : never m -> never (map_err f m).
Proof. by destruct m. Qed.

Class NoPanic (A : Type) `{CanonicalDecode A} : Prop := decode_never : forall d, never (decode_from (A:=A) d).

(** A reader program that cannot panic, wherever it starts. *)
Definition calm {A : Type} (m : dec A) : Prop := forall d, never (m d).

Lemma calm_bind {A B : Type} (m : dec A) (f : A -> dec B) :
  calm m -> (forall a, calm (f a)) -> calm (@mbind dec dec_bind A B f m).
Proof.
  intros Hm Hf d. unfold mbind, dec_bind. specialize (Hm d).
  destruct (m d) as [[a d']| |]; [apply Hf|done|done].
Qed.
Lemma calm_ret {A : Type} (a : A) : calm (@mret dec dec_ret A a).
Proof. done. Qed.
Lemma calm_lift {A : Type} (r : res DecodeError A) : never r -> calm (lift r).
Proof. intros Hr d. unfold lift. by destruct r. Qed.
Lemma calm_checked {A : Type} (validate : A -> res DecodeError unit) (x : A) :
  never (validate x) -> calm (checked validate x).
Proof. intros Hv. apply calm_bind; [by apply calm_lift|done]. Qed.
Lemma calm_take n : calm (Decoder_take n).
Proof. intros d. apply take_not_panic. Qed.
Lemma calm_fixed n : calm (Decoder_fixed n).
Proof.
  intros d. unfold Decoder_fixed, mbind, dec_bind. destruct (Decoder_take n d) as [[bs d']| |] eqn:E; [|done|].
  - apply take_spec in E as (Hl & _ & _). destruct (array_try_length n bs Hl) as (a & -> & _). done.
  - by apply take_not_panic in E.
Qed.
Lemma calm_uint (m : dec bytes) {A : Type} (f : bytes -> A) : calm m -> calm (bs ← m; mret (f bs)).
Proof. intros Hm. by apply calm_bind. Qed.
Lemma calm_u8 : calm Decoder_u8.
Proof. intros d. rewrite u8_reader. apply (calm_uint _ _ (calm_take 1)). Qed.
Lemma calm_u16 : calm Decoder_u16.
Proof. apply calm_bind; [apply calm_fixed|done]. Qed.
Lemma calm_u32 : calm Decoder_u32.
Proof. apply calm_bind; [apply calm_fixed|done]. Qed.
Lemma calm_u64 : calm Decoder_u64.
Proof. apply calm_bind; [apply calm_fixed|done]. Qed.
Lemma calm_seq {A : Type} `{NoPanic A} n : calm (decode_seq (A:=A) n).
Proof.
  induction n as [|n IH]; [done|]. cbn [decode_seq].
  apply calm_bind; [exact decode_never|]. intros x. apply calm_bind; [done|]. intros xs. done.
Qed.
Lemma calm_header tag : calm (decode_header tag).
Proof.
  unfold decode_header. apply calm_bind; [apply calm_u16|]. intros s.
  apply calm_bind; [apply calm_lift, never_fail_if|]. intros _.
  apply calm_bind; [apply calm_u16|]. intros t. apply calm_lift, never_fail_if.
Qed.
Lemma calm_proof_header tag : calm (proof_decode_header tag).
Proof.
  unfold proof_decode_header. apply calm_bind; [apply calm_u16|]. intros s.
  apply calm_bind; [apply calm_lift, never_fail_if|]. intros _.
  apply calm_bind; [apply calm_u16|]. intros t. apply calm_lift, never_fail_if.
Qed.

Create HintDb calm.
#[export] Hint Resolve calm_u8 calm_u16 calm_u32 calm_u64 calm_take calm_fixed calm_ret calm_header calm_proof_header calm_seq : calm.
#[export] Hint Extern 1 (calm decode_from) => exact decode_never : calm.

(** Walk through a reader program, leaving its validations. *)
Ltac calm_step :=
  lazymatch goal with
  | |- calm (@mbind _ _ _ _ _ _) => apply calm_bind; [|intros ?]
  | |- calm (lift (fail_if _ _)) => apply calm_lift, never_fail_if
  | |- calm (lift (Err _)) => by apply calm_lift
  | |- calm (lift _) => apply calm_lift
  | |- calm (checked _ _) => apply calm_checked
  | |- calm (if ?b then _ else _) => destruct b
  | |- calm Decoder_bytes => unfold Decoder_bytes
  | |- calm _ => solve [auto with calm typeclass_instances]
  end.


(** Validations made of guards only. *)
Ltac never_guards := apply never_errs; errs; try done.

#[export] Instance OutPoint_calm : NoPanic OutPoint.
Proof. change (calm OutPoint_decode). unfold OutPoint_decode. repeat calm_step. Qed.
#[export] Instance Hash32_calm n : NoPanic (array n).
Proof. exact (calm_fixed n). Qed.

#[export] Instance VaultDeposit_calm : NoPanic VaultDeposit.
Proof.
  change (calm VaultDeposit_decode). unfold VaultDeposit_decode. repeat calm_step.
  unfold VaultDeposit_validate; never_guards.
Qed.
#[export] Instance EthereumFinalityWitness_calm : NoPanic EthereumFinalityWitness.
Proof.
  change (calm EthereumFinalityWitness_decode). unfold EthereumFinalityWitness_decode.
  repeat calm_step. unfold EthereumFinalityWitness_validate; never_guards.
Qed.

Lemma MintOutput_never o : never (MintOutput_validate o).
Proof. unfold MintOutput_validate; never_guards. Qed.
Lemma MintBatch_never b : never (MintBatch_validate b).
Proof.
  unfold MintBatch_validate; never_guards. unfold MintBatch_validate_step. errs; try done.
  apply never_errs, MintOutput_never.
Qed.
#[export] Instance MintOutput_calm : NoPanic MintOutput.
Proof. change (calm MintOutput_decode). unfold MintOutput_decode. repeat calm_step. apply MintOutput_never. Qed.
#[export] Instance MintBatch_calm : NoPanic MintBatch.
Proof. change (calm MintBatch_decode). unfold MintBatch_decode. repeat calm_step. apply MintBatch_never. Qed.

#[export] Instance Burn_calm : NoPanic Burn.
Proof. change (calm Burn_decode). unfold Burn_decode. repeat calm_step. unfold Burn_validate; never_guards. Qed.
#[export] Instance BurnPayload_calm : NoPanic BurnPayload.
Proof.
  change (calm BurnPayload_decode). unfold BurnPayload_decode. repeat calm_step.
  unfold BurnPayload_validate; never_guards.
Qed.
#[export] Instance ElementsEventKind_calm : NoPanic ElementsEventKind.
Proof. change (calm ElementsEventKind_decode). unfold ElementsEventKind_decode. repeat calm_step. Qed.
#[export] Instance ElementsEvent_calm : NoPanic ElementsEvent.
Proof.
  change (calm ElementsEvent_decode). unfold ElementsEvent_decode. repeat calm_step.
  unfold ElementsEvent_validate; never_guards.
Qed.

Lemma MintControllerState_never s : never (MintControllerState_validate s).
Proof. unfold MintControllerState_validate; never_guards. case_match; errs; done. Qed.
#[export] Instance MintControllerState_calm : NoPanic MintControllerState.
Proof.
  change (calm MintControllerState_decode). unfold MintControllerState_decode. repeat calm_step.
  apply MintControllerState_never.
Qed.

#[export] Instance BurnProof_calm : NoPanic BurnProof.
Proof.
  change (calm BurnProof_decode). intros d. unfold BurnProof_decode, mbind, dec_bind.
  destruct (decode_seq BURN_ACCUMULATOR_DEPTH d) as [[l d']| |] eqn:E; [|done|].
  - apply decode_seq_spec in E as [[Hl _] _]. destruct (BurnProof_try_length l Hl) as (p & -> & _). done.
  - by apply (calm_seq (A:=Hash32)) in E.
Qed.
#[export] Instance MerkleProof_calm : NoPanic MerkleProof.
Proof. change (calm MerkleProof_decode). unfold MerkleProof_decode. repeat calm_step. Qed.

Section hashing_decoders.
Context {H : Sha256}.

#[export] Instance SolidityBurnClaim_calm : NoPanic SolidityBurnClaim.
Proof.
  change (calm SolidityBurnClaim_decode). unfold SolidityBurnClaim_decode. repeat calm_step.
  unfold SolidityBurnClaim_validate; never_guards.
Qed.

Lemma ElementsState_never s : never (ElementsState_validate s).
Proof.
  unfold ElementsState_validate; never_guards. case_match; [done|]. errs; [done|].
  rewrite empty_Ok by lia. case_match; errs; done.
Qed.
#[export] Instance ElementsState_calm : NoPanic SolidityElementsBridgeState.
Proof.
  change (calm ElementsState_decode). unfold ElementsState_decode. repeat calm_step. apply ElementsState_never.
Qed.

Lemma manifest_never m : never (ProtocolManifest_validate m).
Proof.
  unfold ProtocolManifest_validate; never_guards.
  - unfold nonzero_hash. errs. done.
  - apply errs_in_expect. destruct (configuration_total m) as [h ->]. by eexists.
  - apply errs_in_expect. destruct (verifier_total m) as [h ->]. by eexists.
Qed.
#[export] Instance ProtocolManifest_calm : NoPanic ProtocolManifest.
Proof.
  change (calm ProtocolManifest_decode). unfold ProtocolManifest_decode. repeat calm_step.
  apply never_map_err, manifest_never.
Qed.

Lemma from_deposits_never ds : never (MintBatch_from_deposits ds).
Proof. pose proof (from_deposits_errors ds) as He. intros E. by rewrite E in He. Qed.

Lemma DepositPublicOutput_never o : never (DepositPublicOutput_validate o).
Proof.
  unfold DepositPublicOutput_validate; never_guards; apply never_errs;
    [apply MintControllerState_never..|apply MintBatch_never].
Qed.
Lemma HeartbeatPublicOutput_never o : never (HeartbeatPublicOutput_validate o).
Proof. unfold HeartbeatPublicOutput_validate; never_guards; apply never_errs, MintControllerState_never. Qed.
Lemma ElementsStatePublicOutput_never o : never (ElementsStatePublicOutput_validate o).
Proof.
  unfold ElementsStatePublicOutput_validate, ElementsState_validate_successor; never_guards;
    apply never_errs, ElementsState_never.
Qed.

#[export] Instance BurnAppend_calm : NoPanic BurnAppend.
Proof. change (calm BurnAppend_decode). unfold BurnAppend_decode. repeat calm_step. Qed.
#[export] Instance EthereumHeartbeatClaim_calm : NoPanic EthereumHeartbeatClaim.
Proof.
  change (calm EthereumHeartbeatClaim_decode). unfold EthereumHeartbeatClaim_decode. repeat calm_step.
  unfold EthereumHeartbeatClaim_validate, EthereumFinalityWitness_validate; never_guards.
  apply never_errs, MintControllerState_never.
Qed.
#[export] Instance EthereumDepositClaim_calm : NoPanic EthereumDepositClaim.
Proof.
  change (calm EthereumDepositClaim_decode). unfold EthereumDepositClaim_decode. repeat calm_step.
  unfold EthereumDepositClaim_validate, EthereumFinalityWitness_validate; never_guards;
    apply never_errs; [apply MintControllerState_never|apply from_deposits_never].
Qed.
#[export] Instance ElementsStateTransitionClaim_calm : NoPanic ElementsStateTransitionClaim.
Proof.
  change (calm ElementsStateTransitionClaim_decode). unfold ElementsStateTransitionClaim_decode.
  repeat calm_step.
Qed.
#[export] Instance DepositPublicOutput_calm : NoPanic DepositPublicOutput.
Proof.
  change (calm DepositPublicOutput_decode). unfold DepositPublicOutput_decode. repeat calm_step.
  apply DepositPublicOutput_never.
Qed.
#[export] Instance HeartbeatPublicOutput_calm : NoPanic HeartbeatPublicOutput.
Proof.
  change (calm HeartbeatPublicOutput_decode). unfold HeartbeatPublicOutput_decode. repeat calm_step.
  apply HeartbeatPublicOutput_never.
Qed.
#[export] Instance ElementsStatePublicOutput_calm : NoPanic ElementsStatePublicOutput.
Proof.
  change (calm ElementsStatePublicOutput_decode). unfold ElementsStatePublicOutput_decode.
  repeat calm_step. apply ElementsStatePublicOutput_never.
Qed.

Lemma decode_exact_never {A : Type} `{NoPanic A} bs : never (decode_exact (A:=A) bs).
Proof.
  unfold decode_exact. pose proof (decode_never (A:=A) (Decoder_new bs)) as Hd.
  destruct (decode_from (Decoder_new bs)) as [[x d]| |]; [by case_match|done|done].
Qed.

(** ** The strict envelopes *)

Definition steady {E A : Type} (m : reader E A) : Prop := forall d, never (m d).

Lemma steady_bind {E A B : Type} (m : reader E A) (f : A -> reader E B) :
  steady m -> (forall a d d', m d = Ok (a, d') -> steady (f a)) -> steady (m ≫= f).
Proof.
  intros Hm Hf d. unfold mbind, reader_bind. specialize (Hm d).
  destruct (m d) as [[a d']| |] eqn:Em; [by apply (Hf a d d')|done|done].
Qed.
Lemma steady_raise {E A : Type} (r : res E A) : never r -> steady (raise r).
Proof. intros Hr d. unfold raise. by destruct r. Qed.
Lemma steady_convert {E A : Type} (from : DecodeError -> E) (m : dec A) : calm m -> steady (convert from m).
Proof. intros Hm d. unfold convert, map_err. specialize (Hm d). by destruct (m d). Qed.
Lemma run_never {E A : Type} (m : reader E A) bs : steady m -> never (run m bs).
Proof. intros Hm. unfold run. specialize (Hm (Decoder_new bs)). by destruct (m (Decoder_new bs)) as [[a d]| |]. Qed.

Lemma typed_decode_never k payload : never (TypedPublicValues_decode k payload).
Proof.
  unfold TypedPublicValues_decode. destruct k.
  - pose proof (decode_exact_never (A:=DepositPublicOutput) payload).
    pose proof (decode_exact_never (A:=HeartbeatPublicOutput) payload).
    by repeat case_match.
  - pose proof (decode_exact_never (A:=ElementsStatePublicOutput) payload) as Hd.
    by destruct (decode_exact (A:=ElementsStatePublicOutput) payload).
Qed.

Ltac steady_step :=
  lazymatch goal with
  | |- steady (@mbind _ _ _ _ _ _) => apply steady_bind; [|intros ? ? ? ?]
  | |- steady (raise (fail_if _ _)) => apply steady_raise, never_fail_if
  | |- steady (raise (ok_or ?o _)) => apply steady_raise; by destruct o
  | |- steady (raise _) => apply steady_raise
  | |- steady (convert _ _) => apply steady_convert; repeat calm_step
  | |- steady (mret _) => done
  | |- steady ask_remaining => done
  end.

Lemma StrictJournal_decode_strict_never bs : never (StrictJournal_decode_strict bs).
Proof.
  apply run_never. unfold decode_strict_fields. repeat steady_step.
  - unfold StatementKind_decode. by repeat case_match.
  - apply typed_decode_never.
  - match goal with R : convert _ Decoder_bytes _ = Ok (?p, _) |- _ =>
      apply convert_Ok in R; change Decoder_bytes with (@decode_from bytes vec_decode) in R;
      apply codec_spec in R as [Hp _]; destruct (codec_total (A:=bytes) p Hp) as (q & Hq) end.
    unfold_encode StrictJournal_encode. cbn [sj_payload]. by rewrite Hq.
Qed.

Lemma annex_validate_never `{PtrWidth} a : never (Sp1ProofAnnex_validate a).
Proof. unfold Sp1ProofAnnex_validate; never_guards. Qed.

Lemma Sp1ProofAnnex_decode_strict_never `{PtrWidth} (Hwidth : 32 <= Zpos usize_bits) bs :
  never (Sp1ProofAnnex_decode_strict bs).
Proof.
  unfold Sp1ProofAnnex_decode_strict. apply never_bind; [apply never_fail_if|]. intros _ _.
  apply never_bind; [apply never_fail_if|]. intros _ _.
  apply run_never. unfold annex_fields. repeat steady_step.
  - by case_match.
  - apply annex_validate_never.
  - repeat match goal with R : convert _ (Decoder_take _) _ = Ok _ |- _ =>
      apply convert_Ok, take_spec in R as [R _]; rewrite (u32_as_usize_val Hwidth) in R end.
    unfold_encode Sp1ProofAnnex_encode. cbn [an_public_values an_proof].
    repeat match goal with R : length ?p = Z.to_nat (uval ?n) |- _ =>
      pose proof (uint_range n); rewrite R, Z2Nat.id by lia; rewrite (proj2 (uint_try_Some 32 n n) eq_refl);
      clear R end.
    done.
Qed.
End hashing_decoders.

(** ** Property *)

Section never_panics.
Context {H : Sha256} {W : PtrWidth}.

(** C30: On no input does a decoder of the protocol panic: not the record decoders
    (inbound, outbound, states, proofs, manifest, claims, public outputs) and,
    where [usize] has at least 32 bits, not the strict journal and annex
    decoders, whose re-encoding of what they read always succeeds. *)
Theorem decoders_never_panic (Hwidth : 32 <= Zpos usize_bits) (bs : bytes) :
  (decode_exact (A:=VaultDeposit) bs <> Panic /\ decode_exact (A:=EthereumFinalityWitness) bs <> Panic /\
   decode_exact (A:=MintBatch) bs <> Panic /\ decode_exact (A:=MintControllerState) bs <> Panic) /\
  (decode_exact (A:=Burn) bs <> Panic /\ decode_exact (A:=BurnPayload) bs <> Panic /\
   decode_exact (A:=SolidityBurnClaim) bs <> Panic /\ decode_exact (A:=ElementsEvent) bs <> Panic /\
   decode_exact (A:=SolidityElementsBridgeState) bs <> Panic) /\
  (decode_exact (A:=BurnProof) bs <> Panic /\ decode_exact (A:=MerkleProof) bs <> Panic /\
   decode_exact (A:=ProtocolManifest) bs <> Panic) /\
  (decode_exact (A:=EthereumDepositClaim) bs <> Panic /\
   decode_exact (A:=EthereumHeartbeatClaim) bs <> Panic /\
   decode_exact (A:=ElementsStateTransitionClaim) bs <> Panic) /\
  (decode_exact (A:=DepositPublicOutput) bs <> Panic /\ decode_exact (A:=HeartbeatPublicOutput) bs <> Panic /\
   decode_exact (A:=ElementsStatePublicOutput) bs <> Panic) /\
  (forall k, TypedPublicValues_decode k bs <> Panic) /\
  StrictJournal_decode_strict bs <> Panic /\ Sp1ProofAnnex_decode_strict bs <> Panic /\
  (forall program k, verify_strict_journal bs program k <> Panic).
Proof.
  repeat (split; [repeat (split; [apply decode_exact_never|]); apply decode_exact_never|]).
  split; [intros k; apply typed_decode_never|]. split; [apply StrictJournal_decode_strict_never|].
  split; [by apply Sp1ProofAnnex_decode_strict_never|]. intros program k.
  unfold verify_strict_journal, StrictJournal_verify_expected.
  apply never_bind; [by apply Sp1ProofAnnex_decode_strict_never|]. intros a _.
  apply never_bind; [apply never_fail_if|]. intros _ _. apply never_bind; [apply never_fail_if|]. intros _ _.
  apply never_bind; [|done]. apply never_map_err, never_bind; [apply StrictJournal_decode_strict_never|].
  intros j _. apply never_bind; [apply never_fail_if|]. intros _ _.
  apply never_bind; [apply never_fail_if|done].
Qed.
End never_panics.

Lemma decoders_never_panic_witness :
  32 <= Zpos (usize_bits (PtrWidth:=64%positive)) /\
  @Sp1ProofAnnex_decode_strict 64%positive sample_annex_bytes <> Panic.
Proof.
  assert (32 <= Zpos (usize_bits (PtrWidth:=64%positive))) as Hw by (vm_compute; discriminate).
  split; [exact Hw|].
  destruct (@decoders_never_panic toy_sha256 64%positive Hw sample_annex_bytes)
    as (_ & _ & _ & _ & _ & _ & _ & Ha & _). exact Ha.
Defined.
