(* ===== verification/Guest.v ===== *)
(** The proof guests: [crates/usdd-proof-core/src/guest.rs].

    [build_deposit_journal] and [build_heartbeat_journal] turn an Ethereum claim
    into a journal for the Elements controller, [build_elements_state_journal] an
    Elements claim into a journal for the Ethereum vault.  The verifiers of the
    underlying chains are the two traits of the file, here classes.  The theorems
    give the exact acceptance condition and journal of each builder (for the
    Elements builder against the Solidity side, [VaultContract]) and show that
    accepted Elements transitions maintain, step by step, the accumulator of all
    burns ever appended. *)

From S2P Require Import Prelude Encoding Params Hashing BurnAccumulator Records Deposits Burns.
From S2P Require Import VaultContract ElementsState Controller ManifestFile Claims Readers Journal.

Local Open Scope Z_scope.

Inductive VerificationError : Type := InvalidProof (message : string).

Class EthereumStateProofVerifier (Proof : Type) : Type := {
  verify_finalized_deposits :
    ProtocolManifest -> EthereumDepositClaim -> Proof -> res VerificationError unit;
  verify_finalized_heartbeat :
    ProtocolManifest -> EthereumHeartbeatClaim -> Proof -> res VerificationError unit
}.

Class ElementsValidityProofVerifier (Proof : Type) : Type := {
  verify_elements_state_transition :
    ProtocolManifest -> ElementsStateTransitionClaim -> Proof -> res VerificationError unit
}.

Definition ELEMENTS_STATE_DOMAIN : Hash32 := Array (n:=32)
  [x33; x60; x66; x45; xc4; x53; x27; x8a; xa6; x4c; x7b; x45; xb3; xf1; x76; x05;
   xcf; x89; x15; x56; xe0; x07; xfc; xfc; x5b; x9b; x1d; xaa; xe4; xf6; x4d; x5b] eq_refl.
Definition ELEMENTS_STATEMENT_DOMAIN : Hash32 := Array (n:=32)
  [xe3; x7b; xee; x57; xc2; x73; xe8; x57; x55; x23; x3d; x97; x2a; xff; xf1; x8d;
   xfe; x20; x82; x34; xea; xb0; x44; xe5; x88; xee; xc5; x32; x9f; x3e; x8d; xa6] eq_refl.

Inductive GuestError : Type :=
| InvalidManifest
| ManifestMismatch
| InvalidControllerState
| ConfigurationMismatch
| DepositTargetsWrongVault
| DepositNonceNotNext
| InvalidDepositBatch
| InvalidControllerTransition
| InvalidBurn
| BurnTargetsWrongAssetOrVault
| InvalidElementsStateTransition
| ActivationChainworkNotReached
| BurnAccumulatorMismatch
| VerifierRejected (e : VerificationError)
| GuestJournal (e : JournalError).

(** [result.map_err(|_| e)?] *)
Definition or_fail {E F A : Type} (e : F) (m : res E A) : res F A := map_err (fun _ => e) m.

Section guest.
Context {H : Sha256}.

(** [manifest.validate()] and then [manifest.manifest_id()]. *)
Definition checked_manifest_id (manifest : ProtocolManifest) : res GuestError Hash32 :=
  or_fail InvalidManifest (ProtocolManifest_validate manifest);;
  or_fail InvalidManifest (ProtocolManifest_manifest_id manifest).

Definition deposit_target_step (manifest : ProtocolManifest) (_ : nat) (deposit : VaultDeposit)
    (_ : unit) : res GuestError unit :=
  fail_if (negb (vd_ethereum_chain_id deposit =? pm_ethereum_chain_id manifest)
           || bool_decide (vd_vault deposit <> pm_vault manifest)
           || bool_decide (vd_usdt deposit <> pm_usdt manifest)) DepositTargetsWrongVault.

Definition build_deposit_journal {Proof : Type} `{EthereumStateProofVerifier Proof}
    (manifest : ProtocolManifest) (claim : EthereumDepositClaim) (proof : Proof)
    : res GuestError StrictJournal :=
  manifest_id ← checked_manifest_id manifest;
  fail_if (bool_decide (dc_manifest_id claim <> manifest_id)) ManifestMismatch;;
  or_fail InvalidControllerState (MintControllerState_validate (dc_prior_state claim));;
  fail_if (bool_decide (mc_configuration_hash (dc_prior_state claim)
                        <> pm_controller_configuration_hash manifest)) ConfigurationMismatch;;
  res_foldi (deposit_target_step manifest) 0 (dc_deposits claim) tt;;
  mint_batch ← or_fail InvalidDepositBatch (MintBatch_from_deposits (dc_deposits claim));
  fail_if (negb (mb_first_nonce mint_batch =? mc_next_mint_nonce (dc_prior_state claim)))
    DepositNonceNotNext;;
  next_state ← or_fail InvalidControllerTransition
    (apply_mint_batch (dc_prior_state claim) mint_batch (dc_finality claim));
  map_err VerifierRejected (verify_finalized_deposits manifest claim proof);;
  claim_id ← expect (EthereumDepositClaim_claim_id claim);
  payload ← expect (encode (MkDepositPublicOutput manifest_id claim_id (dc_prior_state claim)
    next_state (fw_execution_block_timestamp (dc_finality claim)) mint_batch));
  map_err GuestJournal
    (StrictJournal_new EthereumState (pm_ethereum_guest_program_id manifest) payload).

Definition build_heartbeat_journal {Proof : Type} `{EthereumStateProofVerifier Proof}
    (manifest : ProtocolManifest) (claim : EthereumHeartbeatClaim) (proof : Proof)
    : res GuestError StrictJournal :=
  manifest_id ← checked_manifest_id manifest;
  fail_if (bool_decide (hc_manifest_id claim <> manifest_id)) ManifestMismatch;;
  fail_if (bool_decide (mc_configuration_hash (hc_prior_state claim)
                        <> pm_controller_configuration_hash manifest)) ConfigurationMismatch;;
  next_state ← or_fail InvalidControllerTransition
    (apply_heartbeat (hc_prior_state claim) (hc_finality claim));
  map_err VerifierRejected (verify_finalized_heartbeat manifest claim proof);;
  claim_id ← expect (EthereumHeartbeatClaim_claim_id claim);
  payload ← expect (encode (MkHeartbeatPublicOutput manifest_id claim_id (hc_prior_state claim)
    next_state (fw_execution_block_timestamp (hc_finality claim))));
  map_err GuestJournal
    (StrictJournal_new EthereumState (pm_ethereum_guest_program_id manifest) payload).

(** One iteration of the burn loop, on the running root. *)
Definition append_burn_step (manifest : ProtocolManifest) (prior_burn_count : u64)
    (empty_leaf : Hash32) (offset : nat) (append : BurnAppend) (root : Hash32)
    : res GuestError Hash32 :=
  or_fail InvalidBurn (Burn_validate (bap_burn append));;
  fail_if (bool_decide (bu_vault_id (bap_burn append) <> pm_vault_id manifest)
           || bool_decide (bu_usdd_asset (bap_burn append) <> pm_usdd_asset manifest))
    BurnTargetsWrongAssetOrVault;;
  index ← ok_or (checked_add prior_burn_count (uint_wrap 64 (Z.of_nat offset)))
    InvalidElementsStateTransition;
  fail_if (negb (BurnProof_verify (bap_empty_branch append) root empty_leaf index))
    BurnAccumulatorMismatch;;
  leaf ← or_fail InvalidBurn (SolidityBurnClaim_burn_leaf
    (Burn_solidity_claim (bap_burn append) (pm_elements_genesis manifest)) index);
  Ok (BurnProof_compute_root (bap_empty_branch append) leaf index).

(** The 96 bytes hashed into the next bridge state and the 372 bytes hashed into
    the statement the vault checks. *)
Definition next_state_preimage (claim : ElementsStateTransitionClaim) (next_contents_hash : Hash32) : bytes :=
  ELEMENTS_STATE_DOMAIN ++ tc_prior_bridge_state_hash claim ++ next_contents_hash.

Definition statement_preimage (manifest : ProtocolManifest) (claim : ElementsStateTransitionClaim)
    (current_contents_hash next_bridge_state_hash next_contents_hash : Hash32) : bytes :=
  ELEMENTS_STATEMENT_DOMAIN ++ u256_of_u64 (pm_ethereum_chain_id manifest) ++ pm_vault manifest
  ++ pm_vault_id manifest ++ pm_elements_guest_program_id manifest ++ pm_verifier_config_hash manifest
  ++ pm_elements_genesis manifest ++ pm_usdd_asset manifest ++ tc_prior_bridge_state_hash claim
  ++ current_contents_hash ++ next_bridge_state_hash ++ next_contents_hash.

(** The public output built after all checks. *)
Definition elements_output (manifest : ProtocolManifest) (manifest_id claim_id : Hash32)
    (claim : ElementsStateTransitionClaim) : ElementsStatePublicOutput :=
  let current_contents_hash := ElementsState_contents_hash (tc_prior_state claim) in
  let next_contents_hash := ElementsState_contents_hash (tc_next_state claim) in
  let next_bridge_state_hash := hash_bytes (next_state_preimage claim next_contents_hash) in
  let verifier_statement := hash_bytes (statement_preimage manifest claim current_contents_hash
                                          next_bridge_state_hash next_contents_hash) in
  MkElementsStatePublicOutput manifest_id claim_id (tc_prior_bridge_state_hash claim)
    next_bridge_state_hash verifier_statement (tc_prior_state claim) (tc_next_state claim).

Definition build_elements_state_journal {Proof : Type} `{ElementsValidityProofVerifier Proof}
    (manifest : ProtocolManifest) (claim : ElementsStateTransitionClaim) (proof : Proof)
    : res GuestError StrictJournal :=
  let prior := tc_prior_state claim in
  let next := tc_next_state claim in
  manifest_id ← checked_manifest_id manifest;
  fail_if (bool_decide (tc_manifest_id claim <> manifest_id)) ManifestMismatch;;
  fail_if (negb (Bool.eqb (ElementsState_is_zero prior)
                   (bool_decide (tc_prior_bridge_state_hash claim = ZERO))))
    InvalidElementsStateTransition;;
  or_fail InvalidElementsStateTransition (ElementsState_validate_successor prior next);;
  fail_if (bool_decide (tc_prior_bridge_state_hash claim = ZERO)
           && array_ltb (es_bitcoin_chainwork next) (pm_minimum_activation_chainwork manifest))
    ActivationChainworkNotReached;;
  append_count ← ok_or (uint_try 64 (Z.of_nat (length (tc_appended_burns claim))))
    InvalidElementsStateTransition;
  expected_burn_count ← ok_or (checked_add (es_burn_count prior) append_count)
    InvalidElementsStateTransition;
  fail_if (negb (es_burn_count next =? uval expected_burn_count)) InvalidElementsStateTransition;;
  root ← (if ElementsState_is_zero prior
          then or_fail InvalidElementsStateTransition (burn_accumulator_empty 64)
          else Ok (es_cumulative_burn_root prior));
  empty_leaf ← or_fail InvalidElementsStateTransition (burn_accumulator_empty 0);
  root ← res_foldi (append_burn_step manifest (es_burn_count prior) empty_leaf) 0
           (tc_appended_burns claim) root;
  fail_if (bool_decide (root <> es_cumulative_burn_root next)) BurnAccumulatorMismatch;;
  map_err VerifierRejected (verify_elements_state_transition manifest claim proof);;
  claim_id ← expect (ElementsStateTransitionClaim_claim_id claim);
  payload ← expect (encode (elements_output manifest manifest_id claim_id claim));
  map_err GuestJournal
    (StrictJournal_new ElementsStateKind (pm_elements_guest_program_id manifest) payload).
End guest.

(** ** Which journals the builders can emit *)

Lemma or_fail_Ok {E F A : Type} (e : F) (m : res E A) a : or_fail e m = Ok a <-> m = Ok a.
Proof. unfold or_fail. by rewrite map_err_Ok. Qed.

(** After [inv_ok]: drop the error of [or_fail] and double negations. *)
Ltac clean_guest :=
  repeat match goal with
  | E : or_fail _ _ = Ok _ |- _ => apply or_fail_Ok in E
  | N : ~ (_ <> _) |- _ => apply dec_stable in N
  end.

(** Run a builder past a guard or a result that is known. *)
Ltac guest_step :=
  cbn [mbind res_bind or_fail map_err expect ok_or fail_if negb];
  repeat (rewrite bool_decide_eq_false_2 by (intros Hne; by apply Hne);
          cbn [mbind res_bind fail_if orb]).

Section guest_facts.
Context {H : Sha256}.

Definition journal_with (k : StatementKind) (program : Hash32) (payload : bytes) : StrictJournal :=
  MkStrictJournal k program (hash_bytes payload) payload.

Lemma new_journal_Ok k program payload j :
  program <> ZERO -> payload <> [] ->
  StrictJournal_new k program payload = Ok j <->
  (exists t, payload_of k payload t) /\ j = journal_with k program payload.
Proof.
  intros Hp He. rewrite StrictJournal_new_Ok. split.
  - intros ([_ _ Hd Ht] & <- & <- & <-). split; [done|]. unfold journal_with. rewrite <- Hd. by destruct j.
  - intros [[t Ht] ->]. split; [|done]. split; try done. by exists t.
Qed.

Lemma headed_nonempty tag p bs : proof_encode_header tag +++ p = Some bs -> bs <> [].
Proof. intros Hh%header_prefix ->. vm_compute in Hh. by destruct (be_bytes 2 tag) eqn:E;
  [apply (f_equal length) in E; rewrite length_be_bytes in E|]. Qed.

(** The encoding of an output of valid parts is a typed payload exactly when the
    output validates. *)
Lemma deposit_payload o payload :
  MintControllerState_validate (dpo_prior_state o) = Ok tt ->
  MintControllerState_validate (dpo_next_state o) = Ok tt ->
  MintBatch_validate (dpo_mint_batch o) = Ok tt -> encode o = Some payload ->
  (exists t, payload_of EthereumState payload t) <-> DepositPublicOutput_validate o = Ok tt.
Proof.
  intros Hp Hn Hb Eo. split; [|intros Hv; by exists (TypedDeposit o)].
  intros [[v|v|v] Ht]; [|exfalso|done]; destruct Ht as [Hv Ev].
  - by rewrite (deposit_output_encode_inj o v payload).
  - apply (header_differs _ _ _ _ payload Eo) in Ev. vm_compute in Ev. discriminate Ev.
Qed.

Lemma heartbeat_payload o payload :
  MintControllerState_validate (hpo_prior_state o) = Ok tt ->
  MintControllerState_validate (hpo_next_state o) = Ok tt -> encode o = Some payload ->
  (exists t, payload_of EthereumState payload t) <-> HeartbeatPublicOutput_validate o = Ok tt.
Proof.
  intros Hp Hn Eo. split; [|intros Hv; by exists (TypedHeartbeat o)].
  intros [[v|v|v] Ht]; [exfalso| |done]; destruct Ht as [Hv Ev].
  - apply (header_differs _ _ _ _ payload Eo) in Ev. vm_compute in Ev. discriminate Ev.
  - by rewrite (heartbeat_output_encode_inj o v payload).
Qed.

Lemma elements_payload o payload :
  ElementsState_validate (epo_prior_state o) = Ok tt ->
  ElementsState_validate (epo_next_state o) = Ok tt -> encode o = Some payload ->
  (exists t, payload_of ElementsStateKind payload t) <-> ElementsStatePublicOutput_validate o = Ok tt.
Proof.
  intros Hp Hn Eo. split; [|intros Hv; by exists (TypedElementsState o)].
  intros [[v|v|v] Ht]; [done..|]. destruct Ht as [Hv Ev].
  by rewrite (elements_output_encode_inj o v payload).
Qed.

(** ** What the manifest checks give *)

Lemma checked_manifest_id_Ok m id : checked_manifest_id m = Ok id <-> ProtocolManifest_manifest_id m = Ok id.
Proof.
  unfold checked_manifest_id. rewrite res_bind_Ok. setoid_rewrite or_fail_Ok. split.
  - by intros (_ & _ & ?).
  - intros Hm. exists tt. split; [|done]. unfold ProtocolManifest_manifest_id in Hm. by inv_ok.
Qed.

Lemma manifest_hash_nonzero m id name h :
  ProtocolManifest_manifest_id m = Ok id -> (name, h) ∈ manifest_hashes m -> h <> ZERO.
Proof.
  intros Hm Hin. assert (ProtocolManifest_validate m = Ok tt) as Hv
    by (unfold ProtocolManifest_manifest_id in Hm; by inv_ok).
  apply manifest_validate_Ok in Hv as (_ & _ & Hz). rewrite Forall_forall in Hz. by apply (Hz (name, h)).
Qed.

Lemma manifest_programs_nonzero m id :
  ProtocolManifest_manifest_id m = Ok id ->
  pm_ethereum_guest_program_id m <> ZERO /\ pm_elements_guest_program_id m <> ZERO /\
  pm_elements_genesis m <> ZERO.
Proof.
  intros Hm. split; [|split].
  - apply (manifest_hash_nonzero m id "ethereum_guest_program_id" _ Hm). unfold manifest_hashes. set_solver.
  - apply (manifest_hash_nonzero m id "elements_guest_program_id" _ Hm). unfold manifest_hashes. set_solver.
  - apply (manifest_hash_nonzero m id "elements_genesis" _ Hm). unfold manifest_hashes. set_solver.
Qed.

Definition deposit_targets (m : ProtocolManifest) (d : VaultDeposit) : Prop :=
  vd_ethereum_chain_id d = pm_ethereum_chain_id m /\ vd_vault d = pm_vault m /\ vd_usdt d = pm_usdt m.

Lemma deposit_targets_Ok m i ds :
  res_foldi (deposit_target_step m) i ds tt = Ok tt <-> Forall (deposit_targets m) ds.
Proof.
  revert i. induction ds as [|d ds IH]; intros i; cbn [res_foldi]; [split; [constructor|done]|].
  rewrite Forall_cons, res_bind_Ok. unfold deposit_target_step at 1, deposit_targets at 1.
  setoid_rewrite fail_if_Ok. setoid_rewrite orb_false_iff. setoid_rewrite orb_false_iff.
  setoid_rewrite bool_decide_eq_false. setoid_rewrite negb_false_iff. setoid_rewrite Z.eqb_eq. split.
  - intros ([] & [[Hc Hv] Hu] & Hr). apply dec_stable in Hv, Hu. split; [|by apply IH in Hr].
    split; [by apply uint_eq|done].
  - intros [(-> & -> & ->) Hr]. exists tt. split; [|by apply IH]. naive_solver.
Qed.
End guest_facts.

(** ** Claims towards Elements *)

Section ethereum_guest.
Context {H : Sha256} {Proof : Type} {V : EthereumStateProofVerifier Proof}.

(** What makes a deposit claim acceptable, with the values the guest computes. *)
Record deposit_accepted (m : ProtocolManifest) (c : EthereumDepositClaim) (proof : Proof)
    (o : DepositPublicOutput) : Prop := {
  dga_manifest : ProtocolManifest_manifest_id m = Ok (dc_manifest_id c);
  dga_manifest_out : dpo_manifest_id o = dc_manifest_id c;
  dga_configuration :
    mc_configuration_hash (dc_prior_state c) = pm_controller_configuration_hash m;
  dga_target : Forall (deposit_targets m) (dc_deposits c);
  dga_batch : MintBatch_from_deposits (dc_deposits c) = Ok (dpo_mint_batch o);
  dga_prior : dpo_prior_state o = dc_prior_state c;
  dga_transition :
    apply_mint_batch (dc_prior_state c) (dpo_mint_batch o) (dc_finality c) = Ok (dpo_next_state o);
  dga_verified : verify_finalized_deposits m c proof = Ok tt;
  dga_claim : EthereumDepositClaim_claim_id c = Some (dpo_claim_id o);
  dga_time : dpo_finalized_execution_block_timestamp o = fw_execution_block_timestamp (dc_finality c);
  dga_identified : output_identified (dpo_manifest_id o) (dpo_claim_id o)
                     (dpo_finalized_execution_block_timestamp o)
}.

Record heartbeat_accepted (m : ProtocolManifest) (c : EthereumHeartbeatClaim) (proof : Proof)
    (o : HeartbeatPublicOutput) : Prop := {
  hga_manifest : ProtocolManifest_manifest_id m = Ok (hc_manifest_id c);
  hga_manifest_out : hpo_manifest_id o = hc_manifest_id c;
  hga_configuration :
    mc_configuration_hash (hc_prior_state c) = pm_controller_configuration_hash m;
  hga_prior : hpo_prior_state o = hc_prior_state c;
  hga_transition : apply_heartbeat (hc_prior_state c) (hc_finality c) = Ok (hpo_next_state o);
  hga_verified : verify_finalized_heartbeat m c proof = Ok tt;
  hga_claim : EthereumHeartbeatClaim_claim_id c = Some (hpo_claim_id o);
  hga_time : hpo_finalized_execution_block_timestamp o = fw_execution_block_timestamp (hc_finality c);
  hga_identified : output_identified (hpo_manifest_id o) (hpo_claim_id o)
                     (hpo_finalized_execution_block_timestamp o)
}.

Lemma mint_parts s b f next :
  apply_mint_batch s b f = Ok next ->
  MintControllerState_validate s = Ok tt /\ MintControllerState_validate next = Ok tt /\
  MintBatch_validate b = Ok tt /\ mb_first_nonce b = mc_next_mint_nonce s.
Proof.
  intros Ha. pose proof (controller_step_spec s (Mint b f) next Ha) as (Hs & Hn & _).
  apply apply_mint_batch_Ok in Ha as (_ & Hb & _ & Hf & _). by rewrite MintBatch_validate_Ok.
Qed.

Lemma build_deposit_Ok m c proof j :
  build_deposit_journal m c proof = Ok j <->
  exists o payload, deposit_accepted m c proof o /\ encode o = Some payload /\
    j = journal_with EthereumState (pm_ethereum_guest_program_id m) payload.
Proof.
  unfold build_deposit_journal. split.
  - intros Hb. apply res_bind_Ok in Hb as (id & Hid%checked_manifest_id_Ok & Hb).
    destruct (manifest_programs_nonzero m id Hid) as (Hp & _). inv_ok.
    clean_guest. subst.
    match goal with T : res_foldi _ _ _ _ = Ok _ |- _ => rename T into Hx2 end.
    match goal with A : apply_mint_batch _ _ _ = Ok _ |- _ => rename A into Ha end.
    match goal with P : encode _ = Some ?q |- _ => rename P into Hpay, q into payload end.
    destruct (mint_parts _ _ _ _ Ha) as (V1 & V2 & V3 & _).
    pose proof (headed_nonempty _ _ _ Hpay) as Hne.
    apply (new_journal_Ok _ _ _ _ Hp Hne) in Hb as [Ht ->].
    match type of Hpay with encode ?o = _ => apply (deposit_payload o _ V1 V2 V3 Hpay) in Ht end.
    eexists _, payload. split; [|split; [exact Hpay|reflexivity]].
    split; try done; [by apply deposit_targets_Ok in Hx2|].
    by apply (deposit_output_valid _ (dc_finality c)) in Ht.
  - intros ([o1 o2 o3 o4 o5 o6] & payload & [Hm Hmo Hc Ht Hb Hp Ha Hv Hcl Hti Hi] & Eo & ->).
    cbn [dpo_manifest_id dpo_claim_id dpo_prior_state dpo_next_state
         dpo_finalized_execution_block_timestamp dpo_mint_batch] in *. subst o1 o3 o5.
    destruct (mint_parts _ _ _ _ Ha) as (V1 & V2 & V3 & Hn).
    destruct (manifest_programs_nonzero m _ Hm) as (Hp & _).
    rewrite (proj2 (checked_manifest_id_Ok m _) Hm). guest_step. rewrite V1. guest_step.
    rewrite (proj2 (deposit_targets_Ok m 0 (dc_deposits c)) Ht). guest_step.
    rewrite Hb. guest_step. rewrite Hn, Z.eqb_refl. guest_step. rewrite Ha. guest_step.
    rewrite Hv. guest_step. rewrite Hcl. guest_step.
    rewrite Eo. guest_step.
    apply map_err_Ok, new_journal_Ok; [done|by eapply headed_nonempty|]. split; [|done].
    apply (deposit_payload (MkDepositPublicOutput _ _ _ _ _ _) _ V1 V2 V3 Eo).
    by apply (deposit_output_valid (MkDepositPublicOutput _ _ _ _ _ _) _ Ha).
Qed.

Lemma heartbeat_parts s f next :
  apply_heartbeat s f = Ok next ->
  MintControllerState_validate s = Ok tt /\ MintControllerState_validate next = Ok tt.
Proof. intros Ha. by pose proof (controller_step_spec s (Heartbeat f) next Ha) as (Hs & Hn & _). Qed.

Lemma build_heartbeat_Ok m c proof j :
  build_heartbeat_journal m c proof = Ok j <->
  exists o payload, heartbeat_accepted m c proof o /\ encode o = Some payload /\
    j = journal_with EthereumState (pm_ethereum_guest_program_id m) payload.
Proof.
  unfold build_heartbeat_journal. split.
  - intros Hb. apply res_bind_Ok in Hb as (id & Hid%checked_manifest_id_Ok & Hb).
    destruct (manifest_programs_nonzero m id Hid) as (Hp & _). inv_ok.
    clean_guest. subst.
    match goal with A : apply_heartbeat _ _ = Ok _ |- _ => rename A into Ha end.
    match goal with P : encode _ = Some ?q |- _ => rename P into Hpay, q into payload end.
    destruct (heartbeat_parts _ _ _ Ha) as (V1 & V2).
    pose proof (headed_nonempty _ _ _ Hpay) as Hne.
    apply (new_journal_Ok _ _ _ _ Hp Hne) in Hb as [Ht ->].
    match type of Hpay with encode ?o = _ => apply (heartbeat_payload o _ V1 V2 Hpay) in Ht end.
    eexists _, payload. split; [|split; [exact Hpay|reflexivity]].
    split; try done. by apply (heartbeat_output_valid _ (hc_finality c)) in Ht.
  - intros ([o1 o2 o3 o4 o5] & payload & [Hm Hmo Hc Hp Ha Hv Hcl Hti Hi] & Eo & ->).
    cbn [hpo_manifest_id hpo_claim_id hpo_prior_state hpo_next_state
         hpo_finalized_execution_block_timestamp] in *. subst o1 o3 o5.
    destruct (heartbeat_parts _ _ _ Ha) as (V1 & V2).
    destruct (manifest_programs_nonzero m _ Hm) as (Hp & _).
    rewrite (proj2 (checked_manifest_id_Ok m _) Hm). guest_step.
    rewrite Ha. guest_step. rewrite Hv. guest_step. rewrite Hcl. guest_step.
    rewrite Eo. guest_step.
    apply map_err_Ok, new_journal_Ok; [done|by eapply headed_nonempty|]. split; [|done].
    apply (heartbeat_payload (MkHeartbeatPublicOutput _ _ _ _ _) _ V1 V2 Eo).
    by apply (heartbeat_output_valid (MkHeartbeatPublicOutput _ _ _ _ _) _ Ha).
Qed.
End ethereum_guest.

(** ** Claims towards Ethereum *)

Section elements_guest.
Context {H : Sha256}.

(** The leaves that a list of appended burns adds from position [index] on. *)
Fixpoint burn_leaves (m : ProtocolManifest) (index : nat) (appends : list BurnAppend) : list Hash32 :=
  match appends with
  | [] => []
  | a :: appends =>
      hash_bytes (burn_leaf_preimage (Burn_solidity_claim (bap_burn a) (pm_elements_genesis m))
                    (uint_wrap 64 (Z.of_nat index)))
      :: burn_leaves m (S index) appends
  end.

(** An appended burn that is valid, of this manifest, and has a leaf. *)
Definition burn_admitted (m : ProtocolManifest) (index : nat) (a : BurnAppend) : Prop :=
  Burn_validate (bap_burn a) = Ok tt /\ bu_vault_id (bap_burn a) = pm_vault_id m /\
  bu_usdd_asset (bap_burn a) = pm_usdd_asset m /\ Z.of_nat index < 2 ^ 64 /\
  is_Some (match SolidityBurnClaim_burn_leaf (Burn_solidity_claim (bap_burn a) (pm_elements_genesis m))
                   (uint_wrap 64 (Z.of_nat index)) with Ok h => Some h | _ => None end).

(** One of the appended burns carries a colliding proof of emptiness. *)
Definition append_collision (m : ProtocolManifest) (leaves : list Hash32) (index : nat)
    (appends : list BurnAppend) : Prop :=
  exists pre a post, appends = pre ++ a :: post /\
    proof_collision (leaves ++ burn_leaves m index pre) 0 (bp_siblings (bap_empty_branch a))
      (hash_bytes [x00]) (uint_wrap 64 (Z.of_nat (index + length pre))).

Lemma burn_leaves_length m index appends : length (burn_leaves m index appends) = length appends.
Proof. revert index. induction appends; intros index; cbn; [done|by rewrite IHappends]. Qed.

Lemma burn_leaves_app m index a b :
  burn_leaves m index (a ++ b) = burn_leaves m index a ++ burn_leaves m (index + length a) b.
Proof.
  revert index. induction a as [|x a IH]; intros index; cbn [app burn_leaves length];
    [by rewrite Nat.add_0_r|]. rewrite IH. by rewrite <- Nat.add_succ_comm.
Qed.

Lemma burn_leaves_lookup m index appends i :
  burn_leaves m index appends !! i =
  (fun a => hash_bytes (burn_leaf_preimage (Burn_solidity_claim (bap_burn a) (pm_elements_genesis m))
              (uint_wrap 64 (Z.of_nat (index + i))))) <$> appends !! i.
Proof.
  revert index i. induction appends as [|a appends IH]; intros index [|i]; cbn; [done..| |].
  - by rewrite Nat.add_0_r.
  - rewrite IH. by rewrite <- Nat.add_succ_comm.
Qed.

Lemma burn_leaf_Ok c i h :
  SolidityBurnClaim_burn_leaf c i = Ok h ->
  SolidityBurnClaim_validate c = Ok tt /\ h = hash_bytes (burn_leaf_preimage c i).
Proof. unfold SolidityBurnClaim_burn_leaf. intros Hc. by inv_ok. Qed.

Lemma append_burn_step_Ok m (count : u64) offset a root root' :
  append_burn_step m count (hash_bytes [x00]) offset a root = Ok root' ->
  Z.of_nat offset < 2 ^ 64 ->
  let index := (Z.to_nat count + offset)%nat in
  burn_admitted m index a /\
  BurnProof_verify (bap_empty_branch a) root (hash_bytes [x00]) (uint_wrap 64 (Z.of_nat index)) = true /\
  root' = BurnProof_compute_root (bap_empty_branch a)
    (hash_bytes (burn_leaf_preimage (Burn_solidity_claim (bap_burn a) (pm_elements_genesis m))
       (uint_wrap 64 (Z.of_nat index)))) (uint_wrap 64 (Z.of_nat index)).
Proof.
  intros Ha Hoff index. unfold append_burn_step in Ha. inv_ok. clean_guest.
  match goal with I : checked_add _ _ = Some ?i |- _ => apply checked_add_Some in I; rename i into idx, I into Hi end.
  rewrite (uval_wrap_small 64) in Hi by lia. pose proof (uint_range count). pose proof (uint_range idx).
  assert (idx = uint_wrap 64 (Z.of_nat index)) as Hidx.
  { apply uint_eq. rewrite uval_wrap_small; unfold index; lia. }
  match goal with L : SolidityBurnClaim_burn_leaf _ _ = Ok _ |- _ => rename L into Hleaf end.
  rewrite <- Hidx. split; [|split; [done|]].
  - split; [done|]. split; [done|]. split; [done|]. split; [unfold index; lia|].
    rewrite <- Hidx, Hleaf. by eexists.
  - by apply burn_leaf_Ok in Hleaf as [_ <-].
Qed.

Lemma append_loop_admitted m (count : u64) offset appends root root' :
  res_foldi (append_burn_step m count (hash_bytes [x00])) offset appends root = Ok root' ->
  Z.of_nat (offset + length appends) <= 2 ^ 64 ->
  forall i a, appends !! i = Some a -> burn_admitted m (Z.to_nat count + offset + i) a.
Proof.
  revert offset root. induction appends as [|x appends IH]; intros offset root; cbn [res_foldi length]; [done|].
  intros (r & Hr & Hrest)%res_bind_Ok Hl i a Hi.
  apply append_burn_step_Ok in Hr as (Hadm & _ & _); [|lia]. destruct i as [|i]; cbn in Hi.
  - injection Hi as <-. by rewrite Nat.add_0_r.
  - replace (Z.to_nat count + offset + S i)%nat with (Z.to_nat count + S offset + i)%nat by lia.
    by apply (IH (S offset) r Hrest ltac:(lia)).
Qed.

Lemma append_collision_cons m leaves index a appends :
  append_collision m (leaves ++ burn_leaves m index [a]) (S index) appends ->
  append_collision m leaves index (a :: appends).
Proof.
  intros (pre & x & post & -> & Hc). exists (a :: pre), x, post. split; [done|].
  cbn [burn_leaves length app] in *. rewrite <- app_assoc in Hc. cbn [app] in Hc.
  by rewrite Nat.add_succ_r, <- Nat.add_succ_l.
Qed.

Lemma append_loop_root m (count : u64) offset appends leaves root' :
  res_foldi (append_burn_step m count (hash_bytes [x00])) offset appends (subtree leaves 64 0) = Ok root' ->
  Z.of_nat (offset + length appends) <= 2 ^ 64 -> length leaves = (Z.to_nat count + offset)%nat ->
  root' = subtree (leaves ++ burn_leaves m (Z.to_nat count + offset) appends) 64 0 \/
  append_collision m leaves (Z.to_nat count + offset) appends.
Proof.
  revert offset leaves. induction appends as [|a appends IH]; intros offset leaves; cbn [res_foldi length].
  - intros [= <-] _ _. left. by rewrite app_nil_r.
  - intros (r & Hr & Hrest)%res_bind_Ok Hl Hlen.
    apply append_burn_step_Ok in Hr as ((_ & _ & _ & Hi & _) & Hv & ->); [|lia].
    set (index := (Z.to_nat count + offset)%nat) in *.
    destruct (append_by_proof leaves (bap_empty_branch a)
      (hash_bytes (burn_leaf_preimage (Burn_solidity_claim (bap_burn a) (pm_elements_genesis m))
         (uint_wrap 64 (Z.of_nat index)))) (uint_wrap 64 (Z.of_nat index)) Hv) as [E|Hc].
    { rewrite uval_wrap_small, Hlen; lia. }
    + rewrite E in Hrest. apply IH in Hrest; [|lia|rewrite length_app, Hlen; cbn; lia].
      replace (Z.to_nat count + S offset)%nat with (S index) in Hrest by (unfold index; lia).
      rewrite <- app_assoc in Hrest. destruct Hrest as [->|Hc]; [by left|right].
      by apply append_collision_cons.
    + right. exists [], a, appends. cbn [app burn_leaves length]. rewrite app_nil_r, Nat.add_0_r. done.
Qed.

(** The state commits to a list of leaves: their number, and their tree's root. *)
Definition commits_to (leaves : list Hash32) (s : SolidityElementsBridgeState) : Prop :=
  uval (es_burn_count s) = Z.of_nat (length leaves) /\
  (ElementsState_is_zero s = false -> es_cumulative_burn_root s = subtree leaves 64 0).

Lemma zero_state_count s : ElementsState_is_zero s = true -> uval (es_burn_count s) = 0.
Proof. unfold ElementsState_is_zero. rewrite !andb_true_iff, !Z.eqb_eq. tauto. Qed.

(** The identifiers and hashes an Elements output must show. *)
Definition elements_identified (o : ElementsStatePublicOutput) : Prop :=
  epo_manifest_id o <> ZERO /\ epo_claim_id o <> ZERO /\
  epo_next_bridge_state_hash o <> ZERO /\ epo_verifier_statement o <> ZERO.

(** What makes a transition claim acceptable. *)
Record elements_accepted {Proof : Type} `{ElementsValidityProofVerifier Proof} (m : ProtocolManifest)
    (c : ElementsStateTransitionClaim) (proof : Proof) (claim_id : Hash32) : Prop := {
  ega_manifest : ProtocolManifest_manifest_id m = Ok (tc_manifest_id c);
  ega_start : ElementsState_is_zero (tc_prior_state c) = true <-> tc_prior_bridge_state_hash c = ZERO;
  ega_successor : ElementsState_validate_successor (tc_prior_state c) (tc_next_state c) = Ok tt;
  ega_work : tc_prior_bridge_state_hash c = ZERO ->
    be_val (pm_minimum_activation_chainwork m) <= be_val (es_bitcoin_chainwork (tc_next_state c));
  ega_count : uval (es_burn_count (tc_next_state c))
    = es_burn_count (tc_prior_state c) + Z.of_nat (length (tc_appended_burns c));
  ega_root : res_foldi (append_burn_step m (es_burn_count (tc_prior_state c)) (hash_bytes [x00])) 0
      (tc_appended_burns c)
      (if ElementsState_is_zero (tc_prior_state c) then subtree [] 64 0
       else es_cumulative_burn_root (tc_prior_state c))
    = Ok (es_cumulative_burn_root (tc_next_state c));
  ega_verified : verify_elements_state_transition m c proof = Ok tt;
  ega_claim : ElementsStateTransitionClaim_claim_id c = Some claim_id;
  ega_identified : elements_identified (elements_output m (tc_manifest_id c) claim_id c)
}.

Lemma eqb_guard (b : bool) (P : Prop) `{Decision P} :
  negb (Bool.eqb b (bool_decide P)) = false <-> (b = true <-> P).
Proof.
  rewrite negb_false_iff, Bool.eqb_true_iff.
  destruct (decide P) as [HP|HP]; [rewrite bool_decide_eq_true_2 by done|rewrite bool_decide_eq_false_2 by done];
    destruct b; naive_solver.
Qed.

Lemma array_ltb_false {n} (a b : array n) : array_ltb a b = false <-> be_val b <= be_val a.
Proof. rewrite <- not_true_iff_false, array_ltb_iff. lia. Qed.

Lemma elements_output_valid m c claim_id :
  (ElementsState_is_zero (tc_prior_state c) = true <-> tc_prior_bridge_state_hash c = ZERO) ->
  ElementsState_validate_successor (tc_prior_state c) (tc_next_state c) = Ok tt ->
  let o := elements_output m (tc_manifest_id c) claim_id c in
  ElementsStatePublicOutput_validate o = Ok tt <-> elements_identified o.
Proof.
  intros Hz Hs o. unfold ElementsStatePublicOutput_validate, elements_identified.
  rewrite fail_then, !orb_false_iff, !bool_decide_eq_false, eqb_guard.
  subst o. cbn [elements_output epo_prior_state epo_next_state epo_prior_bridge_state_hash]. tauto.
Qed.

(** Open the builder with the roots of its two empty trees computed. *)
Ltac open_elements_builder c :=
  unfold build_elements_state_journal; cbn zeta; pose proof (uint_range (es_burn_count (tc_prior_state c)));
  rewrite !empty_Ok by lia; change (empty_loop 0) with (hash_bytes [x00]); rewrite <- (subtree_nil 64 0);
  replace (if ElementsState_is_zero (tc_prior_state c)
           then or_fail InvalidElementsStateTransition (Ok (subtree [] 64 0))
           else Ok (es_cumulative_burn_root (tc_prior_state c)))
    with (Ok (E:=GuestError) (if ElementsState_is_zero (tc_prior_state c) then subtree [] 64 0
              else es_cumulative_burn_root (tc_prior_state c))) by (by destruct (ElementsState_is_zero _));
  set (root0 := if ElementsState_is_zero (tc_prior_state c) then _ else _).

Lemma build_elements_sound {Proof : Type} `{ElementsValidityProofVerifier Proof} m c (proof : Proof) j :
  build_elements_state_journal m c proof = Ok j ->
  exists claim_id payload, elements_accepted m c proof claim_id /\
    encode (elements_output m (tc_manifest_id c) claim_id c) = Some payload /\
    j = journal_with ElementsStateKind (pm_elements_guest_program_id m) payload.
Proof.
  open_elements_builder c. intros Hb. apply res_bind_Ok in Hb as (id & Hid%checked_manifest_id_Ok & Hb).
  destruct (manifest_programs_nonzero m id Hid) as (_ & Hp & _).
  apply fail_then in Hb as [Hmid%bool_decide_eq_false%dec_stable Hb].
  apply fail_then in Hb as [Hz%eqb_guard Hb].
  apply res_bind_Ok in Hb as ([] & Hs%or_fail_Ok & Hb).
  apply fail_then in Hb as [Hw Hb]. inv_ok. clean_guest. try subst id.
  match goal with P : encode _ = Some ?q |- _ => rename P into Hpay, q into payload end.
  apply (new_journal_Ok _ _ _ _ Hp (headed_nonempty _ _ _ Hpay)) in Hb as [Ht ->].
  destruct (proj1 (validate_successor_Ok _ _) Hs) as [Vp Vn _ _ _ _ _ _ _ _ _].
  match goal with C : ElementsStateTransitionClaim_claim_id c = Some ?cid |- _ =>
    rename C into Hcid, cid into claim_id end.
  match type of Hpay with encode ?o = _ =>
    apply (elements_payload o payload Vp Vn Hpay), (elements_output_valid m c claim_id Hz Hs) in Ht end.
  exists claim_id, payload. split; [|done]. split; try done.
  + intros E. apply andb_false_iff in Hw as [Hw|Hw]; [by apply bool_decide_eq_false in Hw|].
    by apply array_ltb_false.
  + match goal with U : uint_try 64 _ = Some _, A : checked_add _ _ = Some _ |- _ =>
      apply uint_try_Some in U; apply checked_add_Some in A end. congruence.
  + fold root0. congruence.
Qed.

Lemma build_elements_complete {Proof : Type} `{ElementsValidityProofVerifier Proof} m c (proof : Proof) claim_id payload :
  elements_accepted m c proof claim_id ->
  encode (elements_output m (tc_manifest_id c) claim_id c) = Some payload ->
  build_elements_state_journal m c proof
    = Ok (journal_with ElementsStateKind (pm_elements_guest_program_id m) payload).
Proof.
  open_elements_builder c. intros [Hm Hz Hs Hw Hc Hr Hv Hcl Hi] Eo.
  destruct (manifest_programs_nonzero m _ Hm) as (_ & Hp & _).
  destruct (proj1 (validate_successor_Ok _ _) Hs) as [Vp Vn _ _ _ _ _ _ _ _ _].
  pose proof (uint_range (es_burn_count (tc_next_state c))).
  rewrite (proj2 (checked_manifest_id_Ok m _) Hm). guest_step.
  apply fail_then. split; [apply bool_decide_eq_false_2; by intros Hne; apply Hne|].
  apply fail_then. split; [by apply eqb_guard|]. rewrite Hs. guest_step.
  apply fail_then. split.
  { apply andb_false_iff. destruct (decide (tc_prior_bridge_state_hash c = ZERO)) as [E|E];
      [right; by apply array_ltb_false, Hw|left; by apply bool_decide_eq_false]. }
  rewrite (proj2 (uint_try_Some 64 (Z.of_nat (length (tc_appended_burns c)))
    (uint_wrap 64 (Z.of_nat (length (tc_appended_burns c)))))) by (rewrite uval_wrap_small; lia).
  guest_step. rewrite (proj2 (checked_add_Some _ _ (es_burn_count (tc_next_state c))))
    by (rewrite (uval_wrap_small 64); [exact Hc|lia]).
  guest_step. rewrite Z.eqb_refl. guest_step. fold root0 in Hr. rewrite Hr. guest_step.
  rewrite Hv. guest_step. rewrite Hcl. guest_step. rewrite Eo. guest_step.
  apply map_err_Ok, new_journal_Ok; [done|by eapply headed_nonempty|]. split; [|done].
  apply (elements_payload (elements_output m (tc_manifest_id c) claim_id c) payload Vp Vn Eo).
  by apply elements_output_valid.
Qed.

Lemma build_elements_Ok {Proof : Type} `{ElementsValidityProofVerifier Proof} m c (proof : Proof) j :
  build_elements_state_journal m c proof = Ok j <->
  exists claim_id payload, elements_accepted m c proof claim_id /\
    encode (elements_output m (tc_manifest_id c) claim_id c) = Some payload /\
    j = journal_with ElementsStateKind (pm_elements_guest_program_id m) payload.
Proof.
  split; [apply build_elements_sound|]. intros (claim_id & payload & Ha & He & ->).
  by eapply build_elements_complete.
Qed.
End elements_guest.

(** ** Agreement with the vault contract *)

Definition zero_state : SolidityElementsBridgeState :=
  MkElementsState (uint_wrap 64 0) (uint_wrap 64 0) ZERO ZERO ZERO ZERO (uint_wrap 64 0)
    (uint_wrap 64 0) (uint_wrap 64 0) ZERO.



Section vault_agreement.
Context {H : Sha256}.




(** The two programs hash alike. *)















End vault_agreement.

(** ** The history of a vault *)

Section elements_history.
Context {H : Sha256} {Proof : Type} {V : ElementsValidityProofVerifier Proof}.

Lemma elements_step m c (proof : Proof) j leaves :
  build_elements_state_journal m c proof = Ok j -> commits_to leaves (tc_prior_state c) ->
  ElementsState_is_zero (tc_next_state c) = false /\ (length (tc_appended_burns c) <= 64)%nat /\
  (forall i a, tc_appended_burns c !! i = Some a -> burn_admitted m (length leaves + i) a) /\
  (commits_to (leaves ++ burn_leaves m (length leaves) (tc_appended_burns c)) (tc_next_state c) \/
   append_collision m leaves (length leaves) (tc_appended_burns c)).
Proof.
  intros (claim_id & payload & [_ _ Hs _ Hc Hr _ _ _] & _)%build_elements_Ok [Hn Hroot].
  apply validate_successor_Ok in Hs as [_ _ Hz _ Hb _ _ _ _ _ _].
  pose proof (uint_range (es_burn_count (tc_next_state c))).
  assert ((if ElementsState_is_zero (tc_prior_state c) then subtree [] 64 0
           else es_cumulative_burn_root (tc_prior_state c)) = subtree leaves 64 0) as E.
  { destruct (ElementsState_is_zero (tc_prior_state c)) eqn:Ez; [|by apply Hroot].
    apply zero_state_count in Ez. destruct leaves; [done|cbn in Hn; lia]. }
  rewrite E in Hr. split; [done|]. split; [lia|].
  assert (Z.to_nat (es_burn_count (tc_prior_state c)) + 0 = length leaves)%nat as Hl by lia. split.
  - intros i a Hi. rewrite <- Hl. eapply append_loop_admitted; [exact Hr|lia|exact Hi].
  - apply append_loop_root in Hr as [Hr|Hr]; [left|right|lia|lia]; rewrite Hl in Hr; [|done].
    split; [|done]. rewrite length_app, burn_leaves_length. lia.
Qed.

(** The states an unused vault reaches by accepted transitions of one manifest,
    with all the burns appended on the way. *)
Inductive elements_history (m : ProtocolManifest) : list BurnAppend -> SolidityElementsBridgeState -> Prop :=
| history_start s : ElementsState_is_zero s = true -> elements_history m [] s
| history_step appends c (proof : Proof) j :
    elements_history m appends (tc_prior_state c) ->
    build_elements_state_journal m c proof = Ok j ->
    elements_history m (appends ++ tc_appended_burns c) (tc_next_state c).

Lemma append_collision_app m a b :
  append_collision m (burn_leaves m 0 a) (length a) b -> append_collision m [] 0 (a ++ b).
Proof.
  intros (pre & x & post & -> & Hc). exists (a ++ pre), x, post.
  split; [by rewrite <- app_assoc|]. rewrite burn_leaves_app, length_app. exact Hc.
Qed.

Lemma append_collision_weaken m a b : append_collision m [] 0 a -> append_collision m [] 0 (a ++ b).
Proof.
  intros (pre & x & post & -> & Hc). exists pre, x, (post ++ b). split; [by rewrite <- app_assoc|done].
Qed.

Lemma history_commits m appends s :
  elements_history m appends s ->
  uval (es_burn_count s) = Z.of_nat (length appends) /\
  (forall i a, appends !! i = Some a -> burn_admitted m i a) /\
  (commits_to (burn_leaves m 0 appends) s \/ append_collision m [] 0 appends).
Proof.
  induction 1 as [s Hz|appends c proof j _ (Hn & Hadm & IH) Hb].
  - apply zero_state_count in Hz as Hc. split; [done|]. split; [done|]. left. split; [done|]. congruence.
  - pose proof Hb as (claim_id & payload & [_ _ _ _ Hc Hr _ _ _] & _)%build_elements_Ok.
    pose proof (uint_range (es_burn_count (tc_next_state c))).
    split; [rewrite length_app; lia|]. split.
    + intros i a [Hi|[Hi Ha]]%lookup_app_Some; [by apply Hadm|].
      replace i with (Z.to_nat (es_burn_count (tc_prior_state c)) + 0 + (i - length appends))%nat by lia.
      eapply append_loop_admitted; [exact Hr|lia|exact Ha].
    + destruct IH as [IH|IH]; [|by right; apply append_collision_weaken].
      destruct (elements_step m c proof j _ Hb IH) as (_ & _ & _ & [Hx|Hx]);
        rewrite burn_leaves_length in Hx; [left|right; by apply append_collision_app].
      by rewrite burn_leaves_app.
Qed.
End elements_history.

(** ** Properties *)

Section guest_properties.
Context {H : Sha256} {Proof : Type}.

(** Both Ethereum builders accept exactly the claims of the manifest and its
    controller configuration whose transition the controller itself accepts
    (deposits into the manifest's vault and token, in one valid batch), which the
    chain verifier accepts, and whose identifiers and block time are nonzero;
    their journal carries exactly the encoding of that transition's output. *)
Theorem ethereum_journals_iff `{EthereumStateProofVerifier Proof} (m : ProtocolManifest) (proof : Proof)
    (j : StrictJournal) :
  (forall c, build_deposit_journal m c proof = Ok j <->
     exists o payload, deposit_accepted m c proof o /\ encode o = Some payload /\
       j = journal_with EthereumState (pm_ethereum_guest_program_id m) payload) /\
  (forall c, build_heartbeat_journal m c proof = Ok j <->
     exists o payload, heartbeat_accepted m c proof o /\ encode o = Some payload /\
       j = journal_with EthereumState (pm_ethereum_guest_program_id m) payload).
Proof. split; intros c; [apply build_deposit_Ok|apply build_heartbeat_Ok]. Qed.


(** C2: Every state reached from an unused vault by accepted Elements journals
    counts exactly the burns appended on the way, each of them valid, of this
    vault and asset; and any leaf proved against a nonzero such state's root
    is the leaf of the burn appended at that index, so a redeemable claim
    has the amount, recipient and outpoint of a burn that was appended, unless
    SHA-256 collides at a named pair of inputs. *)
Theorem redeemable_claims_were_burned `{ElementsValidityProofVerifier Proof} (m : ProtocolManifest)
    (appends : list BurnAppend) (s : SolidityElementsBridgeState)
    (p : BurnProof) (claim : SolidityBurnClaim) (index : u64) (leaf : Hash32)
    (Hhist : elements_history (Proof:=Proof) m appends s)
    (Hnz : ElementsState_is_zero s = false)
    (Hleaf : SolidityBurnClaim_burn_leaf claim index = Ok leaf)
    (Hproof : BurnProof_verify p (es_cumulative_burn_root s) leaf index = true) :
  uval (es_burn_count s) = Z.of_nat (length appends) /\
  (forall i a, appends !! i = Some a -> burn_admitted m i a) /\
  ((exists a, appends !! Z.to_nat index = Some a /\
      (claim = Burn_solidity_claim (bap_burn a) (pm_elements_genesis m) \/
       collision (claim_id_preimage claim)
         (claim_id_preimage (Burn_solidity_claim (bap_burn a) (pm_elements_genesis m))) \/
       collision (burn_leaf_preimage claim index)
         (burn_leaf_preimage (Burn_solidity_claim (bap_burn a) (pm_elements_genesis m)) index)))
   \/ collision (burn_leaf_preimage claim index) [x00]
   \/ append_collision m [] 0 appends
   \/ proof_collision (burn_leaves m 0 appends) 0 (bp_siblings p) leaf index).
Proof.
  destruct (history_commits m appends s Hhist) as (Hn & Hadm & Hc). split; [done|]. split; [done|].
  destruct Hc as [[_ Hroot]|Hc]; [|by right; right; left].
  rewrite (Hroot Hnz) in Hproof. pose proof (uint_range index).
  apply verify_sound in Hproof as [[Hl _]|Hcol]; [|by right; right; right].
  rewrite burn_leaves_lookup in Hl. rewrite Nat.add_0_l, Z2Nat.id, uint_wrap_uval in Hl by lia.
  pose proof (burn_leaf_Ok _ _ _ Hleaf) as [_ Hdef].
  destruct (appends !! Z.to_nat index) as [a|] eqn:Ea; cbn in Hl.
  - left. exists a. split; [done|]. destruct (Hadm _ _ Ea) as (_ & _ & _ & _ & Ha).
    rewrite Z2Nat.id, uint_wrap_uval in Ha by lia.
    destruct (SolidityBurnClaim_burn_leaf (Burn_solidity_claim (bap_burn a) (pm_elements_genesis m)) index)
      as [h| |] eqn:Eh; [|by destruct Ha..].
    pose proof (burn_leaf_Ok _ _ _ Eh) as [_ ->]. rewrite <- Hl in Eh.
    destruct (burn_leaf_claim_inj _ _ _ _ _ Hleaf Eh) as [[-> _]|[?|?]]; tauto.
  - right. left. split; [|unfold hash_bytes in *; congruence].
    intros E. apply (f_equal length) in E. unfold burn_leaf_preimage in E. cbn [length] in E.
    rewrite length_app, arr_length in E. lia.
Qed.
End guest_properties.

(** A concrete first transition: one burn appended to the unused vault of the
    sample manifest, then redeemed. *)
Definition accept_all : ElementsValidityProofVerifier unit :=
  {| verify_elements_state_transition := fun _ _ _ => Ok tt |}.
Definition first_burn : Burn :=
  MkBurn (pm_vault_id sample_manifest) (pm_usdd_asset sample_manifest) (uint_wrap 64 50000000)
    (uint_wrap 64 500000) (MkOutPoint (array_rep 32 x03) (uint_wrap 32 1)) (array_rep 20 x04).
Definition first_branch : BurnProof :=
  MkBurnProof (map (@empty_loop toy_sha256) (seq 0 64)) eq_refl.
Definition first_claim : SolidityBurnClaim :=
  @Burn_solidity_claim toy_sha256 first_burn (pm_elements_genesis sample_manifest).
Definition first_leaf : Hash32 :=
  @hash_bytes toy_sha256 (burn_leaf_preimage first_claim (uint_wrap 64 0)).
Definition first_state : SolidityElementsBridgeState :=
  MkElementsState (uint_wrap 64 1) (uint_wrap 64 1) (array_rep 32 x01) (array_rep 32 x02)
    (@BurnProof_compute_root toy_sha256 first_branch first_leaf (uint_wrap 64 0)) (array_rep 32 x03)
    (uint_wrap 64 100) (uint_wrap 64 10) (uint_wrap 64 1000) (array_rep 32 xff).
Definition first_transition : ElementsStateTransitionClaim :=
  MkElementsStateTransitionClaim
    match @ProtocolManifest_manifest_id toy_sha256 sample_manifest with Ok id => id | _ => ZERO end
    ZERO zero_state first_state [MkBurnAppend first_burn first_branch].

Lemma first_transition_accepted :
  is_ok (@build_elements_state_journal toy_sha256 unit accept_all sample_manifest first_transition tt) = true.
Proof. vm_compute. reflexivity. Qed.


Lemma redeemable_claims_were_burned_witness :
  @elements_history toy_sha256 unit accept_all sample_manifest
    [MkBurnAppend first_burn first_branch] first_state /\
  @BurnProof_verify toy_sha256 first_branch (es_cumulative_burn_root first_state) first_leaf
    (uint_wrap 64 0) = true /\
  uval (es_burn_count first_state) = 1.
Proof.
  assert (@elements_history toy_sha256 unit accept_all sample_manifest
    [MkBurnAppend first_burn first_branch] first_state) as Hh.
  { pose proof first_transition_accepted as Hb.
    destruct (@build_elements_state_journal toy_sha256 unit accept_all sample_manifest
      first_transition tt) as [j| |] eqn:E; [|discriminate Hb..].
    apply (@history_step toy_sha256 unit accept_all sample_manifest [] first_transition tt j);
      [apply history_start; vm_compute; reflexivity|exact E]. }
  assert (@BurnProof_verify toy_sha256 first_branch (es_cumulative_burn_root first_state) first_leaf
    (uint_wrap 64 0) = true) as Hp by (vm_compute; reflexivity).
  split; [exact Hh|]. split; [exact Hp|].
  assert (@SolidityBurnClaim_burn_leaf toy_sha256 first_claim (uint_wrap 64 0) = Ok first_leaf) as Hl.
  { unfold SolidityBurnClaim_burn_leaf.
    assert (@SolidityBurnClaim_validate toy_sha256 first_claim = Ok tt) as -> by (vm_compute; reflexivity).
    reflexivity. }
  exact (proj1 (@redeemable_claims_were_burned toy_sha256 unit accept_all sample_manifest _ _
    first_branch first_claim (uint_wrap 64 0) first_leaf Hh ltac:(vm_compute; reflexivity) Hl Hp)).
Defined.
