(* ===== verification/Sp1Verifier.v ===== *)
(** The SP1 proof adapter: [crates/usdd-sp1-verifier/src/lib.rs].

    [verify_raw_compressed_sha256] decides whether a raw compressed proof shows
    the typed journal in its public values.  The SP1 crates and [bincode] are the
    class [Sp1]: how a proof is read and written, its public values and the
    compressed verifier.  The adapter's own checks are the code's: the program
    identifier, the journal, the proof tag, the canonical encoding, the SHA-256
    digest, and the conversion of a panic into a rejection.

    The theorems show that program identifiers and raw key hashes are exact
    inverses, which proofs are accepted, that one proof shows one statement, and
    where a panic can come from. *)

From S2P Require Import Prelude Encoding Params Hashing BurnAccumulator Records Deposits Burns.
From S2P Require Import ElementsState Controller Claims Readers Journal Annex Totality.

Local Open Scope Z_scope.

Definition MAX_RAW_COMPRESSED_PROOF_SIZE : Z := SP1_ANNEX_MAX_SIZE.
Definition RAW_VKEY_HASH_SIZE : Z := 32.
Definition KOALA_BEAR_MODULUS : Z := 0x7f000001.

(** The SP1 crates: [SP1Proof] with its [bincode] encoding, the fields of a
    compressed proof the adapter reads, and [SP1CompressedVerifierRaw::verify].
    Reading, writing and verifying can fail and can panic. *)
Class Sp1 : Type := {
  SP1Proof : Type;
  CompressedProof : Type;
  SP1Field : Type;
  CompressedError : Type;
  PROOF_MAX_NUM_PVS : Z;
  bincode_deserialize : Z -> bytes -> res unit SP1Proof;
  bincode_serialize : SP1Proof -> res unit bytes;
  as_compressed : SP1Proof -> option CompressedProof;
  recursion_public_values : CompressedProof -> list SP1Field;
  committed_value_digest : list SP1Field -> list (list SP1Field);
  as_canonical_u32 : SP1Field -> u32;
  compressed_verify : bytes -> bytes -> res CompressedError unit
}.

Inductive RejectedProofMode : Type := Core | Plonk | Groth16.

Inductive Sp1VerificationError {V : Sp1} : Type :=
| EmptyProof
| ProofTooLarge (actual maximum : Z)
| PublicValuesTooLarge (actual maximum : Z)
| AnnexSizeOverflow
| CombinedAnnexTooLarge (actual maximum : Z)
| MalformedProof
| NonCanonicalProof
| UnsupportedProofMode (mode : RejectedProofMode)
| WrongVkeyHashLength (actual : Z)
| NonCanonicalVkeyWord (index : nat) (value : u32)
| NonCanonicalProgramIdWord (index : nat) (value : u32)
| ZeroSp1ProgramId
| VkeyProgramIdMismatch
| Sp1Journal (e : JournalError)
| InvalidRecursionPublicValuesLength (actual expected : Z)
| NonByteCommittedDigestLimb (index : nat) (value : u32)
| PublicValuesDigestMismatch
| ProofRejected (e : CompressedError)
| VerifierPanicked.

(** [buffer[at..at + bytes.len()].copy_from_slice(bytes)]: [None] out of range. *)
Definition copy_into (at_ : nat) (bs buffer : bytes) : option bytes :=
  if (at_ + length bs <=? length buffer)%nat
  then Some (take at_ buffer ++ bs ++ drop (at_ + length bs) buffer) else None.

(** [bytes.chunks_exact(4)] *)
Fixpoint chunks_exact4 (l : bytes) : list bytes :=
  match l with
  | a :: b :: c :: d :: rest => [a; b; c; d] :: chunks_exact4 rest
  | _ => []
  end.

Section adapter.
Context {W : PtrWidth} {H : Sha256} {V : Sp1}.

(** ** Program identifiers *)

(** One turn of the two conversion loops: a field element read with [dec] and
    written with [enc], in its canonical range. *)
Definition convert_word (dec : bytes -> Z) (enc : Z -> bytes) (error : nat -> u32 -> Sp1VerificationError)
    (index : nat) (word buffer : bytes) : res Sp1VerificationError bytes :=
  let value := uint_wrap 32 (dec word) in
  fail_if (KOALA_BEAR_MODULUS <=? uval value) (error index value);;
  expect (copy_into (index * 4) (enc (uval value)) buffer).

Definition program_id_from_raw_vkey_hash (raw_vkey_hash : bytes) : res Sp1VerificationError Hash32 :=
  fail_if (negb (Z.of_nat (length raw_vkey_hash) =? RAW_VKEY_HASH_SIZE))
    (WrongVkeyHashLength (Z.of_nat (length raw_vkey_hash)));;
  program_id ← res_foldi (convert_word le_val (be_bytes 4) NonCanonicalVkeyWord) 0
                 (chunks_exact4 raw_vkey_hash) (repeat x00 32);
  let program_id := subarray 32 0 program_id in
  fail_if (bool_decide (program_id = ZERO)) ZeroSp1ProgramId;;
  Ok program_id.

Definition raw_vkey_hash_from_program_id (program_id : Hash32) : res Sp1VerificationError (array 32) :=
  fail_if (bool_decide (program_id = ZERO)) ZeroSp1ProgramId;;
  raw_vkey_hash ← res_foldi (convert_word be_val (le_bytes 4) NonCanonicalProgramIdWord) 0
                    (chunks_exact4 (arr program_id)) (repeat x00 32);
  Ok (subarray 32 0 raw_vkey_hash).

(** ** Proofs *)

Definition require_sha256_public_values_digest (committed_digest : bytes) (public_values : bytes)
    : res Sp1VerificationError unit :=
  fail_if (negb (bool_decide (committed_digest = arr (hash_bytes public_values)))) PublicValuesDigestMismatch.

Definition reject_noncompressed_tag (raw_proof : bytes) : res Sp1VerificationError unit :=
  raw_tag ← ok_or (if (4 <=? length raw_proof)%nat then Some (take 4 raw_proof) else None) MalformedProof;
  let tag := le_val raw_tag in
  if tag =? 1 then Ok tt
  else if tag =? 0 then Err (UnsupportedProofMode Core)
  else if tag =? 2 then Err (UnsupportedProofMode Plonk)
  else if tag =? 3 then Err (UnsupportedProofMode Groth16)
  else Err MalformedProof.

Definition deserialize_canonical_proof (raw_proof : bytes) : res Sp1VerificationError SP1Proof :=
  proof ← map_err (fun _ => MalformedProof) (bincode_deserialize MAX_RAW_COMPRESSED_PROOF_SIZE raw_proof);
  canonical ← map_err (fun _ => MalformedProof) (bincode_serialize proof);
  fail_if (negb (bool_decide (canonical = raw_proof))) NonCanonicalProof;;
  Ok proof.

(** The two nested loops over [committed_value_digest]. *)
Definition digest_limb (_ : nat) (limb : SP1Field) (st : bytes * nat) : res Sp1VerificationError (bytes * nat) :=
  let '(committed_digest, digest_index) := st in
  let value := as_canonical_u32 limb in
  fail_if (2 ^ 8 - 1 <? uval value) (NonByteCommittedDigestLimb digest_index value);;
  committed_digest ← expect (copy_into digest_index [byte_of (uval value)] committed_digest);
  Ok (committed_digest, digest_index + 1)%nat.
Definition digest_word (_ : nat) (word : list SP1Field) (st : bytes * nat) : res Sp1VerificationError (bytes * nat) :=
  res_foldi digest_limb 0 word st.
Definition committed_digest_of (values : list SP1Field) : res Sp1VerificationError bytes :=
  '(committed_digest, _) ← res_foldi digest_word 0 (committed_value_digest values) (repeat x00 32, 0%nat);
  Ok committed_digest.

Definition verify_inner (raw_proof public_values raw_vkey_hash : bytes) (expected_program_id : Hash32)
    (expected_statement_kind : StatementKind) : res Sp1VerificationError StrictJournal :=
  let proof_len := Z.of_nat (length raw_proof) in
  let values_len := Z.of_nat (length public_values) in
  fail_if (proof_len =? 0) EmptyProof;;
  fail_if (MAX_RAW_COMPRESSED_PROOF_SIZE <? proof_len) (ProofTooLarge proof_len MAX_RAW_COMPRESSED_PROOF_SIZE);;
  fail_if (SP1_PUBLIC_VALUES_MAX_SIZE <? values_len) (PublicValuesTooLarge values_len SP1_PUBLIC_VALUES_MAX_SIZE);;
  size ← ok_or (annex_size values_len proof_len) AnnexSizeOverflow;
  fail_if (SP1_ANNEX_MAX_SIZE <? size) (CombinedAnnexTooLarge size SP1_ANNEX_MAX_SIZE);;
  actual_program_id ← program_id_from_raw_vkey_hash raw_vkey_hash;
  fail_if (negb (bool_decide (actual_program_id = expected_program_id))) VkeyProgramIdMismatch;;
  journal ← map_err Sp1Journal (StrictJournal_verify_expected public_values expected_program_id expected_statement_kind);
  reject_noncompressed_tag raw_proof;;
  proof ← deserialize_canonical_proof raw_proof;
  compressed ← ok_or (as_compressed proof) MalformedProof;
  let recursion_values := recursion_public_values compressed in
  let recursion_values_len := Z.of_nat (length recursion_values) in
  fail_if (negb (recursion_values_len =? PROOF_MAX_NUM_PVS))
    (InvalidRecursionPublicValuesLength recursion_values_len PROOF_MAX_NUM_PVS);;
  committed_digest ← committed_digest_of recursion_values;
  require_sha256_public_values_digest committed_digest public_values;;
  map_err ProofRejected (compressed_verify raw_proof raw_vkey_hash);;
  Ok journal.

(** [catch_unwind] turns a panic into a rejection. *)
Definition verify_raw_compressed_sha256 (raw_proof public_values raw_vkey_hash : bytes)
    (expected_program_id : Hash32) (expected_statement_kind : StatementKind)
    : res Sp1VerificationError StrictJournal :=
  match verify_inner raw_proof public_values raw_vkey_hash expected_program_id expected_statement_kind with
  | Panic => Err VerifierPanicked
  | result => result
  end.
End adapter.

(** ** Words of a key hash *)

Definition word32 (v : Z) : Prop := 0 <= v < 2 ^ 32.
Definition koala (v : Z) : Prop := 0 <= v < KOALA_BEAR_MODULUS.

(** The first word outside the field, with its index. *)
Fixpoint first_noncanonical (i : nat) (ws : list Z) : option (nat * Z) :=
  match ws with
  | [] => None
  | v :: ws => if KOALA_BEAR_MODULUS <=? v then Some (i, v) else first_noncanonical (S i) ws
  end.

Lemma first_noncanonical_None i ws : Forall word32 ws -> first_noncanonical i ws = None <-> Forall koala ws.
Proof.
  revert i. induction ws as [|v ws IH]; intros i Hw; cbn [first_noncanonical]; [split; [constructor|done]|].
  apply Forall_cons in Hw as [Hv Hw]. rewrite Forall_cons. unfold koala at 1. unfold word32 in *.
  destruct (Z.leb_spec KOALA_BEAR_MODULUS v); [split; [done|lia]|]. rewrite (IH (S i) Hw). split; [split; [lia|done]|by intros [_ ?]].
Qed.

Lemma copy_into_app (pre old post new : bytes) k : length pre = k -> length old = length new ->
  copy_into k new (pre ++ old ++ post) = Some (pre ++ new ++ post).
Proof.
  intros <- Hl. unfold copy_into. rewrite (proj2 (Nat.leb_le _ _)) by (rewrite !length_app; lia).
  do 2 f_equal; [by rewrite take_app_length|]. f_equal. rewrite <- Hl, <- length_app, app_assoc. by rewrite drop_app_length.
Qed.

(** An encoding of 32-bit words on four bytes. *)
Record word_codec (dec : bytes -> Z) (enc : Z -> bytes) : Prop := {
  wc_length : forall v, length (enc v) = 4%nat;
  wc_dec : forall v, word32 v -> dec (enc v) = v;
  wc_enc : forall w, length w = 4%nat -> enc (dec w) = w /\ word32 (dec w)
}.
Lemma le_codec : word_codec le_val (le_bytes 4).
Proof.
  constructor; [by intros; rewrite length_le_bytes| |].
  - intros v Hv. rewrite le_val_bytes. by apply Z.mod_small.
  - intros w Hl. split; [rewrite <- Hl; apply le_bytes_val|]. pose proof (le_val_range w) as Hr. by rewrite Hl in Hr.
Qed.
Lemma be_codec : word_codec be_val (be_bytes 4).
Proof.
  constructor; [by intros; rewrite length_be_bytes| |].
  - intros v Hv. rewrite be_val_bytes. by apply Z.mod_small.
  - intros w Hl. split; [rewrite <- Hl; apply be_bytes_val|]. pose proof (be_val_range w) as Hr. by rewrite Hl in Hr.
Qed.

Section words.
Context {dec : bytes -> Z} {enc : Z -> bytes} (Hc : word_codec dec enc).

Lemma chunks_words ws : chunks_exact4 (concat (map enc ws)) = map enc ws.
Proof.
  induction ws as [|v ws IH]; [done|]. cbn [map concat]. pose proof (wc_length _ _ Hc v) as Hl.
  destruct (enc v) as [|a [|b [|c [|d [|]]]]]; try done. cbn [app chunks_exact4]. by rewrite IH.
Qed.

Lemma words_exist n l : length l = (4 * n)%nat ->
  exists ws, length ws = n /\ Forall word32 ws /\ l = concat (map enc ws).
Proof.
  revert l. induction n as [|n IH]; intros l Hl.
  - exists []. split; [done|]. split; [constructor|]. by apply nil_length_inv.
  - destruct l as [|a [|b [|c [|d l]]]]; cbn [length] in Hl; try lia.
    destruct (IH l) as (ws & Hn & Hw & ->); [lia|]. destruct (wc_enc _ _ Hc [a; b; c; d] eq_refl) as [He Hv].
    exists (dec [a; b; c; d] :: ws). cbn [length map concat]. rewrite He. split; [lia|]. split; [by constructor|done].
Qed.

Lemma words_length ws : length (concat (map enc ws)) = (4 * length ws)%nat.
Proof. induction ws as [|v ws IH]; [done|]. cbn [map concat length]. rewrite length_app, (wc_length _ _ Hc), IH. lia. Qed.

Lemma words_inj ws ws' : Forall word32 ws -> Forall word32 ws' -> concat (map enc ws) = concat (map enc ws') -> ws = ws'.
Proof.
  revert ws'. induction ws as [|v ws IH]; intros [|v' ws'] Hw Hw' E; cbn [map concat] in E; [done| | |].
  - apply (f_equal length) in E. rewrite length_app, (wc_length _ _ Hc) in E. cbn [length] in E. lia.
  - apply (f_equal length) in E. rewrite length_app, (wc_length _ _ Hc) in E. cbn [length] in E. lia.
  - apply Forall_cons in Hw as [Hv Hw], Hw' as [Hv' Hw']. apply app_inj_1 in E as [E1 E2]; [|by rewrite !(wc_length _ _ Hc)].
    apply (f_equal dec) in E1. rewrite !(wc_dec _ _ Hc) in E1 by done. f_equal; [done|by apply IH].
Qed.

(** A conversion loop rewrites every word, or stops at the first one outside
    the field. *)
Lemma convert_words {V : Sp1} dec' out error : word_codec dec' out ->
  forall ws i pre post, Forall word32 ws -> length pre = (i * 4)%nat -> length post = (4 * length ws)%nat ->
  res_foldi (convert_word dec out error) i (map enc ws) (pre ++ post) =
  match first_noncanonical i ws with
  | Some (j, v) => Err (error j (uint_wrap 32 v))
  | None => Ok (pre ++ concat (map out ws))
  end.
Proof.
  intros Ho. induction ws as [|v ws IH]; intros i pre post Hw Hpre Hpost; cbn [map res_foldi first_noncanonical concat].
  - apply nil_length_inv in Hpost as ->. done.
  - apply Forall_cons in Hw as [Hv Hw]. unfold convert_word at 2. cbv zeta.
    rewrite (wc_dec _ _ Hc v Hv), uval_wrap_small by exact Hv.
    destruct (KOALA_BEAR_MODULUS <=? v); [done|]. cbn [fail_if mbind res_bind].
    cbn [length] in Hpost. rewrite <- (take_drop 4 post), (copy_into_app pre (take 4 post) (drop 4 post) (out v)); [|done|].
    + cbn [expect mbind res_bind]. rewrite app_assoc, IH; [|done| |].
      * destruct (first_noncanonical _ ws) as [[j w]|]; [done|]. by rewrite <- app_assoc.
      * rewrite length_app, Hpre, (wc_length _ _ Ho). lia.
      * rewrite length_drop. lia.
    + rewrite length_take, (wc_length _ _ Ho). lia.
Qed.

Lemma convert_all {V : Sp1} dec' out error ws : word_codec dec' out -> length ws = 8%nat -> Forall word32 ws ->
  res_foldi (convert_word dec out error) 0 (chunks_exact4 (concat (map enc ws))) (repeat x00 32) =
  match first_noncanonical 0 ws with
  | Some (j, v) => Err (error j (uint_wrap 32 v))
  | None => Ok (concat (map out ws))
  end.
Proof.
  intros Ho Hn Hw. rewrite chunks_words. apply (convert_words dec' out error Ho ws 0 [] (repeat x00 32)); [done..|].
  by rewrite Hn.
Qed.
End words.

(** ** The adapter *)

Section facts.
Context {W : PtrWidth} (Hwidth : 32 <= Zpos usize_bits) {H : Sha256} {V : Sp1}.

(** Eight field elements, not all zero: what a program identifier and a raw
    key hash both write down. *)
Definition key_words (raw_vkey_hash : bytes) (program_id : Hash32) (ws : list Z) : Prop :=
  length ws = 8%nat /\ Forall koala ws /\ raw_vkey_hash = concat (map (le_bytes 4) ws) /\
  arr program_id = concat (map (be_bytes 4) ws) /\ program_id <> ZERO.

Lemma koala_word32 ws : Forall koala ws -> Forall word32 ws.
Proof.
  intros Hw. eapply Forall_impl; [exact Hw|]. intros v [H1 H2]. change KOALA_BEAR_MODULUS with 2130706433 in H2.
  unfold word32. lia.
Qed.

Lemma program_id_Ok raw id : program_id_from_raw_vkey_hash raw = Ok id <-> exists ws, key_words raw id ws.
Proof.
  unfold program_id_from_raw_vkey_hash, key_words. rewrite fail_then, negb_false_iff, Z.eqb_eq. unfold RAW_VKEY_HASH_SIZE. split.
  - intros [Hl E]. destruct (words_exist le_codec 8 raw) as (ws & Hn & Hw & ->); [lia|].
    rewrite (convert_all le_codec _ _ _ ws be_codec Hn Hw) in E.
    destruct (first_noncanonical 0 ws) as [[j w]|] eqn:Ef; [done|]. apply first_noncanonical_None in Ef; [|done].
    cbn [mbind res_bind] in E. rewrite fail_then, bool_decide_eq_false in E. destruct E as [Hz [= <-]].
    exists ws. repeat split; try done. rewrite subarray_slice by (rewrite (words_length be_codec); lia).
    unfold slice. rewrite drop_0. apply take_ge. rewrite (words_length be_codec). lia.
  - intros (ws & Hn & Hw & -> & Hid & Hz). pose proof (koala_word32 _ Hw) as Hw'.
    split; [rewrite (words_length le_codec); lia|].
    rewrite (convert_all le_codec _ _ _ ws be_codec Hn Hw').
    rewrite (proj2 (first_noncanonical_None 0 ws Hw')) by done. cbn [mbind res_bind].
    assert (subarray 32 0 (concat (map (be_bytes 4) ws)) = id) as ->.
    { apply array_eq. rewrite <- Hid, subarray_slice by (rewrite arr_length; lia). unfold slice. rewrite drop_0.
      apply take_ge. by rewrite arr_length. }
    rewrite fail_then, bool_decide_eq_false. done.
Qed.

Lemma raw_vkey_Ok id v : raw_vkey_hash_from_program_id id = Ok v <-> exists ws, key_words (arr v) id ws.
Proof.
  unfold raw_vkey_hash_from_program_id, key_words. rewrite fail_then, bool_decide_eq_false.
  destruct (words_exist be_codec 8 (arr id)) as (ws & Hn & Hw & Hid); [by rewrite arr_length|].
  rewrite Hid, (convert_all be_codec _ _ _ ws le_codec Hn Hw).
  assert (arr (subarray 32 0 (concat (map (le_bytes 4) ws))) = concat (map (le_bytes 4) ws)) as Hv.
  { rewrite subarray_slice by (rewrite (words_length le_codec); lia).
    unfold slice. rewrite drop_0. apply take_ge. rewrite (words_length le_codec). lia. }
  split.
  - intros [Hz E]. destruct (first_noncanonical 0 ws) as [[j w]|] eqn:Ef; [done|]. apply first_noncanonical_None in Ef; [|done].
    cbn [mbind res_bind] in E. injection E as <-. by exists ws.
  - intros (ws' & Hn' & Hw' & Hv' & E & Hz). split; [done|].
    apply (words_inj be_codec) in E as ->; [|done|by apply koala_word32].
    rewrite (proj2 (first_noncanonical_None 0 ws' Hw)) by done. cbn [mbind res_bind]. f_equal. apply array_eq. by rewrite Hv.
Qed.

(** The program identifier of a manifest and the key hash the SP1 verifier
    reads are two writings of the same eight field elements, and the two
    conversions are exact inverses of each other: each accepts exactly the
    canonical nonzero writings, so an identifier has one key hash and a key
    hash one identifier. *)
Theorem program_id_roundtrip (raw_vkey_hash : array 32) (program_id : Hash32) :
  (program_id_from_raw_vkey_hash (arr raw_vkey_hash) = Ok program_id <->
   raw_vkey_hash_from_program_id program_id = Ok raw_vkey_hash) /\
  (program_id_from_raw_vkey_hash (arr raw_vkey_hash) = Ok program_id <->
   exists ws, key_words (arr raw_vkey_hash) program_id ws).
Proof. split; [by rewrite program_id_Ok, raw_vkey_Ok|apply program_id_Ok]. Qed.

(** *** The committed digest *)

Definition limb_value (limb : SP1Field) : Z := uval (as_canonical_u32 limb).
Definition byte_limb (limb : SP1Field) : Prop := limb_value limb < 256.
Definition limb_bytes (limbs : list SP1Field) : bytes := map (fun l => byte_of (limb_value l)) limbs.

Lemma digest_limb_Ok i l b k r : digest_limb i l (b, k) = Ok r <->
  byte_limb l /\ exists b', copy_into k [byte_of (limb_value l)] b = Some b' /\ r = (b', k + 1)%nat.
Proof.
  unfold digest_limb, byte_limb, limb_value. cbv zeta. rewrite fail_then, Z.ltb_ge, res_bind_Ok. setoid_rewrite expect_Ok.
  split; intros [Hv (b' & Hb & E)]; (split; [lia|]); exists b'; (split; [done|]); [by injection E as <-|by rewrite E].
Qed.

Lemma digest_limbs_Ok limbs : forall i pre post r,
  res_foldi digest_limb i limbs (pre ++ post, length pre) = Ok r <->
  Forall byte_limb limbs /\ (length limbs <= length post)%nat /\
  r = (pre ++ limb_bytes limbs ++ drop (length limbs) post, length pre + length limbs)%nat.
Proof.
  induction limbs as [|l limbs IH]; intros i pre post r; cbn [res_foldi length limb_bytes map app drop].
  - rewrite Nat.add_0_r. split; [intros [= <-]; split; [constructor|split; [lia|done]]|by intros (_ & _ & ->)].
  - rewrite res_bind_Ok, Forall_cons. setoid_rewrite digest_limb_Ok.
    destruct post as [|x post]; cbn [length].
    + unfold copy_into. split; [|intros (_ & ? & _); lia]. intros (st & (_ & b & Hb & _) & _).
      rewrite app_nil_r in Hb. cbn [length] in Hb. rewrite (proj2 (Nat.leb_gt _ _)) in Hb by lia. done.
    + set (y := byte_of (limb_value l)) in *.
      assert (copy_into (length pre) [y] (pre ++ x :: post) = Some (pre ++ [y] ++ post)) as Hcopy
        by exact (copy_into_app pre [x] post [y] _ eq_refl eq_refl).
      specialize (IH (S i) (pre ++ [y]) post r). rewrite <- app_assoc, length_app in IH. cbn [length app] in IH. split.
      * intros (st & (Hv & b & Hb & E) & Hr). rewrite Hcopy in Hb. injection Hb as <-. subst st.
        apply IH in Hr as (Hf & Hl & ->). cbn [drop app]. split; [done|]. split; [lia|]. f_equal; [by rewrite <- app_assoc|lia].
      * intros ([Hv Hf] & Hl & ->). exists (pre ++ y :: post, length pre + 1)%nat. split.
        { split; [done|]. exists (pre ++ y :: post). done. }
        apply IH. split; [done|]. split; [lia|]. cbn [drop app]. f_equal; [by rewrite <- app_assoc|lia].
Qed.

Lemma digest_words_Ok words : forall i pre post r,
  res_foldi digest_word i words (pre ++ post, length pre) = Ok r <->
  Forall byte_limb (concat words) /\ (length (concat words) <= length post)%nat /\
  r = (pre ++ limb_bytes (concat words) ++ drop (length (concat words)) post, length pre + length (concat words))%nat.
Proof.
  induction words as [|w words IH]; intros i pre post r; cbn [res_foldi concat].
  - cbn [length limb_bytes map app drop]. rewrite Nat.add_0_r.
    split; [intros [= <-]; split; [constructor|split; [lia|done]]|by intros (_ & _ & ->)].
  - rewrite res_bind_Ok. unfold digest_word at 1. setoid_rewrite digest_limbs_Ok.
    rewrite Forall_app, length_app. unfold limb_bytes. rewrite map_app. fold (limb_bytes w) (limb_bytes (concat words)).
    assert (length (limb_bytes w) = length w) as Hlw by apply length_map.
    specialize (IH (S i) (pre ++ limb_bytes w) (drop (length w) post) r).
    rewrite <- app_assoc, length_app, length_drop, Hlw, drop_drop in IH. split.
    + intros (st & (Hw & Hl & ->) & Hr). apply IH in Hr as (Hf & Hl' & ->). split; [done|]. split; [lia|].
      f_equal; [by rewrite <- !app_assoc|lia].
    + intros ([Hw Hf] & Hl & ->). eexists. split; [split; [exact Hw|split; [lia|reflexivity]]|].
      apply IH. split; [done|]. split; [lia|]. f_equal; [by rewrite <- !app_assoc|lia].
Qed.

(** The limbs are bytes, and spell the digest. *)
Definition digest_committed (values : list SP1Field) (digest : bytes) : Prop :=
  let limbs := concat (committed_value_digest values) in
  Forall byte_limb limbs /\ (length limbs <= 32)%nat /\ digest = limb_bytes limbs ++ repeat x00 (32 - length limbs).

Lemma drop_zeros n k : (k <= n)%nat -> drop k (repeat x00 n) = repeat x00 (n - k).
Proof.
  intros Hk. replace n with (k + (n - k))%nat at 1 by lia. rewrite repeat_app. apply drop_app_length'. by rewrite repeat_length.
Qed.

Lemma committed_digest_Ok values d : committed_digest_of values = Ok d <-> digest_committed values d.
Proof.
  unfold committed_digest_of, digest_committed. cbv zeta. rewrite res_bind_Ok.
  setoid_rewrite (digest_words_Ok (committed_value_digest values) 0 [] (repeat x00 32)). cbn [app length].
  rewrite repeat_length. split.
  - intros (r & (Hf & Hl & ->) & [= <-]). split; [done|]. split; [done|]. f_equal. exact (drop_zeros 32 _ Hl).
  - intros (Hf & Hl & ->). eexists. split; [split; [done|split; [done|reflexivity]]|]. cbn beta iota. do 2 f_equal. exact (drop_zeros 32 _ Hl).
Qed.

(** *** Acceptance *)

(** What the adapter asks of the proof itself: the compressed tag, canonical
    bytes, the digest of the public values, and the compressed verifier. *)
Definition proof_shows (raw_proof : bytes) (digest : Hash32) (raw_vkey_hash : bytes) : Prop :=
  (4 <= length raw_proof)%nat /\ le_val (take 4 raw_proof) = 1 /\
  exists proof compressed,
    bincode_deserialize MAX_RAW_COMPRESSED_PROOF_SIZE raw_proof = Ok proof /\
    bincode_serialize proof = Ok raw_proof /\
    as_compressed proof = Some compressed /\
    Z.of_nat (length (recursion_public_values compressed)) = PROOF_MAX_NUM_PVS /\
    digest_committed (recursion_public_values compressed) digest /\
    compressed_verify raw_proof raw_vkey_hash = Ok tt.

Lemma tag_Ok raw u : reject_noncompressed_tag raw = Ok u <-> (4 <= length raw)%nat /\ le_val (take 4 raw) = 1.
Proof.
  destruct u. unfold reject_noncompressed_tag. rewrite res_bind_Ok. setoid_rewrite ok_or_Ok. cbv zeta.
  destruct (Nat.leb_spec 4 (length raw)); [|split; [by intros (? & ? & _)|lia]]. split.
  - intros (t & [= <-] & E). split; [done|]. destruct (Z.eqb_spec (le_val (take 4 raw)) 1); [done|].
    by repeat destruct (le_val _ =? _).
  - intros [_ E]. exists (take 4 raw). rewrite E. done.
Qed.

Lemma deserialize_Ok raw proof : deserialize_canonical_proof raw = Ok proof <->
  bincode_deserialize MAX_RAW_COMPRESSED_PROOF_SIZE raw = Ok proof /\ bincode_serialize proof = Ok raw.
Proof.
  unfold deserialize_canonical_proof. rewrite res_bind_Ok. setoid_rewrite res_bind_Ok. setoid_rewrite map_err_Ok.
  setoid_rewrite fail_then. setoid_rewrite negb_bool_decide_false. split.
  - intros (p & Hd & c & Hs & -> & [= ->]). done.
  - intros [Hd Hs]. exists proof. split; [done|]. by exists raw.
Qed.

Lemma combined_size a b : 0 <= a -> 0 <= b -> a <= SP1_PUBLIC_VALUES_MAX_SIZE -> b <= MAX_RAW_COMPRESSED_PROOF_SIZE ->
  annex_size a b = Some (SP1_ANNEX_HEADER_SIZE + a + b).
Proof.
  intros Ha Hb. change SP1_PUBLIC_VALUES_MAX_SIZE with 16384. change MAX_RAW_COMPRESSED_PROOF_SIZE with 524288.
  intros Ha' Hb'. pose proof (Z.pow_le_mono_r 2 32 (Zpos usize_bits) ltac:(lia) Hwidth) as H32.
  unfold annex_size, usize_checked_add, usize_try. change SP1_ANNEX_HEADER_SIZE with 55.
  destruct (uint_try usize_bits (55 + a)) as [x|] eqn:Ex; [|apply uint_try_None in Ex; lia].
  apply uint_try_Some in Ex. cbn [mbind option_bind]. rewrite Ex.
  destruct (uint_try usize_bits (55 + a + b)) as [y|] eqn:Ey; [|apply uint_try_None in Ey; lia].
  apply uint_try_Some in Ey. cbn [mbind option_bind]. by rewrite Ey.
Qed.

Lemma verify_inner_Ok raw_proof public_values raw_vkey_hash id kind j :
  verify_inner raw_proof public_values raw_vkey_hash id kind = Ok j <->
  raw_proof <> [] /\
  Z.of_nat (length public_values) <= SP1_PUBLIC_VALUES_MAX_SIZE /\
  SP1_ANNEX_HEADER_SIZE + Z.of_nat (length public_values) + Z.of_nat (length raw_proof) <= SP1_ANNEX_MAX_SIZE /\
  (exists ws, key_words raw_vkey_hash id ws) /\
  StrictJournal_verify_expected public_values id kind = Ok j /\
  proof_shows raw_proof (hash_bytes public_values) raw_vkey_hash.
Proof.
  unfold verify_inner, proof_shows. cbv zeta. rewrite !fail_then, Z.eqb_neq, !Z.ltb_ge.
  change MAX_RAW_COMPRESSED_PROOF_SIZE with SP1_ANNEX_MAX_SIZE.
  assert (Z.of_nat (length raw_proof) <> 0 <-> raw_proof <> []) as -> by (destruct raw_proof; cbn [length]; split; (done || lia)).
  split.
  - intros (Hne & Hp & Hv & E). rewrite combined_size in E by (done || lia). cbn [ok_or mbind res_bind] in E.
    rewrite fail_then, Z.ltb_ge in E. destruct E as [Hs E]. apply res_bind_Ok in E as (id' & Hid & E). apply program_id_Ok in Hid.
    rewrite fail_then, negb_bool_decide_false in E. destruct E as [-> E]. apply res_bind_Ok in E as (j' & Hj & E).
    apply map_err_Ok in Hj. apply res_bind_Ok in E as ([] & Ht & E). apply tag_Ok in Ht.
    apply res_bind_Ok in E as (proof & Hd & E). apply deserialize_Ok in Hd as [Hd Hse].
    apply res_bind_Ok in E as (c & Hc & E). apply ok_or_Ok in Hc. rewrite fail_then, negb_false_iff, Z.eqb_eq in E.
    destruct E as [Hl E]. apply res_bind_Ok in E as (d & Hdig & E). apply committed_digest_Ok in Hdig.
    apply res_bind_Ok in E as ([] & Hq & E). apply fail_if_Ok, negb_bool_decide_false in Hq. subst d.
    apply res_bind_Ok in E as ([] & Hver & [= ->]). apply map_err_Ok in Hver.
    split; [done|]. split; [done|]. split; [done|]. split; [done|]. split; [done|]. split; [apply Ht|]. split; [apply Ht|]. by exists proof, c.
  - intros (Hne & Hv & Hs & Hid & Hj & Hl4 & Htag & proof & c & Hd & Hse & Hc & Hl & Hdig & Hver).
    assert (Z.of_nat (length raw_proof) <= SP1_ANNEX_MAX_SIZE) as Hp.
    { change SP1_ANNEX_MAX_SIZE with 524288 in *. change SP1_ANNEX_HEADER_SIZE with 55 in Hs. lia. }
    split; [done|]. split; [done|]. split; [done|]. rewrite combined_size by (done || lia). cbn [ok_or mbind res_bind].
    rewrite fail_then, Z.ltb_ge. split; [done|]. apply res_bind_Ok. exists id. split; [by apply program_id_Ok|].
    rewrite fail_then, negb_bool_decide_false. split; [done|]. apply res_bind_Ok. exists j. split; [by apply map_err_Ok|].
    apply res_bind_Ok. exists tt. split; [by apply tag_Ok|]. apply res_bind_Ok. exists proof. split; [by apply deserialize_Ok|].
    apply res_bind_Ok. exists c. split; [by apply ok_or_Ok|]. rewrite fail_then, negb_false_iff, Z.eqb_eq. split; [done|].
    apply res_bind_Ok. eexists. split; [apply committed_digest_Ok, Hdig|]. apply res_bind_Ok. exists tt.
    split; [by apply fail_if_Ok, negb_bool_decide_false|]. apply res_bind_Ok. exists tt. split; [by apply map_err_Ok|done].
Qed.

Lemma verify_raw_Ok raw_proof public_values raw_vkey_hash id kind j :
  verify_raw_compressed_sha256 raw_proof public_values raw_vkey_hash id kind = Ok j <->
  verify_inner raw_proof public_values raw_vkey_hash id kind = Ok j.
Proof. unfold verify_raw_compressed_sha256. by destruct (verify_inner _ _ _ _ _). Qed.

(** C17: A proof is accepted exactly when everything fits the annex, the key
    hash writes the expected program identifier, the public values are the
    strict journal of that program and statement, and the proof is the
    canonical encoding of a compressed proof that commits to the SHA-256 of
    those public values, byte for byte, and passes the compressed verifier. *)
Theorem sp1_verify_iff (raw_proof public_values raw_vkey_hash : bytes) (id : Hash32) (kind : StatementKind) (j : StrictJournal) :
  verify_raw_compressed_sha256 raw_proof public_values raw_vkey_hash id kind = Ok j <->
  raw_proof <> [] /\
  Z.of_nat (length public_values) <= SP1_PUBLIC_VALUES_MAX_SIZE /\
  SP1_ANNEX_HEADER_SIZE + Z.of_nat (length public_values) + Z.of_nat (length raw_proof) <= SP1_ANNEX_MAX_SIZE /\
  (exists ws, key_words raw_vkey_hash id ws) /\
  (journal_wf j /\ encode j = Some public_values /\ sj_program_id j = id /\ sj_statement_kind j = kind) /\
  proof_shows raw_proof (hash_bytes public_values) raw_vkey_hash.
Proof. by rewrite verify_raw_Ok, verify_inner_Ok, verify_expected_Ok. Qed.

(** One proof shows one statement: if the same proof bytes are accepted
    twice, whatever the claimed public values, key, program and kind, the
    journals, public values, program identifiers and kinds are the same, or the
    two public values are a SHA-256 collision. *)
Theorem sp1_proof_binds_statement (raw_proof : bytes) (values values' vkey vkey' : bytes) (id id' : Hash32)
    (kind kind' : StatementKind) (j j' : StrictJournal) :
  verify_raw_compressed_sha256 raw_proof values vkey id kind = Ok j ->
  verify_raw_compressed_sha256 raw_proof values' vkey' id' kind' = Ok j' ->
  (values = values' /\ j = j' /\ id = id' /\ kind = kind' /\ vkey = vkey') \/ collision values values'.
Proof.
  rewrite !verify_raw_Ok, !verify_inner_Ok.
  intros (_ & _ & _ & (ws & Hk) & Hj & _ & _ & p & c & Hd & _ & Hc & _ & Hv & _)
    (_ & _ & _ & (ws' & Hk') & Hj' & _ & _ & p' & c' & Hd' & _ & Hc' & _ & Hv' & _).
  rewrite Hd in Hd'. injection Hd' as <-. rewrite Hc in Hc'. injection Hc' as <-.
  assert (sha256 values = sha256 values') as Hsha.
  { apply array_eq. destruct Hv as (_ & _ & E), Hv' as (_ & _ & E'). unfold hash_bytes in *. congruence. }
  destruct (decide (values = values')) as [<-|Hne]; [left|by right].
  apply verify_expected_Ok in Hj as (Hw & He & <- & <-), Hj' as (Hw' & He' & <- & <-).
  assert (j = j') as <-.
  { pose proof (proj2 (decode_strict_Ok values j) (conj Hw He)) as E1.
    pose proof (proj2 (decode_strict_Ok values j') (conj Hw' He')) as E2. congruence. }
  do 4 (split; [done|]). destruct Hk as (_ & Hf & -> & E & _), Hk' as (_ & Hf' & -> & E' & _).
  rewrite E in E'. apply (words_inj be_codec) in E' as ->; [done|by apply koala_word32..].
Qed.

(** *** Panics *)

(** An error of the adapter itself. *)
Definition own (e : Sp1VerificationError) : Prop := e <> VerifierPanicked.

Lemma own_map_err {E A : Type} (f : E -> Sp1VerificationError) (m : res E A) :
  (forall e, own (f e)) -> never m -> errs_in own (map_err f m).
Proof. destruct m; cbn; auto. Qed.

Lemma program_id_errs raw : errs_in own (program_id_from_raw_vkey_hash raw).
Proof.
  unfold program_id_from_raw_vkey_hash. apply errs_in_bind; [by apply errs_in_fail_if|]. intros u Hl.
  apply fail_if_Ok, negb_false_iff, Z.eqb_eq in Hl. unfold RAW_VKEY_HASH_SIZE in Hl.
  destruct (words_exist le_codec 8 raw) as (ws & Hn & Hw & ->); [lia|].
  rewrite (convert_all le_codec _ _ _ ws be_codec Hn Hw). destruct (first_noncanonical 0 ws) as [[j v]|]; [done|].
  cbn [mbind res_bind]. errs. done.
Qed.

Lemma digest_limbs_errs limbs : forall i pre post, (length limbs <= length post)%nat ->
  errs_in own (res_foldi digest_limb i limbs (pre ++ post, length pre)).
Proof.
  induction limbs as [|l limbs IH]; intros i pre post Hl; [done|]. cbn [res_foldi]. cbn [length] in Hl.
  destruct post as [|x post]; cbn [length] in Hl; [lia|]. set (y := byte_of (limb_value l)).
  assert (copy_into (length pre) [y] (pre ++ x :: post) = Some (pre ++ [y] ++ post)) as Hcopy
    by exact (copy_into_app pre [x] post [y] _ eq_refl eq_refl).
  apply errs_in_bind.
  - unfold digest_limb. cbv zeta. apply errs_in_bind; [by apply errs_in_fail_if|]. intros _ _. fold (limb_value l). fold y. by rewrite Hcopy.
  - intros st Hst. apply digest_limb_Ok in Hst as (_ & b & Hb & ->). fold y in Hb. rewrite Hcopy in Hb. injection Hb as <-.
    specialize (IH (S i) (pre ++ [y]) post ltac:(lia)). rewrite <- app_assoc, length_app in IH. exact IH.
Qed.

Lemma digest_words_errs words : forall i pre post, (length (concat words) <= length post)%nat ->
  errs_in own (res_foldi digest_word i words (pre ++ post, length pre)).
Proof.
  induction words as [|w words IH]; intros i pre post Hl; [done|]. cbn [res_foldi concat] in *. rewrite length_app in Hl.
  apply errs_in_bind; [apply digest_limbs_errs; lia|]. intros st Hst. apply digest_limbs_Ok in Hst as (_ & _ & ->).
  assert (length (limb_bytes w) = length w) as Hlw by apply length_map.
  specialize (IH (S i) (pre ++ limb_bytes w) (drop (length w) post)). rewrite <- app_assoc, length_app, length_drop, Hlw in IH.
  apply IH. lia.
Qed.

(** A panic of the SP1 crates on this input, or a digest that is not the
    eight words of four limbs of the SP1 type. *)
Definition library_panics (raw_proof raw_vkey_hash : bytes) : Prop :=
  bincode_deserialize MAX_RAW_COMPRESSED_PROOF_SIZE raw_proof = Panic \/
  exists proof, bincode_deserialize MAX_RAW_COMPRESSED_PROOF_SIZE raw_proof = Ok proof /\
    (bincode_serialize proof = Panic \/ compressed_verify raw_proof raw_vkey_hash = Panic \/
     exists compressed, as_compressed proof = Some compressed /\
       (32 < length (concat (committed_value_digest (recursion_public_values compressed))))%nat).

Lemma panic_dec {E A : Type} (m : res E A) : m = Panic \/ m <> Panic.
Proof. destruct m; auto. Qed.
Lemma library_panics_dec raw vkey : library_panics raw vkey \/ ~ library_panics raw vkey.
Proof.
  unfold library_panics. destruct (bincode_deserialize _ raw) as [p| |]; [|by right; intros [?|(? & ? & _)]|by left; left].
  destruct (panic_dec (bincode_serialize p)), (panic_dec (compressed_verify raw vkey)); try (left; right; exists p; tauto).
  destruct (as_compressed p) as [c|] eqn:Ec; [|right; naive_solver].
  destruct (decide (32 < length (concat (committed_value_digest (recursion_public_values c))))%nat); [left|right; naive_solver].
  right. exists p. split; [done|]. do 2 right. by exists c.
Qed.

Lemma deserialize_errs raw vkey : ~ library_panics raw vkey -> errs_in own (deserialize_canonical_proof raw).
Proof.
  intros Hn. unfold deserialize_canonical_proof. errs; try done.
  - apply own_map_err; [done|]. intros E. apply Hn. by left.
  - apply map_err_Ok in Ea. apply own_map_err; [done|]. intros E. apply Hn. right. exists a. split; [done|]. by left.
Qed.

Lemma committed_digest_errs values : (length (concat (committed_value_digest values)) <= 32)%nat ->
  errs_in own (committed_digest_of values).
Proof.
  intros Hl. unfold committed_digest_of. apply errs_in_bind; [|by intros [d k] _].
  apply (digest_words_errs _ 0 [] (repeat x00 32)). by rewrite repeat_length.
Qed.

Lemma tag_errs raw : errs_in own (reject_noncompressed_tag raw).
Proof.
  unfold reject_noncompressed_tag. errs; [done|]. cbv zeta. by repeat destruct (le_val a =? _).
Qed.

Lemma expected_journal_never values id kind : never (StrictJournal_verify_expected values id kind).
Proof.
  unfold StrictJournal_verify_expected. apply never_bind; [apply StrictJournal_decode_strict_never|].
  intros j _. do 2 (apply never_bind; [apply never_fail_if|]; intros _ _). done.
Qed.

Lemma verify_inner_errs raw_proof values vkey id kind : ~ library_panics raw_proof vkey ->
  errs_in own (verify_inner raw_proof values vkey id kind).
Proof.
  intros Hn. unfold verify_inner. cbv zeta. errs; try done.
  - apply program_id_errs.
  - apply own_map_err; [done|apply expected_journal_never].
  - apply tag_errs.
  - by apply (deserialize_errs _ vkey).
  - match goal with Hd : deserialize_canonical_proof _ = Ok ?p, Hc : ok_or _ _ = Ok ?c |- _ =>
      apply deserialize_Ok in Hd as [Hd _]; apply ok_or_Ok in Hc; apply committed_digest_errs, Nat.nlt_ge;
      intros Hl; apply Hn; right; exists p; split; [done|]; do 2 right; by exists c end.
  - unfold require_sha256_public_values_digest. by apply errs_in_fail_if.
  - match goal with Hd : deserialize_canonical_proof _ = Ok ?p |- _ =>
      apply deserialize_Ok in Hd as [Hd _]; apply own_map_err; [done|]; intros E; apply Hn; right; exists p;
      split; [done|]; right; by left end.
Qed.

(** The adapter returns on every input, and it reports a panic only when
    the SP1 crates panic on this proof (or report a digest of more than 32
    limbs): none of its own indices, conversions and copies is out of range,
    whatever the bytes. *)
Theorem sp1_panics_confined (raw_proof values vkey : bytes) (id : Hash32) (kind : StatementKind) :
  verify_raw_compressed_sha256 raw_proof values vkey id kind <> Panic /\
  (verify_raw_compressed_sha256 raw_proof values vkey id kind = Err VerifierPanicked -> library_panics raw_proof vkey).
Proof.
  split; [unfold verify_raw_compressed_sha256; by destruct (verify_inner _ _ _ _ _)|]. intros E.
  destruct (library_panics_dec raw_proof vkey) as [?|Hn]; [done|].
  pose proof (verify_inner_errs raw_proof values vkey id kind Hn) as Hi. unfold verify_raw_compressed_sha256 in E.
  destruct (verify_inner _ _ _ _ _) as [j|e|]; [done| |done]. injection E as ->. by cbn in Hi.
Qed.
End facts.

(** ** A toy SP1: a proof is its tag and 32 limbs, verified under any key *)

Definition toy_sp1 : Sp1 := {|
  SP1Proof := bytes; CompressedProof := bytes; SP1Field := u32; CompressedError := unit;
  PROOF_MAX_NUM_PVS := 32;
  bincode_deserialize _ raw := Ok raw;
  bincode_serialize proof := Ok proof;
  as_compressed proof := Some (drop 4 proof);
  recursion_public_values c := map (fun b => uint_wrap 32 (byte_val b)) c;
  committed_value_digest values := [values];
  as_canonical_u32 x := x;
  compressed_verify _ _ := Ok tt
|}.
Definition sample_public_values : bytes := from_option an_public_values [] sample_annex.
Definition sample_vkey : bytes := repeat x07 32.
Definition sample_raw_proof (values : bytes) : bytes := le_bytes 4 1 ++ arr (@sha256 toy_sha256 values).

Lemma sample_sp1_Ok : exists j, @verify_raw_compressed_sha256 64%positive toy_sha256 toy_sp1
  (sample_raw_proof sample_public_values) sample_public_values sample_vkey (array_rep 32 x07) EthereumState = Ok j.
Proof. apply is_ok_true. by vm_compute. Qed.

Example sp1_verify_iff_witness :
  exists j, journal_wf (H:=toy_sha256) j /\ encode j = Some sample_public_values /\ sj_program_id j = array_rep 32 x07.
Proof.
  destruct sample_sp1_Ok as [j Hj]. exists j.
  apply (@sp1_verify_iff 64%positive ltac:(done) toy_sha256 toy_sp1) in Hj as (_ & _ & _ & _ & (Hw & He & Hid & _) & _). done.
Defined.

(** A second journal, which the toy digest cannot tell from the first. *)
Definition other_output : HeartbeatPublicOutput :=
  MkHeartbeatPublicOutput (array_rep 32 x0a) (hpo_claim_id sample_heartbeat_output)
    (hpo_prior_state sample_heartbeat_output) (hpo_next_state sample_heartbeat_output) (hpo_finalized_execution_block_timestamp sample_heartbeat_output).
Definition other_public_values : bytes :=
  default [] (payload ← encode other_output;
              match @StrictJournal_new toy_sha256 EthereumState (array_rep 32 x07) payload with
              | Ok j => encode j
              | _ => None
              end).
Lemma other_sp1_Ok : exists j, @verify_raw_compressed_sha256 64%positive toy_sha256 toy_sp1
  (sample_raw_proof sample_public_values) other_public_values sample_vkey (array_rep 32 x07) EthereumState = Ok j.
Proof. apply is_ok_true. by vm_compute. Qed.

Example sp1_proof_binds_statement_witness : exists j j' : StrictJournal,
  (sample_public_values = other_public_values /\ j = j' /\ array_rep 32 x07 = array_rep 32 x07 /\
   EthereumState = EthereumState /\ sample_vkey = sample_vkey) \/ @collision toy_sha256 sample_public_values other_public_values.
Proof.
  destruct sample_sp1_Ok as [j Hj], other_sp1_Ok as [j' Hj']. exists j, j'.
  exact (@sp1_proof_binds_statement 64%positive ltac:(done) toy_sha256 toy_sp1 _ _ _ _ _ _ _ _ _ j j' Hj Hj').
Defined.
