(* ===== verification/EthereumInbound.v ===== *)
(** Ethereum inbound verification: [crates/usdd-ethereum-inbound/src/lib.rs].

    A deposit proof shows, under a finalized execution state root, the vault's
    account with the manifest's code and, under its storage root, the commitment
    of every deposit at its slot.  The Merkle-Patricia proofs, RLP and Keccak of
    the alloy crates are the classes [Keccak256] and [AlloyTrie]; the finality
    verifier is the trait [EthereumFinalityTransitionVerifier] of the source.
    [EthereumInboundVerifier] is the implementation of the guest's
    [EthereumStateProofVerifier] on top of it.

    This file holds the data, the operations and the exact codec of the witness;
    [InboundProofs] shows what an accepted proof establishes. *)

From S2P Require Import Prelude Encoding Params Hashing BurnAccumulator Records Deposits Burns.
From S2P Require Import ElementsState Controller ManifestFile Claims Readers Journal Annex Guest.

Local Open Scope Z_scope.

Definition DEPOSIT_COMMITMENT_MAPPING_SLOT : u64 := uint_wrap 64 12.
Definition MAX_MPT_PROOF_NODES : nat := 65.
Definition MAX_MPT_NODE_BYTES : Z := 4096.
Definition MAX_MPT_WITNESS_BYTES : Z := 4 * 1024 * 1024.
Definition TAG_VAULT_STORAGE_WITNESS : u16 := uint_wrap 16 0x6101.
Definition FINALITY_TRANSITION_COMMITMENT_DOMAIN : bytes := str "USDD_ETH_FINALITY_TRANSITION_V1".

Record VaultAccountWitness : Type := MkVaultAccountWitness {
  va_nonce : u64;
  va_balance_be : Hash32;
  va_storage_root : Hash32;
  va_code_hash : Hash32;
  va_proof_nodes : list bytes
}.
Record DepositStorageProof : Type := MkDepositStorageProof { dsp_proof_nodes : list bytes }.
Record VaultStorageWitness : Type := MkVaultStorageWitness {
  vw_account : VaultAccountWitness;
  vw_deposits : list DepositStorageProof
}.

Inductive EthereumInboundProof (P : Type) : Type :=
| InboundDeposit (finality_proof : P) (vault_storage : VaultStorageWitness)
| InboundHeartbeat (finality_proof : P).
Arguments InboundDeposit {P}.
Arguments InboundHeartbeat {P}.

Record EthereumFinalityTransition : Type := MkFinalityTransition {
  et_manifest : ProtocolManifest;
  et_prior_state : MintControllerState;
  et_next : EthereumFinalityWitness
}.

Inductive FinalityVerificationError : Type := FinalityProofRejected.

Class EthereumFinalityTransitionVerifier (P : Type) : Type :=
  verify_finalized_transition : EthereumFinalityTransition -> P -> res FinalityVerificationError unit.

Inductive InboundVerificationError : Type :=
| IE_InvalidManifest | IE_InvalidControllerState | IE_InvalidFinality | IE_FinalityRejected
| IE_EmptyDepositBatch | IE_TooManyDeposits | IE_InvalidDeposit | IE_WrongDepositTarget
| IE_NonConsecutiveDepositNonce | IE_ZeroDepositCommitment | IE_StorageProofCountMismatch
| IE_VaultCodeHashMismatch | IE_InvalidVaultAccount | IE_ProofLimitsExceeded
| IE_AccountProofRejected | IE_StorageProofRejected (index : nat) | IE_AmountOverflow.

Record VerifiedDepositBatch : Type := MkVerifiedDepositBatch {
  vb_execution_state_root : Hash32;
  vb_first_nonce : u64;
  vb_next_nonce : u64;
  vb_total_usdt_micro : u64;
  vb_deposit_ids : list Hash32;
  vb_storage_keys : list Hash32
}.

(** The digest of the [alloy_primitives] crate. *)
Class Keccak256 : Type := keccak256 : bytes -> Hash32.

(** [alloy_rlp::encode] of a [TrieAccount] and of a [U256], [Nibbles::unpack],
    and [alloy_trie::proof::verify_proof], by whether it succeeds. *)
Class AlloyTrie : Type := {
  rlp_trie_account : u64 -> Hash32 -> Hash32 -> Hash32 -> bytes;
  rlp_u256 : Hash32 -> bytes;
  Nibbles : Type;
  nibbles_unpack : Hash32 -> Nibbles;
  verify_proof : Hash32 -> Nibbles -> option bytes -> list bytes -> bool
}.

(** ** The witness limits *)

Section limits.
Context {W : PtrWidth}.

Definition node_len (node : bytes) : Z := Z.of_nat (length node).

Definition validate_node (_ : nat) (node : bytes) (total : Z) : res InboundVerificationError Z :=
  fail_if ((length node =? 0)%nat || (MAX_MPT_NODE_BYTES <? node_len node)) IE_ProofLimitsExceeded;;
  ok_or (usize_checked_add total (node_len node)) IE_ProofLimitsExceeded.
Definition validate_nodes (nodes : list bytes) : res InboundVerificationError Z :=
  fail_if ((length nodes =? 0)%nat || (MAX_MPT_PROOF_NODES <? length nodes)%nat) IE_ProofLimitsExceeded;;
  res_foldi validate_node 0 nodes 0.

Definition validate_storage (_ : nat) (storage : DepositStorageProof) (total : Z) : res InboundVerificationError Z :=
  nodes ← validate_nodes (dsp_proof_nodes storage);
  total ← ok_or (usize_checked_add total nodes) IE_ProofLimitsExceeded;
  fail_if (MAX_MPT_WITNESS_BYTES <? total) IE_ProofLimitsExceeded;;
  Ok total.
Definition validate_limits (w : VaultStorageWitness) : res InboundVerificationError unit :=
  fail_if (MAX_MINT_BATCH_SIZE <? length (vw_deposits w))%nat IE_TooManyDeposits;;
  total ← validate_nodes (va_proof_nodes (vw_account w));
  res_foldi validate_storage 0 (vw_deposits w) total;;
  Ok tt.
End limits.

(** ** The witness codec *)

Definition encode_node (node : bytes) : option bytes :=
  match uint_try 16 (node_len node) with
  | Some len => encode len +++ Some node
  | None => None
  end.
Definition encode_each (nodes : list bytes) : option bytes :=
  foldr (fun node rest => encode_node node +++ rest) (Some []) nodes.
Definition encode_nodes (nodes : list bytes) : option bytes :=
  match uint_try 8 (Z.of_nat (length nodes)) with
  | Some count => encode count +++ encode_each nodes
  | None => None
  end.
Definition encode_deposits (deposits : list DepositStorageProof) : option bytes :=
  foldr (fun deposit rest => encode_nodes (dsp_proof_nodes deposit) +++ rest) (Some []) deposits.

#[export] Instance VaultStorageWitness_encode : CanonicalEncode VaultStorageWitness := fun w =>
  let account := vw_account w in
  encode ENCODING_SCHEMA +++ encode TAG_VAULT_STORAGE_WITNESS
  +++ encode (va_nonce account) +++ encode (va_balance_be account)
  +++ encode (va_storage_root account) +++ encode (va_code_hash account)
  +++ encode_nodes (va_proof_nodes account)
  +++ match uint_try 8 (Z.of_nat (length (vw_deposits w))) with
      | Some count => encode count
      | None => None
      end
  +++ encode_deposits (vw_deposits w).

Section codec.
Context {W : PtrWidth}.

(** [schema != .. || tag != ..]: the tag is read only under the right schema. *)
Definition decode_witness_header : dec unit :=
  schema ← Decoder_u16;
  lift (fail_if (negb (uval schema =? ENCODING_SCHEMA)) (InvalidValue "invalid vault witness header"));;
  tag ← Decoder_u16;
  lift (fail_if (negb (uval tag =? TAG_VAULT_STORAGE_WITNESS)) (InvalidValue "invalid vault witness header")).

(** The loop of [decode_nodes], with the running total it is given. *)
Fixpoint decode_node_loop (count : nat) (total : Z) : dec (list bytes * Z) :=
  match count with
  | O => mret ([], total)
  | S count =>
      len ← Decoder_u16;
      lift (fail_if ((uval len =? 0) || (MAX_MPT_NODE_BYTES <? uval len)) (InvalidValue "invalid MPT proof node length"));;
      total ← lift (ok_or (usize_checked_add total (uval len)) LengthOverflow);
      lift (fail_if (MAX_MPT_WITNESS_BYTES <? total) (InvalidValue "MPT witness exceeds byte limit"));;
      node ← Decoder_take (Z.to_nat (uval len));
      rest ← decode_node_loop count total;
      mret (node :: rest.1, rest.2)
  end.
Definition decode_nodes (total : Z) : dec (list bytes * Z) :=
  count ← Decoder_u8;
  lift (fail_if ((uval count =? 0) || (Z.of_nat MAX_MPT_PROOF_NODES <? uval count))
          (InvalidValue "invalid MPT proof node count"));;
  decode_node_loop (Z.to_nat (uval count)) total.
Fixpoint decode_deposit_loop (count : nat) (total : Z) : dec (list DepositStorageProof * Z) :=
  match count with
  | O => mret ([], total)
  | S count =>
      nodes ← decode_nodes total;
      rest ← decode_deposit_loop count nodes.2;
      mret (MkDepositStorageProof nodes.1 :: rest.1, rest.2)
  end.

#[export] Instance VaultStorageWitness_decode : CanonicalDecode VaultStorageWitness :=
  decode_witness_header;;
  nonce ← Decoder_u64;
  balance_be ← Decoder_fixed 32;
  storage_root ← Decoder_fixed 32;
  code_hash ← Decoder_fixed 32;
  account_nodes ← decode_nodes 0;
  count ← Decoder_u8;
  lift (fail_if (Z.of_nat MAX_MINT_BATCH_SIZE <? uval count) (InvalidValue "too many deposit storage proofs"));;
  deposits ← decode_deposit_loop (Z.to_nat (uval count)) account_nodes.2;
  let witness := MkVaultStorageWitness
    (MkVaultAccountWitness nonce balance_be storage_root code_hash account_nodes.1) deposits.1 in
  lift (map_err (fun _ => InvalidValue "vault witness exceeds resource bounds") (validate_limits witness));;
  mret witness.
End codec.

(** ** Verification *)

Section verify.
Context {W : PtrWidth} {H : Sha256}.

(** A length-prefixed copy of an encoding: [x.encode().encode_to(out)]. *)
Definition encode_nested (e : option bytes) : option bytes := p ← e; encode (p : bytes).

Definition commitment_preimage (t : EthereumFinalityTransition) (manifest_id : Hash32) : option bytes :=
  Some FINALITY_TRANSITION_COMMITMENT_DOMAIN +++ encode ENCODING_SCHEMA +++ encode manifest_id
  +++ encode_nested (encode (et_prior_state t)) +++ encode_nested (encode (et_next t)).
Definition EthereumFinalityTransition_commitment (t : EthereumFinalityTransition)
    : res InboundVerificationError Hash32 :=
  manifest_id ← map_err (fun _ => IE_InvalidManifest) (ProtocolManifest_manifest_id (et_manifest t));
  preimage ← expect (commitment_preimage t manifest_id);
  Ok (hash_bytes preimage).

Definition validate_transition_shape (manifest : ProtocolManifest) (prior_state : MintControllerState)
    (finality : EthereumFinalityWitness) : res InboundVerificationError unit :=
  map_err (fun _ => IE_InvalidManifest) (ProtocolManifest_validate manifest);;
  map_err (fun _ => IE_InvalidControllerState) (MintControllerState_validate prior_state);;
  map_err (fun _ => IE_InvalidFinality) (EthereumFinalityWitness_validate finality);;
  fail_if (bool_decide (mc_configuration_hash prior_state <> pm_controller_configuration_hash manifest)
           || (fw_finalized_beacon_slot finality <? mc_finalized_beacon_slot prior_state)
           || (MAX_ETHEREUM_FINALITY_SLOT_GAP
               <? saturating_sub (fw_finalized_beacon_slot finality) (mc_finalized_beacon_slot prior_state))
           || ((fw_finalized_beacon_slot finality =? mc_finalized_beacon_slot prior_state)
               && (bool_decide (fw_ethereum_light_client_digest finality <> mc_ethereum_light_client_digest prior_state)
                   || bool_decide (fw_finalized_beacon_root finality <> mc_finalized_beacon_root prior_state)
                   || bool_decide (fw_finalized_execution_state_root finality
                                   <> mc_finalized_execution_state_root prior_state)))
           || ((mc_finalized_beacon_slot prior_state <? fw_finalized_beacon_slot finality)
               && bool_decide (fw_ethereum_light_client_digest finality = mc_ethereum_light_client_digest prior_state)))
    IE_InvalidFinality.

Definition deposit_check (manifest : ProtocolManifest) (prior_state : MintControllerState) (offset : nat)
    (deposit : VaultDeposit) (_ : unit) : res InboundVerificationError unit :=
  map_err (fun _ => IE_InvalidDeposit) (VaultDeposit_validate deposit);;
  expected_nonce ← ok_or (checked_add (mc_next_mint_nonce prior_state) (uint_wrap 64 (Z.of_nat offset)))
    IE_NonConsecutiveDepositNonce;
  let wrong_nonce := negb (vd_nonce deposit =? uval expected_nonce) in
  fail_if (negb (vd_ethereum_chain_id deposit =? pm_ethereum_chain_id manifest)
           || bool_decide (vd_vault deposit <> pm_vault manifest)
           || bool_decide (vd_usdt deposit <> pm_usdt manifest)
           || wrong_nonce)
    (if wrong_nonce then IE_NonConsecutiveDepositNonce else IE_WrongDepositTarget).
Definition validate_deposit_batch (manifest : ProtocolManifest) (prior_state : MintControllerState)
    (deposits : list VaultDeposit) : res InboundVerificationError unit :=
  fail_if (length deposits =? 0)%nat IE_EmptyDepositBatch;;
  fail_if (MAX_MINT_BATCH_SIZE <? length deposits)%nat IE_TooManyDeposits;;
  res_foldi (deposit_check manifest prior_state) 0 deposits tt;;
  map_err (fun _ => IE_InvalidDeposit) (MintBatch_from_deposits deposits);;
  Ok tt.

Context {KC : Keccak256} {T : AlloyTrie}.

Definition verify_vault_account (state_root : Hash32) (manifest : ProtocolManifest) (witness : VaultAccountWitness)
    : res InboundVerificationError unit :=
  fail_if (bool_decide (va_storage_root witness = ZERO) || bool_decide (va_code_hash witness = ZERO)) IE_InvalidVaultAccount;;
  fail_if (bool_decide (va_code_hash witness <> pm_vault_code_hash manifest)) IE_VaultCodeHashMismatch;;
  let account_value := rlp_trie_account (va_nonce witness) (va_balance_be witness) (va_storage_root witness)
                         (va_code_hash witness) in
  let address_path := nibbles_unpack (keccak256 (arr (pm_vault manifest))) in
  fail_if (negb (verify_proof state_root address_path (Some account_value) (va_proof_nodes witness)))
    IE_AccountProofRejected.

Definition verify_storage_value (storage_root storage_key value : Hash32) (proof_nodes : list bytes) : bool :=
  verify_proof storage_root (nibbles_unpack (keccak256 (arr storage_key))) (Some (rlp_u256 value)) proof_nodes.

(** [abi.encode(uint64(nonce), uint256(12))] *)
Definition storage_key_preimage (nonce : u64) : bytes :=
  u256_of_u64 nonce ++ u256_of_u64 DEPOSIT_COMMITMENT_MAPPING_SLOT.
Definition deposit_commitment_storage_key (nonce : u64) : Hash32 := keccak256 (storage_key_preimage nonce).

(** The locals of the loop of [verify_finalized_deposit_batch]. *)
Record DepositScan : Type := MkDepositScan {
  sd_deposit_ids : list Hash32;
  sd_storage_keys : list Hash32;
  sd_total_usdt_micro : u64
}.
Definition deposit_step (storage_root : Hash32) (index : nat) (entry : VaultDeposit * DepositStorageProof)
    (scan : DepositScan) : res InboundVerificationError DepositScan :=
  let '(deposit, storage_proof) := entry in
  let deposit_id := VaultDeposit_deposit_id deposit in
  fail_if (bool_decide (deposit_id = ZERO)) IE_ZeroDepositCommitment;;
  let storage_key := deposit_commitment_storage_key (vd_nonce deposit) in
  fail_if (negb (verify_storage_value storage_root storage_key deposit_id (dsp_proof_nodes storage_proof)))
    (IE_StorageProofRejected index);;
  total_usdt_micro ← ok_or (checked_add (sd_total_usdt_micro scan) (vd_usdt_amount_micro deposit)) IE_AmountOverflow;
  Ok (MkDepositScan (sd_deposit_ids scan ++ [deposit_id]) (sd_storage_keys scan ++ [storage_key]) total_usdt_micro).

Context {P : Type} {F : EthereumFinalityTransitionVerifier P}.

Definition inbound_verify_finalized_heartbeat (manifest : ProtocolManifest) (prior_state : MintControllerState)
    (finality : EthereumFinalityWitness) (proof : P) : res InboundVerificationError unit :=
  validate_transition_shape manifest prior_state finality;;
  fail_if (fw_finalized_beacon_slot finality <=? mc_finalized_beacon_slot prior_state) IE_InvalidFinality;;
  map_err (fun _ => IE_FinalityRejected)
    (verify_finalized_transition (MkFinalityTransition manifest prior_state finality) proof).

Definition verify_finalized_deposit_batch (manifest : ProtocolManifest) (prior_state : MintControllerState)
    (finality : EthereumFinalityWitness) (deposits : list VaultDeposit) (finality_proof : P)
    (witness : VaultStorageWitness) : res InboundVerificationError VerifiedDepositBatch :=
  validate_transition_shape manifest prior_state finality;;
  validate_deposit_batch manifest prior_state deposits;;
  fail_if (negb (length (vw_deposits witness) =? length deposits)%nat) IE_StorageProofCountMismatch;;
  validate_limits witness;;
  map_err (fun _ => IE_FinalityRejected)
    (verify_finalized_transition (MkFinalityTransition manifest prior_state finality) finality_proof);;
  verify_vault_account (fw_finalized_execution_state_root finality) manifest (vw_account witness);;
  scan ← res_foldi (deposit_step (va_storage_root (vw_account witness))) 0
           (combine deposits (vw_deposits witness)) (MkDepositScan [] [] (uint_wrap 64 0));
  next_nonce ← ok_or (checked_add (mc_next_mint_nonce prior_state) (uint_wrap 64 (Z.of_nat (length deposits))))
    IE_NonConsecutiveDepositNonce;
  Ok {|
    vb_execution_state_root := fw_finalized_execution_state_root finality;
    vb_first_nonce := mc_next_mint_nonce prior_state;
    vb_next_nonce := next_nonce;
    vb_total_usdt_micro := sd_total_usdt_micro scan;
    vb_deposit_ids := sd_deposit_ids scan;
    vb_storage_keys := sd_storage_keys scan
  |}.

Definition map_proof_error (error : InboundVerificationError) : VerificationError :=
  match error with
  | IE_FinalityRejected => InvalidProof "Ethereum finality transition rejected"
  | IE_AccountProofRejected => InvalidProof "vault account proof rejected"
  | IE_StorageProofRejected _ => InvalidProof "vault deposit storage proof rejected"
  | _ => InvalidProof "invalid Ethereum inbound proof witness"
  end.

(** The implementation of the guest's trait. *)
#[export] Instance EthereumInboundVerifier : EthereumStateProofVerifier (EthereumInboundProof P) := {|
  verify_finalized_deposits manifest claim proof :=
    match proof with
    | InboundDeposit finality_proof vault_storage =>
        map_err map_proof_error
          (verify_finalized_deposit_batch manifest (dc_prior_state claim) (dc_finality claim) (dc_deposits claim)
             finality_proof vault_storage);;
        Ok tt
    | InboundHeartbeat _ => Err (InvalidProof "heartbeat proof supplied for deposit statement")
    end;
  verify_finalized_heartbeat manifest claim proof :=
    match proof with
    | InboundHeartbeat finality_proof =>
        map_err map_proof_error
          (inbound_verify_finalized_heartbeat manifest (hc_prior_state claim) (hc_finality claim) finality_proof)
    | InboundDeposit _ _ => Err (InvalidProof "deposit proof supplied for heartbeat statement")
    end
|}.
End verify.

(** ** The limits and the codec are exact *)

Definition node_ok (node : bytes) : Prop := 1 <= node_len node <= 4096.
Definition nodes_ok (nodes : list bytes) : Prop := (1 <= length nodes <= 65)%nat /\ Forall node_ok nodes.
Definition nodes_size (nodes : list bytes) : Z := sumZ node_len nodes.
Definition deposits_size (deposits : list DepositStorageProof) : Z :=
  sumZ (fun deposit => nodes_size (dsp_proof_nodes deposit)) deposits.

Record witness_wf (w : VaultStorageWitness) : Prop := {
  ww_account : nodes_ok (va_proof_nodes (vw_account w));
  ww_count : (length (vw_deposits w) <= 64)%nat;
  ww_deposits : Forall (fun deposit => nodes_ok (dsp_proof_nodes deposit)) (vw_deposits w);
  ww_size : nodes_size (va_proof_nodes (vw_account w)) + deposits_size (vw_deposits w) <= 4194304
}.

Lemma nodes_size_bound nodes : Forall node_ok nodes -> 0 <= nodes_size nodes <= 4096 * Z.of_nat (length nodes).
Proof.
  unfold nodes_size, sumZ. induction 1 as [|x l Hx _ IH]; cbn [foldr length]; [lia|]. unfold node_ok in Hx. lia.
Qed.

Lemma nodes_ok_size nodes : nodes_ok nodes -> 0 <= nodes_size nodes <= 266240.
Proof. intros [Hl Hf]. pose proof (nodes_size_bound _ Hf). lia. Qed.

Lemma deposits_size_nonneg deposits : Forall (fun d => nodes_ok (dsp_proof_nodes d)) deposits -> 0 <= deposits_size deposits.
Proof.
  unfold deposits_size, sumZ. induction 1 as [|x l Hx _ IH]; cbn [foldr]; [lia|]. pose proof (nodes_ok_size _ Hx). lia.
Qed.

Section codec_facts.
Context {W : PtrWidth} (Hwidth : 32 <= Zpos usize_bits).

Lemma usize_sum a b : 0 <= a <= 4194304 -> 0 <= b <= 4194304 -> usize_checked_add a b = Some (a + b).
Proof.
  intros Ha Hb. pose proof (Z.pow_le_mono_r 2 32 (Zpos usize_bits) ltac:(lia) Hwidth).
  unfold usize_checked_add, usize_try. destruct (uint_try usize_bits (a + b)) as [x|] eqn:E.
  - apply uint_try_Some in E. cbn [mbind option_bind]. by rewrite E.
  - apply uint_try_None in E. lia.
Qed.

Lemma node_guard node : ((length node =? 0)%nat || (MAX_MPT_NODE_BYTES <? node_len node)) = false <-> node_ok node.
Proof.
  unfold node_ok. change MAX_MPT_NODE_BYTES with 4096. unfold node_len. rewrite orb_false_iff, Nat.eqb_neq, Z.ltb_ge. lia.
Qed.

Lemma validate_node_Ok i node total t : 0 <= total <= 4194304 ->
  validate_node i node total = Ok t <-> node_ok node /\ t = total + node_len node.
Proof.
  intros H0. unfold validate_node. rewrite fail_then, node_guard. split.
  - intros [Hx E]. pose proof Hx as [Hx1 Hx2]. rewrite usize_sum in E by lia. injection E as <-. done.
  - intros [Hx ->]. pose proof Hx as [Hx1 Hx2]. by rewrite usize_sum by lia.
Qed.

Lemma validate_node_loop nodes : forall i total t, 0 <= total -> total + 4096 * Z.of_nat (length nodes) <= 4194304 ->
  res_foldi validate_node i nodes total = Ok t <-> Forall node_ok nodes /\ t = total + nodes_size nodes.
Proof.
  unfold nodes_size, sumZ. induction nodes as [|x l IH]; intros i total t H0 Hb; cbn [res_foldi foldr length] in *.
  - rewrite Z.add_0_r. split; [intros [= <-]; split; [constructor|done]|by intros [_ ->]].
  - rewrite res_bind_Ok, Forall_cons. split.
    + intros (s & E1 & E). apply validate_node_Ok in E1 as [Hx ->]; [|lia]. pose proof Hx as [Hx1 Hx2].
      apply IH in E as [Hf ->]; [|lia..]. split; [done|lia].
    + intros [[Hx Hf] ->]. exists (total + node_len x). split; [apply validate_node_Ok; [lia|done]|].
      pose proof Hx as [Hx1 Hx2]. apply IH; [lia..|]. split; [done|lia].
Qed.

Lemma validate_nodes_Ok nodes t : validate_nodes nodes = Ok t <-> nodes_ok nodes /\ t = nodes_size nodes.
Proof.
  unfold validate_nodes, nodes_ok, MAX_MPT_PROOF_NODES. rewrite fail_then, orb_false_iff, Nat.eqb_neq, Nat.ltb_ge. split.
  - intros [Hl E]. apply validate_node_loop in E as [Hf ->]; [|lia..]. split; [split; [lia|done]|lia].
  - intros [[Hl Hf] ->]. split; [lia|]. apply validate_node_loop; [lia..|]. split; [done|lia].
Qed.

Lemma validate_storage_Ok i x total t : 0 <= total <= 4194304 ->
  validate_storage i x total = Ok t <->
  nodes_ok (dsp_proof_nodes x) /\ t = total + nodes_size (dsp_proof_nodes x) /\ t <= 4194304.
Proof.
  intros H0. unfold validate_storage. rewrite res_bind_Ok. setoid_rewrite validate_nodes_Ok.
  change MAX_MPT_WITNESS_BYTES with 4194304. split.
  - intros (n & [Hx ->] & E). pose proof (nodes_ok_size _ Hx). rewrite usize_sum in E by lia. cbn [ok_or mbind res_bind] in E.
    rewrite fail_then, Z.ltb_ge in E. by destruct E as [Hle [= <-]].
  - intros (Hx & -> & Ht). pose proof (nodes_ok_size _ Hx). eexists. split; [done|]. rewrite usize_sum by lia.
    cbn [ok_or mbind res_bind]. rewrite fail_then, Z.ltb_ge. done.
Qed.

Lemma validate_storage_loop deposits : forall i total t, 0 <= total <= 4194304 ->
  res_foldi validate_storage i deposits total = Ok t <->
  Forall (fun deposit => nodes_ok (dsp_proof_nodes deposit)) deposits /\ t = total + deposits_size deposits /\ t <= 4194304.
Proof.
  unfold deposits_size, sumZ. induction deposits as [|x l IH]; intros i total t H0; cbn [res_foldi foldr].
  - rewrite Z.add_0_r. split; [intros [= <-]; split; [constructor|lia]|by intros (_ & -> & _)].
  - rewrite res_bind_Ok, Forall_cons. split.
    + intros (s & E1 & E). apply validate_storage_Ok in E1 as (Hx & -> & Hs); [|done]. pose proof (nodes_ok_size _ Hx).
      apply IH in E as (Hf & -> & Ht); [|lia]. split; [done|]. split; [lia|done].
    + intros ([Hx Hf] & -> & Ht). pose proof (nodes_ok_size _ Hx). pose proof (deposits_size_nonneg _ Hf).
      unfold deposits_size, sumZ in *. exists (total + nodes_size (dsp_proof_nodes x)).
      split; [apply validate_storage_Ok; [done|]; split; [done|]; split; [done|lia]|].
      apply IH; [lia|]. split; [done|]. split; [lia|done].
Qed.

Lemma validate_limits_Ok w : validate_limits w = Ok tt <-> witness_wf w.
Proof.
  unfold validate_limits, MAX_MINT_BATCH_SIZE. rewrite fail_then, Nat.ltb_ge, res_bind_Ok. setoid_rewrite validate_nodes_Ok.
  setoid_rewrite res_bind_Ok. split.
  - intros (Hc & t & [Ha ->] & s & E & _). pose proof (nodes_ok_size _ Ha). apply validate_storage_loop in E as (Hd & -> & Hs); [|lia].
    by constructor.
  - intros [Ha Hc Hd Hs]. pose proof (nodes_ok_size _ Ha). split; [done|]. eexists. split; [done|]. eexists. split; [|done].
    apply validate_storage_loop; [lia|]. done.
Qed.

Lemma node_encoding node (len : u16) : uval len = node_len node -> encode_node node = encode len +++ Some node.
Proof.
  intros Hl. unfold encode_node. destruct (uint_try 16 (node_len node)) as [l|] eqn:E.
  - apply uint_try_Some in E. by rewrite (uint_eq l len) by congruence.
  - apply uint_try_None in E. pose proof (uint_range len). lia.
Qed.

Lemma len_guard (len : u16) node : uval len = node_len node ->
  ((uval len =? 0) || (MAX_MPT_NODE_BYTES <? uval len)) = false <-> node_ok node.
Proof. intros ->. rewrite <- node_guard. unfold node_len. by destruct node. Qed.

Lemma node_loop_spec n : forall total d r d', 0 <= total <= 4194304 ->
  decode_node_loop n total d = Ok (r, d') <->
  (length r.1 = n /\ Forall node_ok r.1 /\ r.2 = total + nodes_size r.1 /\ r.2 <= 4194304) /\ reads (encode_each r.1) d d'.
Proof.
  unfold nodes_size, sumZ. induction n as [|n IH]; intros total d [nodes t] d' H0; cbn [decode_node_loop fst snd].
  - rewrite dec_ret_Ok. split.
    + intros [[= -> ->] ->]. cbn [foldr encode_each]. rewrite reads_nil. repeat split; try constructor; lia.
    + intros [(->%nil_length_inv & _ & -> & _) Hr]. cbn [foldr encode_each] in *. rewrite reads_nil in Hr. by rewrite Z.add_0_r.
  - split.
    + intros E. dec_fold. inv_dec. inv_ok. change MAX_MPT_WITNESS_BYTES with 4194304 in *.
      apply take_reads in Hd3 as [Hlen Hnode]. pose proof (uint_range v).
      assert (uval v = node_len v3) as Hv3 by (unfold node_len; lia).
      assert (node_ok v3) as Hok by (apply (len_guard v); [done|]; rewrite orb_false_iff, Z.eqb_neq, Z.ltb_ge; done).
      pose proof Hok as [Ho1 Ho2]. rewrite Hv3, usize_sum in Hl0 by lia. injection Hl0 as <-. injection H as -> ->.
      apply IH in Hd4 as [(Hn & Hf & Et & Ht) Hrest]; [|lia]. cbn [length foldr encode_each].
      split; [split; [lia|]; split; [by constructor|]; split; [lia|done]|].
      rewrite (node_encoding v3 v Hv3). apply reads_app. eexists. split; [|exact Hrest]. apply reads_app. by eexists.
    + intros [(Hn & Hf & Et & Ht) Hr]. destruct nodes as [|x l]; [done|]. cbn [length foldr encode_each] in *.
      apply Forall_cons in Hf as [Hx Hf]. pose proof Hx as [Hx1 Hx2]. pose proof (nodes_size_bound _ Hf) as Hs. unfold nodes_size, sumZ in Hs.
      set (len := uint_wrap 16 (node_len x)). assert (uval len = node_len x) as Hl by (apply uval_wrap_small; lia).
      rewrite (node_encoding x len Hl) in Hr. apply reads_app in Hr as (d2 & Hr & Hrest). apply reads_app in Hr as (d1 & Hr1 & Hr2).
      dec_fold. dec_step; [apply codec_spec; split; [done|exact Hr1]|].
      dec_step; [apply lift_Ok; split; [by apply (fail_if_Ok _ _ tt), (len_guard len x)|reflexivity]|].
      dec_step; [apply lift_Ok; split; [rewrite Hl, usize_sum by lia; reflexivity|reflexivity]|].
      dec_step; [apply lift_Ok; split; [apply (fail_if_Ok _ _ tt), Z.ltb_ge; change MAX_MPT_WITNESS_BYTES with 4194304; lia|reflexivity]|].
      dec_step; [apply take_reads; split; [|exact Hr2]; rewrite Hl; unfold node_len; lia|].
      dec_step; [apply (IH _ _ (l, t)); [lia|]; cbn [fst snd]; split; [split; [lia|]; split; [done|]; split; [lia|done]|exact Hrest]|].
      apply dec_ret_Ok. done.
Qed.

Lemma nodes_spec total d r d' : 0 <= total <= 4194304 ->
  decode_nodes total d = Ok (r, d') <->
  (nodes_ok r.1 /\ r.2 = total + nodes_size r.1 /\ r.2 <= 4194304) /\ reads (encode_nodes r.1) d d'.
Proof.
  intros H0. unfold decode_nodes, nodes_ok, encode_nodes. split.
  - intros E. dec_fold. inv_dec. inv_ok. change (Z.of_nat MAX_MPT_PROOF_NODES) with 65 in *.
    match goal with H : decode_node_loop _ _ _ = Ok _ |- _ => apply node_loop_spec in H as [(Hn & Hf & Et & Ht) Hr']; [|done] end.
    match goal with v : u8 |- _ => pose proof (uint_range v); assert (Z.of_nat (length r.1) = uval v) as Hl by lia; rewrite Hl;
      assert (uint_try 8 (uval v) = Some v) as -> by (by apply uint_try_Some) end.
    split; [split; [split; [lia|done]|done]|]. apply reads_app. by eexists.
  - intros [([Hl Hf] & Et & Ht) Hr]. destruct (uint_try 8 (Z.of_nat (length r.1))) as [c|] eqn:Ec; [|by destruct Hr as (? & ? & _)].
    apply uint_try_Some in Ec. apply reads_app in Hr as (d1 & Hr1 & Hr2). dec_fold.
    dec_step; [apply codec_spec; split; [done|exact Hr1]|].
    dec_step; [apply lift_Ok; split; [apply (fail_if_Ok _ _ tt), orb_false_iff; rewrite Z.eqb_neq, Z.ltb_ge;
      change (Z.of_nat MAX_MPT_PROOF_NODES) with 65; lia|reflexivity]|].
    rewrite Ec, Nat2Z.id. by apply node_loop_spec.
Qed.

Lemma encode_nodes_total nodes : nodes_ok nodes -> exists p, encode_nodes nodes = Some p.
Proof.
  intros [Hl Hf]. unfold encode_nodes. destruct (uint_try 8 (Z.of_nat (length nodes))) as [c|] eqn:E; [|apply uint_try_None in E; lia].
  assert (exists p, encode_each nodes = Some p) as [p ->]; [|by eexists]. clear Hl E. induction Hf as [|x l Hx _ [p Hp]]; [by eexists|].
  cbn [encode_each foldr]. unfold encode_each in Hp. rewrite Hp. pose proof Hx as [Hx1 Hx2].
  rewrite (node_encoding x (uint_wrap 16 (node_len x))) by (apply uval_wrap_small; lia). by eexists.
Qed.

Lemma deposit_loop_spec n : forall total d r d', 0 <= total <= 4194304 ->
  decode_deposit_loop n total d = Ok (r, d') <->
  (length r.1 = n /\ Forall (fun x => nodes_ok (dsp_proof_nodes x)) r.1 /\ r.2 = total + deposits_size r.1 /\ r.2 <= 4194304) /\
  reads (encode_deposits r.1) d d'.
Proof.
  unfold deposits_size, sumZ. induction n as [|n IH]; intros total d [deps t] d' H0; cbn [decode_deposit_loop fst snd].
  - rewrite dec_ret_Ok. split.
    + intros [[= -> ->] ->]. cbn [foldr encode_deposits]. rewrite reads_nil. repeat split; try constructor; lia.
    + intros [(->%nil_length_inv & _ & -> & _) Hr]. cbn [foldr encode_deposits] in *. rewrite reads_nil in Hr. by rewrite Z.add_0_r.
  - split.
    + intros E. inv_dec. match goal with H : (_, _) = (_, _) |- _ => injection H as -> -> end.
      match goal with H : decode_nodes _ _ = Ok _ |- _ => apply nodes_spec in H as [(Hok & Es & Hs) Hr1]; [|done] end.
      pose proof (nodes_ok_size _ Hok).
      match goal with H : decode_deposit_loop _ _ _ = Ok _ |- _ => apply IH in H as [(Hn & Hf & Et & Ht) Hr2]; [|lia] end.
      cbn [length foldr encode_deposits dsp_proof_nodes].
      split; [split; [lia|]; split; [by constructor|]; split; [lia|done]|]. apply reads_app. by eexists.
    + intros [(Hn & Hf & Et & Ht) Hr]. destruct deps as [|x l]; [done|]. cbn [length foldr encode_deposits] in *.
      apply Forall_cons in Hf as [Hx Hf]. pose proof (nodes_ok_size _ Hx). pose proof (deposits_size_nonneg _ Hf) as Hd.
      unfold deposits_size, sumZ in Hd. apply reads_app in Hr as (d1 & Hr1 & Hr2).
      dec_step; [apply (nodes_spec _ _ (dsp_proof_nodes x, total + nodes_size (dsp_proof_nodes x))); [done|];
        cbn [fst snd]; split; [split; [done|]; split; [done|lia]|exact Hr1]|]. cbn [fst snd].
      dec_step; [apply (IH _ _ (l, t)); [lia|]; cbn [fst snd]; split; [split; [lia|]; split; [done|]; split; [lia|done]|exact Hr2]|].
      apply dec_ret_Ok. by destruct x.
Qed.

#[export] Instance witness_header_spec :
  Header decode_witness_header (encode ENCODING_SCHEMA +++ encode TAG_VAULT_STORAGE_WITNESS).
Proof.
  intros d u d'. unfold decode_witness_header. split.
  - intros Hd. dec_fold. inv_dec. inv_ok.
    repeat match goal with E : uval _ = uval _ |- _ => apply uint_eq in E; subst end. apply reads_app. eauto.
  - intros Hr. inv_reads. dec_fold. dec_build; try done; try (by rewrite Z.eqb_refl).
    destruct u. apply (fail_if_Ok _ _ tt). by rewrite Z.eqb_refl.
Qed.

Lemma reads_assoc a b c d d' : reads ((a +++ b) +++ c) d d' <-> reads (a +++ b +++ c) d d'.
Proof. rewrite !reads_app. setoid_rewrite reads_app. naive_solver. Qed.

Lemma witness_spec d w d' :
  VaultStorageWitness_decode d = Ok (w, d') <-> witness_wf w /\ reads (VaultStorageWitness_encode w) d d'.
Proof.
  unfold VaultStorageWitness_decode, VaultStorageWitness_encode. cbv zeta. rewrite <- reads_assoc. split.
  - intros E. dec_fold. inv_record. inv_ok. change (Z.of_nat MAX_MINT_BATCH_SIZE) with 64 in *.
    match goal with H : validate_limits _ = Ok _ |- _ => apply validate_limits_Ok in H as Hw end.
    split; [exact Hw|]. cbn [vw_account vw_deposits va_nonce va_balance_be va_storage_root va_code_hash va_proof_nodes].
    match goal with H : decode_nodes _ _ = Ok _ |- _ => apply nodes_spec in H as [(Hok & Es & Hs) Hra]; [|lia] end.
    pose proof (nodes_ok_size _ Hok).
    match goal with H : decode_deposit_loop (Z.to_nat (uval ?c)) _ _ = Ok (?r, _) |- _ =>
      apply deposit_loop_spec in H as [(Hn & Hf & Et & Ht) Hrb]; [|lia]; pose proof (uint_range c);
      rewrite (proj2 (uint_try_Some 8 (Z.of_nat (length r.1)) c)) by lia end.
    reads_each.
  - intros [[Ha Hc Hd Hs] Hr]. pose proof (nodes_ok_size _ Ha). pose proof (deposits_size_nonneg _ Hd).
    destruct (uint_try 8 (Z.of_nat (length (vw_deposits w)))) as [c|] eqn:Ec;
      [|inv_reads; by match goal with H : reads None _ _ |- _ => destruct H as (? & ? & _) end].
    apply uint_try_Some in Ec. inv_reads. dec_fold.
    set (total := nodes_size (va_proof_nodes (vw_account w))) in *.
    dec_step; [apply (header_spec (m:=decode_witness_header) _ tt), reads_app; eauto|].
    do 4 (dec_step; [apply codec_spec; split; [done|eassumption]|]).
    dec_step; [apply (nodes_spec 0 _ (va_proof_nodes (vw_account w), total)); [lia|]; cbn [fst snd];
      split; [split; [done|]; split; [done|lia]|eassumption]|]. cbn [fst snd].
    dec_step; [apply codec_spec; split; [done|eassumption]|].
    dec_step; [apply lift_Ok; split; [apply (fail_if_Ok _ _ tt), Z.ltb_ge; change (Z.of_nat MAX_MINT_BATCH_SIZE) with 64; lia|reflexivity]|].
    dec_step; [apply (deposit_loop_spec _ _ _ (vw_deposits w, total + deposits_size (vw_deposits w))); [lia|]; cbn [fst snd];
      split; [split; [lia|]; split; [done|]; split; [done|lia]|eassumption]|]. cbn [fst snd].
    assert (MkVaultStorageWitness (MkVaultAccountWitness (va_nonce (vw_account w)) (va_balance_be (vw_account w))
      (va_storage_root (vw_account w)) (va_code_hash (vw_account w)) (va_proof_nodes (vw_account w))) (vw_deposits w) = w) as ->
      by (destruct w as [[] ?]; done).
    dec_step; [apply lift_Ok; split; [by apply map_err_Ok, validate_limits_Ok|reflexivity]|]. by apply dec_ret_Ok.
Qed.

#[export] Program Instance VaultStorageWitness_codec : Codec VaultStorageWitness := {| valid := witness_wf |}.
Next Obligation. exact witness_spec. Qed.
Next Obligation.
  intros w [Ha Hc Hd Hs]. unfold encode, VaultStorageWitness_encode. cbv zeta.
  destruct (encode_nodes_total _ Ha) as [p ->].
  destruct (uint_try 8 (Z.of_nat (length (vw_deposits w)))) as [c|] eqn:E; [|apply uint_try_None in E; lia].
  assert (exists q, encode_deposits (vw_deposits w) = Some q) as [q ->]; [|by eexists].
  clear -Hd Hwidth. induction Hd as [|x l Hx _ [q Hq]]; [by eexists|]. cbn [encode_deposits foldr]. unfold encode_deposits in Hq. rewrite Hq.
  destruct (encode_nodes_total _ Hx) as [p ->]. by eexists.
Qed.

(** The vault witness has one byte format: [decode_exact] accepts exactly
    the encodings of the witnesses within the limits (1 to 65 nodes of 1 to 4096
    bytes per proof, at most 64 deposit proofs, 4 MiB in all), the limits
    checked while reading are the ones of [validate_limits], and every such
    witness can be encoded. *)
Theorem vault_witness_canonical :
  (forall bs w, decode_exact (A:=VaultStorageWitness) bs = Ok w <-> validate_limits w = Ok tt /\ encode w = Some bs) /\
  (forall w, validate_limits w = Ok tt <-> witness_wf w) /\
  (forall w, validate_limits w = Ok tt -> exists bs, encode w = Some bs).
Proof.
  split; [|split].
  - intros bs w. rewrite validate_limits_Ok. exact (decode_exact_spec (A:=VaultStorageWitness) bs w).
  - exact validate_limits_Ok.
  - intros w Hw. apply (codec_total (A:=VaultStorageWitness)). by apply validate_limits_Ok.
Qed.
End codec_facts.

(** One account node and one deposit proof of one node each. *)
Definition small_witness : VaultStorageWitness :=
  MkVaultStorageWitness (MkVaultAccountWitness (uint_wrap 64 1) ZERO ZERO ZERO [[x01]]) [MkDepositStorageProof [[x02]]].

Example vault_witness_canonical_witness :
  exists bs, encode small_witness = Some bs /\ @decode_exact _ (@VaultStorageWitness_decode 64%positive) bs = Ok small_witness.
Proof.
  assert (@validate_limits 64%positive small_witness = Ok tt) as Hl by by vm_compute.
  destruct (@vault_witness_canonical 64%positive ltac:(done)) as (Hd & _ & Ht).
  destruct (Ht _ Hl) as [bs Hb]. exists bs. split; [exact Hb|]. by apply Hd.
Defined.
