(* ===== verification/InboundProofs.v ===== *)
(** What the Ethereum inbound verification establishes.

    A deposit batch is accepted exactly when its transition is one the controller
    allows, its deposits are the next ones of the manifest's vault, the finality
    verifier accepts the transition, and the vault account and every deposit
    commitment are proved under the finalized state root.  Composed with the
    guest, a deposit journal mints only proved deposits; and if the trie proofs
    are binding, one state root has one deposit per nonce. *)

From S2P Require Import Prelude Encoding Params Hashing BurnAccumulator Records Deposits Burns.
From S2P Require Import ElementsState Controller ManifestFile Claims Readers Journal Annex Guest EthereumInbound.

Local Open Scope Z_scope.

Section shape.
Context {H : Sha256}.

(** The transition a proof may be asked about: valid parts, one configuration,
    and finality that advances as the controller requires. *)
Record transition_shape (m : ProtocolManifest) (s : MintControllerState) (f : EthereumFinalityWitness) : Prop := {
  ts_manifest : ProtocolManifest_validate m = Ok tt;
  ts_prior : MintControllerState_validate s = Ok tt;
  ts_finality : EthereumFinalityWitness_validate f = Ok tt;
  ts_configuration : mc_configuration_hash s = pm_controller_configuration_hash m;
  ts_advance : validate_finality_advance s f = Ok tt
}.

Lemma finality_valid_slot f : EthereumFinalityWitness_validate f = Ok tt -> uval (fw_finalized_beacon_slot f) <> 0.
Proof. unfold EthereumFinalityWitness_validate. rewrite fail_if_Ok, !orb_false_iff, Z.eqb_neq. tauto. Qed.

Lemma transition_shape_Ok m s f : validate_transition_shape m s f = Ok tt <-> transition_shape m s f.
Proof.
  unfold validate_transition_shape. rewrite res_bind_Ok. setoid_rewrite map_err_Ok. split.
  - intros ([] & Hm & E). apply res_bind_Ok in E as ([] & Hs%map_err_Ok & E). apply res_bind_Ok in E as ([] & Hf%map_err_Ok & E).
    apply fail_if_Ok in E. pose proof (finality_valid_slot _ Hf) as Hz. rewrite !orb_false_iff in E.
    destruct E as [[[[Hc Hl] Hg] Hsame] Hnew]. apply bool_decide_eq_false in Hc. apply dec_stable in Hc.
    apply Z.ltb_ge in Hl, Hg. unfold saturating_sub in Hg. rewrite slot_gap_val in Hg.
    constructor; try done. apply finality_advance_Ok. constructor.
    + lia.
    + intros Es _. rewrite (proj2 (Z.eqb_eq (fw_finalized_beacon_slot f) (mc_finalized_beacon_slot s))) in Hsame by (by rewrite Es). cbn [andb] in Hsame. rewrite !orb_false_iff, !bool_decide_eq_false in Hsame.
      destruct Hsame as [[H1 H2] H3]. apply dec_stable in H1, H2, H3. done.
    + intros Hlt. rewrite (proj2 (Z.ltb_lt _ _) Hlt) in Hnew. cbn [andb] in Hnew. by apply bool_decide_eq_false in Hnew.
  - intros [Hm Hs Hf Hc Ha]. pose proof (finality_valid_slot _ Hf) as Hz. apply finality_advance_Ok in Ha as [Hsl Hsame Hnew].
    exists tt. split; [done|]. apply res_bind_Ok. exists tt. split; [by apply map_err_Ok|].
    apply res_bind_Ok. exists tt. split; [by apply map_err_Ok|]. apply fail_if_Ok. rewrite !orb_false_iff.
    unfold saturating_sub. rewrite slot_gap_val.
    split; [split; [split; [split|]|]|].
    + apply bool_decide_eq_false. naive_solver.
    + apply Z.ltb_ge. lia.
    + apply Z.ltb_ge. lia.
    + destruct (Z.eqb_spec (fw_finalized_beacon_slot f) (mc_finalized_beacon_slot s)) as [E|]; [|done]. cbn [andb].
      apply uint_eq in E. destruct (Hsame E) as (-> & -> & ->); [by rewrite <- E|]. rewrite !bool_decide_eq_false_2 by naive_solver. done.
    + destruct (Z.ltb_spec (mc_finalized_beacon_slot s) (fw_finalized_beacon_slot f)) as [E|]; [|done]. cbn [andb].
      apply bool_decide_eq_false. auto.
Qed.

(** The deposits a claim may carry: the next ones of the manifest's vault. *)
Definition next_deposits (m : ProtocolManifest) (s : MintControllerState) (ds : list VaultDeposit) : Prop :=
  exists first, head ds = Some first /\ deposits_ok first ds /\ vd_nonce first = mc_next_mint_nonce s /\
    Forall (deposit_targets m) ds.

Lemma deposit_check_Ok m s i d : Z.of_nat i < 2 ^ 64 ->
  deposit_check m s i d tt = Ok tt <->
  VaultDeposit_wf d /\ uval (vd_nonce d) = mc_next_mint_nonce s + Z.of_nat i /\ deposit_targets m d.
Proof.
  intros Hi. unfold deposit_check, deposit_targets. cbv zeta. rewrite res_bind_Ok. setoid_rewrite map_err_Ok. split.
  - intros ([] & Hv%VaultDeposit_validate_Ok & E). apply res_bind_Ok in E as (n & Hn%ok_or_Ok%checked_add_Some & E).
    rewrite uval_wrap_small in Hn by lia. apply fail_if_Ok in E. rewrite !orb_false_iff, !negb_false_iff, !Z.eqb_eq, !bool_decide_eq_false in E.
    destruct E as [[[Hc Hva] Hu] Hno]. apply dec_stable in Hva, Hu. apply uint_eq in Hc. split; [done|]. split; [lia|done].
  - intros (Hv & Hno & Hc & Hva & Hu). exists tt. split; [by apply VaultDeposit_validate_Ok|].
    apply res_bind_Ok. exists (vd_nonce d). split; [apply ok_or_Ok, checked_add_Some; rewrite uval_wrap_small by lia; done|].
    apply fail_if_Ok. rewrite !orb_false_iff, !negb_false_iff, !Z.eqb_eq, !bool_decide_eq_false, Hc, Hva, Hu. naive_solver.
Qed.
End shape.

Section batch.
Context {H : Sha256}.

Lemma deposit_batch_Ok m s ds : validate_deposit_batch m s ds = Ok tt <-> next_deposits m s ds.
Proof.
  unfold validate_deposit_batch, next_deposits, MAX_MINT_BATCH_SIZE. rewrite !fail_then, Nat.eqb_neq, Nat.ltb_ge, res_bind_Ok.
  assert (forall u : unit, u = tt) as Hu by by intros [].
  split.
  - intros (Hne & Hl & [] & Hc & E). apply res_bind_Ok in E as (b & Hb%map_err_Ok & _).
    destruct ds as [|first ds]; [done|]. apply from_deposits_Ok in Hb as [Hok _]. exists first.
    assert (forall i d, (first :: ds) !! i = Some d -> deposit_check m s i d tt = Ok tt) as Hall.
    { apply (res_foldi_iff _ (fun i d => deposit_check m s i d tt = Ok tt) (fun u _ => u)) in Hc as [Hc _]; [|].
      - intros i d Hd. exact (Hc i d Hd).
      - intros i d [] []. split; [by intros|by intros [? _]]. }
    assert (forall i d, (first :: ds) !! i = Some d -> Z.of_nat i < 2 ^ 64) as Hi.
    { intros i d Hd%lookup_lt_Some. lia. }
    split; [done|]. split; [done|]. split.
    + pose proof (Hall 0%nat first eq_refl) as H0. apply deposit_check_Ok in H0 as (_ & Hn & _); [|done]. apply uint_eq. lia.
    + apply Forall_lookup. intros i d Hd. pose proof (Hall i d Hd) as Hx. by apply deposit_check_Ok in Hx as (_ & _ & ?); [|eapply Hi].
  - intros (first & Hf & Hok & Hn & Ht). destruct ds as [|x ds]; [done|]. injection Hf as ->.
    pose proof (dok_size _ _ Hok) as Hsz. split; [cbn; lia|]. split; [lia|]. exists tt. split.
    + apply (res_foldi_iff _ (fun i d => deposit_check m s i d tt = Ok tt) (fun u _ => u)).
      * intros i d [] []. split; [by intros|by intros [? _]].
      * split; [|by destruct (fold_left _ _ _)]. intros i d Hd. cbn. apply deposit_check_Ok; [apply lookup_lt_Some in Hd; lia|].
        destruct (dok_each _ _ Hok i d Hd) as (Hw & Hno & _). rewrite <- Hn. split; [done|]. split; [done|].
        by apply (Forall_lookup_1 _ _ _ _ Ht) in Hd.
    + apply res_bind_Ok. exists (batch_of first (first :: ds)). split; [|done]. by apply map_err_Ok, from_deposits_Ok.
Qed.
End batch.

Section inbound.
Context {W : PtrWidth} (Hwidth : 32 <= Zpos usize_bits) {H : Sha256} {KC : Keccak256} {T : AlloyTrie}.

(** A value of the vault's storage, proved under its storage root. *)
Definition stored (storage_root : Hash32) (nonce : u64) (id : Hash32) (p : DepositStorageProof) : Prop :=
  id <> ZERO /\ verify_storage_value storage_root (deposit_commitment_storage_key nonce) id (dsp_proof_nodes p) = true.

(** The vault's account with the manifest's code, proved under the state root. *)
Definition account_proved (state_root : Hash32) (m : ProtocolManifest) (a : VaultAccountWitness) : Prop :=
  va_storage_root a <> ZERO /\ va_code_hash a <> ZERO /\ va_code_hash a = pm_vault_code_hash m /\
  verify_proof state_root (nibbles_unpack (keccak256 (arr (pm_vault m))))
    (Some (rlp_trie_account (va_nonce a) (va_balance_be a) (va_storage_root a) (va_code_hash a))) (va_proof_nodes a) = true.

Lemma account_Ok root m a : verify_vault_account root m a = Ok tt <-> account_proved root m a.
Proof.
  unfold verify_vault_account, account_proved. cbv zeta.
  rewrite !fail_then, fail_if_Ok, orb_false_iff, !bool_decide_eq_false, negb_false_iff. split.
  - intros ([H1 H2] & H3%dec_stable & H4). done.
  - intros (H1 & H2 & H3 & H4). split; [done|]. split; [naive_solver|done].
Qed.

Definition ids_of (ds : list VaultDeposit) : list Hash32 := map VaultDeposit_deposit_id ds.
Definition keys_of (ds : list VaultDeposit) : list Hash32 := map (fun d => deposit_commitment_storage_key (vd_nonce d)) ds.
Definition micro_of (ds : list VaultDeposit) : Z := sumZ (fun d => uval (vd_usdt_amount_micro d)) ds.

Lemma deposit_step_Ok root i d p sc sc' :
  deposit_step root i (d, p) sc = Ok sc' <->
  stored root (vd_nonce d) (VaultDeposit_deposit_id d) p /\
  uval (sd_total_usdt_micro sc') = sd_total_usdt_micro sc + vd_usdt_amount_micro d /\
  sd_deposit_ids sc' = sd_deposit_ids sc ++ [VaultDeposit_deposit_id d] /\
  sd_storage_keys sc' = sd_storage_keys sc ++ [deposit_commitment_storage_key (vd_nonce d)].
Proof.
  unfold deposit_step, stored. cbv zeta. rewrite !fail_then, bool_decide_eq_false, negb_false_iff, res_bind_Ok.
  setoid_rewrite ok_or_Ok. setoid_rewrite checked_add_Some. split.
  - intros (Hz & Hs & t & Ht & [= <-]). done.
  - intros ([Hz Hs] & Ht & Hi & Hk). split; [done|]. split; [done|]. exists (sd_total_usdt_micro sc'). split; [done|].
    rewrite <- Hi, <- Hk. by destruct sc'.
Qed.

Lemma deposit_loop_Ok root ds : forall i ps sc sc', length ps = length ds ->
  res_foldi (deposit_step root) i (combine ds ps) sc = Ok sc' <->
  Forall2 (fun d p => stored root (vd_nonce d) (VaultDeposit_deposit_id d) p) ds ps /\
  uval (sd_total_usdt_micro sc') = sd_total_usdt_micro sc + micro_of ds /\
  sd_deposit_ids sc' = sd_deposit_ids sc ++ ids_of ds /\ sd_storage_keys sc' = sd_storage_keys sc ++ keys_of ds.
Proof.
  unfold micro_of, sumZ, ids_of, keys_of.
  induction ds as [|d ds IH]; intros i ps sc sc' Hl; (destruct ps as [|p ps]; cbn [length] in Hl; [|try done]); try done;
    cbn [combine res_foldi map foldr].
  - rewrite !app_nil_r, Z.add_0_r. split; [intros [= <-]; split; [constructor|done]|].
    intros (_ & Ht & Hi & Hk). f_equal. destruct sc, sc'. cbn in *. apply uint_eq in Ht. congruence.
  - rewrite res_bind_Ok, Forall2_cons. split.
    + intros (s1 & E1 & E). apply deposit_step_Ok in E1 as (Hs & Ht & Hi & Hk). apply IH in E as (Hf & Ht' & Hi' & Hk'); [|lia].
      split; [done|]. split; [lia|]. rewrite Hi', Hk', Hi, Hk, <- !app_assoc. done.
    + intros ([Hs Hf] & Ht & Hi & Hk).
      assert (0 <= foldr (fun (a : VaultDeposit) (s : Z) => uval (vd_usdt_amount_micro a) + s) 0 ds) as Hpos.
      { clear. induction ds as [|x l IH]; cbn [foldr]; [lia|]. pose proof (uint_range (vd_usdt_amount_micro x)). lia. }
      pose proof (uint_range (sd_total_usdt_micro sc')). pose proof (uint_range (vd_usdt_amount_micro d)). pose proof (uint_range (sd_total_usdt_micro sc)).
      exists (MkDepositScan (sd_deposit_ids sc ++ [VaultDeposit_deposit_id d])
        (sd_storage_keys sc ++ [deposit_commitment_storage_key (vd_nonce d)])
        (uint_wrap 64 (sd_total_usdt_micro sc + vd_usdt_amount_micro d))). split.
      * apply deposit_step_Ok. cbn [sd_total_usdt_micro sd_deposit_ids sd_storage_keys]. rewrite uval_wrap_small by lia. done.
      * apply IH; [lia|]. cbn [sd_total_usdt_micro sd_deposit_ids sd_storage_keys]. rewrite uval_wrap_small by lia.
        rewrite <- !app_assoc. split; [done|]. split; [lia|done].
Qed.

Context {P : Type} {F : EthereumFinalityTransitionVerifier P}.

Record batch_proved (m : ProtocolManifest) (s : MintControllerState) (f : EthereumFinalityWitness)
    (ds : list VaultDeposit) (fp : P) (w : VaultStorageWitness) : Prop := {
  bp_shape : transition_shape m s f;
  bp_deposits : next_deposits m s ds;
  bp_witness : witness_wf w;
  bp_finality : verify_finalized_transition (MkFinalityTransition m s f) fp = Ok tt;
  bp_account : account_proved (fw_finalized_execution_state_root f) m (vw_account w);
  bp_stored : Forall2 (fun d p => stored (va_storage_root (vw_account w)) (vd_nonce d) (VaultDeposit_deposit_id d) p)
                ds (vw_deposits w)
}.

Definition verified_batch (s : MintControllerState) (f : EthereumFinalityWitness) (ds : list VaultDeposit)
    : VerifiedDepositBatch := {|
  vb_execution_state_root := fw_finalized_execution_state_root f;
  vb_first_nonce := mc_next_mint_nonce s;
  vb_next_nonce := uint_wrap 64 (mc_next_mint_nonce s + Z.of_nat (length ds));
  vb_total_usdt_micro := uint_wrap 64 (micro_of ds);
  vb_deposit_ids := ids_of ds;
  vb_storage_keys := keys_of ds
|}.

Lemma inbound_batch_Ok m s f ds fp w v :
  verify_finalized_deposit_batch m s f ds fp w = Ok v <-> batch_proved m s f ds fp w /\ v = verified_batch s f ds.
Proof.
  unfold verify_finalized_deposit_batch. split.
  - intros E. apply res_bind_Ok in E as ([] & Hsh%transition_shape_Ok & E). apply res_bind_Ok in E as ([] & Hds%deposit_batch_Ok & E).
    rewrite fail_then, negb_false_iff, Nat.eqb_eq in E. destruct E as [Hl E].
    apply res_bind_Ok in E as ([] & Hw%validate_limits_Ok & E); [|done].
    apply res_bind_Ok in E as ([] & Hfi%map_err_Ok & E). apply res_bind_Ok in E as ([] & Ha%account_Ok & E).
    apply res_bind_Ok in E as (sc & Hsc & E). apply deposit_loop_Ok in Hsc as (Hst & Ht & Hi & Hk); [|done].
    apply res_bind_Ok in E as (n & Hn%ok_or_Ok%checked_add_Some & [= <-]). split; [by constructor|].
    destruct Hds as (first & _ & Hok & Hfn & _). pose proof (dok_size _ _ Hok). pose proof (dok_next _ _ Hok) as Hnx.
    cbn [sd_deposit_ids sd_storage_keys sd_total_usdt_micro app] in *. rewrite uval_wrap_small in Hn, Ht by lia.
    unfold verified_batch. rewrite Hi, Hk.
    pose proof (uint_range n). pose proof (uint_range (sd_total_usdt_micro sc)).
    f_equal; apply uint_eq; rewrite uval_wrap_small by lia; lia.
  - intros [[Hsh Hds Hw Hfi Ha Hst] ->]. pose proof Hds as (first & _ & Hok & Hfn & _).
    pose proof (dok_size _ _ Hok). pose proof (dok_next _ _ Hok) as Hnx. rewrite Hfn in Hnx. pose proof (dok_cap _ _ Hok) as Hcap.
    apply res_bind_Ok. exists tt. split; [by apply transition_shape_Ok|]. apply res_bind_Ok. exists tt. split; [by apply deposit_batch_Ok|].
    rewrite fail_then, negb_false_iff, Nat.eqb_eq. split; [symmetry; by eapply Forall2_length|].
    apply res_bind_Ok. exists tt. split; [by apply validate_limits_Ok|].
    apply res_bind_Ok. exists tt. split; [by apply map_err_Ok|]. apply res_bind_Ok. exists tt. split; [by apply account_Ok|].
    assert (0 <= micro_of ds <= 20000000000000) as Hmicro.
    { split; [|exact Hcap]. unfold micro_of, sumZ. clear. induction ds as [|x l IH]; cbn [foldr]; [lia|].
      pose proof (uint_range (vd_usdt_amount_micro x)). lia. }
    apply res_bind_Ok. exists (MkDepositScan (ids_of ds) (keys_of ds) (uint_wrap 64 (micro_of ds))). split.
    + apply deposit_loop_Ok; [symmetry; by eapply Forall2_length|]. cbn [sd_deposit_ids sd_storage_keys sd_total_usdt_micro app].
      rewrite !uval_wrap_small by lia. done.
    + apply res_bind_Ok. exists (uint_wrap 64 (mc_next_mint_nonce s + Z.of_nat (length ds))). split; [|done].
      apply ok_or_Ok, checked_add_Some. pose proof (uint_range (mc_next_mint_nonce s)). rewrite !uval_wrap_small by lia. done.
Qed.

Lemma inbound_heartbeat_Ok m s f fp :
  inbound_verify_finalized_heartbeat m s f fp = Ok tt <->
  transition_shape m s f /\ mc_finalized_beacon_slot s < fw_finalized_beacon_slot f /\
  verify_finalized_transition (MkFinalityTransition m s f) fp = Ok tt.
Proof.
  unfold inbound_verify_finalized_heartbeat. rewrite res_bind_Ok. setoid_rewrite transition_shape_Ok || idtac. split.
  - intros ([] & Hs & E). apply transition_shape_Ok in Hs. rewrite fail_then, Z.leb_gt in E. destruct E as [Hlt E].
    by apply map_err_Ok in E.
  - intros (Hs & Hlt & Hf). exists tt. split; [by apply transition_shape_Ok|]. rewrite fail_then, Z.leb_gt. split; [done|].
    by apply map_err_Ok.
Qed.

(** A deposit batch is verified exactly when the transition is one the
    controller allows, the deposits are the next 1 to 64 of the manifest's
    vault with a capped total, the finality verifier accepts the transition, and
    the vault account and every deposit's commitment are proved under the
    finalized state root; the result has the exact total, identifiers and
    storage keys, and no sum overflows. *)
Theorem inbound_batch_iff (m : ProtocolManifest) (s : MintControllerState) (f : EthereumFinalityWitness)
    (ds : list VaultDeposit) (fp : P) (w : VaultStorageWitness) (v : VerifiedDepositBatch) :
  verify_finalized_deposit_batch m s f ds fp w = Ok v <-> batch_proved m s f ds fp w /\ v = verified_batch s f ds.
Proof. apply inbound_batch_Ok. Qed.

Lemma inbound_deposits_Ok m c proof :
  verify_finalized_deposits (EthereumStateProofVerifier:=EthereumInboundVerifier) m c proof = Ok tt <->
  exists fp w, proof = InboundDeposit fp w /\ batch_proved m (dc_prior_state c) (dc_finality c) (dc_deposits c) fp w.
Proof.
  cbn [verify_finalized_deposits EthereumInboundVerifier]. destruct proof as [fp w|fp]; [|split; [done|by intros (? & ? & ? & _)]].
  rewrite res_bind_Ok. setoid_rewrite map_err_Ok. setoid_rewrite inbound_batch_Ok. split.
  - intros (v & [Hb _] & _). by exists fp, w.
  - intros (fp' & w' & [= <- <-] & Hb). eexists. split; [split; [exact Hb|reflexivity]|done].
Qed.

Lemma Forall2_map_l {A B C : Type} (g : A -> B) (R : B -> C -> Prop) l k :
  Forall2 R (map g l) k <-> Forall2 (fun a c => R (g a) c) l k.
Proof.
  revert k. induction l as [|a l IH]; intros [|c k]; cbn [map]; split; intros E; inversion E; subst; constructor; try done; by apply IH.
Qed.

(** The outputs of a batch carry the identifiers and nonces of its deposits. *)
Lemma stored_outputs root ds b ps : MintBatch_from_deposits ds = Ok b ->
  Forall2 (fun d p => stored root (vd_nonce d) (VaultDeposit_deposit_id d) p) ds ps ->
  Forall2 (fun out p => stored root (mo_nonce out) (mo_deposit_id out) p) (mb_outputs b) ps.
Proof.
  destruct ds as [|x ds]; [done|]. intros [_ ->]%from_deposits_Ok Hst. cbn [batch_of mb_outputs]. by apply Forall2_map_l.
Qed.

(** With this verifier in the guest, a deposit journal mints only what the
    vault holds: its payload is an output whose next state is the controller's
    mint of the batch, the finality verifier accepted the transition, the vault
    account with the manifest's code is proved under the finalized state root,
    and the identifier of every minted output is proved, under that account's
    storage root, in the slot of the output's nonce. *)
Theorem journal_mints_stored_deposits (m : ProtocolManifest) (c : EthereumDepositClaim) (proof : EthereumInboundProof P)
    (j : StrictJournal) :
  build_deposit_journal (H0:=EthereumInboundVerifier) m c proof = Ok j ->
  exists fp w o, proof = InboundDeposit fp w /\ encode o = Some (sj_payload j) /\
    apply_mint_batch (dpo_prior_state o) (dpo_mint_batch o) (dc_finality c) = Ok (dpo_next_state o) /\
    verify_finalized_transition (MkFinalityTransition m (dpo_prior_state o) (dc_finality c)) fp = Ok tt /\
    account_proved (fw_finalized_execution_state_root (dc_finality c)) m (vw_account w) /\
    Forall2 (fun out p => stored (va_storage_root (vw_account w)) (mo_nonce out) (mo_deposit_id out) p)
      (mb_outputs (dpo_mint_batch o)) (vw_deposits w).
Proof.
  intros (o & payload & Ha & He & ->)%build_deposit_Ok.
  pose proof (dga_verified _ _ _ _ Ha) as (fp & w & -> & [_ _ _ Hfi Hac Hst])%inbound_deposits_Ok.
  exists fp, w, o. split; [done|]. split; [exact He|]. rewrite (dga_prior _ _ _ _ Ha). split; [apply (dga_transition _ _ _ _ Ha)|].
  split; [exact Hfi|]. split; [exact Hac|]. exact (stored_outputs _ _ _ _ (dga_batch _ _ _ _ Ha) Hst).
Qed.

(** *** One state root, one deposit per nonce *)

(** What a Merkle-Patricia proof gives when Keccak does not collide: a root has
    one value at a path; and what RLP gives: distinct values have distinct
    encodings. *)
Definition trie_binding : Prop := forall root path v v' nodes nodes',
  verify_proof root path (Some v) nodes = true -> verify_proof root path (Some v') nodes' = true -> v = v'.
Definition rlp_binding : Prop :=
  (forall x y, rlp_u256 x = rlp_u256 y -> x = y) /\
  (forall n b r c n' b' r' c', rlp_trie_account n b r c = rlp_trie_account n' b' r' c' -> r = r').

(** C7: If trie proofs and RLP are binding, one finalized state root has one
    deposit per nonce: two verified batches of one manifest under the same root,
    from whatever states and with whatever witnesses, agree on every deposit
    with a common nonce, unless SHA-256 collides on their commitments or
    scripts. *)
Theorem inbound_no_equivocation (m : ProtocolManifest) (s s' : MintControllerState) (f f' : EthereumFinalityWitness)
    (ds ds' : list VaultDeposit) (fp fp' : P) (w w' : VaultStorageWitness) (v v' : VerifiedDepositBatch) (d d' : VaultDeposit) :
  trie_binding -> rlp_binding ->
  verify_finalized_deposit_batch m s f ds fp w = Ok v -> verify_finalized_deposit_batch m s' f' ds' fp' w' = Ok v' ->
  fw_finalized_execution_state_root f = fw_finalized_execution_state_root f' ->
  d ∈ ds -> d' ∈ ds' -> vd_nonce d = vd_nonce d' ->
  d = d' \/ collision (vd_elements_script d) (vd_elements_script d') \/
  collision (deposit_preimage d (VaultDeposit_elements_script_hash d))
    (deposit_preimage d' (VaultDeposit_elements_script_hash d')).
Proof.
  intros Ht [Hru Hra] [Hb _]%inbound_batch_Ok [Hb' _]%inbound_batch_Ok Hroot Hin Hin' Hn. apply deposit_ids_bind.
  destruct (bp_account _ _ _ _ _ _ Hb) as (_ & _ & _ & Hac), (bp_account _ _ _ _ _ _ Hb') as (_ & _ & _ & Hac').
  rewrite <- Hroot in Hac'. pose proof (Ht _ _ _ _ _ _ Hac Hac') as Hsr. apply Hra in Hsr.
  apply list_elem_of_lookup in Hin as [i Hi], Hin' as [k Hk].
  destruct (Forall2_lookup_l _ _ _ _ _ (bp_stored _ _ _ _ _ _ Hb) Hi) as (p & _ & _ & Hst).
  destruct (Forall2_lookup_l _ _ _ _ _ (bp_stored _ _ _ _ _ _ Hb') Hk) as (p' & _ & _ & Hst').
  unfold verify_storage_value in *. rewrite <- Hsr, <- Hn in Hst'. apply Hru. exact (Ht _ _ _ _ _ _ Hst Hst').
Qed.
End inbound.

(** ** A toy chain: a proof of a value is any list of nodes under the root equal
    to the value, and finality is always accepted *)

Definition toy_keccak : Keccak256 := @sha256 toy_sha256.
Definition toy_trie : AlloyTrie := {|
  rlp_trie_account _ _ storage_root _ := arr storage_root;
  rlp_u256 x := arr x;
  Nibbles := Hash32;
  nibbles_unpack h := h;
  verify_proof root _ value _ := bool_decide (value = Some (arr root))
|}.
Definition toy_finality : EthereumFinalityTransitionVerifier unit := fun _ _ => Ok tt.

Definition inbound_deposit (offset amount : Z) : VaultDeposit :=
  MkVaultDeposit (pm_ethereum_chain_id sample_manifest) (pm_vault sample_manifest) (pm_usdt sample_manifest)
    (uint_wrap 64 (uval (pm_first_deposit_nonce sample_manifest) + offset))
    (array_rep 20 x03) (uint_wrap 64 amount) [x51] (array_rep 32 x04).
Definition inbound_finality : EthereumFinalityWitness :=
  MkEthereumFinalityWitness (array_rep 32 x40) (uint_wrap 64 200) (array_rep 32 x21)
    (array_rep 32 x22) SOLIDITY_DEPOSIT_ID_DOMAIN (uint_wrap 64 1) (uint_wrap 64 1).
Definition inbound_witness (count : nat) : VaultStorageWitness :=
  MkVaultStorageWitness
    (MkVaultAccountWitness (uint_wrap 64 1) ZERO SOLIDITY_DEPOSIT_ID_DOMAIN (pm_vault_code_hash sample_manifest) [[x01]])
    (repeat (MkDepositStorageProof [[x02]]) count).
Definition inbound_batch (amount : Z) : list VaultDeposit := [inbound_deposit 0 amount; inbound_deposit 1 2000000].

Lemma inbound_sample amount : amount = 1000000 \/ amount = 3000000 -> exists v,
  @verify_finalized_deposit_batch 64%positive toy_sha256 toy_keccak toy_trie unit toy_finality sample_manifest
    (initial_controller_state sample_manifest) inbound_finality (inbound_batch amount) tt (inbound_witness 2) = Ok v.
Proof. intros [->| ->]; apply is_ok_true; by vm_compute. Qed.

Example inbound_batch_iff_witness :
  @batch_proved toy_sha256 toy_keccak toy_trie unit toy_finality sample_manifest
    (initial_controller_state sample_manifest) inbound_finality (inbound_batch 1000000) tt (inbound_witness 2).
Proof.
  destruct (inbound_sample 1000000 ltac:(by left)) as [v Hv].
  exact (proj1 (proj1 (@inbound_batch_iff 64%positive ltac:(done) toy_sha256 toy_keccak toy_trie unit toy_finality
    _ _ _ _ _ _ _) Hv)).
Defined.

Definition inbound_claim : EthereumDepositClaim :=
  MkEthereumDepositClaim
    match @ProtocolManifest_manifest_id toy_sha256 sample_manifest with Ok id => id | _ => ZERO end
    (initial_controller_state sample_manifest) inbound_finality (inbound_batch 1000000).
Definition toy_inbound : EthereumStateProofVerifier (EthereumInboundProof unit) :=
  @EthereumInboundVerifier 64%positive toy_sha256 toy_keccak toy_trie unit toy_finality.

Lemma inbound_journal : exists j,
  @build_deposit_journal toy_sha256 (EthereumInboundProof unit) toy_inbound sample_manifest inbound_claim
    (InboundDeposit tt (inbound_witness 2)) = Ok j.
Proof. apply is_ok_true. by vm_compute. Qed.

Example journal_mints_stored_deposits_witness : exists o : DepositPublicOutput,
  Forall2 (fun out p => @stored toy_keccak toy_trie (va_storage_root (vw_account (inbound_witness 2)))
             (mo_nonce out) (mo_deposit_id out) p)
    (mb_outputs (dpo_mint_batch o)) (vw_deposits (inbound_witness 2)).
Proof.
  destruct inbound_journal as [j Hj].
  destruct (@journal_mints_stored_deposits 64%positive ltac:(done) toy_sha256 toy_keccak toy_trie unit toy_finality
    _ _ _ _ Hj) as (fp & w & o & [= <- <-] & _ & _ & _ & _ & Hs). by exists o.
Defined.

Lemma toy_trie_binding : @trie_binding toy_trie.
Proof. intros root path v v' ns ns' E E'. cbn in E, E'. apply bool_decide_eq_true in E, E'. congruence. Qed.
Lemma toy_rlp_binding : @rlp_binding toy_trie.
Proof. split; [intros x y E|intros n b r c n' b' r' c' E]; by apply array_eq. Qed.

Example inbound_no_equivocation_witness :
  inbound_deposit 0 1000000 = inbound_deposit 0 3000000 \/
  @collision toy_sha256 (vd_elements_script (inbound_deposit 0 1000000)) (vd_elements_script (inbound_deposit 0 3000000)) \/
  @collision toy_sha256
    (deposit_preimage (inbound_deposit 0 1000000) (@VaultDeposit_elements_script_hash toy_sha256 (inbound_deposit 0 1000000)))
    (deposit_preimage (inbound_deposit 0 3000000) (@VaultDeposit_elements_script_hash toy_sha256 (inbound_deposit 0 3000000))).
Proof.
  destruct (inbound_sample 1000000 ltac:(by left)) as [v Hv], (inbound_sample 3000000 ltac:(by right)) as [v' Hv'].
  exact (@inbound_no_equivocation 64%positive ltac:(done) toy_sha256 toy_keccak toy_trie unit toy_finality
    _ _ _ _ _ _ _ _ _ _ _ _ _ (inbound_deposit 0 1000000) (inbound_deposit 0 3000000)
    toy_trie_binding toy_rlp_binding Hv Hv' eq_refl (list_elem_of_here _ _) (list_elem_of_here _ _) eq_refl).
Defined.
