(* ===== verification/Helios.v ===== *)
(** Ethereum light client: [crates/usdd-ethereum-inbound/src/helios.rs].

    The finality verifier of the Ethereum guest.  The Helios crate (headers, sync
    committees, tree hashing, signature verification and the store's update
    rules) is the pair of classes [HeliosTypes] and [Helios], and the CBOR crate
    the class [Cbor]; this file has what the source adds: the network pinning, the
    binding of the prover's store to the controller's digest, the quorums, the
    execution payload branch, the checkpoint and slot checks and the canonical
    witness codec.

    [SepoliaHeliosFinalityVerifier] is the implementation of the trait
    [EthereumFinalityTransitionVerifier] of [EthereumInbound]. *)

From S2P Require Import Prelude Encoding Params Hashing BurnAccumulator Records Deposits Burns.
From S2P Require Import ElementsState Controller ManifestFile Claims Readers Journal Annex Guest EthereumInbound InboundProofs.

Local Open Scope Z_scope.

(** ** The Helios crate *)

Class HeliosTypes : Type := {
  LightClientHeader : Type;
  BeaconBlockHeader : Type;
  ExecutionPayloadHeader : Type;
  SyncCommittee : Type;
  SyncAggregate : Type;
  GenericUpdate : Type;
  Update : Type;
  FinalityUpdate : Type
}.

(** The store and the fork schedule, whose fields the source fills. *)
Record LightClientStore {HT : HeliosTypes} : Type := MkLightClientStore {
  st_finalized_header : LightClientHeader;
  st_current_sync_committee : SyncCommittee;
  st_next_sync_committee : option SyncCommittee;
  st_optimistic_header : LightClientHeader;
  st_previous_max_active_participants : u64;
  st_current_max_active_participants : u64;
  st_best_valid_update : option GenericUpdate
}.
Record Fork : Type := MkFork { fork_epoch : u64; fork_version : array 4 }.
Record Forks : Type := MkForks {
  fk_genesis : Fork; fk_altair : Fork; fk_bellatrix : Fork; fk_capella : Fork;
  fk_deneb : Fork; fk_electra : Fork; fk_fulu : Fork
}.

(** Accessors, tree-hash roots and the consensus functions: a verification
    accepts, refuses or panics; an update is applied to the store. *)
Class Helios {HT : HeliosTypes} : Type := {
  header_beacon : LightClientHeader -> BeaconBlockHeader;
  header_execution : LightClientHeader -> option ExecutionPayloadHeader;
  header_execution_branch : LightClientHeader -> option (list Hash32);
  beacon_slot : BeaconBlockHeader -> u64;
  beacon_body_root : BeaconBlockHeader -> Hash32;
  beacon_tree_hash_root : BeaconBlockHeader -> Hash32;
  execution_tree_hash_root : ExecutionPayloadHeader -> Hash32;
  execution_state_root : ExecutionPayloadHeader -> Hash32;
  execution_block_hash : ExecutionPayloadHeader -> Hash32;
  execution_block_number : ExecutionPayloadHeader -> u64;
  execution_timestamp : ExecutionPayloadHeader -> u64;
  committee_tree_hash_root : SyncCommittee -> Hash32;
  update_sync_aggregate : Update -> SyncAggregate;
  finality_sync_aggregate : FinalityUpdate -> SyncAggregate;
  finality_signature_slot : FinalityUpdate -> u64;
  get_bits : SyncAggregate -> u64;
  sync_committee_size : u64;
  slots_per_epoch : u64;
  verify_update : Update -> u64 -> LightClientStore -> Hash32 -> Forks -> res unit unit;
  apply_update : LightClientStore -> Update -> LightClientStore;
  verify_finality_update : FinalityUpdate -> u64 -> LightClientStore -> Hash32 -> Forks -> res unit unit;
  apply_finality_update : LightClientStore -> FinalityUpdate -> LightClientStore
}.

(** ** Pinned network *)

Definition SEPOLIA_CHAIN_ID : u64 := uint_wrap 64 11155111.
Definition SEPOLIA_EXECUTION_GENESIS_HASH : Hash32 := Array (n:=32)
  [x25; xa5; xcc; x10; x6e; xea; x71; x38; xac; xab; x33; x23; x1d; x71; x60; xd6;
   x9c; xb7; x77; xee; x0c; x2c; x55; x3f; xcd; xdf; x51; x38; x99; x3e; x6d; xd9] eq_refl.
Definition SEPOLIA_GENESIS_VALIDATORS_ROOT : Hash32 := Array (n:=32)
  [xd8; xea; x17; x1f; x3c; x94; xae; xa2; x1e; xbc; x42; xa1; xed; x61; x05; x2a;
   xcf; x3f; x92; x09; xc0; x0e; x4e; xfb; xaa; xdd; xac; x09; xed; x9b; x80; x78] eq_refl.
Definition MAX_COMMITTEE_UPDATES : nat := 2.
Definition MAX_FINALITY_WITNESS_BYTES : Z := 512 * 1024.
Definition LIGHT_CLIENT_STATE_DOMAIN : bytes := str "USDD_SEPOLIA_LIGHT_CLIENT_STATE_V1".
Definition SEPOLIA_FORKS : list (u64 * array 4) :=
  [(uint_wrap 64 0, Array (n:=4) [x90; x00; x00; x69] eq_refl);
   (uint_wrap 64 50, Array (n:=4) [x90; x00; x00; x70] eq_refl);
   (uint_wrap 64 100, Array (n:=4) [x90; x00; x00; x71] eq_refl);
   (uint_wrap 64 56832, Array (n:=4) [x90; x00; x00; x72] eq_refl);
   (uint_wrap 64 132608, Array (n:=4) [x90; x00; x00; x73] eq_refl);
   (uint_wrap 64 222464, Array (n:=4) [x90; x00; x00; x74] eq_refl);
   (uint_wrap 64 272640, Array (n:=4) [x90; x00; x00; x75] eq_refl)].

(** The index into the schedule is the source's; it is in range. *)
Definition sepolia_fork (index : nat) : Fork :=
  match SEPOLIA_FORKS !! index with
  | Some (epoch, version) => MkFork epoch version
  | None => MkFork (uint_wrap 64 0) (array_rep 4 x00)
  end.
Definition sepolia_forks : Forks :=
  MkForks (sepolia_fork 0) (sepolia_fork 1) (sepolia_fork 2) (sepolia_fork 3)
    (sepolia_fork 4) (sepolia_fork 5) (sepolia_fork 6).

Definition encode_sepolia_config : bytes :=
  be_bytes 8 SEPOLIA_CHAIN_ID ++ SEPOLIA_EXECUTION_GENESIS_HASH ++ SEPOLIA_GENESIS_VALIDATORS_ROOT
  ++ concat (map (fun fork => be_bytes 8 (uval fork.1) ++ arr fork.2) SEPOLIA_FORKS).

Inductive SepoliaFinalityError : Type :=
| SF_InvalidManifest | SF_InvalidPriorState | SF_WrongNetwork | SF_PriorHeaderMismatch
| SF_PriorExecutionPayloadRejected | SF_PriorStateDigestMismatch | SF_TooManyCommitteeUpdates
| SF_UpdateWithoutSupermajority (index : nat) | SF_UpdateRejected (index : nat)
| SF_FinalityWithoutSupermajority | SF_FinalityRejected | SF_FinalizedStateDidNotAdvance
| SF_FinalizedHeaderNotCheckpoint | SF_MissingExecutionPayload | SF_OutputMismatch
| SF_WitnessTooLarge | SF_WitnessCodecRejected | SF_NonCanonicalWitness.

Record SepoliaFinalityProof {HT : HeliosTypes} : Type := MkSepoliaFinalityProof {
  sp_prior_finalized_header : LightClientHeader;
  sp_prior_current_sync_committee : SyncCommittee;
  sp_prior_next_sync_committee : option SyncCommittee;
  sp_updates : list Update;
  sp_finality_update : FinalityUpdate
}.

Arguments MkLightClientStore {HT}.
Arguments MkSepoliaFinalityProof {HT}.

#[export] Instance EthereumFinalityWitness_eq_dec : EqDecision EthereumFinalityWitness.
Proof. solve_decision. Defined.

(** ** Deriving a transition *)

Section derive.
Context {H : Sha256} {HT : HeliosTypes} {HE : Helios}.

Definition finalized_slot_advances (prior next : u64) : bool :=
  match checked_sub next prior with
  | Some gap => negb (gap =? 0) && (gap <=? MAX_ETHEREUM_FINALITY_SLOT_GAP)
  | None => false
  end.

(** [participants * 3 < sync_committee_size() * 2], in 64 bits. *)
Definition lacks_supermajority (participants : u64) : bool :=
  uval (uint_wrap 64 (participants * 3)) <? uval (uint_wrap 64 (sync_committee_size * 2)).
Definition require_supermajority (aggregate : SyncAggregate) (index : nat) : res SepoliaFinalityError unit :=
  fail_if (lacks_supermajority (get_bits aggregate)) (SF_UpdateWithoutSupermajority index).

Definition branch_pair (depth : nat) (node derived : Hash32) : bytes :=
  if Z.land (Z.shiftr 9 (Z.of_nat depth)) 1 =? 1 then node ++ derived else derived ++ node.
Fixpoint branch_root (depth : nat) (derived : Hash32) (branch : list Hash32) : Hash32 :=
  match branch with
  | [] => derived
  | node :: branch => branch_root (S depth) (hash_bytes (branch_pair depth node derived)) branch
  end.
Definition execution_payload_is_bound (header : LightClientHeader) : bool :=
  match header_execution header, header_execution_branch header with
  | Some execution, Some branch =>
      if negb (length branch =? 4)%nat then false
      else bool_decide (branch_root 0 (execution_tree_hash_root execution) branch
                        = beacon_body_root (header_beacon header))
  | _, _ => false
  end.

Definition light_client_preimage (finalized_slot : u64) (finalized_beacon_root current : Hash32) (next : option Hash32) : bytes :=
  LIGHT_CLIENT_STATE_DOMAIN ++ be_bytes 2 ENCODING_SCHEMA ++ encode_sepolia_config
  ++ be_bytes 8 finalized_slot ++ finalized_beacon_root ++ current
  ++ match next with
     | Some root => be_bytes 1 1 ++ arr root
     | None => be_bytes 1 0
     end.
Definition light_client_state_digest (finalized_slot : u64) (finalized_beacon_root : Hash32)
    (current_sync_committee : SyncCommittee) (next_sync_committee : option SyncCommittee) : Hash32 :=
  hash_bytes (light_client_preimage finalized_slot finalized_beacon_root
    (committee_tree_hash_root current_sync_committee) (committee_tree_hash_root <$> next_sync_committee)).

(** The store the prover's witness starts from. *)
Definition initial_store (proof : SepoliaFinalityProof) : LightClientStore := {|
  st_finalized_header := sp_prior_finalized_header proof;
  st_current_sync_committee := sp_prior_current_sync_committee proof;
  st_next_sync_committee := sp_prior_next_sync_committee proof;
  st_optimistic_header := sp_prior_finalized_header proof;
  st_previous_max_active_participants := uint_wrap 64 0;
  st_current_max_active_participants := uint_wrap 64 0;
  st_best_valid_update := None
|}.

Definition committee_update (expected_current_slot : u64) (index : nat) (update : Update)
    (store : LightClientStore) : res SepoliaFinalityError LightClientStore :=
  require_supermajority (update_sync_aggregate update) index;;
  map_err (fun _ => SF_UpdateRejected index)
    (verify_update update expected_current_slot store SEPOLIA_GENESIS_VALIDATORS_ROOT sepolia_forks);;
  Ok (apply_update store update).

(** The checks of the prior state, before any update is evaluated. *)
Definition prior_checks (manifest : ProtocolManifest) (prior_state : MintControllerState)
    (proof : SepoliaFinalityProof) : res SepoliaFinalityError unit :=
  map_err (fun _ => SF_InvalidManifest) (ProtocolManifest_validate manifest);;
  map_err (fun _ => SF_InvalidPriorState) (MintControllerState_validate prior_state);;
  fail_if (bool_decide (mc_configuration_hash prior_state <> pm_controller_configuration_hash manifest)) SF_InvalidPriorState;;
  fail_if (negb (pm_ethereum_chain_id manifest =? SEPOLIA_CHAIN_ID)
           || bool_decide (pm_ethereum_genesis manifest <> SEPOLIA_EXECUTION_GENESIS_HASH)) SF_WrongNetwork;;
  let prior_beacon := header_beacon (sp_prior_finalized_header proof) in
  let prior_beacon_root := beacon_tree_hash_root prior_beacon in
  fail_if (negb (beacon_slot prior_beacon =? mc_finalized_beacon_slot prior_state)
           || bool_decide (prior_beacon_root <> mc_finalized_beacon_root prior_state)) SF_PriorHeaderMismatch;;
  prior_execution ← ok_or (header_execution (sp_prior_finalized_header proof)) SF_PriorExecutionPayloadRejected;
  fail_if (bool_decide (execution_state_root prior_execution <> mc_finalized_execution_state_root prior_state)
           || negb (execution_payload_is_bound (sp_prior_finalized_header proof))) SF_PriorExecutionPayloadRejected;;
  let prior_digest := light_client_state_digest (beacon_slot prior_beacon) prior_beacon_root
    (sp_prior_current_sync_committee proof) (sp_prior_next_sync_committee proof) in
  fail_if (bool_decide (prior_digest <> mc_ethereum_light_client_digest prior_state)) SF_PriorStateDigestMismatch;;
  fail_if (MAX_COMMITTEE_UPDATES <? length (sp_updates proof))%nat SF_TooManyCommitteeUpdates.

(** The fields derived from the store after the finality update; a modulus of
    zero would panic. *)
Definition derived_witness (prior_slot : u64) (store : LightClientStore) : res SepoliaFinalityError EthereumFinalityWitness :=
  let finalized := header_beacon (st_finalized_header store) in
  fail_if (negb (finalized_slot_advances prior_slot (beacon_slot finalized))) SF_FinalizedStateDidNotAdvance;;
  (if slots_per_epoch =? 0 then Panic else Ok tt);;
  fail_if (negb (beacon_slot finalized mod slots_per_epoch =? 0)) SF_FinalizedHeaderNotCheckpoint;;
  execution ← ok_or (header_execution (st_finalized_header store)) SF_MissingExecutionPayload;
  let finalized_root := beacon_tree_hash_root finalized in
  Ok {|
    fw_ethereum_light_client_digest :=
      light_client_state_digest (beacon_slot finalized) finalized_root
        (st_current_sync_committee store) (st_next_sync_committee store);
    fw_finalized_beacon_slot := beacon_slot finalized;
    fw_finalized_beacon_root := finalized_root;
    fw_finalized_execution_block := execution_block_hash execution;
    fw_finalized_execution_state_root := execution_state_root execution;
    fw_execution_block_number := execution_block_number execution;
    fw_execution_block_timestamp := execution_timestamp execution
  |}.

Definition derive_transition (manifest : ProtocolManifest) (prior_state : MintControllerState)
    (proof : SepoliaFinalityProof) : res SepoliaFinalityError EthereumFinalityWitness :=
  prior_checks manifest prior_state proof;;
  let expected_current_slot := finality_signature_slot (sp_finality_update proof) in
  store ← res_foldi (committee_update expected_current_slot) 0 (sp_updates proof) (initial_store proof);
  fail_if (lacks_supermajority (get_bits (finality_sync_aggregate (sp_finality_update proof)))) SF_FinalityWithoutSupermajority;;
  map_err (fun _ => SF_FinalityRejected)
    (verify_finality_update (sp_finality_update proof) expected_current_slot store
       SEPOLIA_GENESIS_VALIDATORS_ROOT sepolia_forks);;
  derived_witness (beacon_slot (header_beacon (sp_prior_finalized_header proof)))
    (apply_finality_update store (sp_finality_update proof)).

Definition verify_transition (transition : EthereumFinalityTransition) (proof : SepoliaFinalityProof)
    : res SepoliaFinalityError unit :=
  derived ← derive_transition (et_manifest transition) (et_prior_state transition) proof;
  fail_if (bool_decide (derived <> et_next transition)) SF_OutputMismatch.

#[export] Instance SepoliaHeliosFinalityVerifier : EthereumFinalityTransitionVerifier SepoliaFinalityProof :=
  fun transition proof => map_err (fun _ => FinalityProofRejected) (verify_transition transition proof).
End derive.

(** ** The witness codec *)

(** A serde sequence: its size hint and the outcome of each [next_element]. *)
Record SeqAccess {HT : HeliosTypes} : Type := MkSeqAccess {
  sq_size_hint : option nat;
  sq_elements : list (option Update)
}.
Record WireProof {HT : HeliosTypes} : Type := MkWireProof {
  wp_prior_finalized_header : LightClientHeader;
  wp_prior_current_sync_committee : SyncCommittee;
  wp_prior_next_sync_committee : option SyncCommittee;
  wp_updates : list Update;
  wp_finality_update : FinalityUpdate
}.

Arguments MkSeqAccess {HT}.
Arguments MkWireProof {HT}.

(** The CBOR crate over the derived serde implementations: the sequence of
    updates is read by the visitor of the source. *)
Class Cbor {HT : HeliosTypes} : Type := {
  CborDeserializer : Type;
  cbor_to_vec : SepoliaFinalityProof -> option bytes;
  cbor_deserialize : (SeqAccess -> option (list Update)) -> bytes -> option (WireProof * CborDeserializer);
  cbor_end : CborDeserializer -> bool
}.

Section codec.
Context {HT : HeliosTypes} {CB : Cbor}.

(** [while let Some(update) = sequence.next_element()?]. *)
Fixpoint visit_elements (elements : list (option Update)) (updates : list Update) : option (list Update) :=
  match elements with
  | [] => Some updates
  | None :: _ => None
  | Some update :: elements =>
      if (length updates =? MAX_COMMITTEE_UPDATES)%nat then None
      else visit_elements elements (updates ++ [update])
  end.
Definition visit_seq (sequence : SeqAccess) : option (list Update) :=
  if (MAX_COMMITTEE_UPDATES <? default 0 (sq_size_hint sequence))%nat then None
  else visit_elements (sq_elements sequence) [].

Definition SepoliaFinalityProof_deserialize (bs : bytes) : option (SepoliaFinalityProof * CborDeserializer) :=
  '(wire, decoder) ← cbor_deserialize visit_seq bs;
  Some (MkSepoliaFinalityProof (wp_prior_finalized_header wire) (wp_prior_current_sync_committee wire)
          (wp_prior_next_sync_committee wire) (wp_updates wire) (wp_finality_update wire), decoder).

Definition encode_canonical (proof : SepoliaFinalityProof) : res SepoliaFinalityError bytes :=
  fail_if (MAX_COMMITTEE_UPDATES <? length (sp_updates proof))%nat SF_TooManyCommitteeUpdates;;
  bs ← ok_or (cbor_to_vec proof) SF_WitnessCodecRejected;
  fail_if (MAX_FINALITY_WITNESS_BYTES <? Z.of_nat (length bs)) SF_WitnessTooLarge;;
  Ok bs.

Definition decode_canonical (bs : bytes) : res SepoliaFinalityError SepoliaFinalityProof :=
  fail_if ((length bs =? 0)%nat || (MAX_FINALITY_WITNESS_BYTES <? Z.of_nat (length bs))) SF_WitnessTooLarge;;
  '(value, decoder) ← ok_or (SepoliaFinalityProof_deserialize bs) SF_WitnessCodecRejected;
  fail_if (negb (cbor_end decoder)) SF_WitnessCodecRejected;;
  canonical ← encode_canonical value;
  fail_if (bool_decide (canonical <> bs)) SF_NonCanonicalWitness;;
  Ok value.
End codec.
