(* ===== verification/HeliosProofs.v ===== *)
(** What the Ethereum light client establishes.

    A transition is accepted exactly when the prover's store is the one the
    controller's digest commits to, every committee update and the finality update
    have a two-thirds quorum and pass the consensus checks, and the requested
    witness is the one the resulting store derives.  The digest hands the sync
    committees over from one accepted proof to the next, the prior execution
    payload is under the prior beacon header, and the derived finality advances as
    the controller requires. *)

From S2P Require Import Prelude Encoding Params Hashing BurnAccumulator Records Deposits Burns.
From S2P Require Import ElementsState Controller ManifestFile Claims Readers Journal Annex Totality Guest EthereumInbound InboundProofs Helios.

Local Open Scope Z_scope.

(** The documented constants of the main-net presets, and the count of set bits
    in a vector of 512. *)
Record helios_presets `{Helios} : Prop := {
  hp_size : uval sync_committee_size = 512;
  hp_epoch : uval slots_per_epoch = 32;
  hp_bits : forall a, get_bits a <= 512
}.

Section facts.
Context {H : Sha256} {HT : HeliosTypes} {HE : Helios}.

Definition quorum (a : SyncAggregate) : Prop := 2 * 512 <= 3 * get_bits a.

Lemma supermajority_Ok a : helios_presets -> lacks_supermajority (get_bits a) = false <-> quorum a.
Proof.
  intros [Hs _ Hb]. specialize (Hb a). pose proof (uint_range (get_bits a)). unfold lacks_supermajority, quorum.
  rewrite Hs, Z.ltb_ge, !uval_wrap_small by lia. lia.
Qed.

Lemma slot_advances_Ok prior next : finalized_slot_advances prior next = true <-> prior < next <= prior + 4096.
Proof.
  unfold finalized_slot_advances. destruct (checked_sub next prior) as [gap|] eqn:E.
  - apply checked_sub_Some in E. pose proof (uint_range gap). rewrite andb_true_iff, negb_true_iff, Z.eqb_neq, Z.leb_le, slot_gap_val. lia.
  - split; [done|]. intros Hl. unfold checked_sub in E. apply uint_try_None in E.
    pose proof (uint_range next). pose proof (uint_range prior). lia.
Qed.

(** *** The execution payload *)

(** The branch leads from the payload's root to the body root. *)
Definition payload_proved (header : LightClientHeader) (execution : ExecutionPayloadHeader) : Prop :=
  header_execution header = Some execution /\
  exists branch, header_execution_branch header = Some branch /\ length branch = 4%nat /\
    branch_root 0 (execution_tree_hash_root execution) branch = beacon_body_root (header_beacon header).

Lemma payload_Ok header execution : header_execution header = Some execution ->
  execution_payload_is_bound header = true <-> payload_proved header execution.
Proof.
  intros E. unfold execution_payload_is_bound, payload_proved. rewrite E.
  destruct (header_execution_branch header) as [branch|]; [|split; [done|by intros (_ & b & ? & _)]].
  destruct (Nat.eqb_spec (length branch) 4) as [Hl|Hl]; cbn [negb].
  - rewrite bool_decide_eq_true. split; [intros Hr; split; [done|]; by exists branch|]. by intros (_ & b & [= <-] & _ & Hr).
  - split; [done|]. by intros (_ & b & [= <-] & Hb & _).
Qed.

(** Two branches that end in one root and differ in their leaf show a collision
    of a pair on the way. *)
Fixpoint branch_collision (depth : nat) (x y : Hash32) (xs ys : list Hash32) : Prop :=
  match xs, ys with
  | n :: xs, m :: ys =>
      collision (branch_pair depth n x) (branch_pair depth m y) \/
      branch_collision (S depth) (hash_bytes (branch_pair depth n x)) (hash_bytes (branch_pair depth m y)) xs ys
  | _, _ => False
  end.

Lemma branch_pair_inj depth n x m y : branch_pair depth n x = branch_pair depth m y -> n = m /\ x = y.
Proof.
  unfold branch_pair. intros E. destruct (_ =? 1);
    (apply app_inj_1 in E as [E1 E2]; [|by rewrite !arr_length]); apply array_eq in E1, E2; done.
Qed.

Lemma branch_root_binds xs : forall ys depth x y, length xs = length ys ->
  branch_root depth x xs = branch_root depth y ys -> x = y \/ branch_collision depth x y xs ys.
Proof.
  induction xs as [|n xs IH]; intros [|m ys] depth x y Hl E; try done; [by left|]. cbn [branch_root branch_collision length] in *.
  apply IH in E as [E|E]; [|by right; right|lia].
  destruct (decide (branch_pair depth n x = branch_pair depth m y)) as [Ep|Hne].
  - left. by apply branch_pair_inj in Ep as [_ ->].
  - right. left. split; [done|]. apply array_eq. unfold hash_bytes in E. congruence.
Qed.

(** *** The accepted transitions *)

Record prior_bound (m : ProtocolManifest) (s : MintControllerState) (p : SepoliaFinalityProof) : Prop := {
  pb_manifest : ProtocolManifest_validate m = Ok tt;
  pb_prior : MintControllerState_validate s = Ok tt;
  pb_configuration : mc_configuration_hash s = pm_controller_configuration_hash m;
  pb_chain : pm_ethereum_chain_id m = SEPOLIA_CHAIN_ID;
  pb_genesis : pm_ethereum_genesis m = SEPOLIA_EXECUTION_GENESIS_HASH;
  pb_slot : beacon_slot (header_beacon (sp_prior_finalized_header p)) = mc_finalized_beacon_slot s;
  pb_root : beacon_tree_hash_root (header_beacon (sp_prior_finalized_header p)) = mc_finalized_beacon_root s;
  pb_execution : exists e, payload_proved (sp_prior_finalized_header p) e /\
    execution_state_root e = mc_finalized_execution_state_root s;
  pb_digest : light_client_state_digest (mc_finalized_beacon_slot s) (mc_finalized_beacon_root s)
    (sp_prior_current_sync_committee p) (sp_prior_next_sync_committee p) = mc_ethereum_light_client_digest s;
  pb_updates : (length (sp_updates p) <= 2)%nat
}.

Lemma prior_checks_Ok m s p : prior_checks m s p = Ok tt <-> prior_bound m s p.
Proof.
  unfold prior_checks, MAX_COMMITTEE_UPDATES. cbv zeta. split.
  - intros E. inv_ok.
    repeat match goal with E : ~ (_ <> _) |- _ => apply dec_stable in E end.
    repeat match goal with E : uval _ = uval _ |- _ => apply uint_eq in E end.
    match goal with E : (_ <? _)%nat = false |- _ => apply Nat.ltb_ge in E end.
    constructor; try done; [|congruence].
    match goal with E : header_execution _ = Some ?e |- _ => exists e; split; [by apply payload_Ok|done] end.
  - intros [Hm Hs Hc Hch Hg Hsl Hr (e & Hp & Hst) Hd Hu].
    rewrite Hm, Hs, Hsl, Hr, Hd, (proj1 Hp), (proj2 (payload_Ok _ _ (proj1 Hp)) Hp), Hc, Hch, Hg.
    cbn [map_err mbind res_bind ok_or]. rewrite Hst, !bool_decide_eq_false_2, !Z.eqb_refl by naive_solver.
    cbn [negb orb fail_if mbind res_bind]. by rewrite (proj2 (Nat.ltb_ge _ _) Hu).
Qed.

(** The committee updates, each with its quorum and verified in the store the
    ones before it leave. *)
Inductive committee_run (slot : u64) : LightClientStore -> list Update -> LightClientStore -> Prop :=
| run_done st : committee_run slot st [] st
| run_update st u us st' :
    quorum (update_sync_aggregate u) ->
    verify_update u slot st SEPOLIA_GENESIS_VALIDATORS_ROOT sepolia_forks = Ok tt ->
    committee_run slot (apply_update st u) us st' ->
    committee_run slot st (u :: us) st'.

Lemma committee_update_Ok slot i u st st' : helios_presets ->
  committee_update slot i u st = Ok st' <->
  quorum (update_sync_aggregate u) /\
  verify_update u slot st SEPOLIA_GENESIS_VALIDATORS_ROOT sepolia_forks = Ok tt /\ st' = apply_update st u.
Proof.
  intros Hp. unfold committee_update, require_supermajority. rewrite fail_then, supermajority_Ok by done. split.
  - intros [Hq E]. inv_ok. done.
  - intros (Hq & -> & ->). done.
Qed.

Lemma committee_run_Ok slot us : helios_presets -> forall i st st',
  res_foldi (committee_update slot) i us st = Ok st' <-> committee_run slot st us st'.
Proof.
  intros Hp. induction us as [|u us IH]; intros i st st'; cbn [res_foldi].
  - split; [intros [= <-]; constructor|by inversion 1].
  - rewrite res_bind_Ok. setoid_rewrite committee_update_Ok; [|done]. setoid_rewrite IH. split.
    + intros (s & (Hq & Hv & ->) & E). by constructor.
    + inversion 1; subst. eauto.
Qed.

Definition witness_of (st : LightClientStore) (e : ExecutionPayloadHeader) : EthereumFinalityWitness :=
  let finalized := header_beacon (st_finalized_header st) in {|
    fw_ethereum_light_client_digest :=
      light_client_state_digest (beacon_slot finalized) (beacon_tree_hash_root finalized)
        (st_current_sync_committee st) (st_next_sync_committee st);
    fw_finalized_beacon_slot := beacon_slot finalized;
    fw_finalized_beacon_root := beacon_tree_hash_root finalized;
    fw_finalized_execution_block := execution_block_hash e;
    fw_finalized_execution_state_root := execution_state_root e;
    fw_execution_block_number := execution_block_number e;
    fw_execution_block_timestamp := execution_timestamp e
  |}.

Definition derives (prior_slot : u64) (st : LightClientStore) (f : EthereumFinalityWitness) : Prop :=
  prior_slot < fw_finalized_beacon_slot f <= prior_slot + 4096 /\
  fw_finalized_beacon_slot f mod 32 = 0 /\
  exists e, header_execution (st_finalized_header st) = Some e /\ f = witness_of st e.

Lemma derived_Ok prior st f : helios_presets -> derived_witness prior st = Ok f <-> derives prior st f.
Proof.
  intros [_ He _]. unfold derived_witness, derives. cbv zeta. rewrite He. cbn [Z.eqb mbind res_bind].
  rewrite !fail_then, !negb_false_iff, slot_advances_Ok, Z.eqb_eq, res_bind_Ok. setoid_rewrite ok_or_Ok. split.
  - intros (Ha & Hm & e & Hx & [= <-]). split; [done|]. split; [done|]. by exists e.
  - intros (Ha & Hm & e & Hx & ->). split; [done|]. split; [done|]. by exists e.
Qed.

Record light_client_accepts (m : ProtocolManifest) (s : MintControllerState) (p : SepoliaFinalityProof)
    (st : LightClientStore) (f : EthereumFinalityWitness) : Prop := {
  lc_prior : prior_bound m s p;
  lc_updates : committee_run (finality_signature_slot (sp_finality_update p)) (initial_store p) (sp_updates p) st;
  lc_quorum : quorum (finality_sync_aggregate (sp_finality_update p));
  lc_finality : verify_finality_update (sp_finality_update p) (finality_signature_slot (sp_finality_update p)) st
                  SEPOLIA_GENESIS_VALIDATORS_ROOT sepolia_forks = Ok tt;
  lc_derived : derives (mc_finalized_beacon_slot s) (apply_finality_update st (sp_finality_update p)) f
}.

Lemma derive_Ok m s p f : helios_presets ->
  derive_transition m s p = Ok f <-> exists st, light_client_accepts m s p st f.
Proof.
  intros Hp. unfold derive_transition. cbv zeta. rewrite res_bind_Ok. split.
  - intros ([] & Hpr%prior_checks_Ok & E). apply res_bind_Ok in E as (st & Hst & E). apply committee_run_Ok in Hst; [|done].
    rewrite fail_then, supermajority_Ok in E by done. destruct E as [Hq E]. apply res_bind_Ok in E as ([] & Hv%map_err_Ok & E).
    rewrite (pb_slot _ _ _ Hpr) in E. apply derived_Ok in E; [|done]. exists st. by constructor.
  - intros (st & [Hpr Hst Hq Hv Hd]). exists tt. split; [by apply prior_checks_Ok|]. apply res_bind_Ok.
    exists st. split; [by apply committee_run_Ok|]. rewrite fail_then, supermajority_Ok by done. split; [done|].
    apply res_bind_Ok. exists tt. split; [by apply map_err_Ok|]. rewrite (pb_slot _ _ _ Hpr). by apply derived_Ok.
Qed.

Lemma transition_Ok m s p f : helios_presets ->
  verify_transition (MkFinalityTransition m s f) p = Ok tt <-> exists st, light_client_accepts m s p st f.
Proof.
  intros Hp. rewrite <- derive_Ok by done. unfold verify_transition. cbn [et_manifest et_prior_state et_next].
  rewrite res_bind_Ok. setoid_rewrite fail_if_Ok. setoid_rewrite bool_decide_eq_false. split.
  - by intros (d & Hd & <-%dec_stable).
  - intros E. exists f. split; [done|naive_solver].
Qed.

Lemma verifier_Ok m s p f : helios_presets ->
  verify_finalized_transition (MkFinalityTransition m s f) p = Ok tt <-> exists st, light_client_accepts m s p st f.
Proof.
  intros Hp. rewrite <- transition_Ok by done. unfold verify_finalized_transition, SepoliaHeliosFinalityVerifier. by rewrite map_err_Ok.
Qed.

(** *** The digest commits to the store *)

Definition committees (cur : SyncCommittee) (next : option SyncCommittee) : Hash32 * option Hash32 :=
  (committee_tree_hash_root cur, committee_tree_hash_root <$> next).

Lemma next_root_inj (x y : option Hash32) :
  match x with Some root => be_bytes 1 1 ++ arr root | None => be_bytes 1 0 end
  = match y with Some root => be_bytes 1 1 ++ arr root | None => be_bytes 1 0 end -> x = y.
Proof.
  destruct x as [x|], y as [y|]; intros E; try done. f_equal. apply app_inv_head in E. by apply array_eq.
Qed.

Lemma light_client_preimage_inj a r c n a' r' c' n' :
  light_client_preimage a r c n = light_client_preimage a' r' c' n' -> a = a' /\ r = r' /\ c = c' /\ n = n'.
Proof.
  unfold light_client_preimage. intros E. do 3 apply app_inv_head in E.
  apply app_inj_1 in E as [Ea E]; [|by rewrite !length_be_bytes]. apply app_inj_1 in E as [Er E]; [|by rewrite !arr_length].
  apply app_inj_1 in E as [Ec E]; [|by rewrite !arr_length]. apply next_root_inj in E.
  apply (f_equal be_val) in Ea. rewrite !be_val_bytes in Ea. pose proof (uint_range a). pose proof (uint_range a').
  change (256 ^ Z.of_nat 8) with (2 ^ 64) in Ea. rewrite !Z.mod_small in Ea by lia.
  split; [by apply uint_eq|]. split; [by apply array_eq|]. split; [by apply array_eq|done].
Qed.

(** The digest's preimage for a header and its committees. *)
Definition digest_preimage (slot : u64) (root : Hash32) (roots : Hash32 * option Hash32) : bytes :=
  light_client_preimage slot root roots.1 roots.2.

Lemma digest_binds slot root cur next slot' root' cur' next' :
  light_client_state_digest slot root cur next = light_client_state_digest slot' root' cur' next' ->
  (slot = slot' /\ root = root' /\ committees cur next = committees cur' next') \/
  collision (digest_preimage slot root (committees cur next)) (digest_preimage slot' root' (committees cur' next')).
Proof.
  unfold light_client_state_digest, digest_preimage, committees. cbn [fst snd]. intros E.
  destruct (decide (light_client_preimage slot root (committee_tree_hash_root cur) (committee_tree_hash_root <$> next)
    = light_client_preimage slot' root' (committee_tree_hash_root cur') (committee_tree_hash_root <$> next'))) as [Ep|Hne].
  - left. apply light_client_preimage_inj in Ep as (-> & -> & -> & ->). done.
  - right. by split.
Qed.

(** The preimages of the digest a proof starts from and of the one it derives. *)
Definition prior_preimage (s : MintControllerState) (p : SepoliaFinalityProof) : bytes :=
  digest_preimage (mc_finalized_beacon_slot s) (mc_finalized_beacon_root s)
    (committees (sp_prior_current_sync_committee p) (sp_prior_next_sync_committee p)).
Definition derived_preimage (st : LightClientStore) : bytes :=
  let finalized := header_beacon (st_finalized_header st) in
  digest_preimage (beacon_slot finalized) (beacon_tree_hash_root finalized)
    (committees (st_current_sync_committee st) (st_next_sync_committee st)).

Definition final_store (st : LightClientStore) (p : SepoliaFinalityProof) : LightClientStore :=
  apply_finality_update st (sp_finality_update p).

(** C9: The light client accepts a requested finality exactly when the manifest
    and state are valid and of the pinned network, the prover's prior header,
    payload and committees are the ones the state commits to, at most two
    committee updates and then the finality update have at least two thirds of
    the 512 signers and pass the consensus checks in the store before them, and
    the request is what the final store derives at an epoch boundary, 1 to 4096
    slots later. *)
Theorem light_client_iff (m : ProtocolManifest) (s : MintControllerState) (p : SepoliaFinalityProof)
    (f : EthereumFinalityWitness) :
  helios_presets ->
  (verify_finalized_transition (MkFinalityTransition m s f) p = Ok tt <-> exists st, light_client_accepts m s p st f) /\
  (derive_transition m s p = Ok f <-> exists st, light_client_accepts m s p st f).
Proof. split; [by apply verifier_Ok|by apply derive_Ok]. Qed.

Lemma derives_advance m s p st f : light_client_accepts m s p st f ->
  finality_advance s f \/ collision (derived_preimage (final_store st p)) (prior_preimage s p).
Proof.
  intros [Hpr _ _ _ (Hsl & _ & e & _ & ->)].
  destruct (decide (fw_ethereum_light_client_digest (witness_of (final_store st p) e) = mc_ethereum_light_client_digest s)) as [E|Hne].
  - right. rewrite <- (pb_digest _ _ _ Hpr) in E. apply digest_binds in E as [(E & _)|Hc]; [|exact Hc].
    exfalso. cbn [witness_of fw_finalized_beacon_slot] in Hsl. unfold final_store in E. rewrite E in Hsl. lia.
  - left. constructor; [lia| |done]. intros E. rewrite E in Hsl. lia.
Qed.

(** C13: The light client never accepts a finality that the controller would then
    refuse: an accepted, well-formed finality is a transition of the shape the
    inbound verification and the controller require, so a heartbeat with it
    succeeds while the sequence lasts, unless the two light-client digests are a
    SHA-256 collision. *)
Theorem light_client_feeds_controller (m : ProtocolManifest) (s : MintControllerState) (p : SepoliaFinalityProof)
    (f : EthereumFinalityWitness) :
  helios_presets ->
  verify_finalized_transition (MkFinalityTransition m s f) p = Ok tt ->
  EthereumFinalityWitness_validate f = Ok tt ->
  exists st, light_client_accepts m s p st f /\
    ((transition_shape m s f /\ (mc_sequence s + 1 < 2 ^ 64 -> exists s', apply_heartbeat s f = Ok s'))
     \/ collision (derived_preimage (final_store st p)) (prior_preimage s p)).
Proof.
  intros Hp E Hf. apply verifier_Ok in E as [st E]; [|done]. exists st. split; [done|].
  destruct (derives_advance _ _ _ _ _ E) as [Ha|Hc]; [left|by right]. pose proof (lc_prior _ _ _ _ _ E) as Hpr.
  split; [constructor; try apply Hpr; [done|by apply finality_advance_Ok]|]. intros Hs.
  eexists. apply apply_heartbeat_Ok. split; [apply Hpr|]. split; [by apply finality_validate_Ok|].
  destruct (lc_derived _ _ _ _ _ E) as (Hsl & _). split; [lia|]. done.
Qed.

(** C10: Sync committees are handed over by the controller's digest alone: a proof
    accepted in a state with the digest of an earlier accepted finality starts
    from that finality's header and from committees with the tree-hash roots of
    the store the earlier proof ended in, so a prover chooses no committee,
    unless the two digests are a SHA-256 collision. *)
Theorem committees_handed_over (m m' : ProtocolManifest) (s s' : MintControllerState) (p p' : SepoliaFinalityProof)
    (f f' : EthereumFinalityWitness) :
  helios_presets ->
  verify_finalized_transition (MkFinalityTransition m s f) p = Ok tt ->
  verify_finalized_transition (MkFinalityTransition m' s' f') p' = Ok tt ->
  mc_ethereum_light_client_digest s' = fw_ethereum_light_client_digest f ->
  exists st, light_client_accepts m s p st f /\
    ((mc_finalized_beacon_slot s' = fw_finalized_beacon_slot f /\ mc_finalized_beacon_root s' = fw_finalized_beacon_root f /\
      committees (sp_prior_current_sync_committee p') (sp_prior_next_sync_committee p')
      = committees (st_current_sync_committee (final_store st p)) (st_next_sync_committee (final_store st p)))
     \/ collision (prior_preimage s' p') (derived_preimage (final_store st p))).
Proof.
  intros Hp E E' Hd. apply verifier_Ok in E as [st E], E' as [st' E']; [|done..]. exists st. split; [done|].
  destruct (lc_derived _ _ _ _ _ E) as (_ & _ & e & _ & ->). rewrite <- (pb_digest _ _ _ (lc_prior _ _ _ _ _ E')) in Hd.
  apply digest_binds in Hd as [(H1 & H2 & H3)|Hc]; [left|by right]. done.
Qed.

(** The execution payload of a beacon header is fixed by its body root: two
    headers with one body root whose payloads pass the branch check have the
    same payload root, or the branches show a SHA-256 collision. *)
Theorem execution_payload_binding (h h' : LightClientHeader) :
  execution_payload_is_bound h = true -> execution_payload_is_bound h' = true ->
  beacon_body_root (header_beacon h) = beacon_body_root (header_beacon h') ->
  exists e e' b b', header_execution h = Some e /\ header_execution h' = Some e' /\
    header_execution_branch h = Some b /\ header_execution_branch h' = Some b' /\
    (execution_tree_hash_root e = execution_tree_hash_root e' \/
     branch_collision 0 (execution_tree_hash_root e) (execution_tree_hash_root e') b b').
Proof.
  intros Hb Hb' Hr. destruct (header_execution h) as [e|] eqn:Ee; [|unfold execution_payload_is_bound in Hb; by rewrite Ee in Hb].
  destruct (header_execution h') as [e'|] eqn:Ee'; [|unfold execution_payload_is_bound in Hb'; by rewrite Ee' in Hb'].
  apply (payload_Ok _ _ Ee) in Hb as (_ & b & Hb & Hl & E). apply (payload_Ok _ _ Ee') in Hb' as (_ & b' & Hb' & Hl' & E').
  exists e, e', b, b'. do 4 (split; [done|]). apply branch_root_binds; [by rewrite Hl, Hl'|congruence].
Qed.
(** *** Panics *)

Definition helios_calm : Prop :=
  (forall u slot st root forks, never (verify_update u slot st root forks)) /\
  (forall f slot st root forks, never (verify_finality_update f slot st root forks)).

Lemma prior_checks_never m s p : never (prior_checks m s p).
Proof.
  unfold prior_checks. cbv zeta. never_guards; apply never_errs, never_map_err; [apply manifest_never|apply MintControllerState_never].
Qed.

Lemma derive_never m s p : helios_presets -> helios_calm -> never (derive_transition m s p).
Proof.
  intros [_ He _] [Hu Hf]. unfold derive_transition. cbv zeta. never_guards.
  - apply never_errs, prior_checks_never.
  - unfold committee_update, require_supermajority. errs; [done|]. by apply never_errs, never_map_err.
  - by apply never_errs, never_map_err.
  - unfold derived_witness. rewrite He. cbn [Z.eqb]. errs; done.
Qed.

Lemma verifier_never t p : helios_presets -> helios_calm -> never (verify_finalized_transition t p).
Proof.
  intros Hp Hc. unfold verify_finalized_transition, SepoliaHeliosFinalityVerifier, verify_transition.
  apply never_map_err, never_bind; [by apply derive_never|]. intros d _. apply never_fail_if.
Qed.
End facts.

(** ** The witness codec *)

Section codec.
Context {HT : HeliosTypes} {CB : Cbor}.

Lemma visit_elements_Ok es : forall acc us, (length acc <= 2)%nat ->
  visit_elements es acc = Some us <-> exists vs, es = map Some vs /\ us = acc ++ vs /\ (length us <= 2)%nat.
Proof.
  induction es as [|[u|] es IH]; intros acc us Hl; cbn [visit_elements].
  - split; [intros [= <-]; exists []; by rewrite app_nil_r|]. intros ([|v vs] & E & -> & _); [by rewrite app_nil_r|done].
  - destruct (Nat.eqb_spec (length acc) MAX_COMMITTEE_UPDATES) as [Hn|Hn]; unfold MAX_COMMITTEE_UPDATES in Hn.
    + split; [done|]. intros ([|v vs] & E & -> & Hb); [done|]. rewrite length_app in Hb. cbn [length] in Hb. lia.
    + rewrite IH by (rewrite length_app; cbn [length]; lia). split.
      * intros (vs & -> & -> & Hb). exists (u :: vs). rewrite <- app_assoc in *. done.
      * intros ([|v vs] & E & -> & Hb); [done|]. injection E as -> ->. exists vs. rewrite <- app_assoc. done.
  - split; [done|]. by intros ([|v vs] & E & _).
Qed.

Lemma visit_seq_Ok sq us : visit_seq sq = Some us <->
  (default 0 (sq_size_hint sq) <= 2)%nat /\ sq_elements sq = map Some us /\ (length us <= 2)%nat.
Proof.
  unfold visit_seq. destruct (Nat.ltb_spec MAX_COMMITTEE_UPDATES (default 0%nat (sq_size_hint sq))) as [Hh|Hh];
    unfold MAX_COMMITTEE_UPDATES in Hh; [split; [done|]; intros (Hh' & _); lia|].
  rewrite visit_elements_Ok by (cbn; lia). cbn [app]. split; [by intros (vs & E & -> & Hb)|].
  intros (_ & E & Hb). by exists us.
Qed.

(** What CBOR promises: a value's encoding is not empty, and reading it gives
    the value's fields, its sequence with the exact size hint (or none), and
    nothing after it. *)
Definition cbor_roundtrip : Prop := forall p bs, cbor_to_vec p = Some bs -> bs <> [] /\
  exists sq, sq_elements sq = map Some (sp_updates p) /\
    (sq_size_hint sq = None \/ sq_size_hint sq = Some (length (sp_updates p))) /\
    forall visitor us, visitor sq = Some us ->
      exists d, cbor_deserialize visitor bs = Some (MkWireProof (sp_prior_finalized_header p)
        (sp_prior_current_sync_committee p) (sp_prior_next_sync_committee p) us (sp_finality_update p), d) /\
        cbor_end d = true.

Lemma encode_canonical_Ok p bs : encode_canonical p = Ok bs <->
  (length (sp_updates p) <= 2)%nat /\ cbor_to_vec p = Some bs /\ Z.of_nat (length bs) <= 524288.
Proof.
  unfold encode_canonical, MAX_COMMITTEE_UPDATES. change MAX_FINALITY_WITNESS_BYTES with 524288.
  rewrite fail_then, Nat.ltb_ge, res_bind_Ok. setoid_rewrite ok_or_Ok. split.
  - intros (Hl & b & Hb & E). rewrite fail_then, Z.ltb_ge in E. by destruct E as [Hs [= <-]].
  - intros (Hl & Hb & Hs). split; [done|]. exists bs. rewrite fail_then, Z.ltb_ge. done.
Qed.

Lemma decode_canonical_sound bs p : decode_canonical bs = Ok p -> encode_canonical p = Ok bs /\ bs <> [].
Proof.
  unfold decode_canonical. rewrite fail_then, orb_false_iff, Nat.eqb_neq. intros ([Hl _] & E).
  apply res_bind_Ok in E as ([v d] & _ & E). rewrite fail_then in E. destruct E as [_ E].
  apply res_bind_Ok in E as (c & Hc & E). rewrite fail_then, bool_decide_eq_false in E. destruct E as [->%dec_stable [= ->]].
  split; [done|]. by destruct bs.
Qed.

(** C35: The finality witness has one byte format: decoding accepts only the
    encoding of its result (at most two updates, at most 512 KiB), whatever
    the CBOR crate does; every encodable witness decodes back if CBOR round
    trips; and the visitor never holds a third update. *)
Theorem finality_witness_canonical :
  (forall bs p, decode_canonical bs = Ok p ->
     encode_canonical p = Ok bs /\ (length (sp_updates p) <= 2)%nat /\ 0 < Z.of_nat (length bs) <= 524288) /\
  (cbor_roundtrip -> forall bs p, encode_canonical p = Ok bs -> decode_canonical bs = Ok p) /\
  (forall sq us, visit_seq sq = Some us -> (length us <= 2)%nat).
Proof.
  split; [|split].
  - intros bs p [E Hne]%decode_canonical_sound. split; [done|]. apply encode_canonical_Ok in E as (Hl & _ & Hs).
    split; [done|]. destruct bs; [done|]. cbn [length] in *. lia.
  - intros Hcbor bs p E. pose proof E as E0.
    apply encode_canonical_Ok in E as (Hl & Hv & Hs). destruct (Hcbor p bs Hv) as (Hne & sq & Hel & Hh & Hd).
    unfold decode_canonical. rewrite fail_then, orb_false_iff, Nat.eqb_neq, Z.ltb_ge. split; [split; [by destruct bs|exact Hs]|].
    destruct (Hd visit_seq (sp_updates p)) as (d & Hds & Hend).
    { apply visit_seq_Ok. split; [destruct Hh as [-> | ->]; cbn; lia|done]. }
    apply res_bind_Ok. exists (p, d). split; [apply ok_or_Ok; unfold SepoliaFinalityProof_deserialize; rewrite Hds; by destruct p|].
    rewrite Hend, E0. cbn [negb fail_if mbind res_bind]. by rewrite bool_decide_eq_false_2 by naive_solver.
  - by intros sq us (_ & _ & Hl)%visit_seq_Ok.
Qed.

Lemma decode_canonical_never bs : never (decode_canonical bs).
Proof. unfold decode_canonical, encode_canonical. never_guards. destruct a0. errs; done. Qed.
End codec.

(** ** A toy light client: a header is its slot, root and state root, a committee
    is its root, an update carries its count of signers and a committee *)

(** A digest that keeps the end of its input, so that it tells states apart. *)
Lemma tail_ok (bs : bytes) : (length (drop (length bs) (repeat x00 32 ++ bs)) =? 32)%nat = true.
Proof. apply Nat.eqb_eq. rewrite length_drop, length_app, repeat_length. lia. Qed.
Definition tail_sha256 : Sha256 := fun bs => Array (drop (length bs) (repeat x00 32 ++ bs)) (tail_ok bs).

Record ToyHeader : Type := MkToyHeader { th_slot : u64; th_root : Hash32; th_state_root : Hash32 }.
Definition toy_helios_types : HeliosTypes := {|
  LightClientHeader := ToyHeader; BeaconBlockHeader := ToyHeader; ExecutionPayloadHeader := Hash32;
  SyncCommittee := Hash32; SyncAggregate := Z; GenericUpdate := unit; Update := Z * Hash32;
  FinalityUpdate := Z * ToyHeader
|}.
Definition toy_bits (a : Z) : u64 := uint_wrap 64 (Z.min 512 (Z.max 0 a)).
Definition toy_branch : list Hash32 := repeat (array_rep 32 x05) 4.

#[local] Existing Instance toy_helios_types.
Definition toy_helios : @Helios toy_helios_types := {|
  header_beacon h := h;
  header_execution h := Some (th_state_root h);
  header_execution_branch _ := Some toy_branch;
  beacon_slot := th_slot;
  beacon_body_root h := @branch_root tail_sha256 0 (th_state_root h) toy_branch;
  beacon_tree_hash_root := th_root;
  execution_tree_hash_root x := x;
  execution_state_root x := x;
  execution_block_hash x := x;
  execution_block_number _ := uint_wrap 64 7;
  execution_timestamp _ := uint_wrap 64 1700000000;
  committee_tree_hash_root x := x;
  update_sync_aggregate u := u.1;
  finality_sync_aggregate f := f.1;
  finality_signature_slot f := th_slot f.2;
  get_bits := toy_bits;
  sync_committee_size := uint_wrap 64 512;
  slots_per_epoch := uint_wrap 64 32;
  verify_update _ _ _ _ _ := Ok tt;
  apply_update st u := {|
    st_finalized_header := st_finalized_header st; st_current_sync_committee := st_current_sync_committee st;
    st_next_sync_committee := Some u.2; st_optimistic_header := st_optimistic_header st;
    st_previous_max_active_participants := st_previous_max_active_participants st;
    st_current_max_active_participants := st_current_max_active_participants st; st_best_valid_update := None |};
  verify_finality_update _ _ _ _ _ := Ok tt;
  apply_finality_update st f := {|
    st_finalized_header := f.2; st_current_sync_committee := st_current_sync_committee st;
    st_next_sync_committee := st_next_sync_committee st; st_optimistic_header := f.2;
    st_previous_max_active_participants := st_previous_max_active_participants st;
    st_current_max_active_participants := st_current_max_active_participants st; st_best_valid_update := None |}
|}.
#[local] Existing Instance toy_helios.
#[local] Existing Instance tail_sha256.

Lemma toy_presets : helios_presets.
Proof. split; [done|done|]. intros a. cbn [get_bits toy_helios]. unfold toy_bits. rewrite uval_wrap_small by lia. lia. Qed.

Definition sepolia_prior_header : ToyHeader := MkToyHeader (uint_wrap 64 100) (array_rep 32 x31) (array_rep 32 x32).
Definition sepolia_digest : Hash32 :=
  light_client_state_digest (uint_wrap 64 100) (array_rep 32 x31) (array_rep 32 x61) None.
Definition sepolia_base : ProtocolManifest :=
  let h b := array_rep 32 b in
  MkProtocolManifest SEPOLIA_CHAIN_ID SEPOLIA_EXECUTION_GENESIS_HASH (h x02) (h x03) (uint_wrap 8 24) (array_rep 20 x04)
    (h x05) (h x06) (h x07) (array_rep 20 x08) ZERO (h x0a) (array_rep 20 x0b) (h x0c) ZERO
    (h x0d) (h x0e) (uint_wrap 16 6) (uint_wrap 16 3) (uint_wrap 16 1) SP1_GIT_COMMIT
    (uint_wrap 16 1) (uint_wrap 16 1) (h x0f) (uint_wrap 8 1) (uint_wrap 64 100) (h x31) (h x32)
    sepolia_digest (h x13) ZERO ZERO (h x14) (uint_wrap 32 0) (h x15) ZERO
    (uint_wrap 64 1000000000000000) (h x16) (uint_wrap 64 4096) (uint_wrap 64 21600)
    (uint_wrap 32 100) (uint_wrap 64 0) (uint_wrap 8 6) (uint_wrap 8 8) (uint_wrap 64 100).
Definition sepolia_manifest : ProtocolManifest := complete_manifest sepolia_base.
Definition sepolia_state : MintControllerState := initial_controller_state sepolia_manifest.
Definition sepolia_proof (slot : Z) : SepoliaFinalityProof :=
  MkSepoliaFinalityProof (HT:=toy_helios_types) sepolia_prior_header (array_rep 32 x61) None
    [(400, array_rep 32 x62)] (342, MkToyHeader (uint_wrap 64 slot) (array_rep 32 x41) (array_rep 32 x42)).
Definition sepolia_finality : EthereumFinalityWitness :=
  match derive_transition sepolia_manifest sepolia_state (sepolia_proof 128) with
  | Ok f => f
  | _ => inbound_finality
  end.

Lemma sepolia_accepted :
  verify_finalized_transition (MkFinalityTransition sepolia_manifest sepolia_state sepolia_finality) (sepolia_proof 128) = Ok tt.
Proof. by vm_compute. Qed.

Example light_client_iff_witness :
  exists st, light_client_accepts sepolia_manifest sepolia_state (sepolia_proof 128) st sepolia_finality.
Proof.
  exact (proj1 (proj1 (light_client_iff sepolia_manifest sepolia_state (sepolia_proof 128) sepolia_finality toy_presets))
    sepolia_accepted).
Defined.

Example light_client_feeds_controller_witness :
  exists st, light_client_accepts sepolia_manifest sepolia_state (sepolia_proof 128) st sepolia_finality /\
    ((transition_shape sepolia_manifest sepolia_state sepolia_finality /\
      (mc_sequence sepolia_state + 1 < 2 ^ 64 -> exists s', apply_heartbeat sepolia_state sepolia_finality = Ok s'))
     \/ collision (derived_preimage (final_store st (sepolia_proof 128))) (prior_preimage sepolia_state (sepolia_proof 128))).
Proof.
  exact (light_client_feeds_controller sepolia_manifest sepolia_state (sepolia_proof 128) sepolia_finality
    toy_presets sepolia_accepted ltac:(by vm_compute)).
Defined.

(** The state after a heartbeat with that finality, and a proof from it. *)
Definition sepolia_state2 : MintControllerState :=
  match apply_heartbeat sepolia_state sepolia_finality with Ok s => s | _ => sepolia_state end.
Definition sepolia_proof2 : SepoliaFinalityProof :=
  MkSepoliaFinalityProof (HT:=toy_helios_types) (MkToyHeader (uint_wrap 64 128) (array_rep 32 x41) (array_rep 32 x42))
    (array_rep 32 x61) (Some (array_rep 32 x62)) [] (342, MkToyHeader (uint_wrap 64 160) (array_rep 32 x43) (array_rep 32 x44)).
Definition sepolia_finality2 : EthereumFinalityWitness :=
  match derive_transition sepolia_manifest sepolia_state2 sepolia_proof2 with Ok f => f | _ => inbound_finality end.
Lemma sepolia_accepted2 :
  verify_finalized_transition (MkFinalityTransition sepolia_manifest sepolia_state2 sepolia_finality2) sepolia_proof2 = Ok tt.
Proof. by vm_compute. Qed.
Lemma sepolia_digest2 : mc_ethereum_light_client_digest sepolia_state2 = fw_ethereum_light_client_digest sepolia_finality.
Proof. apply array_eq. by vm_compute. Qed.

Example committees_handed_over_witness :
  exists st, light_client_accepts sepolia_manifest sepolia_state (sepolia_proof 128) st sepolia_finality.
Proof.
  destruct (committees_handed_over sepolia_manifest sepolia_manifest sepolia_state sepolia_state2 (sepolia_proof 128)
    sepolia_proof2 sepolia_finality sepolia_finality2 toy_presets sepolia_accepted sepolia_accepted2 sepolia_digest2)
    as (st & Hst & _). by exists st.
Defined.

Example execution_payload_binding_witness :
  exists e e' b b', header_execution sepolia_prior_header = Some e /\ header_execution sepolia_prior_header = Some e' /\
    header_execution_branch sepolia_prior_header = Some b /\ header_execution_branch sepolia_prior_header = Some b' /\
    (execution_tree_hash_root e = execution_tree_hash_root e' \/
     branch_collision 0 (execution_tree_hash_root e) (execution_tree_hash_root e') b b').
Proof.
  exact (execution_payload_binding sepolia_prior_header sepolia_prior_header ltac:(by vm_compute) ltac:(by vm_compute) eq_refl).
Defined.

(** A toy codec over trivial types: whether there is a next committee, and one
    byte per update. *)
Definition unit_types : HeliosTypes := {|
  LightClientHeader := unit; BeaconBlockHeader := unit; ExecutionPayloadHeader := unit; SyncCommittee := unit;
  SyncAggregate := unit; GenericUpdate := unit; Update := unit; FinalityUpdate := unit
|}.
Definition unit_cbor : @Cbor unit_types := {|
  CborDeserializer := unit;
  cbor_to_vec p := Some ((if sp_prior_next_sync_committee p then x01 else x00) :: repeat x05 (length (sp_updates p)));
  cbor_deserialize visitor bs :=
    match bs with
    | [] => None
    | b :: rest =>
        us ← visitor (MkSeqAccess (HT:=unit_types) (Some (length rest)) (repeat (Some tt) (length rest)));
        Some (MkWireProof (HT:=unit_types) tt tt (if decide (b = x01) then Some tt else None) us tt, tt)
    end;
  cbor_end _ := true
|}.
Lemma unit_elements (us : list unit) : repeat (Some tt) (length us) = map Some us.
Proof. induction us as [|[] us IH]; cbn; congruence. Qed.
Lemma unit_roundtrip : @cbor_roundtrip unit_types unit_cbor.
Proof.
  intros [[] [] next us []] bs [= <-]. split; [done|]. cbn [sp_updates sp_prior_next_sync_committee sp_prior_finalized_header
    sp_prior_current_sync_committee sp_finality_update].
  exists (MkSeqAccess (HT:=unit_types) (Some (length us)) (map Some us)). split; [done|]. split; [by right|]. intros visitor vs Hv.
  exists tt. split; [|done]. cbn [cbor_deserialize unit_cbor]. rewrite repeat_length.
  rewrite (unit_elements us). unfold Update, unit_types in *. rewrite Hv. cbn [mbind option_bind]. by destruct next as [[]|].
Qed.

Example finality_witness_canonical_witness :
  let p := MkSepoliaFinalityProof (HT:=unit_types) tt tt None [tt; tt] tt in
  @decode_canonical unit_types unit_cbor [x00; x05; x05] = Ok p.
Proof.
  intros p. assert (@encode_canonical unit_types unit_cbor p = Ok [x00; x05; x05]) as E by by vm_compute.
  exact (proj1 (proj2 (@finality_witness_canonical unit_types unit_cbor)) unit_roundtrip _ _ E).
Defined.
