(* ===== verification/GuestProgram.v ===== *)
(** The Ethereum state guest: [src/guests/ethereum-state/src].

    [execute_guest_input] of lib.rs decodes five independently bounded records,
    composes the Helios finality verifier with the inbound verification, and
    returns the strict journal the builders of [Guest] make; [guest_main] is the
    program of main.rs around it.  The SP1 runtime's input and output are the
    class [Sp1Io].

    This is where the parts meet: an output of the guest is a strict journal that
    mints exactly what the vault's storage holds under a state root the light
    client finalized from the controller's own digest. *)

From S2P Require Import Prelude Encoding Params Hashing BurnAccumulator Records Deposits Burns.
From S2P Require Import ElementsState Controller ManifestFile Claims Readers Journal Annex Totality Guest.
From S2P Require Import EthereumInbound InboundProofs Helios HeliosProofs.

Local Open Scope Z_scope.

Definition DEPOSIT_STATEMENT : Z := 1.
Definition HEARTBEAT_STATEMENT : Z := 2.
Definition MAX_MANIFEST_BYTES : Z := 4 * 1024.
Definition MAX_CLAIM_BYTES : Z := 128 * 1024.
Definition MAX_VAULT_WITNESS_BYTES : Z := 4 * 1024 * 1024 + 16 * 1024.

Inductive GuestInputError : Type :=
| WrongStatementTag | InputTooLarge | UnexpectedVaultWitness | DecodeRejected | VerificationRejected.

(** The SP1 runtime: the announced length of the next input record, the record
    itself, and the commitment of public values; each may halt the program. *)
Class Sp1Io : Type := {
  IoState : Type;
  syscall_hint_len : IoState -> res unit (Z * IoState);
  read_vec : IoState -> res unit (bytes * IoState);
  commit_slice : bytes -> IoState -> res unit IoState
}.

Section guest_program.
Context {W : PtrWidth} {H : Sha256} {KC : Keccak256} {T : AlloyTrie} {HT : HeliosTypes} {HE : Helios} {CB : Cbor}.

Definition blen (bs : bytes) : Z := Z.of_nat (length bs).

Definition check_records (manifest_bytes claim_bytes finality_bytes vault_witness_bytes : bytes)
    : res GuestInputError unit :=
  fail_if ((length manifest_bytes =? 0)%nat || (MAX_MANIFEST_BYTES <? blen manifest_bytes)
           || (length claim_bytes =? 0)%nat || (MAX_CLAIM_BYTES <? blen claim_bytes)
           || (length finality_bytes =? 0)%nat || (MAX_FINALITY_WITNESS_BYTES <? blen finality_bytes)
           || (MAX_VAULT_WITNESS_BYTES <? blen vault_witness_bytes)) InputTooLarge.

(** The match on the tag before decoding. *)
Definition check_statement (tag : Z) (vault_witness_bytes : bytes) : res GuestInputError unit :=
  if (tag =? DEPOSIT_STATEMENT) && (length vault_witness_bytes =? 0)%nat then Err DecodeRejected
  else if (tag =? HEARTBEAT_STATEMENT) && negb (length vault_witness_bytes =? 0)%nat then Err UnexpectedVaultWitness
  else if (tag =? DEPOSIT_STATEMENT) || (tag =? HEARTBEAT_STATEMENT) then Ok tt
  else Err WrongStatementTag.

Definition deposit_journal (manifest : ProtocolManifest) (finality : SepoliaFinalityProof)
    (claim_bytes vault_witness_bytes : bytes) : res GuestInputError StrictJournal :=
  claim ← map_err (fun _ => DecodeRejected) (decode_exact (A:=EthereumDepositClaim) claim_bytes);
  vault_storage ← map_err (fun _ => DecodeRejected) (decode_exact (A:=VaultStorageWitness) vault_witness_bytes);
  map_err (fun _ => VerificationRejected)
    (build_deposit_journal manifest claim (InboundDeposit finality vault_storage)).
Definition heartbeat_journal (manifest : ProtocolManifest) (finality : SepoliaFinalityProof)
    (claim_bytes : bytes) : res GuestInputError StrictJournal :=
  claim ← map_err (fun _ => DecodeRejected) (decode_exact (A:=EthereumHeartbeatClaim) claim_bytes);
  map_err (fun _ => VerificationRejected) (build_heartbeat_journal manifest claim (InboundHeartbeat finality)).

Definition execute_guest_input (statement_tag manifest_bytes claim_bytes finality_bytes vault_witness_bytes : bytes)
    : res GuestInputError bytes :=
  fail_if (negb (length statement_tag =? 1)%nat) WrongStatementTag;;
  check_records manifest_bytes claim_bytes finality_bytes vault_witness_bytes;;
  tag_byte ← expect (statement_tag !! 0%nat);
  let tag := byte_val tag_byte in
  check_statement tag vault_witness_bytes;;
  manifest ← map_err (fun _ => DecodeRejected) (decode_exact (A:=ProtocolManifest) manifest_bytes);
  finality ← map_err (fun _ => DecodeRejected) (decode_canonical finality_bytes);
  journal ← (if tag =? DEPOSIT_STATEMENT then deposit_journal manifest finality claim_bytes vault_witness_bytes
             else if tag =? HEARTBEAT_STATEMENT then heartbeat_journal manifest finality claim_bytes
             else Panic);
  expect (encode journal).

Context {IO : Sp1Io}.

(** The two assertions are panics. *)
Definition read_bounded (maximum : Z) (io : IoState) : res unit (bytes * IoState) :=
  '(announced, io) ← syscall_hint_len io;
  (if announced <=? maximum then Ok tt else Panic);;
  '(bs, io) ← read_vec io;
  (if blen bs =? announced then Ok tt else Panic);;
  Ok (bs, io).

Definition guest_main (io : IoState) : res unit IoState :=
  '(statement_tag, io) ← read_bounded 1 io;
  '(manifest, io) ← read_bounded MAX_MANIFEST_BYTES io;
  '(claim, io) ← read_bounded MAX_CLAIM_BYTES io;
  '(finality, io) ← read_bounded MAX_FINALITY_WITNESS_BYTES io;
  '(vault_witness, io) ← read_bounded MAX_VAULT_WITNESS_BYTES io;
  match execute_guest_input statement_tag manifest claim finality vault_witness with
  | Ok journal => commit_slice journal io
  | _ => Panic
  end.
End guest_program.

(** ** What the guest accepts *)

Section guest_facts.
Context {W : PtrWidth} (Hwidth : 32 <= Zpos usize_bits).
Context {H : Sha256} {KC : Keccak256} {T : AlloyTrie} {HT : HeliosTypes} {HE : Helios} {CB : Cbor}.

Record records_bounded (mb cb fb vb : bytes) : Prop := {
  rb_manifest : 1 <= blen mb <= 4096;
  rb_claim : 1 <= blen cb <= 131072;
  rb_finality : 1 <= blen fb <= 524288;
  rb_vault : blen vb <= 4210688
}.

Lemma blen_zero bs : (length bs =? 0)%nat = false <-> 1 <= blen bs.
Proof. unfold blen. rewrite Nat.eqb_neq. lia. Qed.

Lemma check_records_Ok mb cb fb vb : check_records mb cb fb vb = Ok tt <-> records_bounded mb cb fb vb.
Proof.
  unfold check_records. rewrite fail_if_Ok, !orb_false_iff, !blen_zero, !Z.ltb_ge.
  change MAX_MANIFEST_BYTES with 4096. change MAX_CLAIM_BYTES with 131072.
  change MAX_FINALITY_WITNESS_BYTES with 524288. change MAX_VAULT_WITNESS_BYTES with 4210688.
  split; [intros H0; constructor; tauto|intros [? ? ? ?]; tauto].
Qed.

(** The two kinds of statement, with the records each is made of. *)
Definition deposit_statement (m : ProtocolManifest) (p : SepoliaFinalityProof) (cb vb : bytes) (j : StrictJournal) : Prop :=
  vb <> [] /\ exists c w, decode_exact (A:=EthereumDepositClaim) cb = Ok c /\ decode_exact (A:=VaultStorageWitness) vb = Ok w /\
    build_deposit_journal m c (InboundDeposit p w) = Ok j.
Definition heartbeat_statement (m : ProtocolManifest) (p : SepoliaFinalityProof) (cb vb : bytes) (j : StrictJournal) : Prop :=
  vb = [] /\ exists c, decode_exact (A:=EthereumHeartbeatClaim) cb = Ok c /\
    build_heartbeat_journal m c (InboundHeartbeat p) = Ok j.

Definition guest_accepts (tag mb cb fb vb out : bytes) : Prop :=
  records_bounded mb cb fb vb /\ exists m p j,
    decode_exact (A:=ProtocolManifest) mb = Ok m /\ decode_canonical fb = Ok p /\ encode j = Some out /\
    ((tag = [x01] /\ deposit_statement m p cb vb j) \/ (tag = [x02] /\ heartbeat_statement m p cb vb j)).


Lemma statement_Ok b vb : check_statement (byte_val b) vb = Ok tt <-> (b = x01 /\ vb <> []) \/ (b = x02 /\ vb = []).
Proof.
  unfold check_statement, DEPOSIT_STATEMENT, HEARTBEAT_STATEMENT.
  destruct (Z.eqb_spec (byte_val b) 1) as [E1|N1]; [apply (byte_val_inj b x01) in E1 as ->|];
    [|destruct (Z.eqb_spec (byte_val b) 2) as [E2|N2]; [apply (byte_val_inj b x02) in E2 as ->|]];
    destruct vb; cbn; naive_solver.
Qed.

Lemma execute_Ok tag mb cb fb vb out :
  execute_guest_input tag mb cb fb vb = Ok out <-> guest_accepts tag mb cb fb vb out.
Proof.
  unfold execute_guest_input, guest_accepts, deposit_journal, heartbeat_journal. cbv zeta. rewrite fail_then, negb_false_iff, Nat.eqb_eq. split.
  - intros (Hl & E). apply res_bind_Ok in E as ([] & Hb%check_records_Ok & E). split; [done|].
    destruct tag as [|b [|]]; try done. cbn [lookup list_lookup expect mbind res_bind] in E.
    apply res_bind_Ok in E as ([] & Hs%statement_Ok & E). apply res_bind_Ok in E as (m & Hm%map_err_Ok & E).
    apply res_bind_Ok in E as (p & Hp%map_err_Ok & E). apply res_bind_Ok in E as (j & Hj & He%expect_Ok).
    exists m, p, j. do 3 (split; [done|]). destruct Hs as [[-> Hv]|[-> Hv]].
    + left. split; [done|]. split; [done|]. change (byte_val x01 =? DEPOSIT_STATEMENT) with true in Hj. cbv iota in Hj. inv_ok. eauto.
    + right. split; [done|]. split; [done|]. change (byte_val x02 =? DEPOSIT_STATEMENT) with false in Hj.
      change (byte_val x02 =? HEARTBEAT_STATEMENT) with true in Hj. cbv iota in Hj. inv_ok. eauto.
  - intros (Hb & m & p & j & Hm & Hp & He & Hst).
    assert (exists b, tag = [b] /\ check_statement (byte_val b) vb = Ok tt) as (b & -> & Hs).
    { destruct Hst as [[-> [Hv _]]|[-> [Hv _]]]; eexists; (split; [reflexivity|]); apply statement_Ok; auto. }
    split; [done|]. rewrite (proj2 (check_records_Ok _ _ _ _) Hb). cbn [lookup list_lookup expect mbind res_bind].
    rewrite Hs, Hm, Hp. cbn [map_err mbind res_bind]. apply res_bind_Ok. exists j. split; [|by apply expect_Ok].
    destruct Hst as [[[= ->] (_ & c & w & Hc & Hw & E)]|[[= ->] (_ & c & Hc & E)]]; cbn [Z.eqb].
    + change (byte_val x01 =? DEPOSIT_STATEMENT) with true. cbv iota. rewrite Hc, Hw. cbn [map_err mbind res_bind]. by rewrite E.
    + change (byte_val x02 =? DEPOSIT_STATEMENT) with false. change (byte_val x02 =? HEARTBEAT_STATEMENT) with true. cbv iota.
      rewrite Hc. cbn [map_err mbind res_bind]. by rewrite E.
Qed.

(** *** The journals it returns *)

Lemma deposit_journal_wf {P : Type} `{EthereumStateProofVerifier P} m c (proof : P) j :
  build_deposit_journal m c proof = Ok j ->
  journal_wf j /\ sj_statement_kind j = EthereumState /\ sj_program_id j = pm_ethereum_guest_program_id m.
Proof.
  unfold build_deposit_journal. intros E. inv_ok.
  match goal with E : StrictJournal_new _ _ _ = Ok _ |- _ => apply StrictJournal_new_Ok in E as (? & ? & ? & _) end. done.
Qed.
Lemma heartbeat_journal_wf {P : Type} `{EthereumStateProofVerifier P} m c (proof : P) j :
  build_heartbeat_journal m c proof = Ok j ->
  journal_wf j /\ sj_statement_kind j = EthereumState /\ sj_program_id j = pm_ethereum_guest_program_id m.
Proof.
  unfold build_heartbeat_journal. intros E. inv_ok.
  match goal with E : StrictJournal_new _ _ _ = Ok _ |- _ => apply StrictJournal_new_Ok in E as (? & ? & ? & _) end. done.
Qed.

Lemma inbound_heartbeat_verified m c proof :
  verify_finalized_heartbeat (EthereumStateProofVerifier:=EthereumInboundVerifier) m c proof = Ok tt <->
  exists fp : SepoliaFinalityProof, proof = InboundHeartbeat fp /\ transition_shape m (hc_prior_state c) (hc_finality c) /\
    mc_finalized_beacon_slot (hc_prior_state c) < fw_finalized_beacon_slot (hc_finality c) /\
    verify_finalized_transition (MkFinalityTransition m (hc_prior_state c) (hc_finality c)) fp = Ok tt.
Proof.
  cbn [verify_finalized_heartbeat EthereumInboundVerifier]. destruct proof as [fp w|fp]; [split; [done|by intros (? & ? & _)]|].
  rewrite map_err_Ok, inbound_heartbeat_Ok. split; [intros Hs; by exists fp|]. by intros (fp' & [= <-] & Hs).
Qed.

(** The journal a guest output is the encoding of, whatever its statement. *)
Definition guest_journal (m : ProtocolManifest) (out : bytes) (j : StrictJournal) : Prop :=
  StrictJournal_decode_strict out = Ok j /\ sj_statement_kind j = EthereumState /\
  sj_program_id j = pm_ethereum_guest_program_id m.

(** The guest returns a journal exactly for records within their bounds that
    are the canonical encodings of a manifest, a light-client witness, a claim
    and (for a deposit only) a vault witness whose statement the builders accept
    with the composed verifier; what it returns is the strict journal of the
    manifest's guest program.  Around it, the program commits exactly those
    bytes, after reading five records of at most the announced bounds. *)
Theorem guest_output_iff {IO : Sp1Io} :
  (forall tag mb cb fb vb out, execute_guest_input tag mb cb fb vb = Ok out <-> guest_accepts tag mb cb fb vb out) /\
  (forall tag mb cb fb vb out, execute_guest_input tag mb cb fb vb = Ok out ->
     exists m j, decode_exact (A:=ProtocolManifest) mb = Ok m /\ guest_journal m out j) /\
  (forall io io', guest_main io = Ok io' <->
     exists tag io1 mb io2 cb io3 fb io4 vb io5 out,
       read_bounded 1 io = Ok (tag, io1) /\ read_bounded MAX_MANIFEST_BYTES io1 = Ok (mb, io2) /\
       read_bounded MAX_CLAIM_BYTES io2 = Ok (cb, io3) /\ read_bounded MAX_FINALITY_WITNESS_BYTES io3 = Ok (fb, io4) /\
       read_bounded MAX_VAULT_WITNESS_BYTES io4 = Ok (vb, io5) /\
       execute_guest_input tag mb cb fb vb = Ok out /\ commit_slice out io5 = Ok io').
Proof.
  split; [|split].
  - intros. apply execute_Ok.
  - intros tag mb cb fb vb out (_ & m & p & j & Hm & _ & He & Hst)%execute_Ok. exists m, j. split; [done|].
    assert (journal_wf j /\ sj_statement_kind j = EthereumState /\ sj_program_id j = pm_ethereum_guest_program_id m) as (Hw & Hk & Hp).
    { destruct Hst as [[_ (_ & c & w & _ & _ & E)]|[_ (_ & c & _ & E)]]; [by eapply deposit_journal_wf|by eapply heartbeat_journal_wf]. }
    split; [by apply decode_strict_Ok|done].
  - intros io io'. unfold guest_main. split.
    + intros E. apply res_bind_Ok in E as ([tag io1] & E1 & E). apply res_bind_Ok in E as ([mb io2] & E2 & E).
      apply res_bind_Ok in E as ([cb io3] & E3 & E). apply res_bind_Ok in E as ([fb io4] & E4 & E).
      apply res_bind_Ok in E as ([vb io5] & E5 & E).
      destruct (execute_guest_input tag mb cb fb vb) as [out| |] eqn:Ex; [|done..].
      exists tag, io1, mb, io2, cb, io3, fb, io4, vb, io5, out. done.
    + intros (tag & io1 & mb & io2 & cb & io3 & fb & io4 & vb & io5 & out & E1 & E2 & E3 & E4 & E5 & Ex & Ec).
      rewrite E1. cbn [mbind res_bind]. rewrite E2. cbn [mbind res_bind]. rewrite E3. cbn [mbind res_bind].
      rewrite E4. cbn [mbind res_bind]. rewrite E5. cbn [mbind res_bind]. by rewrite Ex.
Qed.

(** C3: End to end, a deposit output of the guest mints only finalized deposits:
    its bytes are the strict journal of a public output whose next state is the
    controller's mint of the batch; the light client accepted the finality from
    the prior state's own digest; the vault account with the manifest's code is
    proved under the finalized execution state root; and every minted output's
    identifier is proved in the account's storage at the output's nonce. *)
Theorem guest_mints_finalized_deposits (mb cb fb vb out : bytes) :
  helios_presets ->
  execute_guest_input [x01] mb cb fb vb = Ok out ->
  exists m c p w st o j,
    decode_exact (A:=ProtocolManifest) mb = Ok m /\ decode_exact (A:=EthereumDepositClaim) cb = Ok c /\
    decode_canonical fb = Ok p /\ decode_exact (A:=VaultStorageWitness) vb = Ok w /\
    guest_journal m out j /\ encode o = Some (sj_payload j) /\
    dpo_prior_state o = dc_prior_state c /\
    apply_mint_batch (dpo_prior_state o) (dpo_mint_batch o) (dc_finality c) = Ok (dpo_next_state o) /\
    light_client_accepts m (dpo_prior_state o) p st (dc_finality c) /\
    account_proved (fw_finalized_execution_state_root (dc_finality c)) m (vw_account w) /\
    Forall2 (fun mint proof => stored (va_storage_root (vw_account w)) (mo_nonce mint) (mo_deposit_id mint) proof)
      (mb_outputs (dpo_mint_batch o)) (vw_deposits w).
Proof.
  intros Hp (_ & m & p & j & Hm & Hfp & He & Hst)%execute_Ok.
  destruct Hst as [[_ (_ & c & w & Hc & Hw & E)]|[E _]]; [|done].
  pose proof (deposit_journal_wf _ _ _ _ E) as (Hj & Hk & Hpr). apply build_deposit_Ok in E as (o & payload & Ha & Ho & ->).
  pose proof (dga_verified _ _ _ _ Ha) as (fp & w' & [= <- <-] & [_ _ _ Hfi Hac Hs])%(inbound_deposits_Ok Hwidth).
  apply verifier_Ok in Hfi as [st Hfi]; [|done]. exists m, c, p, w, st, o. eexists.
  do 4 (split; [done|]). split; [split; [by apply decode_strict_Ok|done]|]. split; [exact Ho|].
  rewrite (dga_prior _ _ _ _ Ha). split; [done|]. split; [apply (dga_transition _ _ _ _ Ha)|].
  split; [exact Hfi|]. split; [exact Hac|]. exact (stored_outputs _ _ _ _ (dga_batch _ _ _ _ Ha) Hs).
Qed.

(** End to end, a heartbeat output of the guest moves the controller only to
    finality the light client accepted from the prior state's own digest: its
    bytes are the strict journal of a public output whose next state is the
    controller's heartbeat, strictly later and at an epoch boundary. *)
Theorem guest_heartbeats_finalized (mb cb fb vb out : bytes) :
  helios_presets ->
  execute_guest_input [x02] mb cb fb vb = Ok out ->
  exists m c p st o j,
    decode_exact (A:=ProtocolManifest) mb = Ok m /\ decode_exact (A:=EthereumHeartbeatClaim) cb = Ok c /\
    decode_canonical fb = Ok p /\ vb = [] /\
    guest_journal m out j /\ encode o = Some (sj_payload j) /\
    mc_next_mint_nonce (hpo_next_state o) = mc_next_mint_nonce (hpo_prior_state o) /\
    mc_finalized_beacon_slot (hpo_prior_state o) < mc_finalized_beacon_slot (hpo_next_state o) /\
    mc_finalized_beacon_slot (hpo_next_state o) mod 32 = 0 /\
    apply_heartbeat (hpo_prior_state o) (hc_finality c) = Ok (hpo_next_state o) /\
    light_client_accepts m (hpo_prior_state o) p st (hc_finality c).
Proof.
  intros Hp (_ & m & p & j & Hm & Hfp & He & Hst)%execute_Ok.
  destruct Hst as [[E _]|[_ (Hv & c & Hc & E)]]; [done|].
  pose proof (heartbeat_journal_wf _ _ _ _ E) as (Hj & Hk & Hpr). apply build_heartbeat_Ok in E as (o & payload & Ha & Ho & ->).
  pose proof (hga_verified _ _ _ _ Ha) as (fp & [= <-] & _ & Hlt & Hfi)%inbound_heartbeat_verified.
  apply verifier_Ok in Hfi as [st Hfi]; [|done]. exists m, c, p, st, o. eexists.
  do 4 (split; [done|]). split; [split; [by apply decode_strict_Ok|done]|]. split; [exact Ho|].
  pose proof (hga_transition _ _ _ _ Ha) as Ht. rewrite (hga_prior _ _ _ _ Ha). rewrite Ht. apply apply_heartbeat_Ok in Ht as (_ & _ & _ & _ & _ & ->).
  destruct (lc_derived _ _ _ _ _ Hfi) as (_ & Hmod & _). split; [done|]. split; [exact Hlt|]. split; [exact Hmod|]. split; [done|exact Hfi].
Qed.
End guest_facts.

(** ** A toy guest: the toy light client, a trie that accepts every proof, and a
    CBOR codec that knows one witness *)

Definition open_trie : AlloyTrie := {|
  rlp_trie_account _ _ storage_root _ := arr storage_root;
  rlp_u256 x := arr x;
  Nibbles := Hash32;
  nibbles_unpack h := h;
  verify_proof _ _ _ _ := true
|}.
Definition one_cbor : @Cbor toy_helios_types := {|
  CborDeserializer := bytes;
  cbor_to_vec _ := Some [x01];
  cbor_deserialize visitor bs :=
    let p := sepolia_proof 128 in
    us ← visitor (MkSeqAccess (HT:=toy_helios_types) None (map Some (sp_updates p)));
    Some (MkWireProof (HT:=toy_helios_types) (sp_prior_finalized_header p) (sp_prior_current_sync_committee p)
            (sp_prior_next_sync_committee p) us (sp_finality_update p), drop 1 bs);
  cbor_end rest := (length rest =? 0)%nat
|}.
#[local] Existing Instance toy_helios_types.
#[local] Existing Instance toy_helios.
#[local] Existing Instance tail_sha256.
#[local] Existing Instance open_trie.
#[local] Existing Instance one_cbor.
#[local] Instance wide : PtrWidth := 64%positive.
#[local] Instance tail_keccak : Keccak256 := @sha256 tail_sha256.

Definition sepolia_deposit (offset amount : Z) : VaultDeposit :=
  MkVaultDeposit (pm_ethereum_chain_id sepolia_manifest) (pm_vault sepolia_manifest) (pm_usdt sepolia_manifest)
    (uint_wrap 64 (uval (pm_first_deposit_nonce sepolia_manifest) + offset))
    (array_rep 20 x03) (uint_wrap 64 amount) [x51] (array_rep 32 x04).
Definition sepolia_vault_witness : VaultStorageWitness :=
  MkVaultStorageWitness
    (MkVaultAccountWitness (uint_wrap 64 1) ZERO (array_rep 32 x51) (pm_vault_code_hash sepolia_manifest) [[x01]])
    (repeat (MkDepositStorageProof [[x02]]) 2).
Definition sepolia_id : Hash32 := match ProtocolManifest_manifest_id sepolia_manifest with Ok id => id | _ => ZERO end.
Definition sepolia_deposit_claim : EthereumDepositClaim :=
  MkEthereumDepositClaim sepolia_id sepolia_state sepolia_finality [sepolia_deposit 0 1000000; sepolia_deposit 1 2000000].
Definition sepolia_heartbeat_claim : EthereumHeartbeatClaim :=
  MkEthereumHeartbeatClaim sepolia_id sepolia_state sepolia_finality.
Definition sepolia_manifest_bytes : bytes := default [] (encode sepolia_manifest).
Definition sepolia_claim_bytes : bytes := default [] (encode sepolia_deposit_claim).
Definition sepolia_heartbeat_bytes : bytes := default [] (encode sepolia_heartbeat_claim).
Definition sepolia_vault_bytes : bytes := default [] (encode sepolia_vault_witness).

Lemma sepolia_guest_mints : exists out,
  execute_guest_input [x01] sepolia_manifest_bytes sepolia_claim_bytes [x01] sepolia_vault_bytes = Ok out.
Proof. apply is_ok_true. by vm_compute. Qed.
Lemma sepolia_guest_heartbeat : exists out,
  execute_guest_input [x02] sepolia_manifest_bytes sepolia_heartbeat_bytes [x01] [] = Ok out.
Proof. apply is_ok_true. by vm_compute. Qed.

Example guest_mints_finalized_deposits_witness : exists out m j (o : DepositPublicOutput),
  guest_journal m out j /\ encode o = Some (sj_payload j).
Proof.
  destruct sepolia_guest_mints as [out E]. exists out.
  destruct (@guest_mints_finalized_deposits wide ltac:(done) tail_sha256 tail_keccak open_trie toy_helios_types toy_helios one_cbor
    sepolia_manifest_bytes sepolia_claim_bytes [x01] sepolia_vault_bytes out toy_presets E)
    as (m & c & p & w & st & o & j & _ & _ & _ & _ & Hj & Ho & _). exists m, j, o. exact (conj Hj Ho).
Defined.

Example guest_heartbeats_finalized_witness : exists out m j (o : HeartbeatPublicOutput),
  guest_journal m out j /\ encode o = Some (sj_payload j).
Proof.
  destruct sepolia_guest_heartbeat as [out E]. exists out.
  destruct (@guest_heartbeats_finalized wide tail_sha256 tail_keccak open_trie toy_helios_types toy_helios one_cbor
    sepolia_manifest_bytes sepolia_heartbeat_bytes [x01] [] out toy_presets E)
    as (m & c & p & st & o & j & _ & _ & _ & _ & Hj & Ho & _). exists m, j, o. exact (conj Hj Ho).
Defined.
