(* ===== verification/GuestTotality.v ===== *)
(** The Ethereum state guest does not panic.

    Its inputs are chosen by a prover.  Whatever they are, [execute_guest_input]
    returns journal bytes or an error, as long as the Helios crate itself does not
    panic: no [expect] on an encoding, an index or a re-encoding can fail.  The
    lengths of the encodings are bounded by the predicate [sized]. *)

From S2P Require Import Prelude Encoding Params Hashing BurnAccumulator Records Deposits Burns.
From S2P Require Import ElementsState Controller ManifestFile Claims Readers Journal Annex Totality Guest.
From S2P Require Import EthereumInbound InboundProofs Helios HeliosProofs GuestProgram.

Local Open Scope Z_scope.

(** ** Encodings that exist, with a bound on their length *)

Definition sized (e : option bytes) (n : Z) : Prop := exists p, e = Some p /\ blen p <= n.

Lemma sized_app a b n k : sized a n -> sized b k -> sized (a +++ b) (n + k).
Proof. intros (p & -> & Hp) (q & -> & Hq). exists (p ++ q). split; [done|]. unfold blen in *. rewrite length_app. lia. Qed.
Lemma sized_weaken e n k : sized e n -> n <= k -> sized e k.
Proof. intros (p & -> & Hp) Hk. exists p. split; [done|lia]. Qed.

Lemma sized_array n (a : array n) : sized (encode a) (Z.of_nat n).
Proof. exists (arr a). unfold blen. by rewrite arr_length. Qed.
Lemma sized_u8 (x : u8) : sized (encode x) 1. Proof. by eexists. Qed.
Lemma sized_u16 (x : u16) : sized (encode x) 2. Proof. by eexists. Qed.
Lemma sized_u32 (x : u32) : sized (encode x) 4. Proof. by eexists. Qed.
Lemma sized_u64 (x : u64) : sized (encode x) 8. Proof. by eexists. Qed.
Lemma sized_vec (bs : bytes) n : blen bs <= n -> n < 2 ^ 32 -> sized (encode bs) (4 + n).
Proof.
  intros Hn Hm. eexists. split; [apply vec_encode_Some; split; [unfold blen in Hn; lia|reflexivity]|].
  unfold blen in *. rewrite length_app, length_be_bytes. lia.
Qed.
Lemma sized_count k : (k <= 64)%nat ->
  sized match uint_try 8 (Z.of_nat k) with Some count => encode count | None => None end 1.
Proof. intros Hk. destruct (uint_try 8 _) as [c|] eqn:E; [apply sized_u8|]. apply uint_try_None in E. lia. Qed.
Lemma sized_seq {A} `{CanonicalEncode A} (xs : list A) n :
  Forall (fun x => sized (encode x) n) xs -> sized (encode_seq xs) (n * Z.of_nat (length xs)).
Proof.
  induction 1 as [|x xs Hx _ IH]; cbn [encode_seq length]; [exists []; unfold blen; cbn; split; [done|lia]|].
  eapply sized_weaken; [by apply sized_app|]. lia.
Qed.

Create HintDb sized.
#[export] Hint Resolve sized_u8 sized_u16 sized_u32 sized_u64 sized_array : sized.
Ltac size_each :=
  lazymatch goal with
  | |- sized (_ +++ _) _ => eapply sized_app; size_each
  | _ => eauto with sized
  end.

Lemma MintOutput_sized o : script_ok (mo_elements_script o) -> sized (encode o) 200.
Proof.
  intros [_ Hs]. unfold_encode MintOutput_encode. unfold encode_header.
  eapply sized_weaken; [size_each; apply (sized_vec _ 128); [unfold blen; lia|lia]|]. lia.
Qed.

Lemma controller_sized (s : MintControllerState) : sized (encode s) 164.
Proof. unfold_encode MintControllerState_encode. eapply sized_weaken; [size_each|]. lia. Qed.

Lemma batch_sized b : (length (mb_outputs b) <= 64)%nat -> Forall (fun o => script_ok (mo_elements_script o)) (mb_outputs b) ->
  sized (encode b) 20000.
Proof.
  intros Hl Ho. unfold_encode MintBatch_encode. unfold encode_header.
  eapply sized_weaken; [size_each; [by apply sized_count|apply (sized_seq _ 200)]|]; [|lia].
  eapply Forall_impl; [exact Ho|]. intros o. apply MintOutput_sized.
Qed.
Lemma MintBatch_sized b : MintBatch_wf b -> sized (encode b) 20000.
Proof.
  intros [[_ Hl] _ Ho _ _ _]. apply batch_sized; [done|]. apply Forall_lookup. intros i o Hi. by destruct (Ho i o Hi) as [[] _].
Qed.

Lemma deposit_output_sized o : MintBatch_wf (dpo_mint_batch o) -> sized (encode o) 30000.
Proof.
  intros Hb. unfold_encode DepositPublicOutput_encode. unfold proof_encode_header.
  eapply sized_weaken; [size_each; [apply controller_sized..|by apply MintBatch_sized]|]. lia.
Qed.
Lemma heartbeat_output_sized (o : HeartbeatPublicOutput) : sized (encode o) 30000.
Proof.
  unfold_encode HeartbeatPublicOutput_encode. unfold proof_encode_header.
  eapply sized_weaken; [size_each; apply controller_sized|]. lia.
Qed.

Lemma journal_sized j : blen (sj_payload j) <= 30000 -> exists out, encode j = Some out.
Proof.
  intros Hp. assert (sized (encode j) 40000) as (p & -> & _); [|by eexists]. unfold_encode StrictJournal_encode.
  eapply sized_weaken; [size_each; [apply sized_array..|by apply (sized_vec _ 30000)]|]. lia.
Qed.

(** ** No step panics *)

Section guest_never.
Context {W : PtrWidth} (Hwidth : 32 <= Zpos usize_bits) {H : Sha256}.

Lemma calm_node_loop n : forall total, calm (decode_node_loop n total).
Proof.
  induction n as [|n IH]; intros total; [done|]. cbn [decode_node_loop]. repeat calm_step.
  by destruct (usize_checked_add total (uval a)).
Qed.
Lemma calm_nodes total : calm (decode_nodes total).
Proof. unfold decode_nodes. repeat calm_step. apply calm_node_loop. Qed.
Lemma calm_deposits n : forall total, calm (decode_deposit_loop n total).
Proof.
  induction n as [|n IH]; intros total; [done|]. cbn [decode_deposit_loop].
  apply calm_bind; [apply calm_nodes|]. intros r. apply calm_bind; [apply IH|done].
Qed.
Lemma validate_nodes_never ns : never (validate_nodes ns).
Proof. unfold validate_nodes, validate_node. never_guards. Qed.
Lemma validate_limits_never w : never (validate_limits w).
Proof. unfold validate_limits, validate_storage. never_guards; apply never_errs, validate_nodes_never. Qed.
#[export] Instance VaultStorageWitness_calm : NoPanic VaultStorageWitness.
Proof.
  change (calm VaultStorageWitness_decode). unfold VaultStorageWitness_decode, decode_witness_header.
  repeat (calm_step || apply calm_nodes || apply calm_deposits). apply never_map_err, validate_limits_never.
Qed.

Lemma manifest_id_never m mb : encode m = Some mb -> blen mb < 2 ^ 32 -> never (ProtocolManifest_manifest_id m).
Proof.
  intros He Hl. unfold ProtocolManifest_manifest_id. rewrite He. apply never_bind; [apply manifest_never|]. intros _ _.
  cbn [expect mbind res_bind]. by destruct (domain_hash_total Manifest mb Hl) as [h ->].
Qed.
Lemma checked_manifest_id_never m mb : encode m = Some mb -> blen mb < 2 ^ 32 -> never (checked_manifest_id m).
Proof.
  intros He Hl. unfold checked_manifest_id, or_fail. apply never_bind; [apply never_map_err, manifest_never|].
  intros _ _. by eapply never_map_err, manifest_id_never.
Qed.

Lemma finality_validate_never f : never (EthereumFinalityWitness_validate f).
Proof. unfold EthereumFinalityWitness_validate. never_guards. Qed.
Lemma finality_advance_never s f : never (validate_finality_advance s f).
Proof. unfold validate_finality_advance. never_guards. Qed.
Lemma mint_never s b f : never (apply_mint_batch s b f).
Proof.
  unfold apply_mint_batch. cbv zeta. never_guards; apply never_errs;
    auto using MintControllerState_never, MintBatch_never, finality_validate_never, finality_advance_never.
Qed.
Lemma heartbeat_never s f : never (apply_heartbeat s f).
Proof.
  unfold apply_heartbeat. cbv zeta. never_guards; apply never_errs;
    auto using MintControllerState_never, finality_validate_never, finality_advance_never.
Qed.

Lemma journal_new_never k program payload : never (StrictJournal_new k program payload).
Proof. unfold StrictJournal_new. never_guards. apply never_errs, typed_decode_never. Qed.

Section builders.
Context {P : Type} `{V : EthereumStateProofVerifier P}.

Lemma build_deposit_never m c proof mb cb :
  encode m = Some mb -> blen mb < 2 ^ 32 -> encode c = Some cb -> blen cb < 2 ^ 32 ->
  never (verify_finalized_deposits m c proof) -> never (build_deposit_journal m c proof).
Proof.
  intros Hm Hml Hc Hcl Hv. unfold build_deposit_journal, deposit_target_step. never_guards.
  - apply never_errs. by eapply checked_manifest_id_never.
  - apply never_errs, never_map_err, MintControllerState_never.
  - apply never_errs, never_map_err, from_deposits_never.
  - apply never_errs, never_map_err, mint_never.
  - by apply never_errs, never_map_err.
  - apply errs_in_expect. unfold EthereumDepositClaim_claim_id. rewrite Hc. cbn [mbind option_bind].
    destruct (domain_hash_total EthereumStateClaimDomain cb Hcl) as [h ->]. by eexists.
  - apply errs_in_expect. match goal with E : or_fail _ (apply_mint_batch _ _ _) = Ok _ |- _ =>
      apply map_err_Ok in E; apply mint_parts in E as (_ & _ & Hb%MintBatch_validate_Ok & _) end.
    match goal with |- is_Some (encode ?o) => destruct (deposit_output_sized o Hb) as (p & -> & _) end. by eexists.
  - apply never_errs, never_map_err, journal_new_never.
Qed.

Lemma build_heartbeat_never m c proof mb cb :
  encode m = Some mb -> blen mb < 2 ^ 32 -> encode c = Some cb -> blen cb < 2 ^ 32 ->
  never (verify_finalized_heartbeat m c proof) -> never (build_heartbeat_journal m c proof).
Proof.
  intros Hm Hml Hc Hcl Hv. unfold build_heartbeat_journal. never_guards.
  - apply never_errs. by eapply checked_manifest_id_never.
  - apply never_errs, never_map_err, heartbeat_never.
  - by apply never_errs, never_map_err.
  - apply errs_in_expect. unfold EthereumHeartbeatClaim_claim_id. rewrite Hc. cbn [mbind option_bind].
    destruct (domain_hash_total EthereumStateClaimDomain cb Hcl) as [h ->]. by eexists.
  - apply never_errs, never_map_err, journal_new_never.
Qed.
End builders.

(** *** The Elements builder *)

Lemma successor_never s next : never (ElementsState_validate_successor s next).
Proof. unfold ElementsState_validate_successor. never_guards; apply never_errs, ElementsState_never. Qed.
Lemma append_step_never m count leaf offset a root : never (append_burn_step m count leaf offset a root).
Proof.
  unfold append_burn_step, Burn_validate, SolidityBurnClaim_burn_leaf, SolidityBurnClaim_validate. never_guards;
    apply never_errs, never_map_err; never_guards.
Qed.
Lemma elements_state_sized (s : SolidityElementsBridgeState) : sized (encode s) 1000.
Proof. rewrite ElementsState_encode_fields. unfold encode_header. eapply sized_weaken; [size_each|]. lia. Qed.
Lemma elements_output_sized (o : ElementsStatePublicOutput) : sized (encode o) 30000.
Proof.
  unfold_encode ElementsStatePublicOutput_encode. unfold proof_encode_header.
  eapply sized_weaken; [size_each; apply elements_state_sized|]. lia.
Qed.

Lemma build_elements_never {P : Type} `{V : ElementsValidityProofVerifier P} m c (proof : P) mb cb :
  encode m = Some mb -> blen mb < 2 ^ 32 -> encode c = Some cb -> blen cb < 2 ^ 32 ->
  never (verify_elements_state_transition m c proof) -> never (build_elements_state_journal m c proof).
Proof.
  intros Hm Hml Hc Hcl Hv. unfold build_elements_state_journal. cbv zeta. never_guards.
  - apply never_errs. by eapply checked_manifest_id_never.
  - apply never_errs, never_map_err, successor_never.
  - case_match; [|done]. by apply never_errs, never_map_err.
  - apply never_errs, append_step_never.
  - by apply never_errs, never_map_err.
  - apply errs_in_expect. unfold ElementsStateTransitionClaim_claim_id. rewrite Hc. cbn [mbind option_bind].
    destruct (domain_hash_total ElementsEventClaimDomain cb Hcl) as [h ->]. by eexists.
  - apply never_errs, never_map_err, journal_new_never.
Qed.

(** The Elements statement is total on what its program reads: over a decoded
    manifest and a decoded claim of less than 2^32 bytes each, the builder returns
    an error or a journal whose encoding exists, whatever proof comes with it, if
    the consensus verifier returns. *)
Theorem elements_builder_never_panics {P : Type} `{V : ElementsValidityProofVerifier P}
    (mb cb : bytes) (m : ProtocolManifest) (c : ElementsStateTransitionClaim) (proof : P) :
  decode_exact mb = Ok m -> blen mb < 2 ^ 32 -> decode_exact cb = Ok c -> blen cb < 2 ^ 32 ->
  never (verify_elements_state_transition m c proof) ->
  build_elements_state_journal m c proof <> Panic /\
  (forall j, build_elements_state_journal m c proof = Ok j -> exists out, encode j = Some out).
Proof.
  intros [_ Hm]%(decode_exact_spec (A:=ProtocolManifest)) Hml [_ Hc]%(decode_exact_spec (A:=ElementsStateTransitionClaim)) Hcl Hv.
  split; [by apply (build_elements_never m c proof mb cb)|].
  intros j (o & payload & _ & Ho & ->)%build_elements_Ok. apply journal_sized. cbn [journal_with sj_payload].
  destruct (elements_output_sized (elements_output m (tc_manifest_id c) o c)) as (q & Hq & Hl). congruence.
Qed.

(** *** The composed verifier *)

Context {KC : Keccak256} {T : AlloyTrie} {HT : HeliosTypes} {HE : Helios} {CB : Cbor}.

Lemma transition_shape_never m s f : never (validate_transition_shape m s f).
Proof.
  unfold validate_transition_shape. never_guards; apply never_errs, never_map_err;
    auto using manifest_never, MintControllerState_never, finality_validate_never.
Qed.
Lemma deposit_batch_never m s ds : never (validate_deposit_batch m s ds).
Proof.
  unfold validate_deposit_batch, deposit_check, VaultDeposit_validate. never_guards; apply never_errs, never_map_err;
    [never_guards|apply from_deposits_never].
Qed.

Lemma inbound_deposits_never m c (proof : EthereumInboundProof SepoliaFinalityProof) :
  helios_presets -> helios_calm -> never (verify_finalized_deposits (EthereumStateProofVerifier:=EthereumInboundVerifier) m c proof).
Proof.
  intros Hp Hc. cbn [verify_finalized_deposits EthereumInboundVerifier]. destruct proof as [fp w|fp]; [|done].
  apply never_bind; [apply never_map_err|done]. unfold verify_finalized_deposit_batch, verify_vault_account, deposit_step.
  never_guards; apply never_errs;
    auto using transition_shape_never, deposit_batch_never, validate_limits_never, never_map_err, verifier_never.
  match goal with |- never (let '(_, _) := ?x in _) => destruct x end. never_guards.
Qed.
Lemma inbound_heartbeat_never m c (proof : EthereumInboundProof SepoliaFinalityProof) :
  helios_presets -> helios_calm -> never (verify_finalized_heartbeat (EthereumStateProofVerifier:=EthereumInboundVerifier) m c proof).
Proof.
  intros Hp Hc. cbn [verify_finalized_heartbeat EthereumInboundVerifier]. destruct proof as [fp w|fp]; [done|].
  apply never_map_err. unfold inbound_verify_finalized_heartbeat. never_guards; apply never_errs;
    auto using transition_shape_never, never_map_err, verifier_never.
Qed.

(** *** The guest *)

Lemma decoded_manifest mb m : decode_exact (A:=ProtocolManifest) mb = Ok m -> encode m = Some mb.
Proof. by intros [_ He]%(decode_exact_spec (A:=ProtocolManifest)). Qed.

Lemma deposit_payload_small m c (proof : EthereumInboundProof SepoliaFinalityProof) j :
  build_deposit_journal m c proof = Ok j -> blen (sj_payload j) <= 30000.
Proof.
  intros (o & payload & Ha & Ho & ->)%build_deposit_Ok. cbn [journal_with sj_payload].
  pose proof (dga_transition _ _ _ _ Ha) as (_ & _ & Hb%MintBatch_validate_Ok & _)%mint_parts.
  destruct (deposit_output_sized o Hb) as (q & Hq & Hl). congruence.
Qed.
Lemma heartbeat_payload_small m c (proof : EthereumInboundProof SepoliaFinalityProof) j :
  build_heartbeat_journal m c proof = Ok j -> blen (sj_payload j) <= 30000.
Proof.
  intros (o & payload & _ & Ho & ->)%build_heartbeat_Ok. cbn [journal_with sj_payload].
  destruct (heartbeat_output_sized o) as (q & Hq & Hl). congruence.
Qed.

(** C29: Whatever a prover supplies, the guest returns: on any five records it
    yields journal bytes or an error, never a panic, as long as the Helios
    verification functions do not panic and the presets are the main-net ones
    (so neither an encoding, a length, an index nor the epoch division fails). *)
Theorem guest_never_panics (tag mb cb fb vb : bytes) :
  helios_presets -> helios_calm -> execute_guest_input tag mb cb fb vb <> Panic.
Proof.
  intros Hp Hc. fold (never (execute_guest_input tag mb cb fb vb)). unfold execute_guest_input, check_records. cbv zeta.
  apply never_bind; [apply never_fail_if|]. intros _ Ht%fail_if_Ok. apply never_bind; [apply never_fail_if|]. intros [] Hr.
  apply check_records_Ok in Hr as [Hmb Hcb _ _].
  destruct tag as [|b [|]]; try done. cbn [lookup list_lookup expect mbind res_bind].
  apply never_bind; [unfold check_statement; by repeat case_match|]. intros [] Hst%statement_Ok.
  apply never_bind; [apply never_map_err, decode_exact_never|]. intros m Hm%map_err_Ok%decoded_manifest.
  apply never_bind; [apply never_map_err, decode_canonical_never|]. intros p _.
  destruct Hst as [[-> Hv]|[-> ->]].
  - change (byte_val x01 =? DEPOSIT_STATEMENT) with true. cbv iota. unfold deposit_journal.
    apply never_bind; [|intros j Hj; inv_ok; match goal with E : build_deposit_journal _ _ _ = Ok _ |- _ =>
      apply deposit_payload_small, journal_sized in E as [out ->]; done end].
    apply never_bind; [apply never_map_err, decode_exact_never|]. intros c Hcl%map_err_Ok.
    apply (decode_exact_spec (A:=EthereumDepositClaim)) in Hcl as [_ Hce].
    apply never_bind; [apply never_map_err, decode_exact_never|]. intros w _.
    apply never_map_err, (build_deposit_never _ _ _ mb cb); try done; [lia..|]. by apply inbound_deposits_never.
  - change (byte_val x02 =? DEPOSIT_STATEMENT) with false. change (byte_val x02 =? HEARTBEAT_STATEMENT) with true. cbv iota.
    unfold heartbeat_journal.
    apply never_bind; [|intros j Hj; inv_ok; match goal with E : build_heartbeat_journal _ _ _ = Ok _ |- _ =>
      apply heartbeat_payload_small, journal_sized in E as [out ->]; done end].
    apply never_bind; [apply never_map_err, decode_exact_never|]. intros c Hcl%map_err_Ok.
    apply (decode_exact_spec (A:=EthereumHeartbeatClaim)) in Hcl as [_ Hce].
    apply never_map_err, (build_heartbeat_never _ _ _ mb cb); try done; [lia..|]. by apply inbound_heartbeat_never.
Qed.
End guest_never.

Example guest_never_panics_witness :
  @execute_guest_input 64%positive tail_sha256 (@sha256 tail_sha256) open_trie toy_helios_types toy_helios one_cbor
    [x01] sepolia_manifest_bytes [x00] [x01] [x02] <> Panic.
Proof.
  apply (@guest_never_panics 64%positive tail_sha256 (@sha256 tail_sha256) open_trie toy_helios_types toy_helios
    one_cbor).
  - exact toy_presets.
  - split; done.
Defined.
