(* ===== verification/InboundStack.v ===== *)
(** The inbound path as one system: from the bytes of a proof annex to a mint.

    An annex is opened by [verify_strict_journal] (usdd-proof-core/src/annex.rs)
    and its proof checked by [verify_raw_compressed_sha256]
    (usdd-sp1-verifier/src/lib.rs); the public values of an accepted one are the
    output of the Ethereum guest (guests/ethereum-state), whose statement moves the
    mint controller (usdd-core/src/types.rs).  The theorem composes all of them:
    whatever annexes a chain of controller states accepts, every mint on it is
    a deposit held by the manifest's vault, minted once.

    That a verified proof shows a run of its program is SP1's own promise, the
    hypothesis [sp1_sound]. *)

From S2P Require Import Prelude Encoding Params Hashing BurnAccumulator Records Deposits Burns.
From S2P Require Import ElementsState Controller ManifestFile Claims Readers Journal Annex Totality Guest Sp1Verifier.
From S2P Require Import EthereumInbound InboundProofs Helios HeliosProofs GuestProgram.

Local Open Scope Z_scope.

Section stack.
Context {W : PtrWidth} (Hwidth : 32 <= Zpos usize_bits).
Context {H : Sha256} {KC : Keccak256} {T : AlloyTrie} {HT : HeliosTypes} {HE : Helios} {CB : Cbor} {V : Sp1}.

(** ** Runs of the guest *)

Definition guest_run (mb out : bytes) : Prop :=
  exists tag cb fb vb, execute_guest_input tag mb cb fb vb = Ok out.

(** SP1's soundness for one program, at the key that spells its identifier: a
    compressed proof that the verifier accepts commits to the SHA-256 digest of
    the output of a run. *)
Definition sp1_sound (program : Hash32) : Prop :=
  forall raw_proof digest vkey, (exists ws, key_words vkey program ws) -> proof_shows raw_proof digest vkey ->
    exists mb out, guest_run mb out /\ hash_bytes out = digest.

(** ** Minted outputs the vault backs *)

(** The output pays a deposit of the manifest's vault, whose identifier is in the
    vault's storage at its nonce, under a state root that the light client
    finalized from a controller state. *)
Record backing (m : ProtocolManifest) (mint : MintOutput) (d : VaultDeposit) (f : EthereumFinalityWitness)
    (a : VaultAccountWitness) : Prop := {
  bk_output : mint = output_of d;
  bk_wf : VaultDeposit_wf d;
  bk_target : deposit_targets m d;
  bk_finalized : exists s p st, light_client_accepts m s p st f;
  bk_account : account_proved (fw_finalized_execution_state_root f) m a;
  bk_stored : exists proof, stored (va_storage_root a) (vd_nonce d) (VaultDeposit_deposit_id d) proof
}.
Definition backed (m : ProtocolManifest) (mint : MintOutput) : Prop := exists d f a, backing m mint d f a.

(** The outputs of a batch are the deposits', in order. *)
Lemma batch_outputs ds b : MintBatch_from_deposits ds = Ok b ->
  mb_outputs b = map output_of ds /\ Forall VaultDeposit_wf ds.
Proof.
  destruct ds as [|d ds]; [done|]. intros [Hd ->]%from_deposits_Ok. split; [done|].
  apply Forall_lookup. intros i x Hx. by apply (dok_each _ _ Hd i x Hx).
Qed.

Lemma deposit_accepted_backed m c p w o : helios_presets ->
  deposit_accepted (V:=EthereumInboundVerifier) m c (InboundDeposit p w) o ->
  Forall (backed m) (mb_outputs (dpo_mint_batch o)).
Proof.
  intros Hp Ha. pose proof (dga_verified _ _ _ _ Ha) as (fp & w' & [= <- <-] & [_ _ _ Hfi Hac Hs])%(inbound_deposits_Ok Hwidth).
  apply verifier_Ok in Hfi as [st Hfi]; [|done]. destruct (batch_outputs _ _ (dga_batch _ _ _ _ Ha)) as [-> Hw].
  pose proof (dga_target _ _ _ _ Ha) as Ht. apply Forall_lookup. intros i mint Hi.
  change (map ?f ?l) with (f <$> l) in Hi. apply list_lookup_fmap_Some in Hi as (d & -> & Hd).
  destruct (Forall2_lookup_l _ _ _ _ _ Hs Hd) as (proof & _ & Hst).
  exists d, (dc_finality c), (vw_account w). constructor; [done|by eapply Forall_lookup_1|by eapply Forall_lookup_1| |done|eauto].
  by exists (dc_prior_state c), p, st.
Qed.

(** ** What the output of a run is *)

(** The controller's move that a typed journal stands for. *)
Definition moves (m : ProtocolManifest) (t : TypedPublicValues) : Prop :=
  match t with
  | TypedDeposit o =>
      exists f, apply_mint_batch (dpo_prior_state o) (dpo_mint_batch o) f = Ok (dpo_next_state o) /\
        Forall (backed m) (mb_outputs (dpo_mint_batch o))
  | TypedHeartbeat o => exists f, apply_heartbeat (hpo_prior_state o) f = Ok (hpo_next_state o)
  | TypedElementsState _ => False
  end.
Definition typed_manifest_id (t : TypedPublicValues) : Hash32 :=
  match t with
  | TypedDeposit o => dpo_manifest_id o
  | TypedHeartbeat o => hpo_manifest_id o
  | TypedElementsState o => epo_manifest_id o
  end.

Lemma payload_unique k payload t t' : payload_of k payload t -> payload_of k payload t' -> t = t'.
Proof. rewrite <- !typed_decode_Ok. congruence. Qed.
Lemma decode_strict_unique out j j' : journal_wf j -> encode j = Some out -> journal_wf j' -> encode j' = Some out -> j = j'.
Proof.
  intros Hw He Hw' He'. pose proof (proj2 (decode_strict_Ok out j) (conj Hw He)).
  pose proof (proj2 (decode_strict_Ok out j') (conj Hw' He')). congruence.
Qed.

Lemma deposit_moves m c p w j t : helios_presets ->
  build_deposit_journal m c (InboundDeposit p w) = Ok j -> payload_of EthereumState (sj_payload j) t ->
  ProtocolManifest_manifest_id m = Ok (typed_manifest_id t) /\ moves m t.
Proof.
  intros Hp (o & payload & Ha & Ho & ->)%build_deposit_Ok Ht. cbn [journal_with sj_payload] in Ht.
  pose proof (dga_transition _ _ _ _ Ha) as Hm. destruct (mint_parts _ _ _ _ Hm) as (V1 & V2 & V3 & _).
  rewrite <- (dga_prior _ _ _ _ Ha) in V1, Hm.
  assert (t = TypedDeposit o) as ->.
  { eapply payload_unique; [exact Ht|]. split; [|done]. apply (deposit_payload o payload V1 V2 V3 Ho). by exists t. }
  cbn [typed_manifest_id moves]. rewrite (dga_manifest_out _ _ _ _ Ha). split; [apply (dga_manifest _ _ _ _ Ha)|].
  exists (dc_finality c). split; [exact Hm|by eapply deposit_accepted_backed].
Qed.

Lemma heartbeat_moves m c p j t :
  build_heartbeat_journal m c (InboundHeartbeat p) = Ok j -> payload_of EthereumState (sj_payload j) t ->
  ProtocolManifest_manifest_id m = Ok (typed_manifest_id t) /\ moves m t.
Proof.
  intros (o & payload & Ha & Ho & ->)%build_heartbeat_Ok Ht. cbn [journal_with sj_payload] in Ht.
  pose proof (hga_transition _ _ _ _ Ha) as Hm. destruct (heartbeat_parts _ _ _ Hm) as (V1 & V2).
  rewrite <- (hga_prior _ _ _ _ Ha) in V1, Hm.
  assert (t = TypedHeartbeat o) as ->.
  { eapply payload_unique; [exact Ht|]. split; [|done]. apply (heartbeat_payload o payload V1 V2 Ho). by exists t. }
  cbn [typed_manifest_id moves]. rewrite (hga_manifest_out _ _ _ _ Ha). split; [apply (hga_manifest _ _ _ _ Ha)|by exists (hc_finality c)].
Qed.

Lemma run_moves mb out j t : helios_presets -> guest_run mb out ->
  StrictJournal_decode_strict out = Ok j -> TypedPublicValues_decode EthereumState (sj_payload j) = Ok t ->
  exists m, encode m = Some mb /\ ProtocolManifest_manifest_id m = Ok (typed_manifest_id t) /\ moves m t.
Proof.
  intros Hp (tag & cb & fb & vb & (_ & m & p & j' & Hm & _ & He & Hst)%execute_Ok) [Hw Hj]%decode_strict_Ok Ht.
  apply (decode_exact_spec (A:=ProtocolManifest)) in Hm as [_ Hm]. apply typed_decode_Ok in Ht. exists m. split; [done|].
  destruct Hst as [[_ (_ & c & w & _ & _ & E)]|[_ (_ & c & _ & E)]].
  - destruct (deposit_journal_wf _ _ _ _ E) as (Hw' & _). rewrite <- (decode_strict_unique out j' j) in Ht by done.
    by eapply deposit_moves.
  - destruct (heartbeat_journal_wf _ _ _ _ E) as (Hw' & _). rewrite <- (decode_strict_unique out j' j) in Ht by done.
    by eapply heartbeat_moves.
Qed.

(** ** Chains of accepted annexes *)

(** An annex that both verifiers accept for the program, with what its journal says. *)
Definition annex_shows (program : Hash32) (vkey annex values : bytes) (t : TypedPublicValues) : Prop :=
  exists a j, verify_strict_journal annex program EthereumState = Ok (a, j) /\ values = an_public_values a /\
    verify_raw_compressed_sha256 (an_proof a) (an_public_values a) vkey program EthereumState = Ok j /\
    TypedPublicValues_decode EthereumState (sj_payload j) = Ok t.

(** The states a consumer pinned to the manifest goes through: it takes an annex
    for the manifest's guest, of the manifest's identifier, from its own state. *)
Inductive inbound_chain (m : ProtocolManifest) (id : Hash32) (vkey : bytes) (s : MintControllerState) :
    list bytes -> list MintOutput -> MintControllerState -> Prop :=
| chain_nil : inbound_chain m id vkey s [] [] s
| chain_deposit shown outs annex values o :
    inbound_chain m id vkey s shown outs (dpo_prior_state o) ->
    annex_shows (pm_ethereum_guest_program_id m) vkey annex values (TypedDeposit o) -> dpo_manifest_id o = id ->
    inbound_chain m id vkey s (shown ++ [values]) (outs ++ mb_outputs (dpo_mint_batch o)) (dpo_next_state o)
| chain_heartbeat shown outs annex values o :
    inbound_chain m id vkey s shown outs (hpo_prior_state o) ->
    annex_shows (pm_ethereum_guest_program_id m) vkey annex values (TypedHeartbeat o) -> hpo_manifest_id o = id ->
    inbound_chain m id vkey s (shown ++ [values]) outs (hpo_next_state o).

(** Two byte strings with one digest: public values and the output of a run, or
    the manifests hashed by a consumer and by a run. *)
Definition stack_collision (m : ProtocolManifest) (values : bytes) : Prop :=
  exists mb out, guest_run mb out /\
    (collision out values \/ exists x y, domain_preimage Manifest mb = Some x /\
       (bs ← encode m; domain_preimage Manifest bs) = Some y /\ collision x y).

Lemma annex_moves m id vkey annex values t : helios_presets -> sp1_sound (pm_ethereum_guest_program_id m) ->
  ProtocolManifest_manifest_id m = Ok id ->
  annex_shows (pm_ethereum_guest_program_id m) vkey annex values t -> typed_manifest_id t = id ->
  moves m t \/ stack_collision m values.
Proof.
  intros Hp Hsound Hid (a & j & _ & -> & Hr & Ht) Hti. set (values := an_public_values a) in *.
  apply verify_raw_Ok, (verify_inner_Ok Hwidth) in Hr as (_ & _ & _ & Hk & Hj & Hs).
  apply verify_expected_Ok in Hj as (Hw & He & _).
  destruct (Hsound _ _ _ Hk Hs) as (mb & out & Hrun & Hd). unfold hash_bytes in Hd.
  destruct (decide (out = values)) as [->|Hne]; [|right; exists mb, out; split; [done|left; by split]].
  destruct (run_moves mb values j t Hp Hrun) as (n & Hn & Hin & Hmv); [by apply decode_strict_Ok|done|].
  rewrite Hti in Hin. destruct (proj2 manifest_canonical n m id Hin Hid) as [->|(x & y & Hx & Hy & Hc)]; [by left|].
  right. exists mb, values. split; [done|]. right. exists x, y. rewrite Hn in Hx. done.
Qed.

Lemma controller_run_snoc s es s1 e s2 :
  controller_run s es = Ok s1 -> controller_step s1 e = Ok s2 -> controller_run s (es ++ [e]) = Ok s2.
Proof.
  revert s. induction es as [|x es IH]; intros s; cbn [controller_run app].
  - intros [= ->] He. by rewrite He.
  - intros (t & Ht & Hr)%res_bind_Ok He. apply res_bind_Ok. exists t. auto.
Qed.
Lemma minted_app es e : minted (es ++ [e]) = minted es ++ minted [e].
Proof. apply flat_map_app. Qed.

Lemma chain_run m id vkey s shown outs s' : helios_presets -> sp1_sound (pm_ethereum_guest_program_id m) ->
  ProtocolManifest_manifest_id m = Ok id -> inbound_chain m id vkey s shown outs s' ->
  (exists es, controller_run s es = Ok s' /\ minted es = outs /\ Forall (backed m) outs) \/
  Exists (stack_collision m) shown.
Proof.
  intros Hp Hs Hid. induction 1 as [|shown outs annex values o Hc IH Ha Ho|shown outs annex values o Hc IH Ha Ho];
    [by left; exists []| |].
  - rewrite Exists_app, Exists_cons. destruct IH as [(es & Hr & Hm & Hb)|]; [|auto].
    destruct (annex_moves m id vkey annex values _ Hp Hs Hid Ha Ho) as [(f & Hf & Hnew)|]; [left|auto].
    exists (es ++ [Mint (dpo_mint_batch o) f]). split; [by eapply controller_run_snoc|]. split; [|by apply Forall_app].
    rewrite minted_app, Hm. cbn [minted flat_map]. by rewrite app_nil_r.
  - rewrite Exists_app, Exists_cons. destruct IH as [(es & Hr & Hm & Hb)|]; [|auto].
    destruct (annex_moves m id vkey annex values _ Hp Hs Hid Ha Ho) as [(f & Hf)|]; [left|auto].
    exists (es ++ [Heartbeat f]). split; [by eapply controller_run_snoc|]. split; [|done].
    rewrite minted_app, Hm. cbn [minted flat_map]. by rewrite !app_nil_r.
Qed.

(** C1: No unbacked mint: along any chain of annexes that the annex and proof
    verifiers accept for a manifest, each from the state the last one left, every
    minted output pays a deposit of the manifest's own vault that is proved in the
    vault's storage under finalized state, the outputs carry each deposit nonce
    once and in order, and the total grows by one hundred base units per
    micro-USDT deposited; else the public values of some annex, or the manifest
    of the run behind it, collide under SHA-256.  SP1 is trusted only for proofs
    of the manifest's guest. *)
Theorem annexes_mint_vault_deposits (m : ProtocolManifest) (id : Hash32) (vkey : bytes) (s s' : MintControllerState)
    (shown : list bytes) (outs : list MintOutput) :
  helios_presets -> sp1_sound (pm_ethereum_guest_program_id m) -> ProtocolManifest_manifest_id m = Ok id ->
  inbound_chain m id vkey s shown outs s' ->
  (Forall (backed m) outs /\
   (forall i o, outs !! i = Some o -> uval (mo_nonce o) = mc_next_mint_nonce s + Z.of_nat i) /\
   uval (mc_next_mint_nonce s') = mc_next_mint_nonce s + Z.of_nat (length outs) /\
   uval (mc_total_minted_usdd_base s') =
     mc_total_minted_usdd_base s + 100 * sumZ (fun o => mo_usdt_amount_micro o) outs) \/
  Exists (stack_collision m) shown.
Proof.
  intros Hp Hs Hid Hc. destruct (chain_run _ _ _ _ _ _ _ Hp Hs Hid Hc) as [(es & Hr & <- & Hb)|]; [left|by right].
  split; [exact Hb|]. apply controller_run_spec in Hr as (I1 & I2 & I3 & _). done.
Qed.
End stack.

(** ** A chain of one annex

    The toy guest of [GuestProgram] mints two deposits; a toy SP1 accepts only
    the proof of that run. *)

#[local] Existing Instance toy_helios_types.
#[local] Existing Instance toy_helios.
#[local] Existing Instance tail_sha256.
#[local] Existing Instance open_trie.
#[local] Existing Instance one_cbor.
#[local] Existing Instance wide.
#[local] Existing Instance tail_keccak.

Definition minting_output : bytes :=
  match execute_guest_input [x01] sepolia_manifest_bytes sepolia_claim_bytes [x01] sepolia_vault_bytes with
  | Ok out => out
  | _ => []
  end.
Definition minting_proof : bytes := le_bytes 4 1 ++ arr (hash_bytes minting_output).
#[local] Instance one_proof_sp1 : Sp1 := {|
  SP1Proof := bytes; CompressedProof := bytes; SP1Field := u32; CompressedError := unit;
  PROOF_MAX_NUM_PVS := 32;
  bincode_deserialize _ raw := Ok raw;
  bincode_serialize proof := Ok proof;
  as_compressed proof := Some (drop 4 proof);
  recursion_public_values c := map (fun b => uint_wrap 32 (byte_val b)) c;
  committed_value_digest values := [values];
  as_canonical_u32 x := x;
  compressed_verify raw _ := fail_if (negb (bool_decide (raw = minting_proof))) tt
|}.
Definition minting_vkey : bytes :=
  match raw_vkey_hash_from_program_id (pm_ethereum_guest_program_id sepolia_manifest) with
  | Ok v => arr v
  | _ => []
  end.
Definition minting_annex : bytes :=
  match Sp1ProofAnnex_new EthereumState (pm_ethereum_guest_program_id sepolia_manifest) minting_output minting_proof with
  | Ok a => default [] (encode a)
  | _ => []
  end.

(** What both verifiers and the typed payload give for the annex. *)
Definition opened_annex : option DepositPublicOutput :=
  match verify_strict_journal minting_annex (pm_ethereum_guest_program_id sepolia_manifest) EthereumState with
  | Ok (a, j) =>
      match verify_raw_compressed_sha256 (an_proof a) (an_public_values a) minting_vkey
              (pm_ethereum_guest_program_id sepolia_manifest) EthereumState,
            TypedPublicValues_decode EthereumState (sj_payload j) with
      | Ok _, Ok (TypedDeposit o) =>
          if bool_decide (an_public_values a = minting_output) then Some o else None
      | _, _ => None
      end
  | _ => None
  end.
Lemma opened_shows o : opened_annex = Some o ->
  annex_shows (pm_ethereum_guest_program_id sepolia_manifest) minting_vkey minting_annex minting_output (TypedDeposit o).
Proof.
  unfold opened_annex. destruct (verify_strict_journal _ _ _) as [[a j]| |] eqn:Ea; [|discriminate..].
  destruct (verify_raw_compressed_sha256 _ _ _ _ _) as [j'| |] eqn:Er; [|discriminate..].
  destruct (TypedPublicValues_decode _ _) as [[o'|?|?]| |] eqn:Et; [|discriminate..].
  destruct (bool_decide_reflect (an_public_values a = minting_output)) as [Ev|]; [|discriminate]. intros [= ->].
  exists a, j. split; [exact Ea|]. split; [done|]. split; [|exact Et]. rewrite Er. f_equal.
  assert (32 <= Zpos usize_bits) as Hw by done. destruct (annex_strict_iff Hw) as (_ & _ & Hs).
  apply Hs in Ea as (_ & _ & Hj & He & _). apply verify_raw_Ok, (verify_inner_Ok Hw) in Er as (_ & _ & _ & _ & Hv & _).
  apply verify_expected_Ok in Hv as (Hj' & He' & _). by eapply decode_strict_unique.
Qed.
#[local] Instance MintControllerState_eq_dec : EqDecision MintControllerState.
Proof. solve_decision. Defined.
Definition opens (o : option DepositPublicOutput) : bool :=
  match o with
  | Some o => bool_decide (dpo_manifest_id o = sepolia_id) && bool_decide (dpo_prior_state o = sepolia_state)
              && (length (mb_outputs (dpo_mint_batch o)) =? 2)%nat
  | None => false
  end.
Lemma minting_opens : opens opened_annex = true.
Proof. by vm_compute. Qed.
Lemma minting_chain : exists outs s',
  inbound_chain sepolia_manifest sepolia_id minting_vkey sepolia_state [minting_output] outs s' /\ length outs = 2%nat.
Proof.
  pose proof minting_opens as Ho. destruct opened_annex as [o|] eqn:E; [|done]. cbn [opens] in Ho.
  rewrite !andb_true_iff, !bool_decide_eq_true, Nat.eqb_eq in Ho. destruct Ho as [[Hi Hs] Hl].
  exists (mb_outputs (dpo_mint_batch o)), (dpo_next_state o). split; [|done].
  eapply (chain_deposit _ _ _ _ [] []); [rewrite Hs; apply chain_nil|by apply opened_shows|done].
Qed.

(** The toy SP1 is sound: the one proof it accepts commits to the run's digest. *)
Lemma minting_digest (digest : Hash32) :
  digest_committed (recursion_public_values (drop 4 minting_proof : CompressedProof)) digest -> digest = hash_bytes minting_output.
Proof.
  intros (_ & _ & E). apply array_eq. rewrite E. by vm_compute.
Qed.
Lemma minting_sound program : sp1_sound program.
Proof.
  intros raw digest vkey _ (_ & _ & proof & c & [= <-] & _ & [= <-] & _ & Hd & Hv).
  cbn in Hv. apply fail_if_Ok, negb_bool_decide_false in Hv. subst raw. apply minting_digest in Hd as ->.
  exists sepolia_manifest_bytes, minting_output. split; [|done].
  exists [x01], sepolia_claim_bytes, [x01], sepolia_vault_bytes.
  destruct sepolia_guest_mints as [out E]. unfold minting_output. by rewrite E.
Qed.

Example annexes_mint_vault_deposits_witness : exists outs s', length outs = 2%nat /\
  ((Forall (backed sepolia_manifest) outs /\
    (forall i o, outs !! i = Some o -> uval (mo_nonce o) = mc_next_mint_nonce sepolia_state + Z.of_nat i) /\
    uval (mc_next_mint_nonce s') = mc_next_mint_nonce sepolia_state + Z.of_nat (length outs) /\
    uval (mc_total_minted_usdd_base s') =
      mc_total_minted_usdd_base sepolia_state + 100 * sumZ (fun o => mo_usdt_amount_micro o) outs) \/
   Exists (stack_collision sepolia_manifest) [minting_output]).
Proof.
  destruct minting_chain as (outs & s' & Hc & Hl). exists outs, s'. split; [exact Hl|].
  apply (@annexes_mint_vault_deposits wide ltac:(done) tail_sha256 tail_keccak open_trie toy_helios_types toy_helios
    one_cbor one_proof_sp1 sepolia_manifest sepolia_id minting_vkey sepolia_state s' [minting_output] outs toy_presets).
  - apply minting_sound.
  - by vm_compute.
  - exact Hc.
Defined.
