(* ===== verification/Display.v ===== *)
(** What the program prints: its [fmt::Display] implementations and the
    derived [fmt::Debug] output of the records the command line shows.

    [to_string] is [ToString::to_string].  [debug] gives the structure a derived
    [Debug] implementation builds; [pretty] is its layout under [{:#?}].  The
    errors of the outer crates, which quote these, are in Messages. *)

From S2P Require Import Prelude Encoding Params Hashing Text Gates BurnAccumulator Merkle Records Deposits Burns.
From S2P Require Import Solvency ManifestFile Journal EthereumInbound Helios.

Local Open Scope Z_scope.

Class Display (A : Type) : Type := to_string : A -> bytes.

(** The integers, in decimal. *)
Definition show (n : Z) : bytes := print_number n.
Definition show_nat (n : nat) : bytes := show (Z.of_nat n).

(** ** Values *)

#[export] Instance Hash32_display : Display Hash32 := fun h => Hash32_to_hex h.
#[export] Instance EthAddress_display : Display EthAddress := fun a => str "0x" ++ EthAddress_to_hex a.

(** ** Errors *)

#[export] Instance HexError_display : Display HexError := fun e =>
  match e with
  | OddLength => str "hex input has odd length"
  | InvalidDigit index => str "invalid hex digit at byte " ++ show_nat index
  | WrongLength expected actual => str "expected " ++ show_nat expected ++ str " bytes, got " ++ show_nat actual
  end.

#[export] Instance DecodeError_display : Display DecodeError := fun e =>
  match e with
  | UnexpectedEof needed remaining =>
      str "need " ++ show_nat needed ++ str " bytes but only " ++ show_nat remaining ++ str " remain"
  | TrailingBytes count => show_nat count ++ str " trailing bytes"
  | InvalidTag type_name tag => str "invalid " ++ str type_name ++ str " tag " ++ show tag
  | InvalidLength expected actual => str "expected length " ++ show_nat expected ++ str ", got " ++ show_nat actual
  | LengthOverflow => str "length exceeds u32"
  | InvalidValue message => str message
  end.

#[export] Instance MerkleError_display : Display MerkleError := fun e =>
  match e with
  | EmptyTree => str "cannot prove an empty tree"
  | MerkleIndexOutOfRange => str "Merkle leaf index out of range"
  | MalformedProof => str "malformed Merkle proof"
  end.

#[export] Instance BurnAccumulatorError_display : Display BurnAccumulatorError := fun e =>
  match e with
  | WrongDepth value => str "burn tree depth " ++ show_nat value ++ str " exceeds 64"
  | TooManyLeaves => str "burn accumulator exceeds uint64 indices"
  | IndexOutOfRange => str "burn index is outside finalized prefix"
  end.

#[export] Instance AuditError_display : Display AuditError := fun e =>
  match e with
  | NonConvertibleSupply name => str name ++ str " is not divisible by " ++ show USDD_UNITS_PER_USDT_MICRO
  | BurnExceedsMint => str "burned USDD exceeds minted USDD"
  | PaidExceedsDeposited => str "paid USDT exceeds deposited USDT"
  | DepositMintPartitionMismatch deposited accounted =>
      str "deposited USDT " ++ show deposited ++ str " does not equal minted plus unminted " ++ show accounted
  | BurnPayoutPartitionMismatch burned accounted =>
      str "burned USDD in micro-USDT " ++ show burned ++ str " does not equal paid plus unpaid " ++ show accounted
  | PhysicalReserveShortfall required actual =>
      str "physical reserve " ++ show actual ++ str " is below required " ++ show required
  | RecordedBackingMismatch expected actual =>
      str "recorded backing " ++ show actual ++ str " does not equal expected " ++ show expected
  | ConservationUnderflow => str "conservation equation underflow"
  | ZeroAuditIdentifier name => str name ++ str " identifier is zero"
  | NonSequentialDepositNonce expected actual =>
      str "deposit nonce " ++ show actual ++ str " is not the expected consecutive nonce " ++ show expected
  | NonSequentialMintNonce expected actual =>
      str "mint nonce " ++ show actual ++ str " is not the expected consecutive nonce " ++ show expected
  | NonSequentialBurnIndex expected actual =>
      str "burn index " ++ show actual ++ str " is not the expected consecutive index " ++ show expected
  | DuplicateDepositId => str "duplicate deposit ID"
  | DuplicateBurnId => str "duplicate burn ID"
  | MintDoesNotMatchDeposit => str "mint does not exactly consume its deposit"
  | PayoutWithoutBurn => str "payout has no finalized burn"
  | PayoutDoesNotMatchBurn => str "payout amount or recipient does not match its burn"
  | DuplicatePayout => str "burn was paid more than once"
  | AuditTotalOverflow => str "audit total overflow"
  end.

#[export] Instance ManifestError_display : Display ManifestError := fun e =>
  match e with
  | ZeroField name => str "manifest field " ++ str name ++ str " is zero"
  | WrongDrivechainSlot expected actual =>
      str "Drivechain slot must be " ++ show expected ++ str ", got " ++ show actual
  | WrongAmountScale => str "manifest must encode six-decimal USDT, eight-decimal USDD, and ×100 conversion"
  | WrongSp1Identity =>
      str "manifest must pin SP1 6.3.1 commit 8252c2905ce32964df68248117015c61ebb854db and SHA-256-only compressed-proof v1"
  | WrongDomainSeparatorTable => str "manifest domain-separator table hash is wrong"
  | WrongControllerConfiguration =>
      str "controller configuration hash does not match the non-circular V1 projection"
  | WrongOutboundVerifierConfiguration =>
      str "outbound verifier configuration hash does not match the non-circular V1 projection"
  | WrongFinalityThresholds =>
      str "V1 requires max 4096 Ethereum slots, max 6h finalized-state age, and at least 100 Bitcoin confirmations"
  | WrongVaultId => str "manifest vault ID does not match Solidity constructor inputs"
  | WrongLiabilityCap => str "manifest liability cap does not equal frozen V1 cap"
  | WrongFirstDepositNonce => str "V1 controller must begin at vault deposit nonce zero"
  | WrongInitialControllerState => str "manifest initial controller state hash is wrong"
  | Encoding error => to_string error
  end.

#[export] Instance JournalError_display : Display JournalError := fun e =>
  match e with
  | JournalDecode error => to_string error
  | WrongMagic => str "wrong journal magic"
  | UnsupportedSchema value => str "unsupported journal schema " ++ show value
  | UnsupportedDigest value => str "unsupported journal digest tag " ++ show value ++ str "; SHA-256 is required"
  | GuestNotSuccessful => str "guest success marker is absent"
  | UnsupportedStatementKind value => str "unsupported statement kind " ++ show value
  | ZeroProgramId => str "journal program ID is zero"
  | EmptyPayload => str "journal payload is empty"
  | PayloadDigestMismatch => str "journal payload SHA-256 mismatch"
  | JournalTrailingBytes count => str "journal has " ++ show_nat count ++ str " trailing bytes"
  | JournalNonCanonicalEncoding => str "journal encoding is noncanonical"
  | WrongProgramId => str "journal program ID does not match manifest"
  | WrongStatementKind => str "journal statement kind is wrong"
  | InvalidPayloadForStatement => str "journal payload is not a canonical record for its statement kind"
  end.

#[export] Instance GateError_display : Display GateError := fun e =>
  match e with
  | InvalidHeader => str "expected TSV header: gate\tstatus\tmeasured_value\tevidence"
  | WrongColumnCount line actual =>
      str "line " ++ show_nat line ++ str " has " ++ show_nat actual ++ str " columns; expected 4"
  | InvalidStatus value => str "invalid gate status " ++ value
  | UnknownGate id => str "unknown launch gate " ++ id
  | DuplicateGate id => str "duplicate launch gate " ++ id
  | InvalidEvidenceSpec gate => str "gate " ++ gate ++ str " evidence must be sha256:<64-hex>@<relative-path>"
  | UnsafeEvidencePath gate => str "gate " ++ gate ++ str " evidence path is not a safe relative path"
  | EvidenceRead gate message => str "cannot read evidence for gate " ++ gate ++ str ": " ++ message
  | EvidenceDigestMismatch gate => str "evidence SHA-256 mismatch for gate " ++ gate
  end.

#[export] Instance FinalityVerificationError_display : Display FinalityVerificationError := fun _ =>
  str "Ethereum finality transition rejected".

#[export] Instance InboundVerificationError_display : Display InboundVerificationError := fun e =>
  match e with
  | IE_InvalidManifest => str "invalid protocol manifest"
  | IE_InvalidControllerState => str "invalid prior controller state"
  | IE_InvalidFinality => str "invalid Ethereum finality transition"
  | IE_FinalityRejected => str "Ethereum finality proof rejected"
  | IE_EmptyDepositBatch => str "deposit batch is empty"
  | IE_TooManyDeposits => str "deposit batch exceeds 64"
  | IE_InvalidDeposit => str "deposit violates a vault invariant"
  | IE_WrongDepositTarget => str "deposit targets the wrong chain, vault, or USDT"
  | IE_NonConsecutiveDepositNonce => str "deposit nonces are not the expected consecutive sequence"
  | IE_ZeroDepositCommitment => str "derived deposit commitment is zero"
  | IE_StorageProofCountMismatch => str "storage proof count does not match the deposit batch"
  | IE_VaultCodeHashMismatch => str "vault account code hash does not match the manifest"
  | IE_InvalidVaultAccount => str "invalid vault account witness"
  | IE_ProofLimitsExceeded => str "MPT witness exceeds a frozen resource bound"
  | IE_AccountProofRejected => str "vault account MPT proof rejected"
  | IE_StorageProofRejected index => str "deposit storage MPT proof " ++ show_nat index ++ str " rejected"
  | IE_AmountOverflow => str "deposit amount total overflow"
  end.

#[export] Instance SepoliaFinalityError_display : Display SepoliaFinalityError := fun e =>
  match e with
  | SF_InvalidManifest => str "invalid USDD manifest"
  | SF_InvalidPriorState => str "invalid prior controller state"
  | SF_WrongNetwork => str "finality proof is not for pinned Sepolia"
  | SF_PriorHeaderMismatch => str "prior beacon header does not match controller state"
  | SF_PriorExecutionPayloadRejected => str "prior execution payload is not bound to the prior beacon header"
  | SF_PriorStateDigestMismatch => str "prior sync committees do not match controller digest"
  | SF_TooManyCommitteeUpdates => str "too many sync-committee updates"
  | SF_UpdateWithoutSupermajority index =>
      str "sync-committee update " ++ show_nat index ++ str " lacks a two-thirds quorum"
  | SF_UpdateRejected index => str "sync-committee update " ++ show_nat index ++ str " failed consensus verification"
  | SF_FinalityWithoutSupermajority => str "finality update lacks a two-thirds quorum"
  | SF_FinalityRejected => str "finality update failed consensus verification"
  | SF_FinalizedStateDidNotAdvance => str "verified finality did not advance the finalized header"
  | SF_FinalizedHeaderNotCheckpoint => str "finalized header is not an epoch checkpoint"
  | SF_MissingExecutionPayload => str "finalized beacon header has no execution payload"
  | SF_OutputMismatch => str "derived finalized state differs from the requested output"
  | SF_WitnessTooLarge => str "finality witness exceeds 512 KiB"
  | SF_WitnessCodecRejected => str "finality witness codec rejected"
  | SF_NonCanonicalWitness => str "finality witness encoding is not canonical"
  end.

(** ** Derived debugging output *)

Inductive dbg : Type :=
| DText (text : bytes)
| DStruct (name : string) (fields : list (string * dbg))
| DTuple (name : string) (items : list dbg)
| DList (items : list dbg).

Class Debug (A : Type) : Type := debug : A -> dbg.

(** The writer of [{:#?}] puts four spaces before every line. *)
Fixpoint indent (at_line_start : bool) (text : bytes) : bytes :=
  match text with
  | [] => []
  | b :: text =>
      (if at_line_start then str "    " else []) ++ b :: indent (bool_decide (b = newline_byte)) text
  end.
Fixpoint pretty (d : dbg) : bytes :=
  match d with
  | DText text => text
  | DStruct name [] => str name
  | DStruct name fields =>
      str name ++ str " {" ++ [newline_byte]
      ++ concat (map (fun '(field, value) => indent true (str field ++ str ": " ++ pretty value ++ str "," ++ [newline_byte])) fields)
      ++ str "}"
  | DTuple name [] => str name
  | DTuple name items =>
      str name ++ str "(" ++ [newline_byte]
      ++ concat (map (fun item => indent true (pretty item ++ str "," ++ [newline_byte])) items) ++ str ")"
  | DList [] => str "[]"
  | DList items =>
      str "[" ++ [newline_byte]
      ++ concat (map (fun item => indent true (pretty item ++ str "," ++ [newline_byte])) items) ++ str "]"
  end.

#[export] Instance uint_debug {w} : Debug (uint w) := fun n => DText (show n).
#[export] Instance Hash32_debug : Debug Hash32 := fun h => DText (str "Hash32(" ++ to_string h ++ str ")").
#[export] Instance EthAddress_debug : Debug EthAddress := fun a => DText (str "EthAddress(" ++ to_string a ++ str ")").
#[export] Instance list_debug {A} `{Debug A} : Debug (list A) := fun l => DList (map debug l).
#[export] Instance byte_debug : Debug byte := fun b => DText (show (byte_val b)).

#[export] Instance OutPoint_debug : Debug OutPoint := fun x => DStruct "OutPoint" [
  ("txid"%string, debug (op_txid x));
  ("vout"%string, debug (op_vout x))
].

#[export] Instance VaultDeposit_debug : Debug VaultDeposit := fun x => DStruct "VaultDeposit" [
  ("ethereum_chain_id"%string, debug (vd_ethereum_chain_id x));
  ("vault"%string, debug (vd_vault x));
  ("usdt"%string, debug (vd_usdt x));
  ("nonce"%string, debug (vd_nonce x));
  ("depositor"%string, debug (vd_depositor x));
  ("usdt_amount_micro"%string, debug (vd_usdt_amount_micro x));
  ("elements_script"%string, debug (vd_elements_script x));
  ("user_salt"%string, debug (vd_user_salt x))
].

#[export] Instance MintOutput_debug : Debug MintOutput := fun x => DStruct "MintOutput" [
  ("deposit_id"%string, debug (mo_deposit_id x));
  ("nonce"%string, debug (mo_nonce x));
  ("usdt_amount_micro"%string, debug (mo_usdt_amount_micro x));
  ("usdd_amount_base"%string, debug (mo_usdd_amount_base x));
  ("elements_script"%string, debug (mo_elements_script x))
].

#[export] Instance MintBatch_debug : Debug MintBatch := fun x => DStruct "MintBatch" [
  ("first_nonce"%string, debug (mb_first_nonce x));
  ("next_nonce"%string, debug (mb_next_nonce x));
  ("outputs"%string, debug (mb_outputs x));
  ("total_usdt_amount_micro"%string, debug (mb_total_usdt_amount_micro x));
  ("total_usdd_amount_base"%string, debug (mb_total_usdd_amount_base x))
].

#[export] Instance Burn_debug : Debug Burn := fun x => DStruct "Burn" [
  ("vault_id"%string, debug (bu_vault_id x));
  ("usdd_asset"%string, debug (bu_usdd_asset x));
  ("usdd_amount_base"%string, debug (bu_usdd_amount_base x));
  ("usdt_amount_micro"%string, debug (bu_usdt_amount_micro x));
  ("burn_outpoint"%string, debug (bu_burn_outpoint x));
  ("ethereum_destination"%string, debug (bu_ethereum_destination x))
].

#[export] Instance ProtocolManifest_debug : Debug ProtocolManifest := fun x => DStruct "ProtocolManifest" [
  ("ethereum_chain_id"%string, debug (pm_ethereum_chain_id x));
  ("ethereum_genesis"%string, debug (pm_ethereum_genesis x));
  ("bitcoin_genesis"%string, debug (pm_bitcoin_genesis x));
  ("elements_genesis"%string, debug (pm_elements_genesis x));
  ("drivechain_slot"%string, debug (pm_drivechain_slot x));
  ("usdt"%string, debug (pm_usdt x));
  ("usdd_asset"%string, debug (pm_usdd_asset x));
  ("usdd_reissuance_token"%string, debug (pm_usdd_reissuance_token x));
  ("usdd_public_abf"%string, debug (pm_usdd_public_abf x));
  ("vault"%string, debug (pm_vault x));
  ("vault_id"%string, debug (pm_vault_id x));
  ("vault_code_hash"%string, debug (pm_vault_code_hash x));
  ("proof_verifier"%string, debug (pm_proof_verifier x));
  ("proof_verifier_runtime_code_hash"%string, debug (pm_proof_verifier_runtime_code_hash x));
  ("verifier_config_hash"%string, debug (pm_verifier_config_hash x));
  ("ethereum_guest_program_id"%string, debug (pm_ethereum_guest_program_id x));
  ("elements_guest_program_id"%string, debug (pm_elements_guest_program_id x));
  ("sp1_version_major"%string, debug (pm_sp1_version_major x));
  ("sp1_version_minor"%string, debug (pm_sp1_version_minor x));
  ("sp1_version_patch"%string, debug (pm_sp1_version_patch x));
  ("sp1_git_commit"%string, debug (pm_sp1_git_commit x : bytes));
  ("compressed_proof_circuit_version"%string, debug (pm_compressed_proof_circuit_version x));
  ("compressed_proof_codec_version"%string, debug (pm_compressed_proof_codec_version x));
  ("recursion_verifier_constants_hash"%string, debug (pm_recursion_verifier_constants_hash x));
  ("public_digest_tag"%string, debug (pm_public_digest_tag x));
  ("bootstrap_finalized_beacon_slot"%string, debug (pm_bootstrap_finalized_beacon_slot x));
  ("bootstrap_finalized_beacon_root"%string, debug (pm_bootstrap_finalized_beacon_root x));
  ("bootstrap_execution_state_root"%string, debug (pm_bootstrap_execution_state_root x));
  ("bootstrap_eth_light_client_digest"%string, debug (pm_bootstrap_eth_light_client_digest x));
  ("controller_cmr"%string, debug (pm_controller_cmr x));
  ("controller_configuration_hash"%string, debug (pm_controller_configuration_hash x));
  ("domain_separator_table_hash"%string, debug (pm_domain_separator_table_hash x));
  ("issuance_txid_display"%string, debug (pm_issuance_txid_display x));
  ("issuance_vout"%string, debug (pm_issuance_vout x));
  ("asset_entropy"%string, debug (pm_asset_entropy x));
  ("initial_controller_state_hash"%string, debug (pm_initial_controller_state_hash x));
  ("active_liability_cap_usdt_micro"%string, debug (pm_active_liability_cap_usdt_micro x));
  ("minimum_activation_chainwork"%string, debug (pm_minimum_activation_chainwork x));
  ("max_ethereum_finality_slot_gap"%string, debug (pm_max_ethereum_finality_slot_gap x));
  ("max_finalized_to_bmm_mtp_age_seconds"%string, debug (pm_max_finalized_to_bmm_mtp_age_seconds x));
  ("minimum_bitcoin_confirmations"%string, debug (pm_minimum_bitcoin_confirmations x));
  ("first_deposit_nonce"%string, debug (pm_first_deposit_nonce x));
  ("usdt_display_decimals"%string, debug (pm_usdt_display_decimals x));
  ("usdd_display_decimals"%string, debug (pm_usdd_display_decimals x));
  ("usdd_units_per_usdt_micro"%string, debug (pm_usdd_units_per_usdt_micro x))
].

#[export] Instance StatementKind_debug : Debug StatementKind := fun k =>
  DText (match k with EthereumState => str "EthereumState" | ElementsStateKind => str "ElementsState" end).

Example pretty_outpoint : pretty (debug (MkOutPoint (array_rep 32 x11) (uint_wrap 32 7))) =
  str "OutPoint {" ++ [newline_byte]
  ++ str "    txid: Hash32(1111111111111111111111111111111111111111111111111111111111111111)," ++ [newline_byte]
  ++ str "    vout: 7," ++ [newline_byte] ++ str "}".
Proof. vm_compute. reflexivity. Qed.
Example pretty_nested : pretty (DStruct "A" [("b"%string, DList [DText (show 1); DList []]); ("c"%string, DStruct "D" [("e"%string, DText (str "2"))])]) =
  str "A {" ++ [newline_byte] ++ str "    b: [" ++ [newline_byte] ++ str "        1," ++ [newline_byte]
  ++ str "        []," ++ [newline_byte] ++ str "    ]," ++ [newline_byte] ++ str "    c: D {" ++ [newline_byte]
  ++ str "        e: 2," ++ [newline_byte] ++ str "    }," ++ [newline_byte] ++ str "}".
Proof. vm_compute. reflexivity. Qed.
