(* ===== verification/Messages.v ===== *)
(** The messages of the proof crates: the [fmt::Display] implementations of
    [GuestError] (usdd-proof-core/src/guest.rs), [AnnexError] (annex.rs) and the
    SP1 adapter's [VerificationError] (usdd-sp1-verifier/src/lib.rs).

    They print other errors with [{:?}], whose one-line layout is [compact], and
    words with [{:#010x}].  The display of [CompressedError], a type of the SP1
    crates, is a parameter. *)

From S2P Require Import Prelude Encoding Params Hashing Text BurnAccumulator Records Deposits Burns.
From S2P Require Import ElementsState Controller ManifestFile Claims Readers Journal Annex Guest Sp1Verifier Display.

Local Open Scope Z_scope.

(** ** One-line debugging output *)

Fixpoint separated (sep : bytes) (items : list bytes) : bytes :=
  match items with
  | [] => []
  | [item] => item
  | item :: items => item ++ sep ++ separated sep items
  end.

(** [{:?}] of what a derived [Debug] implementation builds. *)
Fixpoint compact (d : dbg) : bytes :=
  match d with
  | DText text => text
  | DStruct name [] => str name
  | DStruct name fields =>
      str name ++ str " { "
      ++ separated (str ", ") (map (fun '(field, value) => str field ++ str ": " ++ compact value) fields) ++ str " }"
  | DTuple name [] => str name
  | DTuple name items => str name ++ str "(" ++ separated (str ", ") (map compact items) ++ str ")"
  | DList items => str "[" ++ separated (str ", ") (map compact items) ++ str "]"
  end.

(** A byte of a string literal under [{:?}].  The strings the errors carry are
    literals of the program, of printable ASCII characters. *)
Definition escape_debug (b : byte) : bytes :=
  if bool_decide (b = x22 \/ b = x5c) then [x5c; b] else [b].
#[export] Instance string_debug : Debug string := fun s =>
  DText ([x22] ++ concat (map escape_debug (str s)) ++ [x22]).
#[export] Instance nat_debug : Debug nat := fun n => DText (show_nat n).

#[export] Instance DecodeError_debug : Debug DecodeError := fun e =>
  match e with
  | UnexpectedEof needed remaining =>
      DStruct "UnexpectedEof" [("needed"%string, debug needed); ("remaining"%string, debug remaining)]
  | TrailingBytes count => DTuple "TrailingBytes" [debug count]
  | InvalidTag type_name tag => DStruct "InvalidTag" [("type_name"%string, debug type_name); ("tag"%string, DText (show tag))]
  | InvalidLength expected actual =>
      DStruct "InvalidLength" [("expected"%string, debug expected); ("actual"%string, debug actual)]
  | LengthOverflow => DTuple "LengthOverflow" []
  | InvalidValue message => DTuple "InvalidValue" [debug message]
  end.

#[export] Instance JournalError_debug : Debug JournalError := fun e =>
  match e with
  | JournalDecode error => DTuple "Decode" [debug error]
  | WrongMagic => DTuple "WrongMagic" []
  | UnsupportedSchema value => DTuple "UnsupportedSchema" [DText (show value)]
  | UnsupportedDigest value => DTuple "UnsupportedDigest" [DText (show value)]
  | GuestNotSuccessful => DTuple "GuestNotSuccessful" []
  | UnsupportedStatementKind value => DTuple "UnsupportedStatementKind" [DText (show value)]
  | ZeroProgramId => DTuple "ZeroProgramId" []
  | EmptyPayload => DTuple "EmptyPayload" []
  | PayloadDigestMismatch => DTuple "PayloadDigestMismatch" []
  | JournalTrailingBytes count => DTuple "TrailingBytes" [debug count]
  | JournalNonCanonicalEncoding => DTuple "NonCanonicalEncoding" []
  | WrongProgramId => DTuple "WrongProgramId" []
  | WrongStatementKind => DTuple "WrongStatementKind" []
  | InvalidPayloadForStatement => DTuple "InvalidPayloadForStatement" []
  end.

#[export] Instance AnnexError_debug : Debug AnnexError := fun e =>
  match e with
  | AnnexDecode error => DTuple "Decode" [debug error]
  | AnnexTooLarge => DTuple "TooLarge" []
  | AnnexTruncated => DTuple "Truncated" []
  | AnnexWrongTag => DTuple "WrongTag" []
  | AnnexWrongMagic => DTuple "WrongMagic" []
  | AnnexWrongVersion => DTuple "WrongVersion" []
  | AnnexWrongProofSystem => DTuple "WrongProofSystem" []
  | AnnexWrongStatementKind => DTuple "WrongStatementKind" []
  | AnnexWrongDigestMode => DTuple "WrongDigestMode" []
  | AnnexNonzeroFlags => DTuple "NonzeroFlags" []
  | AnnexEmptyPublicValues => DTuple "EmptyPublicValues" []
  | AnnexPublicValuesTooLarge => DTuple "PublicValuesTooLarge" []
  | AnnexEmptyProof => DTuple "EmptyProof" []
  | AnnexZeroGuestProgramId => DTuple "ZeroGuestProgramId" []
  | AnnexWrongGuestProgramId => DTuple "WrongGuestProgramId" []
  | AnnexLengthMismatch => DTuple "LengthMismatch" []
  | AnnexNonCanonicalEncoding => DTuple "NonCanonicalEncoding" []
  | AnnexJournal error => DTuple "Journal" [debug error]
  end.
#[export] Instance AnnexError_display : Display AnnexError := fun e => compact (debug e).

#[export] Instance VerificationError_debug : Debug VerificationError := fun '(InvalidProof message) =>
  DTuple "InvalidProof" [debug message].

#[export] Instance GuestError_display : Display GuestError := fun e =>
  match e with
  | InvalidManifest => str "invalid protocol manifest"
  | ManifestMismatch => str "claim manifest does not match"
  | InvalidControllerState => str "invalid prior controller state"
  | ConfigurationMismatch => str "controller configuration mismatch"
  | DepositTargetsWrongVault => str "deposit targets the wrong Ethereum chain, vault, or USDT"
  | DepositNonceNotNext => str "deposit nonce is not next"
  | InvalidDepositBatch => str "invalid 1..64 deposit batch"
  | InvalidControllerTransition => str "invalid controller transition"
  | InvalidBurn => str "invalid burn record"
  | BurnTargetsWrongAssetOrVault => str "burn targets the wrong USDD asset or vault"
  | InvalidElementsStateTransition => str "invalid old-to-next Elements bridge state"
  | ActivationChainworkNotReached => str "minimum activation chainwork not reached"
  | BurnAccumulatorMismatch => str "burn append proof or cumulative root mismatch"
  | VerifierRejected error => str "proof verifier rejected claim: " ++ compact (debug error)
  | GuestJournal error => to_string error
  end.

#[export] Instance RejectedProofMode_debug : Debug RejectedProofMode := fun mode =>
  match mode with
  | Core => DTuple "Core" []
  | Plonk => DTuple "Plonk" []
  | Groth16 => DTuple "Groth16" []
  end.

(** [{value:#010x}] of a [u32]: ten characters, two for the prefix. *)
Definition show_word (value : u32) : bytes := str "0x" ++ encode_hex (be_bytes 4 value).

#[export] Instance Sp1VerificationError_display `{V : Sp1} `{Display CompressedError} :
    Display Sp1VerificationError := fun e =>
  match e with
  | EmptyProof => str "SP1 proof is empty"
  | ProofTooLarge actual maximum => str "SP1 proof is " ++ show actual ++ str " bytes; maximum is " ++ show maximum
  | PublicValuesTooLarge actual maximum =>
      str "SP1 public values are " ++ show actual ++ str " bytes; maximum is " ++ show maximum
  | AnnexSizeOverflow => str "SP1 annex size arithmetic overflow"
  | CombinedAnnexTooLarge actual maximum =>
      str "combined SP1 annex is " ++ show actual ++ str " bytes; maximum is " ++ show maximum
  | MalformedProof => str "malformed SP1 proof encoding"
  | NonCanonicalProof => str "noncanonical SP1 proof encoding"
  | UnsupportedProofMode mode => str "unsupported SP1 proof mode: " ++ compact (debug mode)
  | WrongVkeyHashLength actual =>
      str "raw SP1 vkey hash is " ++ show actual ++ str " bytes; expected " ++ show RAW_VKEY_HASH_SIZE
  | NonCanonicalVkeyWord index value =>
      str "raw SP1 vkey hash word " ++ show_nat index ++ str " is noncanonical: " ++ show_word value
  | NonCanonicalProgramIdWord index value =>
      str "SP1 program ID word " ++ show_nat index ++ str " is noncanonical: " ++ show_word value
  | ZeroSp1ProgramId => str "SP1 program ID is zero"
  | VkeyProgramIdMismatch => str "raw SP1 vkey hash does not match the expected program ID"
  | Sp1Journal error => str "invalid USDD public-values journal: " ++ to_string error
  | InvalidRecursionPublicValuesLength actual expected =>
      str "compressed proof has " ++ show actual ++ str " recursion public values; expected " ++ show expected
  | NonByteCommittedDigestLimb index value =>
      str "compressed proof digest limb " ++ show_nat index ++ str " is not a canonical byte: " ++ show value
  | PublicValuesDigestMismatch => str "compressed proof does not commit to SHA-256(public values)"
  | ProofRejected error => str "SP1 compressed proof rejected: " ++ to_string error
  | VerifierPanicked => str "SP1 verifier panicked while processing untrusted input"
  end.

(** ** The layout on nested errors *)

Example compact_nested :
  to_string (AnnexJournal (JournalDecode (InvalidTag "record" 7))) =
  str "Journal(Decode(InvalidTag { type_name: " ++ [x22] ++ str "record" ++ [x22] ++ str ", tag: 7 }))".
Proof. vm_compute. reflexivity. Qed.
Example rejected_claim :
  to_string (VerifierRejected (InvalidProof "vault account proof rejected")) =
  str "proof verifier rejected claim: InvalidProof(" ++ [x22] ++ str "vault account proof rejected" ++ [x22] ++ str ")".
Proof. vm_compute. reflexivity. Qed.
Example padded_word : show_word (uint_wrap 32 0x7f01) = str "0x00007f01".
Proof. vm_compute. reflexivity. Qed.
