(* ===== verification/Cli.v ===== *)
(** The command line of the protocol utility.

    [run_str] of usdd-cli/src/lib.rs, one definition per group of match arms, in
    the order of the source; the result is the printed text or the error text,
    and [Panic] a panic.  An arm gives [None] when its pattern or guard does not
    match.  Files are read through [FileSystem]. *)

From S2P Require Import Prelude Encoding Params Hashing Text Gates BurnAccumulator Merkle Records Deposits Burns.
From S2P Require Import Solvency ManifestFile Journal Display.

Local Open Scope Z_scope.

(** [HELP], line by line. *)
Definition HELP : bytes := concat (map (fun line => str line ++ [newline_byte]) [
  "USDD V1 protocol utility";
  "";
  "amount usdt-to-usdd <micro-usdt>";
  "amount usdd-to-usdt <usdd-base>";
  "deposit id <canonical-deposit-hex>";
  "deposit inspect <canonical-deposit-hex>";
  "prove-deposit ...                         (fails closed: proof guest unavailable)";
  "mint batch <canonical-deposit-hex>...";
  "mint inspect <canonical-mint-batch-hex>";
  "burn payload <canonical-burn-hex>";
  "burn id <elements-genesis-hash> <canonical-burn-hex>";
  "prove-elements ...                        (fails closed: proof guest unavailable)";
  "redeem claim <elements-genesis> <burn-hex> <burn-index>";
  "burn-tree root <burn-leaf-hash>...";
  "burn-tree prove <index> <burn-leaf-hash>...";
  "burn-tree verify <root> <leaf> <index> <64-sibling-proof-hex>";
  "id deposit <canonical-deposit-hex>";
  "id redemption <elements-genesis-hash> <canonical-burn-hex>";
  "decode <deposit|mint|burn|manifest> <canonical-hex>";
  "manifest hash <canonical-manifest-hex>";
  "merkle root <leaf-data-hex>...";
  "merkle prove <index> <leaf-data-hex>...";
  "merkle verify <root-hash> <leaf-data-hex> <proof-hex>";
  "audit check <actual> <recorded> <deposited> <paid> <minted> <burned> <unminted> <unpaid>";
  "audit replay <actual> <recorded> <chain-events.tsv>";
  "journal inspect <journal-hex>";
  "gates report [launch-gates.tsv]"]%string).

(** ** Reading arguments *)

(** An error as its text. *)
Definition shown {E A : Type} `{Display E} (m : res E A) : res bytes A := map_err to_string m.
Definition shown_as {E A : Type} `{Display E} (prefix : bytes) (m : res E A) : res bytes A :=
  map_err (fun error => prefix ++ to_string error) m.

Definition cli_parse_u64 (value : bytes) (name : string) : res bytes u64 :=
  ok_or (parse_u64 value) (str "invalid " ++ str name).

Definition decode_record (T : Type) `{CanonicalDecode T} (encoded : bytes) (name : string) : res bytes T :=
  bs ← shown_as (str "invalid " ++ str name ++ str " hex: ") (decode_hex encoded);
  shown_as (str "invalid canonical " ++ str name ++ str ": ") (decode_exact (A:=T) bs).

Definition parse_hashes (values : list bytes) (name : string) : res bytes (list Hash32) :=
  mapM (fun value => shown_as (str "invalid " ++ str name ++ str ": ") (Hash32_from_str value)) values.

(** ** The event file of [audit replay] *)

Record AuditEvents : Type := MkAuditEvents {
  av_deposits : list AuditedDeposit;
  av_mints : list AuditedMint;
  av_burns : list AuditedBurn;
  av_payouts : list AuditedPayout
}.
Definition AuditEvents_default : AuditEvents := MkAuditEvents [] [] [] [].
Definition push_deposit (d : AuditedDeposit) (e : AuditEvents) : AuditEvents :=
  MkAuditEvents (av_deposits e ++ [d]) (av_mints e) (av_burns e) (av_payouts e).
Definition push_mint (m : AuditedMint) (e : AuditEvents) : AuditEvents :=
  MkAuditEvents (av_deposits e) (av_mints e ++ [m]) (av_burns e) (av_payouts e).
Definition push_burn (b : AuditedBurn) (e : AuditEvents) : AuditEvents :=
  MkAuditEvents (av_deposits e) (av_mints e) (av_burns e ++ [b]) (av_payouts e).
Definition push_payout (p : AuditedPayout) (e : AuditEvents) : AuditEvents :=
  MkAuditEvents (av_deposits e) (av_mints e) (av_burns e) (av_payouts e ++ [p]).

Definition AUDIT_HEADER : bytes :=
  str "kind" ++ [tab] ++ str "index" ++ [tab] ++ str "id" ++ [tab] ++ str "amount" ++ [tab] ++ str "recipient".

Definition at_line (line_number : nat) (message : string) : bytes :=
  str "audit TSV line " ++ show_nat line_number ++ str message.

(** The match on the kind of a row, [id] and [amount] already read. *)
Definition audit_event (line_number : nat) (kind index recipient : bytes) (id : Hash32) (amount : u64)
    (events : AuditEvents) : res bytes AuditEvents :=
  if bool_decide (kind = str "deposit") then
    fail_if (bool_decide (recipient <> str "-")) (at_line line_number " deposit recipient must be -");;
    nonce ← cli_parse_u64 index "deposit nonce";
    Ok (push_deposit (MkAuditedDeposit nonce id amount) events)
  else if bool_decide (kind = str "mint") then
    fail_if (bool_decide (recipient <> str "-")) (at_line line_number " mint recipient must be -");;
    nonce ← cli_parse_u64 index "mint nonce";
    Ok (push_mint (MkAuditedMint nonce id amount) events)
  else if bool_decide (kind = str "burn") then
    burn_index ← cli_parse_u64 index "burn index";
    recipient ← shown_as (at_line line_number " has invalid recipient: ") (EthAddress_from_str recipient);
    Ok (push_burn (MkAuditedBurn burn_index id amount recipient) events)
  else if bool_decide (kind = str "payout") then
    fail_if (bool_decide (index <> str "-")) (at_line line_number " payout index must be -");;
    recipient ← shown_as (at_line line_number " has invalid recipient: ") (EthAddress_from_str recipient);
    Ok (push_payout (MkAuditedPayout id amount recipient) events)
  else Err (at_line line_number " has unknown kind " ++ kind).

Definition audit_row (line_number : nat) (line : bytes) (events : AuditEvents) : res bytes AuditEvents :=
  match split_on tab line with
  | [kind; index; id; amount; recipient] =>
      id ← shown_as (at_line line_number " has invalid ID: ") (Hash32_from_str id);
      amount ← cli_parse_u64 amount "audit amount";
      audit_event line_number kind index recipient id amount events
  | _ => Err (at_line line_number " must have 5 columns")
  end.
Definition audit_line (offset : nat) (line : bytes) (events : AuditEvents) : res bytes AuditEvents :=
  if (length line =? 0)%nat || starts_with x23 line then Ok events else audit_row (offset + 2) line events.
Definition parse_audit_events (input : bytes) : res bytes AuditEvents :=
  match lines input with
  | [] => Err (str "invalid audit TSV header")
  | header :: rows =>
      fail_if (bool_decide (header <> AUDIT_HEADER)) (str "invalid audit TSV header");;
      res_foldi audit_line 0 rows AuditEvents_default
  end.

(** ** Paths *)

(** [Path::parent]: the path without its last component; a repeated separator
    or a [.] after the first component is none. *)
Definition trivial_part (part : bytes) : bool := bool_decide (part = []) || bool_decide (part = str ".").
Fixpoint drop_trivial (parts : list bytes) : list bytes :=
  match parts with
  | part :: parts' => if trivial_part part then drop_trivial parts' else parts
  | [] => []
  end.
Definition trim_trivial (parts : list bytes) : list bytes := rev (drop_trivial (rev parts)).
Definition path_parent (path : bytes) : option bytes :=
  match split_on x2f path with
  | [] => None
  | first :: rest =>
      if bool_decide (first = []) && negb (bool_decide (rest = [])) then
        match trim_trivial rest with
        | [] => None
        | body => Some (x2f :: join x2f (trim_trivial (removelast body)))
        end
      else if bool_decide (first = str ".") then
        match trim_trivial rest with
        | [] => Some []
        | body => Some (join x2f (first :: trim_trivial (removelast body)))
        end
      else
        match trim_trivial (first :: rest) with
        | [] => None
        | body => Some (join x2f (trim_trivial (removelast body)))
        end
  end.

Example parents : map (fun p => path_parent (str p))
  ["a/b/c"; "a"; ""; "/"; "/a"; "//a//b/"; "a/./b"; "./a"; "."; ".."; "../a/."; "specs/launch-gates.tsv"]%string
  = map (fun p => str <$> p)
  [Some "a/b"; Some ""; None; None; Some "/"; Some "//a"; Some "a"; Some "."; Some ""; Some ""; Some ".."; Some "specs"]%string.
Proof. reflexivity. Qed.

(** ** The commands *)

(** The arguments after a fixed beginning. *)
Fixpoint after (words : list string) (args : list bytes) : option (list bytes) :=
  match words, args with
  | [], _ => Some args
  | word :: words, arg :: args => if bool_decide (arg = str word) then after words args else None
  | _ :: _, [] => None
  end.
Definition arm : Type := list bytes -> option (res bytes bytes).
Definition arm0 (words : list string) (result : res bytes bytes) : arm := fun args =>
  match after words args with Some [] => Some result | _ => None end.
Definition arm1 (words : list string) (f : bytes -> res bytes bytes) : arm := fun args =>
  match after words args with Some [a] => Some (f a) | _ => None end.
Definition arm2 (words : list string) (f : bytes -> bytes -> res bytes bytes) : arm := fun args =>
  match after words args with Some [a; b] => Some (f a b) | _ => None end.
Definition arm3 (words : list string) (f : bytes -> bytes -> bytes -> res bytes bytes) : arm := fun args =>
  match after words args with Some [a; b; c] => Some (f a b c) | _ => None end.
Definition arm4 (words : list string) (f : bytes -> bytes -> bytes -> bytes -> res bytes bytes) : arm := fun args =>
  match after words args with Some [a; b; c; d] => Some (f a b c d) | _ => None end.
Definition arm_rest (words : list string) (f : list bytes -> res bytes bytes) : arm := fun args =>
  f <$> after words args.
(** [rest @ ..] with the guard [!rest.is_empty()]. *)
Definition arm_some (words : list string) (f : list bytes -> res bytes bytes) : arm := fun args =>
  match after words args with Some (a :: rest) => Some (f (a :: rest)) | _ => None end.
(** One argument and a nonempty rest. *)
Definition arm1_some (words : list string) (f : bytes -> list bytes -> res bytes bytes) : arm := fun args =>
  match after words args with Some (a :: b :: rest) => Some (f a (b :: rest)) | _ => None end.

Section commands.
Context {W : PtrWidth} {H : Sha256} {FS : FileSystem}.

Definition usdt_to_usdd (amount : bytes) : res bytes bytes :=
  amount ← cli_parse_u64 amount "micro-USDT amount";
  converted ← ok_or (usdt_micro_to_usdd_base amount) (str "USDT amount overflows USDD base units");
  Ok (show (uval converted)).
Definition usdd_to_usdt (amount : bytes) : res bytes bytes :=
  amount ← cli_parse_u64 amount "USDD base amount";
  converted ← ok_or (usdd_base_to_usdt_micro amount) (str "USDD amount is not exactly divisible by 100 base units");
  Ok (show (uval converted)).

Definition deposit_id (encoded : bytes) : res bytes bytes :=
  deposit ← decode_record VaultDeposit encoded "deposit";
  Ok (to_string (VaultDeposit_deposit_id deposit)).
Definition deposit_inspect (encoded : bytes) : res bytes bytes :=
  deposit ← decode_record VaultDeposit encoded "deposit";
  Ok (pretty (debug deposit) ++ [newline_byte] ++ str "deposit_id=" ++ to_string (VaultDeposit_deposit_id deposit)
      ++ [newline_byte] ++ str "elements_script_hash=" ++ to_string (VaultDeposit_elements_script_hash deposit)).
Definition inspect (T : Type) `{CanonicalDecode T} `{Debug T} (name : string) (encoded : bytes) : res bytes bytes :=
  value ← decode_record T encoded name; Ok (pretty (debug value)).

Definition mint_batch (deposits : list bytes) : res bytes bytes :=
  deposits ← mapM (fun encoded => decode_record VaultDeposit encoded "deposit") deposits;
  batch ← shown_as (str "invalid mint batch: ") (MintBatch_from_deposits deposits);
  encoded ← expect (encode batch);
  Ok (encode_hex encoded).

Definition burn_payload (encoded : bytes) : res bytes bytes :=
  burn ← decode_record Burn encoded "burn";
  encoded ← expect (encode (Burn_burn_payload burn));
  Ok (encode_hex encoded).
Definition elements_genesis_of (elements_genesis : bytes) : res bytes Hash32 :=
  shown_as (str "invalid Elements genesis: ") (Hash32_from_str elements_genesis).
Definition burn_id (elements_genesis encoded : bytes) : res bytes bytes :=
  elements_genesis ← elements_genesis_of elements_genesis;
  burn ← decode_record Burn encoded "burn";
  Ok (to_string (Burn_redemption_id burn elements_genesis)).
Definition redeem_claim (elements_genesis encoded burn_index : bytes) : res bytes bytes :=
  elements_genesis ← elements_genesis_of elements_genesis;
  burn ← decode_record Burn encoded "burn";
  burn_index ← cli_parse_u64 burn_index "burn index";
  let claim := Burn_solidity_claim burn elements_genesis in
  leaf ← shown (SolidityBurnClaim_burn_leaf claim burn_index);
  encoded ← expect (encode claim);
  Ok (str "claim=" ++ encode_hex encoded ++ [newline_byte] ++ str "burn_id=" ++ to_string (sbc_burn_id claim)
      ++ [newline_byte] ++ str "burn_leaf=" ++ to_string leaf).

(** [VALID] or [INVALID]. *)
Definition verdict (valid : bool) : bytes := if valid then str "VALID" else str "INVALID".
Definition root_and_proof (root : Hash32) (proof : bytes) : bytes :=
  str "root=" ++ to_string root ++ [newline_byte] ++ str "proof=" ++ encode_hex proof.

Definition burn_tree_root (leaves : list bytes) : res bytes bytes :=
  leaves ← parse_hashes leaves "burn leaf";
  tree ← shown (BurnAccumulator_from_leaves leaves);
  root ← expect (BurnAccumulator_root tree);
  Ok (to_string root).
Definition burn_tree_prove (index : bytes) (leaves : list bytes) : res bytes bytes :=
  index ← cli_parse_u64 index "burn index";
  leaves ← parse_hashes leaves "burn leaf";
  tree ← shown (BurnAccumulator_from_leaves leaves);
  proof ← shown (BurnAccumulator_proof tree index);
  root ← expect (BurnAccumulator_root tree);
  encoded ← expect (encode proof);
  Ok (root_and_proof root encoded).
Definition burn_tree_verify (root leaf index proof : bytes) : res bytes bytes :=
  root ← shown (Hash32_from_str root);
  leaf ← shown (Hash32_from_str leaf);
  index ← cli_parse_u64 index "burn index";
  proof ← decode_record BurnProof proof "64-sibling burn proof";
  Ok (verdict (BurnProof_verify proof root leaf index)).

Definition manifest_hash (encoded : bytes) : res bytes bytes :=
  manifest ← decode_record ProtocolManifest encoded "manifest";
  value ← shown (ProtocolManifest_manifest_id manifest);
  Ok (to_string value).

Definition parse_leaves (values : list bytes) : res bytes (list Hash32) :=
  mapM (fun value => bs ← shown (decode_hex value); expect (merkle_leaf bs)) values.
Definition merkle_root_command (leaves : list bytes) : res bytes bytes :=
  leaves ← parse_leaves leaves;
  root ← expect (merkle_root leaves);
  Ok (to_string root).
Definition merkle_prove (index : bytes) (leaves : list bytes) : res bytes bytes :=
  index ← ok_or (parse_usize index) (str "invalid Merkle index");
  leaves ← parse_leaves leaves;
  root ← expect (merkle_root leaves);
  proof ← shown (merkle_proof leaves (Z.to_nat (uval index)));
  encoded ← expect (encode proof);
  Ok (root_and_proof root encoded).
Definition merkle_verify (root leaf_data proof : bytes) : res bytes bytes :=
  root ← shown (Hash32_from_str root);
  leaf_data ← shown (decode_hex leaf_data);
  proof_bytes ← shown (decode_hex proof);
  proof ← shown (decode_exact (A:=MerkleProof) proof_bytes);
  leaf ← expect (merkle_leaf leaf_data);
  valid ← shown (MerkleProof_verify proof leaf root);
  Ok (verdict valid).

(** [name=value] on a line of its own, after another. *)
Definition field_line (name : string) (value : bytes) : bytes := newline_byte :: str name ++ str "=" ++ value.

Definition audit_check (actual recorded deposited paid minted burned unminted unpaid : bytes) : res bytes bytes :=
  actual ← cli_parse_u64 actual "actual vault balance";
  recorded ← cli_parse_u64 recorded "recorded backing";
  deposited ← cli_parse_u64 deposited "total deposits";
  paid ← cli_parse_u64 paid "total paid";
  minted ← cli_parse_u64 minted "total minted";
  burned ← cli_parse_u64 burned "total burned";
  unminted ← cli_parse_u64 unminted "unminted deposits";
  unpaid ← cli_parse_u64 unpaid "unpaid burns";
  report ← shown (AuditSnapshot_verify (MkAuditSnapshot actual recorded deposited paid minted burned unminted unpaid));
  Ok (str "PASS"
      ++ field_line "expected_backing_usdt_micro" (show (ar_expected_backing_usdt_micro report))
      ++ field_line "physical_surplus_usdt_micro" (show (ar_physical_surplus_usdt_micro report))
      ++ field_line "circulating_usdd_base" (show (ar_circulating_usdd_base report))).

(** [fs::read_to_string]: a file that is not UTF-8 is an I/O error. *)
Definition read_to_string (what : string) (path : bytes) : res bytes bytes :=
  let error message := str "cannot read " ++ str what ++ str " at " ++ path ++ str ": " ++ message in
  match fs_read path with
  | inl contents => if utf8 contents then Ok contents else Err (error (str "stream did not contain valid UTF-8"))
  | inr message => Err (error message)
  end.

Definition replay_text (events : AuditEvents) (snapshot : AuditSnapshot) (report : AuditReport) : bytes :=
  str "PASS (chain-event input must be independently authenticated)"
  ++ field_line "deposits" (show_nat (length (av_deposits events)))
  ++ field_line "mints" (show_nat (length (av_mints events)))
  ++ field_line "burns" (show_nat (length (av_burns events)))
  ++ field_line "payouts" (show_nat (length (av_payouts events)))
  ++ field_line "expected_backing_usdt_micro" (show (ar_expected_backing_usdt_micro report))
  ++ field_line "physical_surplus_usdt_micro" (show (ar_physical_surplus_usdt_micro report))
  ++ field_line "circulating_usdd_base" (show (ar_circulating_usdd_base report))
  ++ field_line "unminted_usdt_micro" (show (as_deposits_unminted_usdt_micro snapshot))
  ++ field_line "unpaid_burns_usdt_micro" (show (as_burns_unpaid_usdt_micro snapshot)).
Definition audit_replay (actual recorded path : bytes) : res bytes bytes :=
  actual ← cli_parse_u64 actual "actual vault balance";
  recorded ← cli_parse_u64 recorded "recorded backing";
  contents ← read_to_string "audit events" path;
  events ← parse_audit_events contents;
  '(snapshot, report) ← shown (reconstruct_audit_snapshot actual recorded (av_deposits events) (av_mints events)
                                 (av_burns events) (av_payouts events));
  Ok (replay_text events snapshot report).

Definition journal_inspect (encoded : bytes) : res bytes bytes :=
  bs ← shown (decode_hex encoded);
  journal ← shown (StrictJournal_decode_strict bs);
  Ok (str "statement=" ++ pretty (debug (sj_statement_kind journal))
      ++ field_line "program_id" (to_string (sj_program_id journal))
      ++ field_line "payload_sha256" (to_string (sj_payload_sha256 journal))
      ++ field_line "payload" (encode_hex (sj_payload journal))).

Definition gate_report (path : bytes) : res bytes bytes :=
  contents ← read_to_string "launch gates" path;
  report ← shown (parse_tsv contents);
  let evidence_root := default (str ".") (path_parent path) in
  report ← shown (verify_evidence_files report evidence_root);
  Ok (render_text report).

(** ** Dispatch *)

Definition blocked (message : string) : list bytes -> res bytes bytes := fun _ => Err (str "BLOCKED: " ++ str message).
Definition audit_check_arm : arm := fun args =>
  match after ["audit"; "check"]%string args with
  | Some [actual; recorded; deposited; paid; minted; burned; unminted; unpaid] =>
      Some (audit_check actual recorded deposited paid minted burned unminted unpaid)
  | _ => None
  end.

(** The arms of the match, in order. *)
Definition arms : list arm := [
  arm0 [] (Ok HELP); arm0 ["help"] (Ok HELP); arm0 ["--help"] (Ok HELP); arm0 ["-h"] (Ok HELP);
  arm1 ["amount"; "usdt-to-usdd"] usdt_to_usdd;
  arm1 ["amount"; "usdd-to-usdt"] usdd_to_usdt;
  arm1 ["id"; "deposit"] deposit_id;
  arm1 ["deposit"; "id"] deposit_id;
  arm1 ["deposit"; "inspect"] deposit_inspect;
  arm_rest ["prove-deposit"] (blocked "no production Ethereum finality/execution SP1 guest or ELF is available");
  arm_some ["mint"; "batch"] mint_batch;
  arm1 ["mint"; "inspect"] (inspect MintBatch "mint batch");
  arm1 ["burn"; "payload"] burn_payload;
  arm2 ["burn"; "id"] burn_id;
  arm_rest ["prove-elements"]
    (blocked "no production full-validity Elements/Bitcoin/BMM SP1 guest or ELF is available");
  arm3 ["redeem"; "claim"] redeem_claim;
  arm_rest ["burn-tree"; "root"] burn_tree_root;
  arm1_some ["burn-tree"; "prove"] burn_tree_prove;
  arm4 ["burn-tree"; "verify"] burn_tree_verify;
  arm2 ["id"; "redemption"] burn_id;
  arm1 ["decode"; "deposit"] (inspect VaultDeposit "deposit");
  arm1 ["decode"; "mint"] (inspect MintOutput "mint");
  arm1 ["decode"; "mint-batch"] (inspect MintBatch "mint batch");
  arm1 ["decode"; "burn"] (inspect Burn "burn");
  arm1 ["decode"; "manifest"] (inspect ProtocolManifest "manifest");
  arm1 ["manifest"; "hash"] manifest_hash;
  arm_some ["merkle"; "root"] merkle_root_command;
  arm1_some ["merkle"; "prove"] merkle_prove;
  arm3 ["merkle"; "verify"] merkle_verify;
  audit_check_arm;
  arm3 ["audit"; "replay"] audit_replay;
  arm1 ["journal"; "inspect"] journal_inspect;
  arm0 ["gates"; "report"] (gate_report (str "specs/launch-gates.tsv"));
  arm1 ["gates"; "report"] gate_report]%string.

Fixpoint first_arm (arms : list arm) (args : list bytes) : res bytes bytes :=
  match arms with
  | [] => Err (str "unknown or incomplete command" ++ [newline_byte; newline_byte] ++ HELP)
  | a :: arms => match a args with Some result => result | None => first_arm arms args end
  end.
Definition run_str (args : list bytes) : res bytes bytes := first_arm arms args.
Definition run (args : list bytes) : res bytes bytes := run_str args.

(** [main]: the exit status with what goes to the standard output and error;
    [None] is a panic. *)
Definition cli_main (args : list bytes) : option (Z * bytes * bytes) :=
  match run args with
  | Ok output => Some (0, output ++ [newline_byte], [])
  | Err error => Some (2, [], str "error: " ++ error ++ [newline_byte])
  | Panic => None
  end.
End commands.
