(* ===== verification/CliProofs.v ===== *)
(** What the command line does.

    The text it prints can be given back to it: proofs verify, amounts convert
    back, and an audit replay passes exactly for the event files of balanced
    histories.  It never panics on arguments shorter than 4 GiB. *)

From S2P Require Import Prelude Encoding Params Hashing Text Gates BurnAccumulator Merkle Records Deposits Burns.
From S2P Require Import ElementsState Controller Solvency ManifestFile Journal Totality EthereumInbound GuestProgram GuestTotality Display Cli.

Local Open Scope Z_scope.
#[local] Opaque print_number.

(** ** Dispatch *)

Lemma first_arm_skip a l args : a args = None -> first_arm (a :: l) args = first_arm l args.
Proof. intros E. cbn [first_arm]. by rewrite E. Qed.
Lemma first_arm_take a l args r : a args = Some r -> first_arm (a :: l) args = r.
Proof. intros E. cbn [first_arm]. by rewrite E. Qed.

Ltac dispatch :=
  unfold run_str, arms; repeat (rewrite first_arm_skip by reflexivity); by apply first_arm_take.

Section dispatch.
Context {W : PtrWidth} {H : Sha256} {FS : FileSystem}.

Lemma run_usdt_to_usdd a : run_str [str "amount"; str "usdt-to-usdd"; a] = usdt_to_usdd a.
Proof. dispatch. Qed.
Lemma run_usdd_to_usdt a : run_str [str "amount"; str "usdd-to-usdt"; a] = usdd_to_usdt a.
Proof. dispatch. Qed.
Lemma run_burn_root leaves : run_str (str "burn-tree" :: str "root" :: leaves) = burn_tree_root leaves.
Proof. dispatch. Qed.
Lemma run_burn_prove index leaf leaves :
  run_str (str "burn-tree" :: str "prove" :: index :: leaf :: leaves) = burn_tree_prove index (leaf :: leaves).
Proof. dispatch. Qed.
Lemma run_burn_verify root leaf index proof :
  run_str [str "burn-tree"; str "verify"; root; leaf; index; proof] = burn_tree_verify root leaf index proof.
Proof. dispatch. Qed.
Lemma run_merkle_root leaf leaves : run_str (str "merkle" :: str "root" :: leaf :: leaves) = merkle_root_command (leaf :: leaves).
Proof. dispatch. Qed.
Lemma run_merkle_prove index leaf leaves :
  run_str (str "merkle" :: str "prove" :: index :: leaf :: leaves) = merkle_prove index (leaf :: leaves).
Proof. dispatch. Qed.
Lemma run_merkle_verify root leaf proof : run_str [str "merkle"; str "verify"; root; leaf; proof] = merkle_verify root leaf proof.
Proof. dispatch. Qed.
Lemma run_replay actual recorded path : run_str [str "audit"; str "replay"; actual; recorded; path] = audit_replay actual recorded path.
Proof. dispatch. Qed.
Lemma run_gates path : run_str [str "gates"; str "report"; path] = gate_report path.
Proof. dispatch. Qed.
End dispatch.

(** ** Reading arguments *)

Section reading.
Context {W : PtrWidth} {H : Sha256} {FS : FileSystem}.

Lemma shown_Ok {E A : Type} `{Display E} (m : res E A) x : shown m = Ok x <-> m = Ok x.
Proof. apply map_err_Ok. Qed.
Lemma shown_as_Ok {E A : Type} `{Display E} prefix (m : res E A) x : shown_as prefix m = Ok x <-> m = Ok x.
Proof. apply map_err_Ok. Qed.
Lemma cli_parse_Ok value name n : cli_parse_u64 value name = Ok n <-> parse_u64 value = Some n.
Proof. apply ok_or_Ok. Qed.
Lemma parse_show (n : u64) name : cli_parse_u64 (show n) name = Ok n.
Proof. apply cli_parse_Ok, print_parse. Qed.

Lemma decode_record_Ok {T : Type} {ET : CanonicalEncode T} {DT : CanonicalDecode T} {CT : Codec T} encoded name (x : T) :
  decode_record T encoded name = Ok x <-> exists bs, decode_hex encoded = Ok bs /\ valid T x /\ encode x = Some bs.
Proof.
  unfold decode_record. rewrite res_bind_Ok. setoid_rewrite shown_as_Ok. setoid_rewrite decode_exact_spec. done.
Qed.

(** A list of arguments is read exactly when each argument is. *)
Lemma read_each {A : Type} (f : bytes -> res bytes A) (args : list bytes) (xs : list A) :
  mapM f args = Ok xs <-> Forall2 (fun arg x => f arg = Ok x) args xs.
Proof.
  revert xs. induction args as [|arg args IH]; intros xs; cbn [mapM].
  - split; [by intros [= <-]|by intros E; inversion E].
  - rewrite res_bind_Ok. setoid_rewrite res_bind_Ok. setoid_rewrite IH. split.
    + intros (x & Hx & ys & Hy & [= <-]). by constructor.
    + intros E. inversion E; subst. eauto 6.
Qed.
Lemma parse_hashes_Ok values name hs : parse_hashes values name = Ok hs <->
  Forall2 (fun value h => Hash32_from_str value = Ok h) values hs.
Proof. unfold parse_hashes. rewrite read_each. split; intros E; (eapply Forall2_impl; [exact E|]); cbn; intros ? ?; by rewrite shown_as_Ok. Qed.

Lemma hex_back bs : decode_hex (encode_hex bs) = Ok bs.
Proof. apply decode_hex_Ok. by rewrite encode_hex_strip, encode_hex_lower. Qed.
Lemma hash_back (h : Hash32) : Hash32_from_str (to_string h) = Ok h.
Proof. apply Hash32_from_str_Ok. unfold to_string, Hash32_display, Hash32_to_hex. by rewrite encode_hex_strip, encode_hex_lower. Qed.
Lemma record_back {T : Type} {ET : CanonicalEncode T} {DT : CanonicalDecode T} {CT : Codec T} name (x : T) bs :
  valid T x -> encode x = Some bs -> decode_record T (encode_hex bs) name = Ok x.
Proof. intros Hv He. apply decode_record_Ok. exists bs. by rewrite hex_back. Qed.

(** ** Amounts *)

(** Amounts convert back: what the command prints for one direction is
    accepted by the other and gives the decimal form of what was typed, and the
    factor is exactly 100. *)
Theorem cli_amounts_inverse :
  (forall a out, run_str [str "amount"; str "usdt-to-usdd"; a] = Ok out ->
     exists m b : u64, parse_u64 a = Some m /\ out = show b /\ uval b = 100 * m /\
       run_str [str "amount"; str "usdd-to-usdt"; out] = Ok (show m)) /\
  (forall b out, run_str [str "amount"; str "usdd-to-usdt"; b] = Ok out ->
     exists n m : u64, parse_u64 b = Some n /\ out = show m /\ uval n = 100 * m /\
       run_str [str "amount"; str "usdt-to-usdd"; out] = Ok (show n)).
Proof.
  setoid_rewrite run_usdt_to_usdd. setoid_rewrite run_usdd_to_usdt. unfold usdt_to_usdd, usdd_to_usdt. split.
  - intros a out E. inv_ok. apply cli_parse_Ok in Hx. apply conversion_inverse in Hx0 as Hb.
    exists x, x0. rewrite parse_show. cbn. rewrite Hb. by apply base_to_micro_Some in Hb.
  - intros a out E. inv_ok. apply cli_parse_Ok in Hx. apply conversion_inverse in Hx0 as Hb.
    exists x, x0. rewrite parse_show. cbn. rewrite Hb. by apply base_to_micro_Some in Hx0.
Qed.

(** ** Proofs *)

Definition proof_text (root proof : bytes) : bytes := str "root=" ++ root ++ [newline_byte] ++ str "proof=" ++ proof.

Lemma burn_root_Ok leaves root : burn_tree_root leaves = Ok root <->
  exists hs, Forall2 (fun value h => Hash32_from_str value = Ok h) leaves hs /\ Z.of_nat (length hs) < 2 ^ 64 /\
    root = to_string (subtree hs 64 0).
Proof.
  unfold burn_tree_root. rewrite res_bind_Ok. setoid_rewrite parse_hashes_Ok. split.
  - intros (hs & Hh & E). exists hs. split; [done|]. inv_ok. unfold BurnAccumulator_from_leaves in Hx.
    destruct (uint_try 64 _) as [n|] eqn:En; [|done]. apply uint_try_Some in En. pose proof (uint_range n).
    injection Hx as <-. unfold BurnAccumulator_root in Hx0. cbn [ba_leaves] in Hx0. rewrite root_for_leaves_Some in Hx0.
    injection Hx0 as <-. split; [lia|done].
  - intros (hs & Hh & Hl & ->). exists hs. split; [done|]. unfold BurnAccumulator_from_leaves.
    destruct (uint_try 64 _) as [n|] eqn:En; [|apply uint_try_None in En; lia]. cbn.
    unfold BurnAccumulator_root. cbn [ba_leaves]. by rewrite root_for_leaves_Some.
Qed.

(** What [burn-tree prove] prints is what [burn-tree verify] accepts. *)
Lemma burn_prove_verifies index leaves out : Z.of_nat (length leaves) <= 2 ^ Zpos usize_bits ->
  burn_tree_prove index leaves = Ok out ->
  exists root proof i leaf, out = proof_text root proof /\ burn_tree_root leaves = Ok root /\
    parse_u64 index = Some i /\ leaves !! Z.to_nat i = Some leaf /\
    burn_tree_verify root leaf index proof = Ok (str "VALID").
Proof.
  intros Hmem E. unfold burn_tree_prove in E. apply res_bind_Ok in E as (i & Hi & E). apply cli_parse_Ok in Hi as Hi'.
  apply res_bind_Ok in E as (hs & Hh & E). apply parse_hashes_Ok in Hh as Hf. pose proof (Forall2_length _ _ _ Hf) as Hlen.
  apply res_bind_Ok in E as (tree & Ht & E). apply res_bind_Ok in E as (p & Hp & E).
  apply res_bind_Ok in E as (r & Hr & E). apply res_bind_Ok in E as (bs & Hbs & E). apply expect_Ok in Hr, Hbs.
  injection E as <-. apply shown_Ok in Ht as Ht', Hp. unfold BurnAccumulator_from_leaves in Ht'.
  destruct (uint_try 64 _) as [n|] eqn:En; [|done]. injection Ht' as <-. apply uint_try_Some in En. pose proof (uint_range n).
  assert (r = subtree hs 64 0) as ->.
  { unfold BurnAccumulator_root in Hr. cbn [ba_leaves] in Hr. rewrite root_for_leaves_Some in Hr. by injection Hr. }
  destruct (hs !! Z.to_nat i) as [h|] eqn:Hlk.
  2: { by rewrite (proof_outside (MkBurnAccumulator hs)) in Hp. }
  destruct (proof_verifies (MkBurnAccumulator hs) i h) as (p' & Hp' & Hv); [cbn; lia|done|].
  assert (p' = p) as -> by congruence.
  destruct (Forall2_lookup_r _ _ _ _ _ Hf Hlk) as (leaf & Hleaf & Hhash).
  exists (to_string (subtree hs 64 0)), (encode_hex bs), i, leaf. split; [done|].
  split; [apply burn_root_Ok; exists hs; split; [done|]; split; [lia|done]|]. split; [done|]. split; [done|].
  unfold burn_tree_verify. rewrite hash_back, Hhash. cbn [shown map_err mbind res_bind]. rewrite Hi. cbn [mbind res_bind].
  rewrite (record_back _ p) by done. cbn [mbind res_bind]. unfold verdict. cbn [ba_leaves] in Hv. by rewrite Hv.
Qed.

Lemma merkle_depth (p : MerkleProof) leaf root : MerkleProof_verify p leaf root = Ok true ->
  (length (mp_siblings p) <= 64)%nat.
Proof.
  intros E. unfold MerkleProof_verify in E. inv_ok. apply Z.eqb_eq in Hx0. pose proof (uint_range (mp_leaf_count p)).
  assert (expected_depth (mp_leaf_count p) <= 64) as Hd.
  { unfold expected_depth. case_match; [lia|]. apply Z.leb_gt in H1. unfold leading_zeros64. case_match; [lia|].
    pose proof (Z.log2_lt_pow2 (mp_leaf_count p - 1) 64). lia. }
  lia.
Qed.

Lemma parse_leaves_Ok values hs : parse_leaves values = Ok hs <->
  Forall2 (fun value h => exists bs, decode_hex value = Ok bs /\ merkle_leaf bs = Some h) values hs.
Proof.
  unfold parse_leaves. rewrite read_each.
  assert (forall value h, (bs ← shown (decode_hex value); expect (merkle_leaf bs)) = Ok h <->
    exists bs, decode_hex value = Ok bs /\ merkle_leaf bs = Some h) as Hv.
  { intros value h. rewrite res_bind_Ok. setoid_rewrite shown_Ok. by setoid_rewrite expect_Ok. }
  split; intros E; (eapply Forall2_impl; [exact E|]); cbn; intros ? ?; by rewrite Hv.
Qed.

(** What [merkle prove] prints is what [merkle verify] accepts. *)
Lemma merkle_prove_verifies index leaves out : Z.of_nat (length leaves) < 2 ^ 64 ->
  merkle_prove index leaves = Ok out ->
  exists root proof i leaf, out = proof_text root proof /\ merkle_root_command leaves = Ok root /\
    parse_usize index = Some i /\ leaves !! Z.to_nat i = Some leaf /\
    merkle_verify root leaf proof = Ok (str "VALID").
Proof.
  intros Hmem E. unfold merkle_prove in E. apply res_bind_Ok in E as (i & Hi & E). apply ok_or_Ok in Hi.
  apply res_bind_Ok in E as (hs & Hh & E). apply parse_leaves_Ok in Hh as Hf. pose proof (Forall2_length _ _ _ Hf) as Hlen.
  apply res_bind_Ok in E as (r & Hr & E). apply res_bind_Ok in E as (p & Hp & E). apply res_bind_Ok in E as (bs & Hbs & E).
  apply expect_Ok in Hr, Hbs. apply shown_Ok in Hp. injection E as <-.
  pose proof (merkle_proof_spec hs (Z.to_nat i) ltac:(lia)) as Hs.
  destruct (hs !! Z.to_nat i) as [h|] eqn:Hlk; [|by rewrite Hs in Hp].
  destruct Hs as (p' & r' & Hp' & Hr' & Hv). assert (p' = p) as -> by congruence. assert (r' = r) as -> by congruence.
  destruct (Forall2_lookup_r _ _ _ _ _ Hf Hlk) as (leaf & Hleaf & data & Hdata & Hleaf').
  exists (to_string r), (encode_hex bs), i, leaf. split; [done|].
  split; [unfold merkle_root_command; rewrite Hh; cbn; by rewrite Hr|]. split; [done|]. split; [done|].
  unfold merkle_verify. rewrite hash_back, Hdata. cbn [shown map_err mbind res_bind]. rewrite hex_back. cbn [shown map_err mbind res_bind].
  rewrite (proj2 (decode_exact_spec bs p)); [|split; [by apply (merkle_depth p h r)|done]]. cbn [shown map_err mbind res_bind].
  rewrite Hleaf'. cbn. by rewrite Hv.
Qed.

(** What [burn-tree verify] accepts under a printed root is in the tree. *)
Lemma burn_verify_sound leaves root leaf index proof :
  burn_tree_root leaves = Ok root -> burn_tree_verify root leaf index proof = Ok (str "VALID") ->
  exists hs h p i, Forall2 (fun value h => Hash32_from_str value = Ok h) leaves hs /\
    Hash32_from_str leaf = Ok h /\ parse_u64 index = Some i /\
    (h = default (hash_bytes [x00]) (hs !! Z.to_nat i) \/ proof_collision hs 0 (bp_siblings p) h i).
Proof.
  intros (hs & Hf & _ & ->)%burn_root_Ok E. unfold burn_tree_verify in E. rewrite hash_back in E.
  cbn [shown map_err mbind res_bind] in E. apply res_bind_Ok in E as (h & Hh & E). apply shown_Ok in Hh.
  apply res_bind_Ok in E as (i & Hi & E). apply cli_parse_Ok in Hi. apply res_bind_Ok in E as (p & _ & E).
  exists hs, h, p, i. split; [done|]. split; [done|]. split; [done|].
  destruct (BurnProof_verify p (subtree hs 64 0) h i) eqn:Hv; [|done].
  apply verify_sound in Hv as [[-> _]|Hc]; [by left|by right].
Qed.

(** C21: The proofs the command line prints verify: whatever [burn-tree prove] and
    [merkle prove] print is, for the leaf at that position and the root the
    [root] command prints for the same leaves, a proof the [verify] command
    calls VALID; and what [burn-tree verify] calls VALID under a printed root is
    the leaf at that position (the empty leaf past the end), unless a hashing
    step collides. *)
Theorem cli_proofs_verify :
  (forall index leaves out, Z.of_nat (length leaves) <= 2 ^ Zpos usize_bits ->
     run_str (str "burn-tree" :: str "prove" :: index :: leaves) = Ok out ->
     exists root proof i leaf, out = proof_text root proof /\ run_str (str "burn-tree" :: str "root" :: leaves) = Ok root /\
       parse_u64 index = Some i /\ leaves !! Z.to_nat i = Some leaf /\
       run_str [str "burn-tree"; str "verify"; root; leaf; index; proof] = Ok (str "VALID")) /\
  (forall index leaves out, Z.of_nat (length leaves) < 2 ^ 64 ->
     run_str (str "merkle" :: str "prove" :: index :: leaves) = Ok out ->
     exists root proof i leaf, out = proof_text root proof /\ run_str (str "merkle" :: str "root" :: leaves) = Ok root /\
       parse_usize index = Some i /\ leaves !! Z.to_nat i = Some leaf /\
       run_str [str "merkle"; str "verify"; root; leaf; proof] = Ok (str "VALID")) /\
  (forall leaves root leaf index proof, run_str (str "burn-tree" :: str "root" :: leaves) = Ok root ->
     run_str [str "burn-tree"; str "verify"; root; leaf; index; proof] = Ok (str "VALID") ->
     exists hs h p i, Forall2 (fun value h => Hash32_from_str value = Ok h) leaves hs /\
       Hash32_from_str leaf = Ok h /\ parse_u64 index = Some i /\
       (h = default (hash_bytes [x00]) (hs !! Z.to_nat i) \/ proof_collision hs 0 (bp_siblings p) h i)).
Proof.
  split; [|split].
  - intros index [|leaf leaves] out Hl; [intros E; exfalso; revert E; unfold run_str, arms;
      repeat (rewrite first_arm_skip by reflexivity); done|].
    rewrite run_burn_prove. intros (root & proof & i & x & ? & ? & ? & ? & ?)%burn_prove_verifies; [|done].
    exists root, proof, i, x. by rewrite run_burn_root, run_burn_verify.
  - intros index [|leaf leaves] out Hl; [intros E; exfalso; revert E; unfold run_str, arms;
      repeat (rewrite first_arm_skip by reflexivity); done|].
    rewrite run_merkle_prove. intros (root & proof & i & x & ? & ? & ? & ? & ?)%merkle_prove_verifies; [|done].
    exists root, proof, i, x. by rewrite run_merkle_root, run_merkle_verify.
  - intros leaves root leaf index proof. rewrite run_burn_root, run_burn_verify. apply burn_verify_sound.
Qed.
End reading.

(** ** The event file *)

Inductive AuditEvent : Type :=
| DepositEvent (d : AuditedDeposit) | MintEvent (m : AuditedMint)
| BurnEvent (b : AuditedBurn) | PayoutEvent (p : AuditedPayout).

(** The five columns of an event. *)
Inductive event_fields : list bytes -> AuditEvent -> Prop :=
| deposit_fields index id amount n h a :
    parse_u64 index = Some n -> Hash32_from_str id = Ok h -> parse_u64 amount = Some a ->
    event_fields [str "deposit"; index; id; amount; str "-"] (DepositEvent (MkAuditedDeposit n h a))
| mint_fields index id amount n h a :
    parse_u64 index = Some n -> Hash32_from_str id = Ok h -> parse_u64 amount = Some a ->
    event_fields [str "mint"; index; id; amount; str "-"] (MintEvent (MkAuditedMint n h a))
| burn_fields index id amount recipient n h a r :
    parse_u64 index = Some n -> Hash32_from_str id = Ok h -> parse_u64 amount = Some a ->
    EthAddress_from_str recipient = Ok r ->
    event_fields [str "burn"; index; id; amount; recipient] (BurnEvent (MkAuditedBurn n h a r))
| payout_fields id amount recipient h a r :
    Hash32_from_str id = Ok h -> parse_u64 amount = Some a -> EthAddress_from_str recipient = Ok r ->
    event_fields [str "payout"; str "-"; id; amount; recipient] (PayoutEvent (MkAuditedPayout h a r)).

(** The events by kind, each in the order of the file. *)
Definition collect (es : list AuditEvent) : AuditEvents := {|
  av_deposits := omap (fun e => match e with DepositEvent d => Some d | _ => None end) es;
  av_mints := omap (fun e => match e with MintEvent m => Some m | _ => None end) es;
  av_burns := omap (fun e => match e with BurnEvent b => Some b | _ => None end) es;
  av_payouts := omap (fun e => match e with PayoutEvent p => Some p | _ => None end) es
|}.
Definition event_rows (rows : list bytes) : list bytes :=
  filter (fun line => (length line =? 0)%nat || starts_with x23 line = false) rows.
Definition push_event (e : AuditEvent) (events : AuditEvents) : AuditEvents :=
  match e with
  | DepositEvent d => push_deposit d events | MintEvent m => push_mint m events
  | BurnEvent b => push_burn b events | PayoutEvent p => push_payout p events
  end.

Lemma collect_snoc es e : collect (es ++ [e]) = push_event e (collect es).
Proof. unfold collect. rewrite !omap_app. by destruct e; cbn; rewrite ?app_nil_r. Qed.

Lemma audit_row_Ok n line events events' : audit_row n line events = Ok events' <->
  exists e, event_fields (split_on tab line) e /\ events' = push_event e events.
Proof.
  unfold audit_row. split.
  - destruct (split_on tab line) as [|kind [|index [|id [|amount [|recipient [|]]]]]] eqn:Es; try done.
    intros E. apply res_bind_Ok in E as (h & Hh & E). apply shown_as_Ok in Hh. apply res_bind_Ok in E as (a & Ha & E).
    apply cli_parse_Ok in Ha. unfold audit_event in E.
    repeat (case_bool_decide; subst); cbn [fail_if mbind res_bind] in E; try done.
    all: inv_ok; repeat match goal with
      | H : cli_parse_u64 _ _ = Ok _ |- _ => apply cli_parse_Ok in H
      | H : shown_as _ _ = Ok _ |- _ => apply shown_as_Ok in H
      end; (eexists; split; [by econstructor|done]).
  - intros (e & He & ->). destruct He; cbn [push_event]; unfold audit_event, cli_parse_u64, shown_as;
      repeat match goal with
      | E : _ = Some _ |- _ => rewrite E; clear E
      | E : _ = Ok _ |- _ => rewrite E; clear E
      end; reflexivity.
Qed.

Lemma event_rows_cons line rows :
  event_rows (line :: rows) = if (length line =? 0)%nat || starts_with x23 line then event_rows rows else line :: event_rows rows.
Proof. unfold event_rows. rewrite filter_cons. by destruct ((length line =? 0)%nat || starts_with x23 line). Qed.

Lemma audit_rows_Ok rows : forall i pre events', res_foldi audit_line i rows (collect pre) = Ok events' <->
  exists es, Forall2 (fun line e => event_fields (split_on tab line) e) (event_rows rows) es /\ events' = collect (pre ++ es).
Proof.
  induction rows as [|line rows IH]; intros i pre events'; cbn [res_foldi].
  - split; [intros [= <-]; exists []; by rewrite app_nil_r|intros (es & E & ->)]. inversion E; subst. by rewrite app_nil_r.
  - rewrite event_rows_cons.
    change (audit_line i line (collect pre)) with
      (if (length line =? 0)%nat || starts_with x23 line then Ok (collect pre) else audit_row (i + 2) line (collect pre)).
    destruct ((length line =? 0)%nat || starts_with x23 line); [apply IH|].
    rewrite res_bind_Ok. setoid_rewrite audit_row_Ok. split.
    + intros (ev & (e & He & ->) & E). rewrite <- collect_snoc in E. apply IH in E as (es & Hes & ->).
      exists (e :: es). rewrite <- app_assoc. split; [by constructor|done].
    + intros (es & Hes & ->). inversion Hes as [|? e ? es' He Hes']; subst.
      exists (push_event e (collect pre)). split; [by exists e|]. rewrite <- collect_snoc. apply IH. exists es'.
      by rewrite <- app_assoc.
Qed.
Lemma audit_events_Ok text events : parse_audit_events text = Ok events <->
  exists rows es, lines text = AUDIT_HEADER :: rows /\
    Forall2 (fun line e => event_fields (split_on tab line) e) (event_rows rows) es /\ events = collect es.
Proof.
  unfold parse_audit_events. destruct (lines text) as [|header rows]; [by split; [|intros (? & ? & ? & _)]|].
  rewrite fail_then. change AuditEvents_default with (collect []). rewrite audit_rows_Ok, bool_decide_eq_false. split.
  - intros (Hh & es & Hes & ->). apply dec_stable in Hh as ->. by exists rows, es.
  - intros (? & es & [= -> ->] & Hes & ->). split; [tauto|]. by exists es.
Qed.

Section replay.
Context {W : PtrWidth} {H : Sha256} {FS : FileSystem}.

Lemma read_Ok what path text : read_to_string what path = Ok text <-> fs_read path = inl text /\ utf8 text = true.
Proof.
  unfold read_to_string. destruct (fs_read path) as [t|]; [|by split; [|intros []]].
  destruct (utf8 t) eqn:E; split; [by intros [= ->]|by intros [[= ->] _]|done|intros [[= ->] ?]; congruence].
Qed.

Lemma audit_replay_Ok actual recorded path out : audit_replay actual recorded path = Ok out <->
  exists a r text events s report, parse_u64 actual = Some a /\ parse_u64 recorded = Some r /\
    (fs_read path = inl text /\ utf8 text = true) /\ parse_audit_events text = Ok events /\
    reconstruct_audit_snapshot a r (av_deposits events) (av_mints events) (av_burns events) (av_payouts events) = Ok (s, report) /\
    out = replay_text events s report.
Proof.
  unfold audit_replay. split.
  - intros E. apply res_bind_Ok in E as (a & Ha%cli_parse_Ok & E). apply res_bind_Ok in E as (r & Hr%cli_parse_Ok & E).
    apply res_bind_Ok in E as (text & Ht%read_Ok & E). apply res_bind_Ok in E as (events & He & E).
    apply res_bind_Ok in E as ([s report] & Hs%shown_Ok & [= <-]). by exists a, r, text, events, s, report.
  - intros (a & r & text & events & s & report & Ha & Hr & Ht & He & Hs & ->).
    apply res_bind_Ok. exists a. split; [by apply cli_parse_Ok|]. apply res_bind_Ok. exists r. split; [by apply cli_parse_Ok|].
    apply res_bind_Ok. exists text. split; [by apply read_Ok|]. apply res_bind_Ok. exists events. split; [done|].
    apply res_bind_Ok. exists (s, report). split; [by apply shown_Ok|done].
Qed.

(** C20: [audit replay] prints PASS exactly when both amounts parse, the file is
    UTF-8 text with the fixed header whose rows that are neither empty nor
    comments are events, and the events, by kind and whatever their
    interleaving, are a replay-free history whose burns do not exceed its mints,
    with the typed recorded backing equal to deposits less payouts and covered by
    the typed balance; what it prints are the counts and exact sums of that
    history. *)
Theorem cli_audit_replay_iff (actual recorded path out : bytes) :
  run_str [str "audit"; str "replay"; actual; recorded; path] = Ok out <->
  exists (a r : u64) text rows es, parse_u64 actual = Some a /\ parse_u64 recorded = Some r /\
    fs_read path = inl text /\ utf8 text = true /\ lines text = AUDIT_HEADER :: rows /\
    Forall2 (fun line e => event_fields (split_on tab line) e) (event_rows rows) es /\
    let ds := av_deposits (collect es) in let ms := av_mints (collect es) in
    let bs := av_burns (collect es) in let ps := av_payouts (collect es) in
    history_audited ds ms bs ps /\
    sumZ (fun b => ab_amount_usdd_base b) bs <= sumZ (fun m => am_amount_usdd_base m) ms /\
    uval r = sumZ (fun d => ad_amount_usdt_micro d) ds - sumZ (fun p => ap_amount_usdt_micro p) ps /\
    r <= a /\
    out = replay_text (collect es) (snapshot_of a r ds ms bs ps) (report_of (snapshot_of a r ds ms bs ps)).
Proof.
  rewrite run_replay, audit_replay_Ok. setoid_rewrite audit_events_Ok. setoid_rewrite reconstruct_Ok. split.
  - intros (a & r & text & events & s & report & Ha & Hr & [Ht Hu] & (rows & es & Hl & He & ->) & (Hh & Hb & Hd & Hp & -> & ->) & ->).
    by exists a, r, text, rows, es.
  - intros (a & r & text & rows & es & Ha & Hr & Ht & Hu & Hl & He & Hh & Hb & Hd & Hp & ->).
    eexists a, r, text, (collect es), _, _. split; [done|]. split; [done|]. split; [done|].
    split; [by exists rows, es|]. split; [|done]. split; [done|]. split; [done|]. split; [done|]. by split.
Qed.
End replay.
