(* ===== verification/CliTotality.v ===== *)
(** The command line never panics, and its proving commands fail closed. *)

From S2P Require Import Prelude Encoding Params Hashing Text Gates BurnAccumulator Merkle Records Deposits Burns.
From S2P Require Import ElementsState Controller Solvency ManifestFile Journal Totality EthereumInbound GuestProgram GuestTotality.
From S2P Require Import Display Cli CliProofs.

Local Open Scope Z_scope.
#[local] Opaque print_number.

(** ** Reading arguments *)

Lemma never_expect {E A : Type} (o : option A) : is_Some o -> never (expect (E:=E) o).
Proof. by intros [a ->]. Qed.
Lemma never_ok_or {E A : Type} (o : option A) (e : E) : never (ok_or o e).
Proof. by destruct o. Qed.
Lemma never_Ok {E A : Type} (a : A) : never (E:=E) (Ok a).
Proof. done. Qed.
Lemma never_mapM {E A B : Type} (f : A -> res E B) (l : list A) : Forall (fun a => never (f a)) l -> never (mapM f l).
Proof.
  induction 1 as [|a l Ha _ IH]; [done|]. cbn [mapM]. apply never_bind; [done|]. intros x _. by apply never_bind.
Qed.
Lemma never_foldi {E A T : Type} (f : nat -> A -> T -> res E T) l i s :
  (forall i x s, never (f i x s)) -> never (res_foldi f i l s).
Proof. intros Hf. apply never_errs, errs_in_foldi. intros. by apply never_errs. Qed.

Lemma decode_hex_pairs_spec i v : never (decode_hex_pairs i v) /\
  forall bs, decode_hex_pairs i v = Ok bs -> (length bs <= length v)%nat.
Proof.
  remember (length v) as n eqn:En. revert i v En. induction n as [n IH] using lt_wf_ind. intros i [|a [|b v]] ->;
    [split; [done|by intros bs [= <-]]|split; [done|intros bs [= <-]; cbn; lia]|].
  cbn [decode_hex_pairs]. destruct (IH (length v)) with (i := S i) (v := v) as [Hn Hl]; [cbn; lia|done|]. split.
  - repeat (apply never_bind; [first [apply never_ok_or|done]|intros]). done.
  - intros bs E. inv_ok. apply Hl in Hx1. cbn [length]. lia.
Qed.
Lemma decode_hex_never v : never (decode_hex v).
Proof. unfold decode_hex. apply never_bind; [apply never_fail_if|]. intros _ _. apply decode_hex_pairs_spec. Qed.
Lemma decode_hex_short v bs : decode_hex v = Ok bs -> (length bs <= length v)%nat.
Proof.
  unfold decode_hex. intros E. apply fail_then in E as [_ E%decode_hex_pairs_spec].
  assert (length (strip_0x v) <= length v)%nat; [|lia]. unfold strip_0x. repeat case_match; cbn; lia.
Qed.
Lemma fixed_hex_never {n} (v : bytes) (e : bytes -> HexError) :
  never (bs ← decode_hex v; fail_if (negb (length bs =? n)%nat) (e bs);; expect (array_try n bs)).
Proof.
  apply never_bind; [apply decode_hex_never|]. intros bs _. apply never_bind; [apply never_fail_if|].
  intros _ Hl%fail_if_Ok%negb_false_iff%Nat.eqb_eq. destruct (array_try_length n bs Hl) as (a & -> & _). done.
Qed.
Lemma Hash32_from_str_never v : never (Hash32_from_str v).
Proof. apply (fixed_hex_never v (fun bs => WrongLength 32 (length bs))). Qed.
Lemma EthAddress_from_str_never v : never (EthAddress_from_str v).
Proof. apply (fixed_hex_never v (fun bs => WrongLength 20 (length bs))). Qed.
Lemma decode_record_never (T : Type) `{NoPanic T} encoded name : never (decode_record T encoded name).
Proof.
  unfold decode_record. apply never_bind; [apply never_map_err, decode_hex_never|]. intros bs _.
  apply never_map_err, decode_exact_never.
Qed.
Lemma parse_hashes_never values name : never (parse_hashes values name).
Proof. apply never_mapM, Forall_forall. intros v _. apply never_map_err, Hash32_from_str_never. Qed.

Create HintDb quiet.
#[export] Hint Resolve never_ok_or never_Ok never_fail_if never_map_err decode_hex_never Hash32_from_str_never
  EthAddress_from_str_never parse_hashes_never : quiet.
#[export] Hint Extern 1 (never (decode_record _ _ _)) => apply decode_record_never; typeclasses eauto : quiet.
#[export] Hint Extern 1 (never (shown _)) => apply never_map_err : quiet.
#[export] Hint Extern 1 (never (shown_as _ _)) => apply never_map_err : quiet.
#[export] Hint Extern 1 (never (cli_parse_u64 _ _)) => apply never_ok_or : quiet.
#[export] Hint Extern 1 (never (expect (encode _))) => apply never_expect; eexists; reflexivity : quiet.
Ltac quiet := repeat (apply never_bind; [solve [auto with quiet]|intros ? ?]); auto with quiet.

(** ** The commands *)

Section totality.
Context {W : PtrWidth} {H : Sha256} {FS : FileSystem}.
Hypothesis Hwidth : 32 <= Zpos usize_bits.

(** An argument, and a list of arguments, of less than 4 GiB. *)
Definition short_arg (a : bytes) : Prop := Z.of_nat (length a) < 2 ^ 32.
Definition short_args (args : list bytes) : Prop := Forall short_arg args /\ Z.of_nat (length args) < 2 ^ 32.

Lemma amounts_never a : never (usdt_to_usdd a) /\ never (usdd_to_usdt a).
Proof. unfold usdt_to_usdd, usdd_to_usdt. split; quiet. Qed.
Lemma deposit_never a : never (deposit_id a) /\ never (deposit_inspect a).
Proof. unfold deposit_id, deposit_inspect. split; quiet. Qed.
Lemma inspect_never (T : Type) `{NoPanic T} `{Debug T} name a : never (inspect T name a).
Proof. unfold inspect. quiet. Qed.

Lemma batch_encodes ds b : MintBatch_from_deposits ds = Ok b -> is_Some (encode b).
Proof.
  intros E. destruct ds as [|first ds]; [done|]. apply from_deposits_Ok in E as [[[_ Hs] He _ _] ->].
  destruct (batch_sized (batch_of first (first :: ds))) as (p & -> & _); [cbn; by rewrite length_map| |by eexists].
  cbn [batch_of mb_outputs]. apply Forall_map, Forall_lookup. intros i d Hd. by destruct (He i d Hd) as [[] _].
Qed.
Lemma mint_batch_never args : never (mint_batch args).
Proof.
  unfold mint_batch. apply never_bind; [apply never_mapM, Forall_forall; intros; auto with quiet|]. intros ds _.
  apply never_bind; [apply never_map_err, from_deposits_never|]. intros b Hb%shown_as_Ok.
  apply never_bind; [|done]. by eapply never_expect, batch_encodes.
Qed.
Lemma burn_payload_never a : never (burn_payload a).
Proof. unfold burn_payload. quiet. Qed.
Lemma burn_id_never g a : never (burn_id g a).
Proof. unfold burn_id, elements_genesis_of. quiet. Qed.
Lemma redeem_claim_never g a i : never (redeem_claim g a i).
Proof.
  unfold redeem_claim, elements_genesis_of, SolidityBurnClaim_burn_leaf. quiet. apply never_bind; [|by quiet].
  apply never_map_err, never_bind; [|done]. unfold SolidityBurnClaim_validate; never_guards.
Qed.

Lemma burn_root_never leaves : never (burn_tree_root leaves).
Proof.
  unfold burn_tree_root. quiet. apply never_bind; [|intros tree _].
  - apply never_map_err. unfold BurnAccumulator_from_leaves. by case_match.
  - apply never_bind; [|done]. unfold BurnAccumulator_root. by rewrite root_for_leaves_Some.
Qed.
Lemma from_leaves_Ok leaves tree : BurnAccumulator_from_leaves leaves = Ok tree -> tree = MkBurnAccumulator leaves.
Proof. unfold BurnAccumulator_from_leaves. by case_match; [intros [= <-]|]. Qed.
Lemma burn_prove_never index leaves : Z.of_nat (length leaves) < 2 ^ 32 -> never (burn_tree_prove index leaves).
Proof.
  intros Hl. assert (2 ^ 32 <= 2 ^ Zpos usize_bits) as Hw by (apply Z.pow_le_mono_r; lia).
  unfold burn_tree_prove. apply never_bind; [auto with quiet|]. intros i _. apply never_bind; [auto with quiet|].
  intros hs Hh%parse_hashes_Ok%Forall2_length. apply never_bind.
  { apply never_map_err. unfold BurnAccumulator_from_leaves. by case_match. }
  intros tree ->%shown_Ok%from_leaves_Ok. apply never_bind.
  - apply never_map_err. destruct (hs !! Z.to_nat i) as [h|] eqn:E.
    + destruct (proof_verifies (MkBurnAccumulator hs) i h) as (p & -> & _); [cbn; lia|done|done].
    + by rewrite (proof_outside (MkBurnAccumulator hs)).
  - intros p _. apply never_bind; [unfold BurnAccumulator_root; by rewrite root_for_leaves_Some|]. intros r _.
    apply never_bind; [|done]. by apply never_expect, (codec_total (A:=BurnProof)).
Qed.
Lemma burn_verify_never root leaf index proof : never (burn_tree_verify root leaf index proof).
Proof. unfold burn_tree_verify. quiet. Qed.

Lemma merkle_leaf_Some value bs : short_arg value -> decode_hex value = Ok bs -> is_Some (merkle_leaf bs).
Proof.
  intros Hs Hl%decode_hex_short. unfold short_arg in Hs. destruct (domain_hash_total MerkleLeaf bs) as [h Hh]; [lia|].
  by exists h.
Qed.
Lemma parse_leaves_never values : Forall short_arg values -> never (parse_leaves values).
Proof.
  intros Hs. apply never_mapM. eapply Forall_impl; [exact Hs|]. intros v Hv.
  apply never_bind; [auto with quiet|]. intros bs Hb%shown_Ok. by eapply never_expect, merkle_leaf_Some.
Qed.
Lemma merkle_root_never leaves : short_args leaves -> leaves <> [] -> never (merkle_root_command leaves).
Proof.
  intros [Hs _] Hn. unfold merkle_root_command. apply never_bind; [by apply parse_leaves_never|].
  intros hs Hh%parse_leaves_Ok%Forall2_length. apply never_bind; [|done]. apply never_expect.
  destruct (merkle_root_Some hs) as (r & -> & _); [destruct leaves; [done|cbn in Hh; lia]|by eexists].
Qed.
Lemma merkle_prove_never index leaves : short_args leaves -> leaves <> [] -> never (merkle_prove index leaves).
Proof.
  intros [Hs Hl] Hn. unfold merkle_prove. apply never_bind; [apply never_ok_or|]. intros i _.
  apply never_bind; [by apply parse_leaves_never|]. intros hs Hh%parse_leaves_Ok%Forall2_length.
  destruct (merkle_root_Some hs) as (r & -> & _); [destruct leaves; [done|cbn in Hh; lia]|].
  apply never_bind; [done|]. intros r' _. pose proof (merkle_proof_spec hs (Z.to_nat i) ltac:(lia)) as Hp.
  destruct (hs !! Z.to_nat i) as [h|]; [|by rewrite Hp].
  destruct Hp as (p & r'' & -> & _ & Hv). apply never_bind; [done|]. intros p' [= <-].
  apply never_bind; [|done]. apply never_expect. by eapply codec_total, merkle_depth.
Qed.
Lemma merkle_verify_total p leaf root : never (MerkleProof_verify p leaf root).
Proof.
  unfold MerkleProof_verify. apply never_bind; [apply never_fail_if|]. intros _ _.
  apply never_bind; [apply never_fail_if|]. intros _ _. pose proof (uint_range (mp_leaf_index p)).
  destruct (climb_total (mp_siblings p) leaf (Z.to_nat (mp_leaf_index p))) as [h Hc].
  rewrite Z2Nat.id in Hc by lia. by rewrite Hc.
Qed.
Lemma merkle_verify_never root leaf proof : short_arg leaf -> never (merkle_verify root leaf proof).
Proof.
  intros Hs. unfold merkle_verify. apply never_bind; [auto with quiet|]. intros r _. apply never_bind; [auto with quiet|].
  intros bs Hb%shown_Ok. apply never_bind; [auto with quiet|]. intros pb _.
  apply never_bind; [apply never_map_err, decode_exact_never|]. intros p _.
  apply never_bind; [by eapply never_expect, merkle_leaf_Some|]. intros l _.
  apply never_bind; [apply never_map_err, merkle_verify_total|done].
Qed.

Lemma manifest_hash_never a : short_arg a -> never (manifest_hash a).
Proof.
  intros Hs. unfold manifest_hash. apply never_bind; [auto with quiet|].
  intros m (bs & Hb%decode_hex_short & _ & He)%(decode_record_Ok (T:=ProtocolManifest)). apply never_bind; [|done].
  apply never_map_err. eapply manifest_id_never; [exact He|]. unfold blen, short_arg in *. lia.
Qed.

Lemma snapshot_never s : never (AuditSnapshot_verify s).
Proof. unfold AuditSnapshot_verify. cbv zeta. never_guards. Qed.
Lemma audit_check_never a b c d e f g h : never (audit_check a b c d e f g h).
Proof. unfold audit_check. quiet. apply never_bind; [apply never_map_err, snapshot_never|done]. Qed.

Lemma reconstruct_never a r ds ms bs ps : never (reconstruct_audit_snapshot a r ds ms bs ps).
Proof.
  unfold reconstruct_audit_snapshot. apply never_bind.
  { apply never_foldi. intros i x [[? ?] ?]. unfold audit_deposit. quiet. }
  intros [[? ?] ?] _. apply never_bind.
  { apply never_foldi. intros. unfold audit_mint. never_guards. }
  intros ? _. apply never_bind.
  { apply never_foldi. intros i x [? ?]. unfold audit_burn. never_guards. }
  intros [? ?] _. apply never_bind.
  { apply never_foldi. intros i x [? ?]. unfold audit_payout. never_guards. }
  intros [? ?] _. quiet. apply never_bind; [apply snapshot_never|done].
Qed.
Lemma audit_events_never text : never (parse_audit_events text).
Proof.
  unfold parse_audit_events. case_match; [done|]. apply never_bind; [apply never_fail_if|]. intros _ _.
  apply never_foldi. intros i line events. unfold audit_line, audit_row. case_match; [done|].
  repeat (case_match; try done). quiet. unfold audit_event. repeat case_match; try done; quiet.
Qed.
Lemma read_never what path : never (read_to_string what path).
Proof. unfold read_to_string. by repeat case_match. Qed.
Lemma audit_replay_never a r path : never (audit_replay a r path).
Proof.
  unfold audit_replay. quiet. apply never_bind; [apply read_never|]. intros text _.
  apply never_bind; [apply audit_events_never|]. intros events _.
  apply never_bind; [apply never_map_err, reconstruct_never|]. by intros [s report] _.
Qed.
Lemma journal_inspect_never a : never (journal_inspect a).
Proof. unfold journal_inspect. quiet. apply never_bind; [apply never_map_err, StrictJournal_decode_strict_never|done]. Qed.

Lemma parse_tsv_never text : never (parse_tsv text).
Proof.
  unfold parse_tsv. case_match; [done|]. apply never_bind; [apply never_fail_if|]. intros _ _.
  apply never_bind; [|done]. apply never_foldi. intros i line m. unfold gate_line, gate_row. case_match; [done|].
  repeat (case_match; try done). quiet. apply never_bind; [unfold GateStatus_parse; by repeat case_match|]. intros ? _. quiet.
Qed.
Lemma evidence_never root r : never (verify_evidence_files r root).
Proof.
  unfold verify_evidence_files. apply never_bind; [|done]. induction (gr_entries r) as [|e es IH]; [done|].
  cbn [verify_entries]. apply never_bind; [|intros ? _; by apply never_bind]. unfold verify_entry. case_match; [done|].
  apply never_bind; [apply never_ok_or|]. intros [? ?] _. quiet. apply never_bind; [by case_match|]. intros bs _. quiet.
Qed.
Lemma gate_report_never path : never (gate_report path).
Proof.
  unfold gate_report. apply never_bind; [apply read_never|]. intros text _.
  apply never_bind; [apply never_map_err, parse_tsv_never|]. intros r _.
  apply never_bind; [apply never_map_err, evidence_never|done].
Qed.

(** ** The arms *)

Lemma after_short words : forall args rest, after words args = Some rest -> short_args args -> short_args rest.
Proof.
  induction words as [|w words IH]; intros [|a args] rest; cbn [after]; try (by intros [= <-]).
  case_bool_decide; [|done]. intros E [Ha Hl]. apply (IH args rest E). split; [by apply Forall_cons in Ha as [_ Ha]|].
  cbn [length] in Hl. lia.
Qed.

(** An arm that, where it matches, does not panic. *)
Definition quiet_arm (args : list bytes) (a : arm) : Prop := forall r, a args = Some r -> never r.

Lemma first_arm_never l args : Forall (quiet_arm args) l -> never (first_arm l args).
Proof.
  induction 1 as [|a l Ha _ IH]; [done|]. cbn [first_arm]. destruct (a args) as [r|] eqn:E; [by apply Ha|done].
Qed.

Section arms.
Context (args : list bytes) (Hs : short_args args).

Lemma quiet_0 words r : never r -> quiet_arm args (arm0 words r).
Proof. intros Hr r'. unfold arm0. repeat case_match; by intros [= <-]. Qed.
Lemma quiet_1 words f : (forall a, short_arg a -> never (f a)) -> quiet_arm args (arm1 words f).
Proof.
  intros Hf r. unfold arm1. destruct (after words args) as [[|a [|]]|] eqn:E; try done. intros [= <-].
  apply after_short in E as [Ha _]; [|done]. apply Hf. by apply Forall_cons in Ha as [Ha _].
Qed.
Lemma quiet_2 words f : (forall a b, never (f a b)) -> quiet_arm args (arm2 words f).
Proof. intros Hf r. unfold arm2. repeat case_match; try done; intros [= <-]; apply Hf. Qed.
Lemma quiet_3 words f : (forall a b c, short_arg b -> never (f a b c)) -> quiet_arm args (arm3 words f).
Proof.
  intros Hf r. unfold arm3. destruct (after words args) as [[|a [|b [|c [|]]]]|] eqn:E; try done. intros [= <-].
  apply after_short in E as [Ha _]; [|done]. apply Hf. by apply Forall_cons in Ha as [_ [Hb _]%Forall_cons].
Qed.
Lemma quiet_4 words f : (forall a b c d, never (f a b c d)) -> quiet_arm args (arm4 words f).
Proof. intros Hf r. unfold arm4. repeat case_match; try done; intros [= <-]; apply Hf. Qed.
Lemma quiet_rest words f : (forall l, never (f l)) -> quiet_arm args (arm_rest words f).
Proof. intros Hf r. unfold arm_rest. destruct (after words args); [|done]. intros [= <-]. apply Hf. Qed.
Lemma quiet_some words f : (forall l, short_args l -> l <> [] -> never (f l)) -> quiet_arm args (arm_some words f).
Proof.
  intros Hf r. unfold arm_some. destruct (after words args) as [[|a l]|] eqn:E; try done. intros [= <-].
  apply Hf; [by eapply after_short|done].
Qed.
Lemma quiet_1_some words f : (forall a l, short_args l -> l <> [] -> never (f a l)) -> quiet_arm args (arm1_some words f).
Proof.
  intros Hf r. unfold arm1_some. destruct (after words args) as [[|a [|b l]]|] eqn:E; try done. intros [= <-].
  apply after_short in E as [Ha Hl]; [|done]. apply Hf; [|done]. apply Forall_cons in Ha as [_ Ha]. cbn [length] in *.
  split; [done|cbn [length]; lia].
Qed.
End arms.

Lemma audit_check_quiet args : quiet_arm args audit_check_arm.
Proof. intros r. unfold audit_check_arm. repeat case_match; try done. intros [= <-]. apply audit_check_never. Qed.

Lemma run_str_never args : short_args args -> never (run_str args).
Proof.
  intros Hs. apply first_arm_never. unfold arms. repeat (apply Forall_cons; split); [..|done];
    first [apply quiet_0|apply quiet_1|apply quiet_2|apply quiet_3|apply quiet_4|apply quiet_rest|apply quiet_some
          |apply quiet_1_some|apply audit_check_quiet];
    intros; try done; try by apply amounts_never || by apply deposit_never.
  all: auto using mint_batch_never, burn_payload_never, burn_id_never, redeem_claim_never, burn_root_never,
    burn_verify_never, manifest_hash_never, merkle_root_never, merkle_prove_never, merkle_verify_never,
    audit_replay_never, journal_inspect_never, gate_report_never.
  all: match goal with
    | |- never (burn_tree_prove _ _) => apply burn_prove_never; unfold short_args in *; tauto
    | |- never (inspect _ _ _) => apply inspect_never; typeclasses eauto
    end.
Qed.

(** C33: The command line returns: for any list of arguments, each of less than
    4 GiB, it prints a text or reports an error and never panics; an unknown
    command is an error, and the two proving commands fail closed whatever their
    arguments. *)
Theorem cli_never_panics :
  (forall args, short_args args -> run_str args <> Panic) /\
  (forall args, exists e, run_str (str "prove-deposit" :: args) = Err (str "BLOCKED: " ++ e)) /\
  (forall args, exists e, run_str (str "prove-elements" :: args) = Err (str "BLOCKED: " ++ e)) /\
  (forall args, Forall (fun a : arm => a args = None) arms ->
     run_str args = Err (str "unknown or incomplete command" ++ [newline_byte; newline_byte] ++ HELP)).
Proof.
  split; [intros args Hs; by apply run_str_never|]. split; [|split].
  - intros args. eexists. unfold run_str, arms. repeat (rewrite first_arm_skip by reflexivity). by apply first_arm_take.
  - intros args. eexists. unfold run_str, arms. repeat (rewrite first_arm_skip by reflexivity). by apply first_arm_take.
  - intros args Ha. unfold run_str. induction Ha as [|a l Ha _ IH]; [done|]. by rewrite first_arm_skip.
Qed.

Lemma render_verdict r : str "launch: PASS" ++ [newline_byte] `suffix_of` render_text r <-> launch_ready r = true.
Proof.
  unfold render_text. destruct (launch_ready r); split; try done; [intros _; by eexists|].
  intros [front E]. apply (f_equal (@rev byte)) in E. rewrite !rev_app_distr in E. by cbn in E.
Qed.
Lemma gate_report_Ok path out : gate_report path = Ok out <->
  exists text r, (fs_read path = inl text /\ utf8 text = true) /\
    gate_check text (default (str ".") (path_parent path)) = Ok r /\ out = render_text r.
Proof.
  unfold gate_report, gate_check. split.
  - intros E. apply res_bind_Ok in E as (text & Ht%read_Ok & E). apply res_bind_Ok in E as (r0 & Hr0%shown_Ok & E).
    apply res_bind_Ok in E as (r & Hr%shown_Ok & [= <-]). exists text, r. split; [done|]. by rewrite Hr0.
  - intros (text & r & Ht & Hc & ->). apply res_bind_Ok in Hc as (r0 & Hr0 & Hr).
    apply res_bind_Ok. exists text. split; [by apply read_Ok|]. apply res_bind_Ok. exists r0. split; [by apply shown_Ok|].
    apply res_bind_Ok. exists r. split; [by apply shown_Ok|done].
Qed.

(** The gate command reports launch PASS exactly when a launch is ready: it
    prints a report only for a readable UTF-8 gate file that parses and whose
    PASS rows have verified evidence under the file's own directory, and its
    last line is "launch: PASS" exactly when every gate counts. *)
Theorem cli_gates_report_iff (path out : bytes) :
  run_str [str "gates"; str "report"; path] = Ok out <->
  exists text r, fs_read path = inl text /\ utf8 text = true /\
    gate_check text (default (str ".") (path_parent path)) = Ok r /\ out = render_text r /\
    (str "launch: PASS" ++ [newline_byte] `suffix_of` out <-> launch_ready r = true).
Proof.
  rewrite run_gates, gate_report_Ok. split.
  - intros (text & r & [Ht Hu] & Hc & ->). exists text, r. by rewrite render_verdict.
  - intros (text & r & Ht & Hu & Hc & -> & _). by exists text, r.
Qed.
End totality.

(** ** Evaluations *)

Definition no_files : FileSystem := fun _ => inr (str "No such file or directory (os error 2)").

Example cli_amount : @run_str 64%positive toy_sha256 no_files [str "amount"; str "usdt-to-usdd"; str "15"] = Ok (str "1500").
Proof. vm_compute. reflexivity. Qed.
Example cli_replay_missing :
  @run_str 64%positive toy_sha256 no_files [str "audit"; str "replay"; str "1"; str "1"; str "x.tsv"]
  = Err (str "cannot read audit events at x.tsv: No such file or directory (os error 2)").
Proof. vm_compute. reflexivity. Qed.

Lemma cli_never_panics_witness :
  32 <= Zpos 64 /\ short_args [str "gates"; str "report"] /\
  @run_str 64%positive toy_sha256 no_files [str "gates"; str "report"] <> Panic.
Proof.
  assert (short_args [str "gates"; str "report"]) as Hs.
  { split; [|done]. repeat (apply Forall_cons; split); [done|done|done]. }
  split; [done|]. split; [exact Hs|].
  exact (proj1 (@cli_never_panics 64%positive toy_sha256 no_files ltac:(done)) _ Hs).
Defined.
