(* ===== verification/Uint256.v ===== *)
(** 256-bit arithmetic: [Uint256] of [crates/usdd-bitcoin-bmm/src/lib.rs].

    Four little-endian 64-bit limbs with hand-written carries, shifts and a
    shift-and-subtract division over a five-limb remainder.  The lemmas show that
    each operation computes the integer operation on the value [num], with
    [None] exactly on overflow or division by zero. *)

From Stdlib Require Import Eqdep_dec.
From S2P Require Import Prelude Encoding.

Local Open Scope Z_scope.

Record Uint256 : Type := MkUint256 {
  limbs : list u64;
  limbs_ok : (length limbs =? 4)%nat = true
}.

(** A [[u64; 4]] filled by a loop. *)
Lemma array4_ok (l : list u64) : (length (take 4 (l ++ repeat (uint_wrap 64 0) 4)) =? 4)%nat = true.
Proof. rewrite length_take, length_app, repeat_length. apply Nat.eqb_eq. lia. Qed.
Definition array4 (l : list u64) : Uint256 := MkUint256 (take 4 (l ++ repeat (uint_wrap 64 0) 4)) (array4_ok l).

Definition from_limbs_le (a b c d : u64) : Uint256 := MkUint256 [a; b; c; d] eq_refl.
Definition U256_ZERO : Uint256 :=
  from_limbs_le (uint_wrap 64 0) (uint_wrap 64 0) (uint_wrap 64 0) (uint_wrap 64 0).
Definition U256_MAX : Uint256 :=
  from_limbs_le (uint_wrap 64 (2 ^ 64 - 1)) (uint_wrap 64 (2 ^ 64 - 1)) (uint_wrap 64 (2 ^ 64 - 1))
    (uint_wrap 64 (2 ^ 64 - 1)).

(** [bytes.reverse()] *)
Lemma array_rev_ok {n} (a : array n) : (length (rev a) =? n)%nat = true.
Proof. rewrite length_rev. apply arr_ok. Qed.
Definition array_rev {n} (a : array n) : array n := Array (rev a) (array_rev_ok a).

Definition from_le_bytes (bs : array 32) : Uint256 :=
  array4 (map (fun i => uint_wrap 64 (le_val (slice (i * 8) (i * 8 + 8) bs))) (seq 0 4)).
Definition from_be_bytes (bs : array 32) : Uint256 := from_le_bytes (array_rev bs).

Fixpoint limbs_bytes (l : list u64) : bytes :=
  match l with
  | [] => []
  | limb :: l => le_bytes 8 limb ++ limbs_bytes l
  end.
Lemma limbs_bytes_length l : length (limbs_bytes l) = (8 * length l)%nat.
Proof. induction l; cbn [limbs_bytes length]; [done|]. rewrite length_app, length_le_bytes, IHl. lia. Qed.
Lemma to_le_bytes_ok (x : Uint256) : (length (limbs_bytes (limbs x)) =? 32)%nat = true.
Proof. rewrite limbs_bytes_length, (proj1 (Nat.eqb_eq _ _) (limbs_ok x)). done. Qed.
Definition to_le_bytes (x : Uint256) : array 32 := Array (limbs_bytes (limbs x)) (to_le_bytes_ok x).
Definition to_be_bytes (x : Uint256) : array 32 := array_rev (to_le_bytes x).

Definition U256_is_zero (x : Uint256) : bool := forallb (fun l : u64 => l =? 0) (limbs x).

(** [u64::overflowing_add] and [overflowing_sub] *)
Definition overflowing_add (a b : u64) : u64 * bool := (uint_wrap 64 (a + b), 2 ^ 64 <=? a + b).
Definition overflowing_sub (a b : u64) : u64 * bool := (uint_wrap 64 (a - b), a <? b).

(** [u64::from(bool)] *)
Definition u64_of_bool (b : bool) : u64 := uint_wrap 64 (if b then 1 else 0).

Fixpoint add_limbs (a b : list u64) (carry : bool) : list u64 * bool :=
  match a, b with
  | x :: a, y :: b =>
      let '(sum, first_carry) := overflowing_add x y in
      let '(sum, second_carry) := overflowing_add sum (u64_of_bool carry) in
      let '(out, carry) := add_limbs a b (first_carry || second_carry) in
      (sum :: out, carry)
  | _, _ => ([], carry)
  end.

Definition U256_checked_add (x y : Uint256) : option Uint256 :=
  let '(out, carry) := add_limbs (limbs x) (limbs y) false in
  if carry then None else Some (array4 out).

Definition checked_add_one (x : Uint256) : option Uint256 :=
  U256_checked_add x (from_limbs_le (uint_wrap 64 1) (uint_wrap 64 0) (uint_wrap 64 0) (uint_wrap 64 0)).

(** The limb at an index below four. *)
Definition limb (l : list u64) (i : nat) : u64 := nth i l (uint_wrap 64 0).

Definition U256_bit (x : Uint256) (bit : nat) : bool :=
  negb (Z.land (Z.shiftr (limb (limbs x) (bit / 64)) (Z.of_nat (bit mod 64))) 1 =? 0).

Definition U256_set_bit (x : Uint256) (bit : nat) : Uint256 :=
  array4 (alter (fun l : u64 => uint_wrap 64 (Z.lor l (Z.shiftl 1 (Z.of_nat (bit mod 64)))))
            (bit / 64)%nat (limbs x)).

(** [for i in (0..4).rev()]: the first nonzero limb from the top. *)
Fixpoint bit_len_from (i : nat) (l : list u64) : Z :=
  match i with
  | O => 0
  | S i => if negb (limb l i =? 0) then Z.of_nat i * 64 + (64 - leading_zeros64 (limb l i))
           else bit_len_from i l
  end.
Definition bit_len (x : Uint256) : Z := bit_len_from 4 (limbs x).

Definition low_u64 (x : Uint256) : u64 := limb (limbs x) 0.

Definition U256_shr (x : Uint256) (shift : Z) : Uint256 :=
  if 256 <=? shift then U256_ZERO
  else
    let word_shift := Z.to_nat (shift / 64) in
    let bit_shift := shift mod 64 in
    array4 (map (fun dst =>
      let src := (dst + word_shift)%nat in
      if (4 <=? src)%nat then uint_wrap 64 0
      else
        let low := Z.shiftr (limb (limbs x) src) bit_shift in
        uint_wrap 64
          (if negb (bit_shift =? 0) && (src + 1 <? 4)%nat
           then Z.lor low (uint_wrap 64 (Z.shiftl (limb (limbs x) (src + 1)) (64 - bit_shift)))
           else low)) (seq 0 4)).

(** One iteration of the loop of [checked_shl], on the output limbs. *)
Definition shl_step (l : list u64) (word_shift : nat) (bit_shift : Z) (out : list u64) (src : nat)
    : list u64 :=
  let dst := (src + word_shift)%nat in
  if (4 <=? dst)%nat then out
  else
    let out := alter (fun o : u64 => uint_wrap 64 (Z.lor o (uint_wrap 64 (Z.shiftl (limb l src) bit_shift))))
                 dst out in
    if negb (bit_shift =? 0) && (dst + 1 <? 4)%nat
    then alter (fun o : u64 => uint_wrap 64 (Z.lor o (Z.shiftr (limb l src) (64 - bit_shift)))) (dst + 1)%nat out
    else out.

Definition checked_shl (x : Uint256) (shift : Z) : option Uint256 :=
  if 256 <=? shift then (if U256_is_zero x then Some U256_ZERO else None)
  else if negb (shift =? 0) && (256 - shift <? bit_len x) then None
  else
    let word_shift := Z.to_nat (shift / 64) in
    let bit_shift := shift mod 64 in
    Some (array4 (fold_left (shl_step (limbs x) word_shift bit_shift) (seq 0 4) (repeat (uint_wrap 64 0) 4))).

Fixpoint mul_limbs (l : list u64) (rhs : u64) (carry : u128) : list u64 * u128 :=
  match l with
  | [] => ([], carry)
  | x :: l =>
      let product : u128 := uint_wrap 128 (x * rhs + carry) in
      let '(out, carry) := mul_limbs l rhs (uint_wrap 128 (Z.shiftr product 64)) in
      (uint_wrap 64 product :: out, carry)
  end.
Definition checked_mul_u64 (x : Uint256) (rhs : u64) : option Uint256 :=
  let '(out, carry) := mul_limbs (limbs x) rhs (uint_wrap 128 0) in
  if uval carry =? 0 then Some (array4 out) else None.

(** [for i in (0..4).rev()]: quotient limbs from the top, with the remainder. *)
Fixpoint div_limbs (l : list u64) (rhs : u64) (remainder : u128) : list u64 * u128 :=
  match l with
  | [] => ([], remainder)
  | x :: l =>
      let '(high, remainder) := div_limbs l rhs remainder in
      let dividend : u128 := uint_wrap 128 (Z.lor (uint_wrap 128 (Z.shiftl remainder 64)) x) in
      (uint_wrap 64 (dividend / rhs) :: high, uint_wrap 128 (dividend mod rhs))
  end.
Definition div_u64 (x : Uint256) (rhs : u64) : option Uint256 :=
  if uval rhs =? 0 then None
  else Some (array4 (div_limbs (limbs x) rhs (uint_wrap 128 0)).1).

Definition wrapping_not (x : Uint256) : Uint256 :=
  array4 (map (fun l : u64 => uint_wrap 64 (Z.lnot l)) (limbs x)).

(** Comparison from the top limb down: [Ord::cmp] and, on five limbs, [cmp_320]. *)
Fixpoint cmp_from (i : nat) (a b : list u64) : comparison :=
  match i with
  | O => Eq
  | S i => match Z.compare (limb a i) (limb b i) with
           | Eq => cmp_from i a b
           | ordering => ordering
           end
  end.
Definition U256_cmp (x y : Uint256) : comparison := cmp_from 4 (limbs x) (limbs y).
Definition U256_ltb (x y : Uint256) : bool := match U256_cmp x y with Lt => true | _ => false end.
Definition U256_min (x y : Uint256) : Uint256 := match U256_cmp x y with Gt => y | _ => x end.
Definition cmp_320 (a b : list u64) : comparison := cmp_from 5 a b.

Fixpoint sub_320 (a b : list u64) (borrow : bool) : list u64 :=
  match a, b with
  | x :: a, y :: b =>
      let '(difference, first_borrow) := overflowing_sub x y in
      let '(difference, second_borrow) := overflowing_sub difference (u64_of_bool borrow) in
      difference :: sub_320 a b (first_borrow || second_borrow)
  | _, _ => []
  end.

(** [for limb in &mut remainder { .. }]: shift left by one, carrying in a bit. *)
Fixpoint shl1_limbs (l : list u64) (carry : u64) : list u64 :=
  match l with
  | [] => []
  | x :: l => uint_wrap 64 (Z.lor (uint_wrap 64 (Z.shiftl x 1)) carry)
              :: shl1_limbs l (uint_wrap 64 (Z.shiftr x 63))
  end.

(** One iteration of the division loop, on remainder and quotient. *)
Definition div_step (x : Uint256) (divisor : list u64) (bit : nat) (st : list u64 * Uint256)
    : list u64 * Uint256 :=
  let '(remainder, quotient) := st in
  let remainder := shl1_limbs remainder (u64_of_bool (U256_bit x bit)) in
  match cmp_320 remainder divisor with
  | Lt => (remainder, quotient)
  | _ => (sub_320 remainder divisor false, U256_set_bit quotient bit)
  end.

(** [for bit in (0..256).rev()] *)
Fixpoint div_loop (count : nat) (x : Uint256) (divisor : list u64) (st : list u64 * Uint256)
    : list u64 * Uint256 :=
  match count with
  | O => st
  | S bit => div_loop bit x divisor (div_step x divisor bit st)
  end.

Definition U256_div (x denominator : Uint256) : option Uint256 :=
  if U256_is_zero denominator then None
  else Some (div_loop 256 x (limbs denominator ++ [uint_wrap 64 0])
               (repeat (uint_wrap 64 0) 5, U256_ZERO)).2.

(** [u32::div_ceil(8)] *)
Definition div_ceil8 (n : Z) : Z := (n + 7) / 8.

Definition to_compact (x : Uint256) : u32 :=
  let size := div_ceil8 (bit_len x) in
  let compact : u32 :=
    if size <=? 3 then uint_wrap 32 (uint_wrap 64 (Z.shiftl (low_u64 x) (8 * (3 - size))))
    else uint_wrap 32 (low_u64 (U256_shr x (8 * (size - 3)))) in
  let '(compact, size) :=
    if negb (Z.land compact 0x00800000 =? 0)
    then (uint_wrap 32 (Z.shiftr compact 8), size + 1) else (compact, size) in
  uint_wrap 32 (Z.lor compact (uint_wrap 32 (Z.shiftl size 24))).

(** ** Values *)

Fixpoint limbs_val (l : list u64) : Z :=
  match l with
  | [] => 0
  | x :: l => uval x + 2 ^ 64 * limbs_val l
  end.
Definition num (x : Uint256) : Z := limbs_val (limbs x).

Lemma limbs_val_range l : 0 <= limbs_val l < 2 ^ (64 * Z.of_nat (length l)).
Proof.
  induction l as [|x l IH]; cbn [limbs_val length]; [done|].
  pose proof (uint_range x). replace (64 * Z.of_nat (S (length l))) with (64 + 64 * Z.of_nat (length l)) by lia.
  rewrite Z.pow_add_r by lia. lia.
Qed.

Lemma limbs_length x : length (limbs x) = 4%nat.
Proof. apply Nat.eqb_eq, limbs_ok. Qed.

Lemma num_range x : 0 <= num x < 2 ^ 256.
Proof. unfold num. pose proof (limbs_val_range (limbs x)) as H. rewrite limbs_length in H. exact H. Qed.

Lemma limbs_val_inj a b : length a = length b -> limbs_val a = limbs_val b -> a = b.
Proof.
  revert b. induction a as [|x a IH]; intros [|y b]; cbn [limbs_val length]; [done..|].
  intros [= Hl] Hv. pose proof (uint_range x). pose proof (uint_range y).
  assert (uval x = y) as Hx by lia. f_equal; [by apply uint_eq|]. apply IH; [done|lia].
Qed.

Lemma Uint256_eq x y : limbs x = limbs y -> x = y.
Proof. destruct x as [a Ha], y as [b Hb]. cbn. intros ->. f_equal. apply UIP_dec, bool_dec. Qed.

Lemma num_inj x y : num x = num y -> x = y.
Proof. intros H. apply Uint256_eq, limbs_val_inj; [by rewrite !limbs_length|done]. Qed.

#[export] Instance Uint256_eq_dec : EqDecision Uint256.
Proof.
  intros x y. destruct (decide (limbs x = limbs y)) as [E|E];
    [left; by apply Uint256_eq|right; by intros ->].
Defined.

Lemma array4_limbs l : length l = 4%nat -> limbs (array4 l) = l.
Proof. intros H. cbn [array4 limbs]. rewrite take_app_le by lia. by rewrite take_ge by lia. Qed.

Lemma num_array4 l : length l = 4%nat -> num (array4 l) = limbs_val l.
Proof. intros H. unfold num. by rewrite array4_limbs. Qed.

Lemma limbs_val_app a b : limbs_val (a ++ b) = limbs_val a + 2 ^ (64 * Z.of_nat (length a)) * limbs_val b.
Proof.
  induction a as [|x a IH]; cbn [limbs_val app length]; [cbn; lia|]. rewrite IH.
  replace (64 * Z.of_nat (S (length a))) with (64 + 64 * Z.of_nat (length a)) by lia.
  rewrite Z.pow_add_r by lia. lia.
Qed.

(** ** Bytes *)

Lemma num_zero x : U256_is_zero x = true <-> num x = 0.
Proof.
  unfold U256_is_zero, num. induction (limbs x) as [|l ls IH]; cbn [forallb limbs_val]; [done|].
  pose proof (uint_range l). pose proof (limbs_val_range ls).
  rewrite andb_true_iff, Z.eqb_eq, IH. lia.
Qed.

Lemma limbs_bytes_val l : le_val (limbs_bytes l) = limbs_val l.
Proof.
  induction l as [|x l IH]; cbn [limbs_bytes limbs_val]; [done|].
  rewrite le_val_app, length_le_bytes, le_val_bytes, IH. pose proof (uint_range x).
  change (256 ^ Z.of_nat 8) with (2 ^ 64). rewrite Z.mod_small by lia. done.
Qed.

Lemma num_from_le (bs : array 32) : num (from_le_bytes bs) = le_val bs.
Proof.
  unfold from_le_bytes. rewrite num_array4 by done. cbn [seq map limbs_val].
  pose proof (arr_length bs) as Hl.
  assert (forall a, (a <= 24)%nat -> le_val (drop a bs) =
    uint_wrap 64 (le_val (slice a (a + 8) bs)) + 2 ^ 64 * le_val (drop (a + 8) bs)) as Hs.
  { intros a Ha. rewrite <- (take_drop 8 (drop a bs)) at 1. rewrite le_val_app, drop_drop.
    rewrite length_take, length_drop, Hl. replace (8 `min` (32 - a))%nat with 8%nat by lia.
    unfold slice. replace (a + 8 - a)%nat with 8%nat by lia.
    pose proof (le_val_range (take 8 (drop a bs))) as Hr.
    rewrite length_take, length_drop, Hl in Hr. replace (8 `min` (32 - a))%nat with 8%nat in Hr by lia.
    change (256 ^ Z.of_nat 8) with (2 ^ 64) in *. by rewrite uval_wrap_small by lia. }
  pose proof (Hs 0%nat ltac:(lia)) as H0. pose proof (Hs 8%nat ltac:(lia)) as H1.
  pose proof (Hs 16%nat ltac:(lia)) as H2. pose proof (Hs 24%nat ltac:(lia)) as H3.
  cbn [Nat.add Nat.mul] in *. rewrite drop_0 in H0. rewrite (drop_ge _ 32) in H3 by lia.
  change (le_val []) with 0 in H3. lia.
Qed.

Lemma to_le_bytes_val x : le_val (to_le_bytes x) = num x.
Proof. apply limbs_bytes_val. Qed.

Lemma num_from_be (bs : array 32) : num (from_be_bytes bs) = be_val bs.
Proof. unfold from_be_bytes. by rewrite num_from_le. Qed.

Lemma to_be_bytes_val x : be_val (to_be_bytes x) = num x.
Proof. unfold be_val, to_be_bytes, array_rev. cbn [arr]. rewrite rev_involutive. apply to_le_bytes_val. Qed.

(** ** Addition, multiplication and division by a word, complement *)

Lemma carry_step (a b c : Z) :
  0 <= a < 2 ^ 64 -> 0 <= b < 2 ^ 64 -> 0 <= c <= 1 ->
  (((a + b) mod 2 ^ 64 + c) mod 2 ^ 64)
    + 2 ^ 64 * (if (2 ^ 64 <=? a + b) || (2 ^ 64 <=? (a + b) mod 2 ^ 64 + c) then 1 else 0) = a + b + c.
Proof.
  intros Ha Hb Hc. destruct (Z.leb_spec (2 ^ 64) (a + b)) as [H|H].
  - assert ((a + b) mod 2 ^ 64 = a + b - 2 ^ 64) as -> by (symmetry; apply (Z.mod_unique _ _ 1); lia).
    cbn [orb]. rewrite Z.mod_small by lia. lia.
  - rewrite (Z.mod_small (a + b)) by lia. cbn [orb].
    destruct (Z.leb_spec (2 ^ 64) (a + b + c)).
    + assert ((a + b + c) mod 2 ^ 64 = a + b + c - 2 ^ 64) as ->
        by (symmetry; apply (Z.mod_unique _ _ 1); lia). lia.
    + rewrite Z.mod_small by lia. lia.
Qed.

Lemma bool_word (b : bool) : uval (u64_of_bool b) = if b then 1 else 0.
Proof. by destruct b. Qed.

Lemma add_limbs_val a b carry out carry' :
  length a = length b -> add_limbs a b carry = (out, carry') ->
  length out = length a /\
  limbs_val out + 2 ^ (64 * Z.of_nat (length a)) * (if carry' then 1 else 0)
    = limbs_val a + limbs_val b + (if carry then 1 else 0).
Proof.
  revert b carry out carry'. induction a as [|x a IH]; intros [|y b] carry out carry'; cbn [length];
    [|done..|].
  - intros _ [= <- <-]. split; [done|]. cbn [limbs_val]. destruct carry; lia.
  - intros [= Hl]. cbn [add_limbs overflowing_add].
    destruct (add_limbs a b _) as [o c] eqn:E. intros [= <- <-].
    apply IH in E as [Ho Ev]; [|done]. split; [cbn; congruence|].
    cbn [limbs_val]. rewrite !bool_word, !uval_wrap in *.
    pose proof (uint_range x) as Hx. pose proof (uint_range y) as Hy.
    pose proof (carry_step x y (if carry then 1 else 0) Hx Hy ltac:(destruct carry; lia)) as Hc.
    replace (64 * Z.of_nat (S (length a))) with (64 + 64 * Z.of_nat (length a)) by lia.
    rewrite Z.pow_add_r by lia.
    replace ((if carry then 1 else 0) mod 2 ^ 64) with (if carry then 1 else 0) by (by destruct carry).
    set (low := _ mod 2 ^ 64) in Hc |- *. set (P := 2 ^ _) in Ev |- *. lia.
Qed.

Lemma checked_add_num x y z : U256_checked_add x y = Some z <-> num z = num x + num y.
Proof.
  unfold U256_checked_add. destruct (add_limbs (limbs x) (limbs y) false) as [out carry] eqn:E.
  apply add_limbs_val in E as [Hl Hv]; [|by rewrite !limbs_length]. rewrite limbs_length in *.
  change (2 ^ (64 * Z.of_nat 4)) with (2 ^ 256) in Hv. fold (num x) (num y) in Hv.
  pose proof (num_range z). pose proof (num_range (array4 out)). rewrite num_array4 in * by done.
  destruct carry; split; try done; try lia.
  - intros [= <-]. rewrite num_array4 by done. lia.
  - intros Hz. f_equal. apply num_inj. rewrite num_array4 by done. lia.
Qed.

Lemma checked_add_num_None x y : U256_checked_add x y = None <-> 2 ^ 256 <= num x + num y.
Proof.
  unfold U256_checked_add. destruct (add_limbs (limbs x) (limbs y) false) as [out carry] eqn:E.
  apply add_limbs_val in E as [Hl Hv]; [|by rewrite !limbs_length]. rewrite limbs_length in *.
  change (2 ^ (64 * Z.of_nat 4)) with (2 ^ 256) in Hv. fold (num x) (num y) in Hv.
  pose proof (num_range (array4 out)). rewrite num_array4 in * by done.
  destruct carry; split; try done; lia.
Qed.

Lemma checked_add_one_num x z : checked_add_one x = Some z <-> num z = num x + 1.
Proof. unfold checked_add_one. by rewrite checked_add_num. Qed.

Lemma mul_limbs_val l (rhs : u64) (carry : u128) out (carry' : u128) :
  carry < 2 ^ 64 -> mul_limbs l rhs carry = (out, carry') ->
  length out = length l /\ carry' < 2 ^ 64 /\
  limbs_val out + 2 ^ (64 * Z.of_nat (length l)) * carry' = limbs_val l * rhs + carry.
Proof.
  revert carry out carry'. induction l as [|x l IH]; intros carry out carry' Hc; cbn [mul_limbs length].
  - intros [= <- <-]. split; [done|]. split; [done|]. cbn [limbs_val]. lia.
  - pose proof (uint_range x). pose proof (uint_range rhs). pose proof (uint_range carry).
    assert (0 <= x * rhs + carry < 2 ^ 128) as Hp by nia.
    rewrite (uval_wrap_small 128) by exact Hp. set (p := x * rhs + carry) in *.
    rewrite Z.shiftr_div_pow2 by lia.
    assert (0 <= p / 2 ^ 64 < 2 ^ 64) as Hq.
    { split; [apply Z.div_pos; lia|apply Z.div_lt_upper_bound; lia]. }
    destruct (mul_limbs l rhs _) as [o c] eqn:E. intros [= <- <-].
    apply IH in E as (Ho & Hc' & Ev); [|rewrite uval_wrap_small by lia; lia].
    rewrite (uval_wrap_small 128) in Ev by lia. split; [cbn; congruence|]. split; [done|].
    cbn [limbs_val]. rewrite uval_wrap. pose proof (Z.div_mod p (2 ^ 64) ltac:(lia)).
    replace (64 * Z.of_nat (S (length l))) with (64 + 64 * Z.of_nat (length l)) by lia.
    rewrite Z.pow_add_r by lia. unfold p in *. nia.
Qed.

Lemma checked_mul_num x (rhs : u64) z : checked_mul_u64 x rhs = Some z <-> num z = num x * rhs.
Proof.
  unfold checked_mul_u64. destruct (mul_limbs (limbs x) rhs (uint_wrap 128 0)) as [out carry] eqn:E.
  apply mul_limbs_val in E as (Hl & Hc & Hv); [|done]. rewrite limbs_length in *.
  change (2 ^ (64 * Z.of_nat 4)) with (2 ^ 256) in Hv. change (uval (uint_wrap 128 0)) with 0 in Hv.
  fold (num x) in Hv. pose proof (num_range z). pose proof (num_range (array4 out)).
  rewrite num_array4 in * by done. pose proof (uint_range carry).
  destruct (Z.eqb_spec (uval carry) 0) as [E0|E0]; split; try done.
  - intros [= <-]. rewrite num_array4 by done. lia.
  - intros Hz. f_equal. apply num_inj. rewrite num_array4 by done. lia.
  - nia.
Qed.

(** A word below [2 ^ k] and a multiple of [2 ^ k] share no bit. *)
Lemma testbit_small b k i : 0 <= k -> 0 <= b < 2 ^ k -> k <= i -> Z.testbit b i = false.
Proof. intros Hk Hb Hi. rewrite <- (Z.mod_small b (2 ^ k)) by done. by apply Z.mod_pow2_bits_high. Qed.

Lemma lor_disjoint a b k : 0 <= k -> 0 <= b < 2 ^ k -> Z.lor (a * 2 ^ k) b = a * 2 ^ k + b.
Proof.
  intros Hk Hb. assert (Z.land (a * 2 ^ k) b = 0) as H.
  { apply Z.bits_inj'. intros i Hi. rewrite Z.land_spec, Z.bits_0, Z.mul_pow2_bits by lia.
    destruct (decide (i < k)); [by rewrite Z.testbit_neg_r by lia|].
    rewrite (testbit_small b k) by lia. apply andb_false_r. }
  by rewrite <- (Z.lxor_lor _ _ H), Z.add_nocarry_lxor.
Qed.

Lemma div_limbs_val l (rhs : u64) out (r : u128) :
  0 < rhs -> div_limbs l rhs (uint_wrap 128 0) = (out, r) ->
  length out = length l /\ r < rhs /\ limbs_val l = limbs_val out * rhs + r.
Proof.
  intros Hr. revert out r. induction l as [|x l IH]; intros out r; cbn [div_limbs length].
  - intros [= <- <-]. split; [done|]. split; [done|]. done.
  - destruct (div_limbs l rhs _) as [high rem] eqn:E. destruct (IH high rem eq_refl) as (Hl & Hlt & Hv).
    intros Hp. apply pair_equal_spec in Hp as [<- <-].
    pose proof (uint_range x). pose proof (uint_range rhs). pose proof (uint_range rem).
    rewrite Z.shiftl_mul_pow2 by lia. rewrite (uval_wrap_small 128 (rem * 2 ^ 64)) by lia.
    rewrite lor_disjoint by lia. rewrite (uval_wrap_small 128 (_ + _)) by nia.
    set (d := rem * 2 ^ 64 + x). assert (0 <= d < 2 ^ 128) by (unfold d; nia).
    pose proof (Z.mod_pos_bound d rhs ltac:(lia)). pose proof (Z.div_mod d rhs ltac:(lia)).
    assert (0 <= d / rhs < 2 ^ 64) as Hq.
    { split; [apply Z.div_pos; lia|apply Z.div_lt_upper_bound; unfold d; nia]. }
    rewrite (uval_wrap_small 128) by lia. split; [cbn; congruence|]. split; [lia|].
    cbn [limbs_val]. rewrite uval_wrap_small by exact Hq. rewrite Hv. unfold d in *. nia.
Qed.

Lemma div_u64_num x (rhs : u64) z : div_u64 x rhs = Some z <-> 0 < rhs /\ num z = num x / rhs.
Proof.
  unfold div_u64. pose proof (uint_range rhs). destruct (Z.eqb_spec (uval rhs) 0) as [E0|E0]; [split; [done|lia]|].
  destruct (div_limbs (limbs x) rhs (uint_wrap 128 0)) as [out r] eqn:E.
  apply div_limbs_val in E as (Hl & Hr & Hv); [|lia]. rewrite limbs_length in Hl. pose proof (uint_range r).
  assert (num (array4 out) = num x / rhs) as Hn.
  { rewrite num_array4 by done. apply (Z.div_unique _ _ _ r); [left; lia|]. unfold num. lia. }
  cbn [fst]. split; [intros [= <-]; split; [lia|done]|].
  intros [_ Hz]. f_equal. apply num_inj. lia.
Qed.

Lemma lnot_word (x : u64) : uval (uint_wrap 64 (Z.lnot x)) = 2 ^ 64 - 1 - x.
Proof.
  pose proof (uint_range x). rewrite uval_wrap. symmetry. apply (Z.mod_unique _ _ (-1)); [left; lia|].
  unfold Z.lnot. lia.
Qed.

Lemma not_limbs_val l :
  limbs_val (map (fun l : u64 => uint_wrap 64 (Z.lnot l)) l) = 2 ^ (64 * Z.of_nat (length l)) - 1 - limbs_val l.
Proof.
  induction l as [|x l IH]; cbn [map limbs_val length]; [done|]. rewrite IH, lnot_word.
  replace (64 * Z.of_nat (S (length l))) with (64 + 64 * Z.of_nat (length l)) by lia.
  rewrite Z.pow_add_r by lia. lia.
Qed.

Lemma wrapping_not_num x : num (wrapping_not x) = 2 ^ 256 - 1 - num x.
Proof.
  unfold wrapping_not. rewrite num_array4 by (rewrite length_map; apply limbs_length).
  rewrite not_limbs_val, limbs_length. done.
Qed.

(** ** Comparison *)

Lemma limbs_val_snoc l x : limbs_val (l ++ [x]) = limbs_val l + 2 ^ (64 * Z.of_nat (length l)) * x.
Proof. rewrite limbs_val_app. cbn [limbs_val]. f_equal. lia. Qed.

Lemma take_S_limb n l : (n < length l)%nat -> take (S n) l = take n l ++ [limb l n].
Proof.
  intros H. apply take_S_r. destruct (lookup_lt_is_Some_2 l n H) as [x E]. rewrite E. f_equal.
  unfold limb. symmetry. by apply nth_lookup_Some.
Qed.

Lemma lex_compare P A B x y : 0 <= A < P -> 0 <= B < P ->
  Z.compare (A + P * x) (B + P * y) = match Z.compare x y with Eq => Z.compare A B | c => c end.
Proof. intros HA HB. destruct (Z.compare_spec x y); [subst; destruct (Z.compare_spec A B)|..];
  [apply Z.compare_eq_iff|apply Z.compare_lt_iff|apply Z.compare_gt_iff|apply Z.compare_lt_iff
  |apply Z.compare_gt_iff]; nia. Qed.

Lemma cmp_from_val n a b :
  (n <= length a)%nat -> (n <= length b)%nat ->
  cmp_from n a b = Z.compare (limbs_val (take n a)) (limbs_val (take n b)).
Proof.
  induction n as [|n IH]; intros Ha Hb; [done|]. cbn [cmp_from]. rewrite IH by lia.
  rewrite !take_S_limb, !limbs_val_snoc by lia.
  pose proof (limbs_val_range (take n a)) as Ra. pose proof (limbs_val_range (take n b)) as Rb.
  rewrite !length_take in *. replace (n `min` length a)%nat with n in * by lia.
  replace (n `min` length b)%nat with n in * by lia. by rewrite lex_compare.
Qed.

Lemma cmp_320_val a b : length a = 5%nat -> length b = 5%nat ->
  cmp_320 a b = Z.compare (limbs_val a) (limbs_val b).
Proof. intros Ha Hb. unfold cmp_320. rewrite cmp_from_val by lia. by rewrite !take_ge by lia. Qed.

Lemma U256_cmp_num x y : U256_cmp x y = Z.compare (num x) (num y).
Proof.
  unfold U256_cmp, num. rewrite cmp_from_val by (rewrite limbs_length; lia).
  by rewrite !take_ge by (rewrite limbs_length; lia).
Qed.

Lemma U256_ltb_num x y : U256_ltb x y = (num x <? num y).
Proof. unfold U256_ltb. by rewrite U256_cmp_num. Qed.

Lemma U256_min_num x y : num (U256_min x y) = Z.min (num x) (num y).
Proof. unfold U256_min, Z.min. rewrite U256_cmp_num. by destruct (num x ?= num y). Qed.

(** ** Bits *)

Lemma testbit_cons (x : u64) V i : 0 <= i ->
  Z.testbit (x + 2 ^ 64 * V) i = if i <? 64 then Z.testbit x i else Z.testbit V (i - 64).
Proof.
  intros Hi. pose proof (uint_range x).
  rewrite Z.add_comm, Z.mul_comm, <- lor_disjoint, Z.lor_spec, Z.mul_pow2_bits by lia.
  destruct (Z.ltb_spec i 64).
  - by rewrite Z.testbit_neg_r by lia.
  - rewrite (testbit_small x 64) by lia. apply orb_false_r.
Qed.

(** Bit [i] of the value is bit [i mod 64] of limb [i / 64]. *)
Lemma limbs_testbit l i :
  Z.testbit (limbs_val l) (Z.of_nat i) = Z.testbit (limb l (i / 64)) (Z.of_nat (i mod 64)).
Proof.
  revert i. induction l as [|x l IH]; intros i; cbn [limbs_val].
  - rewrite Z.bits_0. unfold limb. by destruct (i / 64)%nat; rewrite Z.bits_0.
  - rewrite testbit_cons by lia. destruct (Z.ltb_spec (Z.of_nat i) 64).
    + rewrite Nat.div_small, Nat.mod_small by lia. done.
    + replace (Z.of_nat i - 64) with (Z.of_nat (i - 64)) by lia. rewrite IH.
      replace i with (i - 64 + 1 * 64)%nat at 3 4 by lia.
      rewrite Nat.div_add, Nat.Div0.mod_add by lia. rewrite Nat.add_comm. done.
Qed.

Lemma land_one_testbit a i : 0 <= i -> negb (Z.land (Z.shiftr a i) 1 =? 0) = Z.testbit a i.
Proof.
  intros Hi. change 1 with (Z.ones 1). rewrite Z.land_ones by lia. change (2 ^ 1) with 2.
  rewrite <- Z.bit0_mod, Z.shiftr_spec, Z.add_0_l by lia. by destruct (Z.testbit a i).
Qed.

Lemma U256_bit_num x i : U256_bit x i = Z.testbit (num x) (Z.of_nat i).
Proof. unfold U256_bit, num. rewrite limbs_testbit. apply land_one_testbit. lia. Qed.

Lemma limbs_val_alter f k l :
  (k < length l)%nat ->
  limbs_val (alter f k l) = limbs_val l + 2 ^ (64 * Z.of_nat k) * (f (limb l k) - limb l k).
Proof.
  revert k. induction l as [|x l IH]; intros [|k]; cbn [length]; try lia; intros Hk.
  - cbn. lia.
  - cbn [alter list_alter limbs_val]. change (list_alter f k l) with (alter f k l). rewrite IH by lia.
    replace (64 * Z.of_nat (S k)) with (64 + 64 * Z.of_nat k) by lia.
    rewrite Z.pow_add_r by lia. change (limb (x :: l) (S k)) with (limb l k). lia.
Qed.

Lemma lor_pow2_add a j : 0 <= j -> Z.testbit a j = false -> Z.lor a (2 ^ j) = a + 2 ^ j.
Proof.
  intros Hj Ha. assert (Z.land a (2 ^ j) = 0) as H.
  { apply Z.bits_inj'. intros i Hi. rewrite Z.land_spec, Z.bits_0, Z.pow2_bits_eqb by lia.
    destruct (Z.eqb_spec j i) as [->|]; [by rewrite Ha|apply andb_false_r]. }
  by rewrite <- (Z.lxor_lor _ _ H), Z.add_nocarry_lxor.
Qed.

Lemma set_bit_num x i : (i < 256)%nat -> Z.testbit (num x) (Z.of_nat i) = false ->
  num (U256_set_bit x i) = num x + 2 ^ Z.of_nat i.
Proof.
  intros Hi Hb. unfold num in Hb. rewrite limbs_testbit in Hb. unfold U256_set_bit.
  assert (i / 64 < 4)%nat as Hk by (apply Nat.Div0.div_lt_upper_bound; lia).
  assert (i mod 64 < 64)%nat as Hj by (apply Nat.mod_upper_bound; lia).
  rewrite num_array4 by (rewrite length_alter; apply limbs_length).
  rewrite limbs_val_alter by (rewrite limbs_length; exact Hk). unfold num.
  set (l := limb (limbs x) (i / 64)) in *. pose proof (uint_range l) as Hl.
  rewrite Z.shiftl_mul_pow2, Z.mul_1_l by lia.
  assert (0 <= l + 2 ^ Z.of_nat (i mod 64) < 2 ^ 64) as Hr.
  { rewrite <- lor_pow2_add by (try done; lia). split; [apply Z.lor_nonneg; lia|].
    rewrite <- (Z.mod_small l (2 ^ 64)), <- (Z.mod_small (2 ^ Z.of_nat (i mod 64)) (2 ^ 64)) by
      first [done | split; [lia|apply Z.pow_lt_mono_r; lia]].
    rewrite <- !Z.land_ones, <- Z.land_lor_distr_l, Z.land_ones by lia. apply Z.mod_pos_bound. lia. }
  rewrite lor_pow2_add by (try done; lia). rewrite uval_wrap_small by exact Hr.
  replace (2 ^ Z.of_nat i) with (2 ^ (64 * Z.of_nat (i / 64)) * 2 ^ Z.of_nat (i mod 64)); [lia|].
  rewrite <- Z.pow_add_r by lia. f_equal. pose proof (Nat.div_mod_eq i 64). lia.
Qed.

(** ** Division by a 256-bit denominator *)

Lemma shl1_limbs_val l (c : u64) : c <= 1 ->
  length (shl1_limbs l c) = length l /\
  exists k, limbs_val (shl1_limbs l c) + 2 ^ (64 * Z.of_nat (length l)) * k = 2 * limbs_val l + c.
Proof.
  revert c. induction l as [|x l IH]; intros c Hc; cbn [shl1_limbs length limbs_val].
  - split; [done|]. exists c. pose proof (uint_range c). cbn. lia.
  - pose proof (uint_range x). pose proof (uint_range c).
    rewrite Z.shiftr_div_pow2, Z.shiftl_mul_pow2 by lia.
    assert (0 <= x / 2 ^ 63 <= 1) as Hq.
    { split; [apply Z.div_pos; lia|]. apply Z.lt_succ_r, Z.div_lt_upper_bound; lia. }
    destruct (IH (uint_wrap 64 (x / 2 ^ 63))) as [Hl [k Hk]]; [rewrite uval_wrap_small; lia|].
    split; [congruence|]. exists k. rewrite uval_wrap_small in Hk by lia.
    assert (uval (uint_wrap 64 (x * 2 ^ 1)) = (x mod 2 ^ 63) * 2 ^ 1) as Hs.
    { rewrite uval_wrap. change (2 ^ Z.pos 64) with (2 ^ 63 * 2 ^ 1). by rewrite Z.mul_mod_distr_r. }
    pose proof (Z.mod_pos_bound x (2 ^ 63) ltac:(lia)). pose proof (Z.div_mod x (2 ^ 63) ltac:(lia)).
    rewrite Hs, lor_disjoint, uval_wrap_small by lia.
    replace (64 * Z.of_nat (S (length l))) with (64 + 64 * Z.of_nat (length l)) by lia.
    rewrite Z.pow_add_r by lia. set (P := 2 ^ (64 * _)) in Hk |- *. lia.
Qed.

Lemma borrow_step (a b c : Z) :
  0 <= a < 2 ^ 64 -> 0 <= b < 2 ^ 64 -> 0 <= c <= 1 ->
  (((a - b) mod 2 ^ 64 - c) mod 2 ^ 64)
    - 2 ^ 64 * (if (a <? b) || ((a - b) mod 2 ^ 64 <? c) then 1 else 0) = a - b - c.
Proof.
  intros Ha Hb Hc. destruct (Z.ltb_spec a b) as [H|H]; cbn [orb].
  - assert ((a - b) mod 2 ^ 64 = a - b + 2 ^ 64) as -> by (symmetry; apply (Z.mod_unique _ _ (-1)); lia).
    rewrite Z.mod_small by lia. lia.
  - rewrite (Z.mod_small (a - b)) by lia. destruct (Z.ltb_spec (a - b) c).
    + assert ((a - b - c) mod 2 ^ 64 = a - b - c + 2 ^ 64) as ->
        by (symmetry; apply (Z.mod_unique _ _ (-1)); lia). lia.
    + rewrite Z.mod_small by lia. lia.
Qed.

Lemma sub_320_val a b borrow :
  length a = length b ->
  length (sub_320 a b borrow) = length a /\
  exists k, limbs_val (sub_320 a b borrow) - 2 ^ (64 * Z.of_nat (length a)) * k
            = limbs_val a - limbs_val b - (if borrow then 1 else 0).
Proof.
  revert b borrow. induction a as [|x a IH]; intros [|y b] borrow; cbn [length]; [|done..|].
  - intros _. split; [done|]. exists (if borrow then 1 else 0). cbn. lia.
  - intros [= Hl]. cbn [sub_320 overflowing_sub]. pose proof (uint_range x) as Hx.
    pose proof (uint_range y) as Hy.
    pose proof (borrow_step x y (if borrow then 1 else 0) Hx Hy ltac:(destruct borrow; lia)) as Hc.
    rewrite bool_word, (uval_wrap 64 (x - y)).
    destruct (IH b ((x <? y) || ((x - y) mod 2 ^ 64 <? (if borrow then 1 else 0))) Hl) as [Hlen [k Hk]].
    split; [cbn [length]; congruence|]. exists k. cbn [limbs_val].
    replace (64 * Z.of_nat (S (length a))) with (64 + 64 * Z.of_nat (length a)) by lia.
    rewrite Z.pow_add_r, uval_wrap by lia. set (low := _ mod 2 ^ 64) in Hc |- *.
    set (P := 2 ^ (64 * _)) in Hk |- *. lia.
Qed.

(** Values of the right length are determined modulo the width. *)
Lemma limbs_val_mod l n V k : length l = n -> 0 <= V < 2 ^ (64 * Z.of_nat n) ->
  limbs_val l + 2 ^ (64 * Z.of_nat n) * k = V -> limbs_val l = V.
Proof. intros <- HV H. pose proof (limbs_val_range l). assert (k = 0) by nia. lia. Qed.

Lemma shl1_320 l (c : u64) : length l = 5%nat -> c <= 1 -> limbs_val l < 2 ^ 256 ->
  length (shl1_limbs l c) = 5%nat /\ limbs_val (shl1_limbs l c) = 2 * limbs_val l + c.
Proof.
  intros Hl Hc HV. destruct (shl1_limbs_val l c Hc) as [Hlen [k Hk]]. rewrite Hl in *.
  split; [done|]. pose proof (limbs_val_range l). pose proof (uint_range c).
  eapply limbs_val_mod; [done| |exact Hk]. change (2 ^ (64 * Z.of_nat 5)) with (2 ^ 320). lia.
Qed.

Lemma sub_320_num a b : length a = 5%nat -> length b = 5%nat -> limbs_val b <= limbs_val a ->
  length (sub_320 a b false) = 5%nat /\ limbs_val (sub_320 a b false) = limbs_val a - limbs_val b.
Proof.
  intros Ha Hb Hle. destruct (sub_320_val a b false) as [Hlen [k Hk]]; [congruence|]. rewrite Ha in *.
  split; [done|]. pose proof (limbs_val_range a) as Ra. pose proof (limbs_val_range b).
  rewrite Ha in Ra. apply (limbs_val_mod _ 5 _ (- k)); [done|lia|lia].
Qed.

(** The state of the division loop before bit [k - 1] is processed: the quotient
    and remainder of the top [256 - k] bits. *)
Record div_inv (x : Uint256) (D : Z) (k : nat) (st : list u64 * Uint256) (Q : Z) : Prop := {
  div_len : length st.1 = 5%nat;
  div_rem : 0 <= limbs_val st.1 < D;
  div_quo : num st.2 = Q * 2 ^ Z.of_nat k;
  div_eq : Q * D + limbs_val st.1 = num x / 2 ^ Z.of_nat k
}.

Lemma div_pow2_step V k : 0 <= V ->
  V / 2 ^ Z.of_nat k = 2 * (V / 2 ^ Z.of_nat (S k)) + (if Z.testbit V (Z.of_nat k) then 1 else 0).
Proof.
  intros HV. rewrite Z.testbit_eqb by lia. replace (2 ^ Z.of_nat (S k)) with (2 ^ Z.of_nat k * 2)
    by (rewrite Nat2Z.inj_succ, Z.pow_succ_r; lia).
  rewrite <- Z.div_div by lia. set (W := V / 2 ^ Z.of_nat k).
  pose proof (Z.div_mod W 2 ltac:(lia)). pose proof (Z.mod_pos_bound W 2 ltac:(lia)).
  destruct (Z.eqb_spec (W mod 2) 1); lia.
Qed.

Lemma div_step_inv x D divisor k st Q :
  (k < 256)%nat -> 0 < D < 2 ^ 256 -> length divisor = 5%nat -> limbs_val divisor = D ->
  div_inv x D (S k) st Q -> exists Q', div_inv x D k (div_step x divisor k st) Q'.
Proof.
  intros Hk HD Hld HvD [Hl Hr Hq He]. destruct st as [r q]. cbn [fst snd] in *. unfold div_step.
  pose proof (num_range x). rewrite U256_bit_num. set (bit := Z.testbit (num x) (Z.of_nat k)).
  pose proof (div_pow2_step (num x) k ltac:(lia)) as Hstep. fold bit in Hstep. rewrite <- He in Hstep.
  destruct (shl1_320 r (u64_of_bool bit)) as [Hl' Hv']; [done|destruct bit; done|lia|].
  rewrite bool_word in Hv'. set (r' := shl1_limbs r (u64_of_bool bit)) in *.
  rewrite cmp_320_val, HvD by done.
  replace (2 ^ Z.of_nat (S k)) with (2 * 2 ^ Z.of_nat k) in Hq by (rewrite Nat2Z.inj_succ, Z.pow_succ_r; lia).
  assert (0 < 2 ^ Z.of_nat k) by lia.
  destruct (Z.compare_spec (limbs_val r') D) as [E|E|E].
  2: { exists (2 * Q). constructor; cbn [fst snd]; [done|destruct bit; lia|lia|]. destruct bit; lia. }
  all: exists (2 * Q + 1); destruct (sub_320_num r' divisor) as [Hl2 Hv2]; [done..|lia|];
    (assert (Z.testbit (num q) (Z.of_nat k) = false) as Hb
      by (rewrite Hq; replace (Q * (2 * 2 ^ Z.of_nat k)) with ((Q * 2) * 2 ^ Z.of_nat k) by lia;
          rewrite Z.mul_pow2_bits, Z.sub_diag, Z.mul_comm by lia; apply Z.testbit_even_0));
    constructor; cbn [fst snd]; [done|destruct bit; lia|rewrite set_bit_num by done; lia|destruct bit; lia].
Qed.

Lemma div_loop_inv x D divisor k st Q :
  (k <= 256)%nat -> 0 < D < 2 ^ 256 -> length divisor = 5%nat -> limbs_val divisor = D ->
  div_inv x D k st Q -> exists Q', div_inv x D 0 (div_loop k x divisor st) Q'.
Proof.
  revert st Q. induction k as [|k IH]; intros st Q Hk HD Hl Hv H; cbn [div_loop]; [by exists Q|].
  destruct (div_step_inv x D divisor k st Q) as [Q' H']; [lia|done..|]. apply (IH _ Q'); try done. lia.
Qed.

Lemma U256_div_num x y z : U256_div x y = Some z <-> num y <> 0 /\ num z = num x / num y.
Proof.
  unfold U256_div. pose proof (num_zero y) as Hz. pose proof (num_range y).
  destruct (U256_is_zero y); [split; [done|intros [H0 _]; by destruct H0; apply Hz]|].
  assert (num y <> 0) as Hy by (intros H0; by apply Hz in H0).
  destruct (div_loop_inv x (num y) (limbs y ++ [uint_wrap 64 0]) 256
    (repeat (uint_wrap 64 0) 5, U256_ZERO) 0) as [Q [Hl Hr Hq He]]; [lia|lia| | | |].
  - rewrite length_app, limbs_length. done.
  - rewrite limbs_val_snoc. change (uval (uint_wrap 64 0)) with 0. unfold num. lia.
  - pose proof (num_range x). constructor; cbn [fst snd]; [done| |done|].
    + change (limbs_val (repeat (uint_wrap 64 0) 5)) with 0. lia.
    + change (limbs_val (repeat (uint_wrap 64 0) 5)) with 0.
      change (2 ^ Z.of_nat 256) with (2 ^ 256). by rewrite Z.div_small by done.
  - change (2 ^ Z.of_nat 0) with 1 in *. rewrite Z.div_1_r in He. rewrite Z.mul_1_r in Hq.
    set (st := div_loop 256 _ _ _) in *. clearbody st.
    assert (num st.2 = num x / num y) as Hn.
    { rewrite Hq. apply (Z.div_unique _ _ _ (limbs_val st.1)); [left; lia|lia]. }
    split; [intros [= <-]; done|]. intros [_ Hzn]. f_equal. apply num_inj. congruence.
Qed.

(** ** Bit length and shifts *)

(** The number of significant bits. *)
Definition bits_of (V : Z) : Z := if V =? 0 then 0 else Z.log2 V + 1.

Lemma log2_lex P n A x : P = 2 ^ n -> 0 <= n -> 0 <= A < P -> 0 < x -> Z.log2 (A + P * x) = n + Z.log2 x.
Proof.
  intros -> Hn HA Hx. pose proof (Z.log2_spec x Hx). pose proof (Z.log2_nonneg x).
  apply Z.log2_unique; [lia|]. replace (Z.succ (n + Z.log2 x)) with (n + Z.succ (Z.log2 x)) by lia.
  rewrite !Z.pow_add_r by lia. nia.
Qed.

Lemma bit_len_from_val n l : (n <= length l)%nat -> bit_len_from n l = bits_of (limbs_val (take n l)).
Proof.
  induction n as [|n IH]; intros Hn; [done|]. cbn [bit_len_from]. rewrite IH by lia.
  rewrite take_S_limb, limbs_val_snoc by lia. rewrite length_take. replace (n `min` length l)%nat with n by lia.
  pose proof (limbs_val_range (take n l)) as Hr. rewrite length_take in Hr.
  replace (n `min` length l)%nat with n in Hr by lia. pose proof (uint_range (limb l n)).
  destruct (Z.eqb_spec (limb l n) 0) as [E|E]; cbn [negb].
  - rewrite E. f_equal. lia.
  - unfold bits_of, leading_zeros64. destruct (Z.eqb_spec (limb l n) 0); [done|].
    destruct (Z.eqb_spec (limbs_val (take n l) + 2 ^ (64 * Z.of_nat n) * limb l n) 0); [nia|].
    rewrite (log2_lex _ (64 * Z.of_nat n)) by (try done; lia). lia.
Qed.

Lemma bit_len_num x : bit_len x = bits_of (num x).
Proof. unfold bit_len. by rewrite bit_len_from_val, take_ge by (rewrite limbs_length; lia). Qed.

Lemma bits_of_le V n : 0 <= V -> 0 <= n -> bits_of V <= n <-> V < 2 ^ n.
Proof.
  intros HV Hn. unfold bits_of. destruct (Z.eqb_spec V 0) as [->|E]; [lia|].
  rewrite Z.log2_lt_pow2 by lia. lia.
Qed.

Lemma bits_of_spec V : 0 < V -> 2 ^ (bits_of V - 1) <= V < 2 ^ bits_of V.
Proof.
  intros HV. unfold bits_of. destruct (Z.eqb_spec V 0); [lia|]. pose proof (Z.log2_spec V HV).
  replace (Z.log2 V + 1 - 1) with (Z.log2 V) by lia. done.
Qed.

Lemma bits_of_range V n : 0 <= V < 2 ^ n -> 0 <= n -> 0 <= bits_of V <= n.
Proof.
  intros HV Hn. split; [|apply bits_of_le; lia]. unfold bits_of.
  destruct (Z.eqb_spec V 0); [lia|]. pose proof (Z.log2_nonneg V). lia.
Qed.

Lemma wrap64_testbit V j : 0 <= j -> Z.testbit (uint_wrap 64 V) j = (j <? 64) && Z.testbit V j.
Proof.
  intros Hj. rewrite uval_wrap. destruct (Z.ltb_spec j 64).
  - rewrite Z.mod_pow2_bits_low by lia. done.
  - rewrite Z.mod_pow2_bits_high by lia. done.
Qed.

Lemma limb_map4 f k : (k < 4)%nat -> limb (map f (seq 0 4)) k = f k.
Proof. intros H. by repeat (destruct k as [|k]; [done|]; try lia). Qed.

Lemma limb_ge l k : (length l <= k)%nat -> uval (limb l k) = 0.
Proof. intros H. unfold limb. by rewrite nth_overflow. Qed.

(** Equality of a limb array with an integer, limb by limb and bit by bit. *)
Lemma limbs4_eq l V : length l = 4%nat -> 0 <= V < 2 ^ 256 ->
  (forall k j, (k < 4)%nat -> (j < 64)%nat ->
    Z.testbit (limb l k) (Z.of_nat j) = Z.testbit V (64 * Z.of_nat k + Z.of_nat j)) ->
  limbs_val l = V.
Proof.
  intros Hl HV H. pose proof (limbs_val_range l) as Hr. rewrite Hl in Hr.
  apply Z.bits_inj'. intros i Hi. destruct (decide (i < 256)).
  - pose proof (limbs_testbit l (Z.to_nat i)) as Ht. rewrite Z2Nat.id in Ht by lia. rewrite Ht.
    rewrite H; [|apply Nat.Div0.div_lt_upper_bound; lia|apply Nat.mod_upper_bound; lia].
    f_equal. pose proof (Nat.div_mod_eq (Z.to_nat i) 64). lia.
  - by rewrite !(testbit_small _ 256) by (try done; lia).
Qed.

Lemma limb_testbit_num x k j : (j < 64)%nat ->
  Z.testbit (limb (limbs x) k) (Z.of_nat j) = Z.testbit (num x) (64 * Z.of_nat k + Z.of_nat j).
Proof.
  intros Hj. replace (64 * Z.of_nat k + Z.of_nat j) with (Z.of_nat (k * 64 + j)) by lia.
  unfold num. rewrite limbs_testbit. rewrite Nat.div_add_l, Nat.div_small, Nat.add_0_r by lia.
  rewrite Nat.add_comm, Nat.Div0.mod_add, Nat.mod_small by lia. done.
Qed.

(** Bits of a shifted word, the out-of-range positions included. *)
Lemma limb_testbit_any x k j : 0 <= j -> Z.testbit (limb (limbs x) k) j =
  (j <? 64) && Z.testbit (num x) (64 * Z.of_nat k + j).
Proof.
  intros Hj. destruct (Z.ltb_spec j 64); cbn [andb].
  - rewrite <- (Z2Nat.id j) by lia. by rewrite limb_testbit_num by lia.
  - apply (testbit_small _ 64); [lia|apply uint_range|lia].
Qed.

Lemma num_testbit_ge x i : 256 <= i -> Z.testbit (num x) i = false.
Proof. intros H. apply (testbit_small _ 256); [lia|apply num_range|lia]. Qed.

Lemma U256_shr_num x s : 0 <= s -> num (U256_shr x s) = num x / 2 ^ s.
Proof.
  intros Hs. pose proof (num_range x) as Hx. unfold U256_shr. destruct (Z.leb_spec 256 s).
  { symmetry. apply Z.div_small. split; [lia|]. eapply Z.lt_le_trans; [apply Hx|].
    apply Z.pow_le_mono_r; lia. }
  rewrite num_array4 by done. pose proof (Z.div_mod s 64 ltac:(lia)) as Hd.
  pose proof (Z.mod_pos_bound s 64 ltac:(lia)) as Hm. pose proof (Z.div_pos s 64 Hs ltac:(lia)).
  set (w := Z.to_nat (s / 64)) in *. set (b := s mod 64) in *.
  apply limbs4_eq; [done| |].
  { split; [apply Z.div_pos; lia|]. apply Z.div_lt_upper_bound; [lia|]. nia. }
  intros k j Hk Hj. rewrite limb_map4, Z.div_pow2_bits by lia.
  replace (64 * Z.of_nat k + Z.of_nat j + s) with (64 * Z.of_nat (k + w) + (Z.of_nat j + b)) by lia.
  destruct (Nat.leb_spec 4 (k + w)).
  { rewrite num_testbit_ge by lia. apply Z.bits_0. }
  rewrite wrap64_testbit by lia. destruct (Z.ltb_spec (Z.of_nat j) 64); [|lia]. cbn [andb].
  destruct (Z.eqb_spec b 0) as [Eb|Eb]; cbn [negb andb].
  { rewrite Z.shiftr_spec, limb_testbit_any by lia. destruct (Z.ltb_spec (Z.of_nat j + b) 64); [done|lia]. }
  destruct (Nat.ltb_spec (k + w + 1) 4).
  - rewrite Z.lor_spec, Z.shiftr_spec, limb_testbit_any, wrap64_testbit, Z.shiftl_spec by lia.
    destruct (Z.ltb_spec (Z.of_nat j) 64); [|lia]. cbn [andb].
    destruct (Z.ltb_spec (Z.of_nat j + b) 64); cbn [andb orb].
    + rewrite (Z.testbit_neg_r (limb _ _)) by lia. apply orb_false_r.
    + rewrite limb_testbit_any by lia. destruct (Z.ltb_spec (Z.of_nat j - (64 - b)) 64); [|lia].
      cbn [andb]. f_equal. lia.
  - rewrite Z.shiftr_spec, limb_testbit_any by lia. destruct (Z.ltb_spec (Z.of_nat j + b) 64); [done|].
    cbn [andb]. rewrite num_testbit_ge by lia. done.
Qed.

(** Bits of concrete limb lists, with every position decided by [lia]. *)
Ltac word_bits :=
  repeat first
    [ progress cbn [andb orb negb]
    | rewrite wrap64_testbit by lia
    | rewrite Z.lor_spec
    | rewrite Z.shiftl_spec by lia
    | rewrite Z.shiftr_spec by lia
    | rewrite Z.bits_0
    | rewrite orb_false_r
    | rewrite testbit_cons by lia
    | match goal with
      | |- context [?a <? ?b] => destruct (Z.ltb_spec a b); try lia
      | |- context [Z.testbit ?a ?i] => rewrite (Z.testbit_neg_r a i) by lia
      | |- context [Z.testbit (uval ?a) ?i] => rewrite (testbit_small a 64 i) by (try apply uint_range; lia)
      end ].

Lemma shl_limbs_bits a b c d w bs k j :
  (w < 4)%nat -> 0 <= bs < 64 -> (k < 4)%nat -> (j < 64)%nat ->
  Z.testbit (limb (fold_left (shl_step [a; b; c; d] w bs) (seq 0 4) (repeat (uint_wrap 64 0) 4)) k) (Z.of_nat j)
  = Z.testbit (limbs_val [a; b; c; d]) (64 * Z.of_nat k + Z.of_nat j - (64 * Z.of_nat w + bs)).
Proof.
  intros Hw Hb Hk Hj. cbn [limbs_val].
  assert (forall i, Z.testbit (uint_wrap 64 0) i = false) as H0 by (intros; apply Z.bits_0).
  destruct (Z.eqb_spec bs 0) as [E|E]; destruct (Z.lt_ge_cases (Z.of_nat j) bs).
  all: assert (w = 0 \/ w = 1 \/ w = 2 \/ w = 3)%nat as [->|[->|[->| ->]]] by lia;
    cbn [seq fold_left]; unfold shl_step; rewrite (proj2 (Z.eqb_eq _ _) E) || rewrite (proj2 (Z.eqb_neq _ _) E);
    cbn -[Z.testbit Z.lor Z.shiftl Z.shiftr uint_wrap Z.of_nat Z.pow Z.sub Z.add Z.mul];
    assert (k = 0 \/ k = 1 \/ k = 2 \/ k = 3)%nat as [->|[->|[->| ->]]] by lia;
    cbn [limb nth]; rewrite ?H0; word_bits; try done; try (f_equal; lia).
Qed.

Lemma shl_step_length l w bs out src : length (shl_step l w bs out src) = length out.
Proof. unfold shl_step. repeat case_match; by rewrite ?length_alter. Qed.

Lemma shl_fold_length l w bs ks out : length (fold_left (shl_step l w bs) ks out) = length out.
Proof. revert out. induction ks as [|k ks IH]; intros out; cbn [fold_left]; [done|]. by rewrite IH, shl_step_length. Qed.

Lemma checked_shl_num x s z : 0 <= s -> checked_shl x s = Some z <-> num z = num x * 2 ^ s.
Proof.
  intros Hs. pose proof (num_range x) as Hx. pose proof (num_range z) as Hz. unfold checked_shl.
  destruct (Z.leb_spec 256 s) as [H|H].
  { pose proof (Z.pow_le_mono_r 2 256 s ltac:(lia) H). destruct (U256_is_zero x) eqn:E.
    - apply num_zero in E. rewrite E. split; [intros [= <-]; done|].
      intros Hz0. f_equal. apply num_inj. by rewrite Hz0.
    - split; [done|]. intros Hz0. assert (num x <> 0) by (intros E0; apply num_zero in E0; congruence). nia. }
  rewrite bit_len_num.
  destruct (negb (s =? 0) && (256 - s <? bits_of (num x))) eqn:E.
  - apply andb_prop in E as [_ E]. apply Z.ltb_lt in E. split; [done|]. intros Hz0.
    assert (2 ^ (256 - s) <= num x) as Hge by (apply Z.nlt_ge; rewrite <- bits_of_le; lia).
    replace (2 ^ 256) with (2 ^ (256 - s) * 2 ^ s) in Hz by (rewrite <- Z.pow_add_r by lia; f_equal; lia).
    nia.
  - assert (num x < 2 ^ (256 - s)) as Hlt.
    { destruct (Z.eqb_spec s 0) as [->|Hs0]; [rewrite Z.sub_0_r; lia|]. cbn [negb andb] in E.
      apply Z.ltb_ge in E. apply bits_of_le; lia. }
    pose proof (Z.div_mod s 64 ltac:(lia)). pose proof (Z.mod_pos_bound s 64 ltac:(lia)).
    assert (0 <= s / 64 < 4) by (split; [apply Z.div_pos; lia|apply Z.div_lt_upper_bound; lia]).
    set (out := fold_left _ _ _). assert (length out = 4%nat) as Hl by apply shl_fold_length.
    assert (num (array4 out) = num x * 2 ^ s) as Hn.
    { rewrite num_array4 by done. apply limbs4_eq; [done| |].
      - split; [nia|]. replace (2 ^ 256) with (2 ^ (256 - s) * 2 ^ s)
          by (rewrite <- Z.pow_add_r by lia; f_equal; lia). nia.
      - intros k j Hk Hj. rewrite Z.mul_pow2_bits by lia. unfold out, num.
        pose proof (limbs_length x) as Hlx. destruct (limbs x) as [|a [|b [|c [|d [|]]]]]; try done.
        rewrite shl_limbs_bits by lia. f_equal. lia. }
    split; [intros [= <-]; done|]. intros Hz0. f_equal. apply num_inj. congruence.
Qed.

(** ** Compact encoding *)

(** The exponent and the mantissa of Bitcoin's compact form of a positive value. *)
Definition compact_size (V : Z) : Z := bits_of V / 8 + 1.
Definition mantissa (e V : Z) : Z := if e <=? 3 then V * 2 ^ (8 * (3 - e)) else V / 2 ^ (8 * (e - 3)).

Lemma land_pow2_testbit a k : 0 <= k -> (Z.land a (2 ^ k) =? 0) = negb (Z.testbit a k).
Proof.
  intros Hk. destruct (Z.testbit a k) eqn:E; cbn [negb].
  - apply Z.eqb_neq. intros H0. assert (Z.testbit (Z.land a (2 ^ k)) k = false) as H by (rewrite H0; apply Z.bits_0).
    rewrite Z.land_spec, E, Z.pow2_bits_true in H by lia. done.
  - apply Z.eqb_eq, Z.bits_inj'. intros i Hi. rewrite Z.land_spec, Z.bits_0, Z.pow2_bits_eqb by lia.
    destruct (Z.eqb_spec k i) as [<-|]; [by rewrite E|apply andb_false_r].
Qed.

Lemma top_testbit a k : 0 <= k -> 0 <= a < 2 ^ (k + 1) -> Z.testbit a k = (2 ^ k <=? a).
Proof.
  intros Hk Ha. rewrite Z.pow_add_r in Ha by lia. rewrite Z.testbit_eqb by lia.
  destruct (Z.leb_spec (2 ^ k) a).
  - replace (a / 2 ^ k) with 1; [done|]. apply (Z.div_unique _ _ _ (a - 2 ^ k)); [left|]; lia.
  - rewrite Z.div_small by lia. done.
Qed.

Lemma mantissa_bounds e V lo hi : 0 <= V -> 0 <= lo -> 0 <= hi ->
  0 <= lo + 8 * (e - 3) -> 0 <= hi + 8 * (e - 3) -> 0 <= e ->
  (2 ^ (lo + 8 * (e - 3)) <= V -> 2 ^ lo <= mantissa e V) /\
  (V < 2 ^ (hi + 8 * (e - 3)) -> mantissa e V < 2 ^ hi).
Proof.
  intros HV Hlo Hhi H1 H2 He. unfold mantissa. destruct (Z.leb_spec e 3).
  - split; intros HH.
    + replace (2 ^ lo) with (2 ^ (lo + 8 * (e - 3)) * 2 ^ (8 * (3 - e)))
        by (rewrite <- Z.pow_add_r by lia; f_equal; lia). apply Z.mul_le_mono_nonneg_r; lia.
    + replace (2 ^ hi) with (2 ^ (hi + 8 * (e - 3)) * 2 ^ (8 * (3 - e)))
        by (rewrite <- Z.pow_add_r by lia; f_equal; lia). apply Z.mul_lt_mono_pos_r; lia.
  - split; intros HH; rewrite Z.pow_add_r, Z.mul_comm in HH by lia.
    + apply Z.div_le_lower_bound; lia.
    + apply Z.div_lt_upper_bound; lia.
Qed.

Lemma mantissa_succ e V : 0 <= e -> mantissa e V / 2 ^ 8 = mantissa (e + 1) V.
Proof.
  intros He. unfold mantissa. destruct (Z.leb_spec e 3), (Z.leb_spec (e + 1) 3); try lia.
  - replace (8 * (3 - e)) with (8 * (3 - (e + 1)) + 8) by lia. rewrite Z.pow_add_r, Z.mul_assoc by lia.
    by rewrite Z.div_mul by lia.
  - replace e with 3 by lia. by rewrite Z.mul_1_r.
  - rewrite Z.div_div by lia. rewrite <- Z.pow_add_r by lia. do 2 f_equal. lia.
Qed.

Lemma mantissa_nonneg e V : 0 <= V -> 0 <= mantissa e V.
Proof.
  intros HV. unfold mantissa. destruct (e <=? 3); [apply Z.mul_nonneg_nonneg; lia|].
  destruct (Z.lt_ge_cases (8 * (e - 3)) 0); [rewrite Z.pow_neg_r, Zdiv_0_r; lia|apply Z.div_pos; lia].
Qed.

Lemma mantissa_raw x : 0 < num x ->
  let size := div_ceil8 (bit_len x) in
  (if size <=? 3 then uint_wrap 32 (uint_wrap 64 (Z.shiftl (low_u64 x) (8 * (3 - size))))
   else uint_wrap 32 (low_u64 (U256_shr x (8 * (size - 3))))) = uint_wrap 32 (mantissa size (num x)) /\
  0 <= mantissa size (num x) < 2 ^ 24.
Proof.
  intros HV. pose proof (num_range x) as Hr. pose proof (bits_of_spec _ HV) as Hs.
  pose proof (bits_of_range (num x) 256 ltac:(lia) ltac:(lia)) as Hn.
  rewrite bit_len_num. intros size. pose proof (Z.div_mod (bits_of (num x) + 7) 8 ltac:(lia)) as Hd.
  pose proof (Z.mod_pos_bound (bits_of (num x) + 7) 8 ltac:(lia)) as Hm. fold (div_ceil8 (bits_of (num x))) in Hd.
  fold size in Hd. assert (num x < 2 ^ (24 + 8 * (size - 3))) as Hlt.
  { eapply Z.lt_le_trans; [apply Hs|]. apply Z.pow_le_mono_r; lia. }
  assert (0 <= mantissa size (num x) < 2 ^ 24) as Hb.
  { split; [apply mantissa_nonneg; lia|]. eapply (mantissa_bounds size (num x) 24 24); lia. }
  split; [|exact Hb]. unfold mantissa in *. destruct (Z.leb_spec size 3) as [H|H].
  - assert (uval (low_u64 x) = num x) as El.
    { unfold low_u64. apply Z.bits_inj'. intros i Hi. rewrite limb_testbit_any by lia.
      replace (64 * Z.of_nat 0 + i) with i by lia. destruct (Z.ltb_spec i 64); [done|].
      rewrite (testbit_small _ 24); [done|lia| |lia]. split; [lia|].
      eapply Z.lt_le_trans; [exact Hlt|]. apply Z.pow_le_mono_r; lia. }
    rewrite El, Z.shiftl_mul_pow2 by lia. rewrite uval_wrap_small by lia. done.
  - f_equal. unfold low_u64. rewrite <- U256_shr_num in * by lia. set (y := U256_shr x _) in *.
    apply Z.bits_inj'. intros i Hi. rewrite limb_testbit_any by lia.
    replace (64 * Z.of_nat 0 + i) with i by lia. destruct (Z.ltb_spec i 64); [done|].
    by rewrite (testbit_small (num y) 24) by lia.
Qed.

(** The compact form carries the top bits of the value in a mantissa of 16 to 23 bits. *)
Lemma compact_size_spec V : 0 < V < 2 ^ 256 ->
  1 <= compact_size V <= 33 /\ 2 ^ 15 <= mantissa (compact_size V) V < 2 ^ 23.
Proof.
  intros HV. pose proof (bits_of_spec V ltac:(lia)) as Hs.
  pose proof (bits_of_range V 256 ltac:(lia) ltac:(lia)) as Hn.
  unfold compact_size. set (n := bits_of V) in *.
  pose proof (Z.div_mod n 8 ltac:(lia)) as Hd. pose proof (Z.mod_pos_bound n 8 ltac:(lia)) as Hm.
  assert (0 < n) as Hn0 by (destruct (decide (n = 0)) as [E|]; [rewrite E in Hs; lia|lia]).
  split; [lia|]. set (e := n / 8 + 1) in *. split.
  - destruct (Z.eq_dec e 1) as [->|He].
    + unfold mantissa. change (1 <=? 3) with true. cbn [negb]. change (2 ^ (8 * (3 - 1))) with (2 ^ 16). lia.
    + eapply (mantissa_bounds e V 15 15); try lia. etransitivity; [|apply Hs]. apply Z.pow_le_mono_r; lia.
  - eapply (mantissa_bounds e V 23 23); try lia. eapply Z.lt_le_trans; [apply Hs|]. apply Z.pow_le_mono_r; lia.
Qed.

Lemma compact_pack m e : 0 <= m < 2 ^ 24 -> 0 <= e < 2 ^ 8 ->
  uval (uint_wrap 32 (Z.lor (uint_wrap 32 m) (uint_wrap 32 (Z.shiftl e 24)))) = m + e * 2 ^ 24.
Proof.
  intros Hm He. rewrite Z.shiftl_mul_pow2 by lia. rewrite !(uval_wrap_small 32 m), (uval_wrap_small 32 (e * _)) by lia.
  rewrite Z.lor_comm, lor_disjoint by lia. rewrite uval_wrap_small by lia. lia.
Qed.

Lemma to_compact_val x : 0 < num x ->
  uval (to_compact x) = mantissa (compact_size (num x)) (num x) + compact_size (num x) * 2 ^ 24.
Proof.
  intros HV. pose proof (num_range x) as Hr. pose proof (mantissa_raw x HV) as [Hraw Hm0].
  pose proof (compact_size_spec (num x) ltac:(lia)) as [He Hm].
  unfold to_compact. rewrite Hraw. set (size := div_ceil8 (bit_len x)) in *.
  change 0x00800000 with (2 ^ 23). rewrite land_pow2_testbit, uval_wrap_small, top_testbit by (try done; lia).
  rewrite negb_involutive.
  assert (size = if bits_of (num x) mod 8 =? 0 then compact_size (num x) - 1 else compact_size (num x)) as Hsz.
  { unfold size, div_ceil8, compact_size. rewrite bit_len_num. set (n := bits_of (num x)).
    pose proof (Z.div_mod n 8 ltac:(lia)). pose proof (Z.mod_pos_bound n 8 ltac:(lia)).
    pose proof (Z.div_mod (n + 7) 8 ltac:(lia)). pose proof (Z.mod_pos_bound (n + 7) 8 ltac:(lia)).
    destruct (Z.eqb_spec (n mod 8) 0); lia. }
  destruct (Z.eqb_spec (bits_of (num x) mod 8) 0) as [E|E].
  - assert (2 ^ 23 <= mantissa size (num x)) as Htop.
    { pose proof (bits_of_spec (num x) HV). pose proof (Z.div_mod (bits_of (num x)) 8 ltac:(lia)).
      unfold compact_size in Hsz. pose proof (bits_of_range (num x) 256 ltac:(lia) ltac:(lia)).
      assert (bits_of (num x) = 8 * size) as En by lia.
      assert (0 < size) by (destruct (decide (size = 0)) as [E0|]; [rewrite En, E0 in *; lia|lia]).
      eapply (mantissa_bounds size (num x) 23 23); try lia.
      replace (23 + 8 * (size - 3)) with (bits_of (num x) - 1) by lia. lia. }
    rewrite (proj2 (Z.leb_le _ _) Htop). rewrite Z.shiftr_div_pow2 by lia.
    rewrite mantissa_succ by lia. replace (size + 1) with (compact_size (num x)) by lia.
    apply compact_pack; lia.
  - rewrite Hsz in Hm0 |- *. rewrite (proj2 (Z.leb_gt _ _)) by lia. apply compact_pack; lia.
Qed.

Lemma to_compact_zero x : num x = 0 -> uval (to_compact x) = 0.
Proof. intros H. replace x with U256_ZERO; [done|]. apply num_inj. by rewrite H. Qed.

(** The value a positive value is rounded to by its compact form. *)
Definition compact_floor (V : Z) : Z :=
  let e := compact_size V in if e <=? 3 then V else V / 2 ^ (8 * (e - 3)) * 2 ^ (8 * (e - 3)).

Lemma bits_of_unique V n : 0 < n -> 2 ^ (n - 1) <= V < 2 ^ n -> bits_of V = n.
Proof.
  intros Hn HV. assert (0 < 2 ^ (n - 1)) by lia. unfold bits_of. destruct (Z.eqb_spec V 0); [lia|].
  rewrite (Z.log2_unique V (n - 1)); [lia|lia|]. by replace (Z.succ (n - 1)) with n by lia.
Qed.

Lemma compact_floor_bounds V : 0 < V < 2 ^ 256 ->
  0 < compact_floor V <= V /\ 2 ^ 15 * (V - compact_floor V) < V /\
  bits_of (compact_floor V) = bits_of V.
Proof.
  intros HV. destruct (compact_size_spec V HV) as [He Hm]. unfold compact_floor, mantissa in *.
  destruct (Z.leb_spec (compact_size V) 3) as [H|H]; [split; [lia|split; [lia|done]]|].
  set (P := 2 ^ (8 * (compact_size V - 3))) in *. assert (0 < P) by (unfold P; lia).
  pose proof (Z.div_mod V P ltac:(lia)). pose proof (Z.mod_pos_bound V P ltac:(lia)).
  split; [nia|split; [nia|]]. pose proof (bits_of_spec V ltac:(lia)) as Hs.
  assert (0 < bits_of V) by (destruct (decide (bits_of V = 0)) as [E|];
    [rewrite E in Hs; lia|pose proof (bits_of_range V 256 ltac:(lia) ltac:(lia)); lia]).
  apply bits_of_unique; [done|]. split; [|nia].
  assert (8 * (compact_size V - 3) <= bits_of V - 1).
  { unfold compact_size. pose proof (Z.div_mod (bits_of V) 8 ltac:(lia)).
    pose proof (Z.mod_pos_bound (bits_of V) 8 ltac:(lia)). lia. }
  replace (bits_of V - 1) with (bits_of V - 1 - 8 * (compact_size V - 3) + 8 * (compact_size V - 3)) in * by lia.
  rewrite Z.pow_add_r in Hs |- * by lia. fold P in Hs |- *.
  apply Z.mul_le_mono_nonneg_r; [lia|]. apply Z.div_le_lower_bound; [lia|]. rewrite Z.mul_comm. apply Hs.
Qed.

(** Rounding is idempotent: the compact form of the rounded value is the same. *)
Lemma to_compact_floor x y : 0 < num x -> num y = compact_floor (num x) -> to_compact y = to_compact x.
Proof.
  intros HV Hy. pose proof (num_range x). pose proof (num_range y).
  destruct (compact_floor_bounds (num x)) as (Hp & _ & Hb); [lia|]. apply uint_eq.
  rewrite !to_compact_val by lia. rewrite Hy.
  assert (compact_size (compact_floor (num x)) = compact_size (num x)) as -> by (unfold compact_size; by rewrite Hb).
  f_equal. unfold mantissa, compact_floor.
  destruct (Z.leb_spec (compact_size (num x)) 3); [done|]. rewrite Z.div_mul; [done|].
  apply Z.pow_nonzero; lia.
Qed.

(** Every 256-bit integer is the value of some [Uint256]. *)
Lemma num_surj V : 0 <= V < 2 ^ 256 -> exists x, num x = V.
Proof.
  intros HV. exists (from_le_bytes (Array (le_bytes 32 V) (proj2 (Nat.eqb_eq _ _) (length_le_bytes 32 V)))).
  rewrite num_from_le. cbn [arr]. rewrite le_val_bytes. apply Z.mod_small. exact HV.
Qed.
