(* ===== verification/BitcoinHeaders.v ===== *)
(** Bitcoin headers: [BlockHash], [BitcoinHeader], proof of work, difficulty
    retargeting and the header chain of [crates/usdd-bitcoin-bmm/src/lib.rs].

    The compact target decoder and [block_work] are shown to compute their
    integer definitions; [verify_successor] is characterised exactly, and a run
    of it over many headers is shown to build a linked chain whose cumulative
    work is the sum of [2 ^ 256 / (target + 1)]. *)

From S2P Require Import Prelude Encoding Hashing Uint256.

Local Open Scope Z_scope.

Definition BITCOIN_HEADER_LEN : nat := 80.

(** [uN::from_le_bytes(bytes[off..off + N / 8])] *)
Definition le_word (w : positive) (off : nat) (l : bytes) : uint w :=
  uint_wrap w (le_val (slice off (off + Pos.to_nat w / 8) l)).

(** Two's complement: the [iN] with the low [N] bits of [z]. *)
Definition signed (w : positive) (z : Z) : Z := (z + 2 ^ (Zpos w - 1)) mod 2 ^ Zpos w - 2 ^ (Zpos w - 1).

(** ** Hashes and headers *)

Abbreviation BlockHash := (array 32).

Definition from_display_bytes (bs : array 32) : BlockHash := array_rev bs.
Definition to_display_bytes (h : BlockHash) : array 32 := array_rev h.
Definition as_number (h : BlockHash) : Uint256 := from_le_bytes h.

Record BitcoinHeader : Type := MkBitcoinHeader {
  hdr_version : Z;
  hdr_previous_block : BlockHash;
  hdr_merkle_root : BlockHash;
  hdr_time : u32;
  hdr_bits : u32;
  hdr_nonce : u32;
  hdr_raw : array 80
}.

Inductive CompactTargetError : Type := CT_Negative | CT_Zero | CT_Overflow | CT_AbovePowLimit.

Inductive HeaderError : Type :=
| HE_InvalidLength
| HE_InvalidTarget (e : CompactTargetError)
| HE_UnexpectedDifficultyBits
| HE_InsufficientProofOfWork
| HE_BrokenParentLink
| HE_InvalidCheckpointChainwork
| HE_HeightOverflow
| HE_ChainworkOverflow
| HE_InvalidDifficultyParameters
| HE_UnsupportedMinDifficultyRule
| HE_RetargetArithmeticOverflow.

Definition header_of_raw (raw : array 80) : BitcoinHeader := {|
  hdr_version := signed 32 (le_val (slice 0 4 raw));
  hdr_previous_block := subarray 32 4 raw;
  hdr_merkle_root := subarray 32 36 raw;
  hdr_time := le_word 32 68 raw;
  hdr_bits := le_word 32 72 raw;
  hdr_nonce := le_word 32 76 raw;
  hdr_raw := raw
|}.

Definition BitcoinHeader_decode_exact (bs : bytes) : res HeaderError BitcoinHeader :=
  fail_if (negb (length bs =? BITCOIN_HEADER_LEN)%nat) HE_InvalidLength;;
  raw ← ok_or (array_try 80 bs) HE_InvalidLength;
  Ok (header_of_raw raw).

Definition double_sha256 {H : Sha256} (bs : bytes) : Hash32 := sha256 (sha256 bs).
Definition block_hash {H : Sha256} (h : BitcoinHeader) : BlockHash := double_sha256 (hdr_raw h).

(** ** Targets and work *)

Definition decode_and_validate_target (bits : u32) (pow_limit : Uint256) : res CompactTargetError Uint256 :=
  let size := Z.shiftr bits 24 in
  let word := Z.land bits 0x007fffff in
  let word := if size <=? 3 then Z.shiftr word (8 * (3 - size)) else word in
  let negative := negb (word =? 0) && negb (Z.land bits 0x00800000 =? 0) in
  let overflow := negb (word =? 0)
    && ((34 <? size) || ((0xff <? word) && (33 <? size)) || ((0xffff <? word) && (32 <? size))) in
  fail_if negative CT_Negative;;
  fail_if overflow CT_Overflow;;
  let z64 := uint_wrap 64 0 in
  target ← (if size <=? 3 then Ok (from_limbs_le (uint_wrap 64 word) z64 z64 z64)
            else ok_or (checked_shl (from_limbs_le (uint_wrap 64 word) z64 z64 z64) (8 * (size - 3))) CT_Overflow);
  fail_if (U256_is_zero target) CT_Zero;;
  fail_if (U256_ltb pow_limit target) CT_AbovePowLimit;;
  Ok target.

Definition block_work (target : Uint256) : res HeaderError Uint256 :=
  denominator ← ok_or (checked_add_one target) HE_RetargetArithmeticOverflow;
  ok_or (U256_div (wrapping_not target) denominator ≫= checked_add_one)
    HE_RetargetArithmeticOverflow.

(** ** Parameters, difficulty and successors *)

Record PowParameters : Type := MkPowParameters {
  pow_limit : Uint256;
  target_timespan : u32;
  target_spacing : u32;
  allow_min_difficulty_blocks : bool;
  no_retargeting : bool
}.

Definition LAYER_TWO_SIGNET : PowParameters := {|
  pow_limit := from_limbs_le (uint_wrap 64 0) (uint_wrap 64 0) (uint_wrap 64 0) (uint_wrap 64 0x00000377ae000000);
  target_timespan := uint_wrap 32 (14 * 24 * 60 * 60);
  target_spacing := uint_wrap 32 (10 * 60);
  allow_min_difficulty_blocks := false;
  no_retargeting := false
|}.

Definition PowParameters_interval (p : PowParameters) : res HeaderError u32 :=
  fail_if ((uval (target_spacing p) =? 0) || (uval (target_timespan p) =? 0)
           || negb (target_timespan p mod target_spacing p =? 0)) HE_InvalidDifficultyParameters;;
  let interval := uint_wrap 32 (target_timespan p / target_spacing p) in
  fail_if (uval interval =? 0) HE_InvalidDifficultyParameters;;
  Ok interval.

Record PowVerifiedHeader : Type := MkPowVerifiedHeader {
  pvh_header : BitcoinHeader;
  pvh_hash : BlockHash;
  pvh_target : Uint256;
  pvh_work : Uint256
}.

Definition verify_header_pow_against_caller_supplied_bits {H : Sha256} (bs : bytes)
    (caller_supplied_bits : u32) (params : PowParameters) : res HeaderError PowVerifiedHeader :=
  header ← BitcoinHeader_decode_exact bs;
  fail_if (negb (bool_decide (hdr_bits header = caller_supplied_bits))) HE_UnexpectedDifficultyBits;;
  target ← map_err HE_InvalidTarget (decode_and_validate_target (hdr_bits header) (pow_limit params));
  let hash := block_hash header in
  fail_if (U256_ltb target (as_number hash)) HE_InsufficientProofOfWork;;
  work ← block_work target;
  Ok {| pvh_header := header; pvh_hash := hash; pvh_target := target; pvh_work := work |}.

Record HeaderChainState : Type := MkHeaderChainState {
  hcs_height : u32;
  hcs_tip : PowVerifiedHeader;
  hcs_cumulative_work : Uint256;
  hcs_interval_start_time : u32
}.

Definition HeaderChainState_checkpoint (height : u32) (tip : PowVerifiedHeader)
    (cumulative_work : Uint256) (interval_start_time : u32) : res HeaderError HeaderChainState :=
  fail_if (U256_ltb cumulative_work (pvh_work tip)) HE_InvalidCheckpointChainwork;;
  Ok {| hcs_height := height; hcs_tip := tip; hcs_cumulative_work := cumulative_work;
        hcs_interval_start_time := interval_start_time |}.

(** [x.clamp(min, max)] *)
Definition clamp (x lo hi : Z) : Z := if x <? lo then lo else if hi <? x then hi else x.

Definition next_work_required (state : HeaderChainState) (params : PowParameters) : res HeaderError u32 :=
  next_height ← ok_or (checked_add (hcs_height state) (uint_wrap 32 1)) HE_HeightOverflow;
  interval ← PowParameters_interval params;
  let tip_bits := hdr_bits (pvh_header (hcs_tip state)) in
  if negb (uval next_height mod uval interval =? 0) then
    fail_if (allow_min_difficulty_blocks params) HE_UnsupportedMinDifficultyRule;;
    Ok tip_bits
  else if no_retargeting params then Ok tip_bits
  else
    old_target ← map_err HE_InvalidTarget (decode_and_validate_target tip_bits (pow_limit params));
    let actual_timespan := hdr_time (pvh_header (hcs_tip state)) - hcs_interval_start_time state in
    let timespan : Z := target_timespan params in
    let actual_timespan := clamp actual_timespan (timespan / 4) (timespan * 4) in
    next_target ← ok_or (checked_mul_u64 old_target (uint_wrap 64 actual_timespan) ≫= fun value =>
                         div_u64 value (uint_wrap 64 timespan)) HE_RetargetArithmeticOverflow;
    Ok (to_compact (U256_min next_target (pow_limit params))).

Definition verify_successor {H : Sha256} (state : HeaderChainState) (bs : bytes) (params : PowParameters)
    : res HeaderError HeaderChainState :=
  expected_bits ← next_work_required state params;
  successor ← verify_header_pow_against_caller_supplied_bits bs expected_bits params;
  fail_if (negb (bool_decide (hdr_previous_block (pvh_header successor) = pvh_hash (hcs_tip state))))
    HE_BrokenParentLink;;
  height ← ok_or (checked_add (hcs_height state) (uint_wrap 32 1)) HE_HeightOverflow;
  cumulative_work ← ok_or (U256_checked_add (hcs_cumulative_work state) (pvh_work successor)) HE_ChainworkOverflow;
  interval ← PowParameters_interval params;
  let interval_start_time := if uval height mod uval interval =? 0 then hdr_time (pvh_header successor)
                             else hcs_interval_start_time state in
  Ok {| hcs_height := height; hcs_tip := successor; hcs_cumulative_work := cumulative_work;
        hcs_interval_start_time := interval_start_time |}.

(** ** The compact form of a target *)

(** The magnitude Bitcoin's compact bits denote: a 23-bit mantissa scaled by
    [256 ^ (exponent - 3)], rounded down. *)
Definition compact_value (bits : u32) : Z :=
  let size := bits / 2 ^ 24 in
  let word := bits mod 2 ^ 23 in
  if size <=? 3 then word / 2 ^ (8 * (3 - size)) else word * 2 ^ (8 * (size - 3)).

(** What decoding must do with it, each rejection with its error. *)
Definition decode_target_spec (bits : u32) (limit : Z) : res CompactTargetError Z :=
  let V := compact_value bits in
  if V =? 0 then Err CT_Zero
  else if Z.testbit bits 23 then Err CT_Negative
  else if 2 ^ 256 <=? V then Err CT_Overflow
  else if limit <? V then Err CT_AbovePowLimit
  else Ok V.

Lemma num_low_limb word z : 0 <= word < 2 ^ 64 -> uval z = 0 ->
  num (from_limbs_le (uint_wrap 64 word) z z z) = word.
Proof. intros Hw Hz. unfold num. cbn [from_limbs_le limbs limbs_val]. rewrite uval_wrap_small by exact Hw. lia. Qed.

Lemma compact_fields (bits : u32) :
  Z.shiftr bits 24 = bits / 2 ^ 24 /\ Z.land bits 0x007fffff = bits mod 2 ^ 23 /\
  0 <= bits / 2 ^ 24 < 2 ^ 8 /\ 0 <= bits mod 2 ^ 23 < 2 ^ 23.
Proof.
  pose proof (uint_range bits). split; [by rewrite Z.shiftr_div_pow2|].
  split; [by rewrite <- Z.land_ones|]. split; [|by apply Z.mod_pos_bound].
  split; [apply Z.div_pos; lia|apply Z.div_lt_upper_bound; lia].
Qed.

(** The overflow flag of [SetCompact] only fires on values of more than 256 bits. *)
Lemma overflow_flag size word : 0 <= size -> 0 < word ->
  (34 <? size) || ((0xff <? word) && (33 <? size)) || ((0xffff <? word) && (32 <? size)) = true ->
  3 < size /\ 2 ^ 256 <= word * 2 ^ (8 * (size - 3)).
Proof.
  intros Hs Hw H. rewrite !orb_true_iff, !andb_true_iff, !Z.ltb_lt in H.
  assert (exists k, 2 ^ k <= word /\ 0 <= k /\ 256 <= k + 8 * (size - 3) /\ 3 < size) as (k & Hk & Hk0 & He & H3).
  { destruct H as [[H|[H1 H2]]|[H1 H2]]; [exists 0|exists 8|exists 16]; lia. }
  split; [done|]. transitivity (2 ^ (k + 8 * (size - 3))); [apply Z.pow_le_mono_r; lia|].
  rewrite Z.pow_add_r by lia. apply Z.mul_le_mono_nonneg_r; lia.
Qed.

(** The size, sign and mantissa of a compact target, named in both definitions. *)
Ltac open_compact bits :=
  unfold decode_and_validate_target, decode_target_spec, compact_value;
  destruct (compact_fields bits) as (-> & -> & Hs & Hw);
  set (size := bits / 2 ^ 24) in *; set (m := bits mod 2 ^ 23) in *;
  change 0x00800000 with (2 ^ 23); rewrite land_pow2_testbit, negb_involutive by lia.

Lemma decode_target_small (bits : u32) (limit : Uint256) : bits / 2 ^ 24 <= 3 ->
  (t ← decode_and_validate_target bits limit; Ok (num t)) = decode_target_spec bits (num limit).
Proof.
  intros H3. open_compact bits.
  rewrite (proj2 (Z.leb_le _ _)) by exact H3. rewrite Z.shiftr_div_pow2 by lia. set (w := m / 2 ^ (8 * (3 - size))).
  assert (0 <= w < 2 ^ 23) as Hwr.
  { split; [apply Z.div_pos; lia|]. apply Z.div_lt_upper_bound; [lia|].
    assert (1 <= 2 ^ (8 * (3 - size))) by lia. nia. }
  replace (34 <? size) with false by (symmetry; apply Z.ltb_ge; lia).
  replace (33 <? size) with false by (symmetry; apply Z.ltb_ge; lia).
  replace (32 <? size) with false by (symmetry; apply Z.ltb_ge; lia).
  rewrite !andb_false_r. cbn [orb]. rewrite ?andb_false_r.
  destruct (Z.eqb_spec w 0) as [E|E]; cbn [negb andb fail_if mbind res_bind].
  + rewrite (proj2 (num_zero _)); [done|]. by rewrite num_low_limb by (try done; lia).
  + destruct (Z.testbit bits 23); [done|]. cbn [fail_if mbind res_bind].
    destruct (U256_is_zero _) eqn:Ez; [apply num_zero in Ez; rewrite num_low_limb in Ez by (try done; lia); lia|].
    cbn [fail_if mbind res_bind]. rewrite U256_ltb_num, num_low_limb by (try done; lia).
    rewrite (proj2 (Z.leb_gt _ _)) by lia. destruct (num limit <? w); [done|]. cbn [fail_if mbind res_bind].
    by rewrite num_low_limb by (try done; lia).
Qed.

Lemma decode_target_large (bits : u32) (limit : Uint256) : 3 < bits / 2 ^ 24 ->
  (t ← decode_and_validate_target bits limit; Ok (num t)) = decode_target_spec bits (num limit).
Proof.
  intros H3. open_compact bits.
  rewrite (proj2 (Z.leb_gt _ _)) by exact H3. set (flag := _ || _ || _). destruct (Z.eqb_spec m 0) as [E|E]; cbn [negb andb].
  + rewrite E, Z.mul_0_l. cbn [fail_if mbind res_bind].
    destruct (checked_shl _ _) as [t|] eqn:Et; cbn [ok_or mbind res_bind].
    * apply checked_shl_num in Et; [|lia]. rewrite num_low_limb in Et by (try done; lia).
      by rewrite (proj2 (num_zero _)) by lia.
    * exfalso. set (x := from_limbs_le _ _ _ _) in Et.
      assert (checked_shl x (8 * (size - 3)) = Some U256_ZERO) as E2; [|congruence].
      apply checked_shl_num; [lia|]. unfold x. by rewrite num_low_limb by (try done; lia).
  + rewrite (proj2 (Z.eqb_neq _ _)) by (assert (0 < 2 ^ (8 * (size - 3))) by lia; nia).
    destruct (Z.testbit bits 23); [done|]. cbn [fail_if mbind res_bind].
    destruct flag eqn:Ef; cbn [fail_if mbind res_bind].
    * apply overflow_flag in Ef as [_ Ef]; [|lia..]. by rewrite (proj2 (Z.leb_le _ _)) by exact Ef.
    * destruct (checked_shl _ _) as [t|] eqn:Et; cbn [ok_or mbind res_bind].
      -- apply checked_shl_num in Et; [|lia]. rewrite num_low_limb in Et by (try done; lia).
         pose proof (num_range t). rewrite (proj2 (Z.leb_gt _ _)) by lia.
         destruct (U256_is_zero t) eqn:Ez; [apply num_zero in Ez; nia|]. cbn [fail_if mbind res_bind].
         rewrite U256_ltb_num, Et. by destruct (num limit <? _); cbn; rewrite ?Et.
      -- destruct (Z.leb_spec (2 ^ 256) (m * 2 ^ (8 * (size - 3)))) as [|Hlt]; [done|]. exfalso.
         set (x := from_limbs_le _ _ _ _) in Et.
         destruct (num_surj (m * 2 ^ (8 * (size - 3)))) as [z Hz]; [nia|].
         assert (checked_shl x (8 * (size - 3)) = Some z) as E2; [|congruence].
         apply checked_shl_num; [lia|]. unfold x. by rewrite num_low_limb by (try done; lia).
Qed.

Lemma decode_target_cases (bits : u32) (limit : Uint256) :
  (t ← decode_and_validate_target bits limit; Ok (num t)) = decode_target_spec bits (num limit).
Proof.
  destruct (Z.le_gt_cases (bits / 2 ^ 24) 3); [by apply decode_target_small|by apply decode_target_large; lia].
Qed.

Lemma decode_target_num bits limit t :
  decode_and_validate_target bits limit = Ok t -> decode_target_spec bits (num limit) = Ok (num t).
Proof. intros E. by rewrite <- decode_target_cases, E. Qed.

Lemma decode_target_Ok bits limit t :
  decode_and_validate_target bits limit = Ok t ->
  num t = compact_value bits /\ 0 < num t <= num limit /\ Z.testbit bits 23 = false.
Proof.
  intros E%decode_target_num. unfold decode_target_spec in E.
  destruct (Z.eqb_spec (compact_value bits) 0); [done|].
  destruct (Z.testbit bits 23); [done|]. destruct (_ <=? _); [done|].
  destruct (Z.ltb_spec (num limit) (compact_value bits)); [done|]. injection E as E.
  pose proof (num_range t). lia.
Qed.

Lemma decode_target_Ok_intro bits limit V :
  compact_value bits = V -> 0 < V <= num limit -> Z.testbit bits 23 = false ->
  exists t, decode_and_validate_target bits limit = Ok t /\ num t = V.
Proof.
  intros <- HV Hb. pose proof (decode_target_cases bits limit) as E. unfold decode_target_spec in E.
  pose proof (num_range limit). rewrite (proj2 (Z.eqb_neq _ _)), Hb, (proj2 (Z.leb_gt _ _)),
    (proj2 (Z.ltb_ge _ _)) in E by lia.
  apply res_bind_Ok in E as (t & Et & [= Hn]). by exists t.
Qed.

(** The bits of a compact form split back into its exponent and mantissa. *)
Lemma compact_value_pack (bits : u32) e m : uval bits = m + e * 2 ^ 24 -> 0 <= m < 2 ^ 23 ->
  compact_value bits = (if e <=? 3 then m / 2 ^ (8 * (3 - e)) else m * 2 ^ (8 * (e - 3))) /\
  Z.testbit bits 23 = false.
Proof.
  intros Hb Hm. unfold compact_value. rewrite Hb.
  assert ((m + e * 2 ^ 24) / 2 ^ 24 = e) as -> by (rewrite Z.div_add, Z.div_small by lia; lia).
  assert ((m + e * 2 ^ 24) mod 2 ^ 23 = m) as ->.
  { replace (e * 2 ^ 24) with (e * 2 * 2 ^ 23) by lia. by rewrite Z.mod_add, Z.mod_small by lia. }
  split; [done|]. rewrite Z.testbit_eqb by lia. replace (e * 2 ^ 24) with (e * 2 * 2 ^ 23) by lia.
  rewrite Z.div_add, Z.div_small, Z.add_0_l by lia. by rewrite Z.mod_mul.
Qed.

Lemma to_compact_value x : 0 < num x ->
  compact_value (to_compact x) = compact_floor (num x) /\ Z.testbit (to_compact x) 23 = false.
Proof.
  intros HV. pose proof (num_range x). destruct (compact_size_spec (num x)) as [He Hm]; [lia|].
  destruct (compact_value_pack (to_compact x) _ _ (to_compact_val x HV) ltac:(lia)) as [-> Hb].
  split; [|done]. unfold mantissa, compact_floor. destruct (Z.leb_spec (compact_size (num x)) 3); [|done].
  apply Z.div_mul, Z.pow_nonzero; lia.
Qed.

(** Encoding a target with [to_compact] and decoding it again gives the
    target rounded down by less than one part in [2 ^ 15], never above the
    original (so a retarget cannot make mining easier than computed), and the
    rounded target encodes to the same bits. *)
Theorem compact_roundtrip (x limit : Uint256) :
  0 < num x <= num limit ->
  exists t, decode_and_validate_target (to_compact x) limit = Ok t /\
    num t <= num x /\ 2 ^ 15 * (num x - num t) < num x /\ to_compact t = to_compact x.
Proof.
  intros HV. pose proof (num_range x). destruct (to_compact_value x) as [Hc Hb]; [lia|].
  destruct (compact_floor_bounds (num x)) as (Hp & Hd & _); [lia|].
  destruct (decode_target_Ok_intro (to_compact x) limit _ Hc) as (t & Et & Ht); [lia|done|].
  exists t. rewrite Ht. split; [done|]. split; [lia|]. split; [done|].
  apply to_compact_floor; [lia|done].
Qed.

Example compact_roundtrip_witness :
  let x := from_limbs_le (uint_wrap 64 0x123456789abcdef) (uint_wrap 64 1) (uint_wrap 64 0) (uint_wrap 64 0) in
  exists t, decode_and_validate_target (to_compact x) U256_MAX = Ok t /\
    num t <= num x /\ 2 ^ 15 * (num x - num t) < num x /\ to_compact t = to_compact x.
Proof. intros x. apply (compact_roundtrip x U256_MAX). vm_compute. split; [done|discriminate]. Defined.

(** Decoding compact bits is exactly Bitcoin's rule, every rejection with
    its own error: zero magnitude, sign bit, more than 256 bits, above the
    proof-of-work limit; otherwise the value of the bits.  In particular the
    size test of the code and the checked shift agree with the arithmetic. *)
Theorem decode_target_exact (bits : u32) (limit : Uint256) :
  (t ← decode_and_validate_target bits limit; Ok (num t)) = decode_target_spec bits (num limit).
Proof. apply decode_target_cases. Qed.

(** ** Block work *)

Lemma checked_add_one_None x : checked_add_one x = None <-> num x = 2 ^ 256 - 1.
Proof. unfold checked_add_one. rewrite checked_add_num_None. pose proof (num_range x).
  change (num (from_limbs_le _ _ _ _)) with 1. lia. Qed.

Lemma work_quotient T : 0 <= T < 2 ^ 256 - 1 -> (2 ^ 256 - 1 - T) / (T + 1) + 1 = 2 ^ 256 / (T + 1).
Proof. intros HT. rewrite <- Z.div_add by lia. f_equal. lia. Qed.

Lemma block_work_Ok t w : block_work t = Ok w <-> 0 < num t < 2 ^ 256 - 1 /\ num w = 2 ^ 256 / (num t + 1).
Proof.
  unfold block_work. pose proof (num_range t). rewrite res_bind_Ok. setoid_rewrite ok_or_Ok.
  setoid_rewrite checked_add_one_num. split.
  - intros (d & Hd & Hw). destruct (U256_div _ d) as [q|] eqn:Eq; [|done].
    cbn in Hw. apply checked_add_one_num in Hw. apply U256_div_num in Eq as [_ Eq].
    rewrite wrapping_not_num, Hd in Eq. pose proof (num_range w). pose proof (num_range d).
    assert (0 < num t).
    { destruct (decide (num t = 0)) as [E|]; [|lia]. rewrite E in Eq.
      replace (2 ^ 256 - 1 - 0) with (2 ^ 256 - 1) in Eq by lia. rewrite Z.div_1_r in Eq. lia. }
    split; [lia|]. rewrite Hw, Eq. apply work_quotient. lia.
  - intros [Ht Hw]. destruct (num_surj (num t + 1)) as [d Hd]; [lia|]. exists d. split; [done|].
    assert (2 <= num d) by lia.
    destruct (U256_div (wrapping_not t) d) as [q|] eqn:Eq.
    + cbn. apply checked_add_one_num. apply U256_div_num in Eq as [_ Eq].
      rewrite Hw, Eq, wrapping_not_num, Hd, work_quotient by lia. done.
    + exfalso. pose proof (num_range (wrapping_not t)).
      destruct (num_surj (num (wrapping_not t) / num d)) as [q Hq].
      { split; [apply Z.div_pos; lia|]. apply Z.div_lt_upper_bound; nia. }
      assert (U256_div (wrapping_not t) d = Some q); [|congruence]. apply U256_div_num. split; [lia|done].
Qed.

(** The work of a block with target [t] is exactly [2 ^ 256 / (t + 1)],
    computed without a 257-bit integer; it is defined for every target but zero
    and the all-ones value. *)
Theorem block_work_exact (t w : Uint256) :
  block_work t = Ok w <-> 0 < num t < 2 ^ 256 - 1 /\ num w = 2 ^ 256 / (num t + 1).
Proof. apply block_work_Ok. Qed.

Lemma interval_Ok p i : PowParameters_interval p = Ok i <->
  0 < target_spacing p /\ 0 < target_timespan p /\ uval (target_timespan p) = target_spacing p * i.
Proof.
  unfold PowParameters_interval. rewrite fail_then, !orb_false_iff, !Z.eqb_neq, negb_false_iff, Z.eqb_eq, fail_then,
    Z.eqb_neq. pose proof (uint_range (target_spacing p)). pose proof (uint_range (target_timespan p)).
  pose proof (uint_range i). split.
  - intros ([[Hs Ht] Hm] & Hi & Hq). assert (uint_wrap 32 (target_timespan p / target_spacing p) = i) as <- by congruence. split; [lia|]. split; [lia|].
    rewrite uval_wrap_small by (split; [apply Z.div_pos; lia|apply Z.div_lt_upper_bound; nia]).
    pose proof (Z.div_mod (target_timespan p) (target_spacing p) ltac:(lia)). lia.
  - intros (Hs & Ht & E).
    assert (target_timespan p / target_spacing p = i) as Hq by (rewrite E, Z.mul_comm; apply Z.div_mul; lia).
    rewrite Hq, uint_wrap_uval. split; [|split; [nia|done]]. split; [lia|].
    rewrite E, Z.mul_comm. apply Z.mod_mul. lia.
Qed.

Section chain.
Context {H : Sha256}.

(** A header that was checked against its own difficulty bits. *)
Record pow_verified (params : PowParameters) (p : PowVerifiedHeader) : Prop := {
  pv_header : pvh_header p = header_of_raw (hdr_raw (pvh_header p));
  pv_hash : pvh_hash p = block_hash (pvh_header p);
  pv_target : decode_and_validate_target (hdr_bits (pvh_header p)) (pow_limit params) = Ok (pvh_target p);
  pv_pow : num (as_number (pvh_hash p)) <= num (pvh_target p);
  pv_work : block_work (pvh_target p) = Ok (pvh_work p)
}.

Lemma header_decode_Ok bs h : BitcoinHeader_decode_exact bs = Ok h <-> exists raw : array 80, arr raw = bs /\ h = header_of_raw raw.
Proof.
  unfold BitcoinHeader_decode_exact. rewrite fail_then, negb_false_iff, Nat.eqb_eq, res_bind_Ok.
  setoid_rewrite ok_or_Ok. setoid_rewrite array_try_Some. split.
  - intros (Hl & raw & Hr & [= <-]). by exists raw.
  - intros (raw & Hr & ->). split; [|by exists raw]. rewrite <- Hr. apply arr_length.
Qed.

Lemma verify_header_Ok bs bits params p :
  verify_header_pow_against_caller_supplied_bits bs bits params = Ok p <->
  arr (hdr_raw (pvh_header p)) = bs /\ hdr_bits (pvh_header p) = bits /\ pow_verified params p.
Proof.
  unfold verify_header_pow_against_caller_supplied_bits. rewrite res_bind_Ok.
  setoid_rewrite header_decode_Ok. split.
  - intros (h & (raw & Hr & ->) & E). rewrite fail_then, negb_false_iff, bool_decide_eq_true, res_bind_Ok in E.
    destruct E as (Hb & t & Ht & E). rewrite fail_then, res_bind_Ok in E. destruct E as (Hp & w & Hw & [= <-]).
    apply map_err_Ok in Ht. rewrite U256_ltb_num in Hp. apply Z.ltb_ge in Hp. cbn. split; [done|].
    split; [done|]. by constructor.
  - intros (Hr & Hb & [Hh Hhash Ht Hp Hw]). destruct p as [h hash t w]. cbn in *. exists h.
    split; [eauto|]. rewrite fail_then, negb_false_iff, bool_decide_eq_true, res_bind_Ok. split; [done|].
    exists t. rewrite map_err_Ok, fail_then, U256_ltb_num, Z.ltb_ge, res_bind_Ok, <- Hhash. split; [done|].
    split; [done|]. exists w. by subst.
Qed.

(** What one accepted header must satisfy. *)
Record successor (params : PowParameters) (s s' : HeaderChainState) : Prop := {
  suc_bits : next_work_required s params = Ok (hdr_bits (pvh_header (hcs_tip s')));
  suc_pow : pow_verified params (hcs_tip s');
  suc_link : hdr_previous_block (pvh_header (hcs_tip s')) = pvh_hash (hcs_tip s);
  suc_height : uval (hcs_height s') = hcs_height s + 1;
  suc_work : num (hcs_cumulative_work s') = num (hcs_cumulative_work s) + num (pvh_work (hcs_tip s'));
  suc_start : exists interval, PowParameters_interval params = Ok interval /\
    hcs_interval_start_time s' = if uval (hcs_height s') mod uval interval =? 0
                                 then hdr_time (pvh_header (hcs_tip s')) else hcs_interval_start_time s
}.

Lemma verify_successor_Ok s bs params s' :
  verify_successor s bs params = Ok s' <->
  successor params s s' /\ arr (hdr_raw (pvh_header (hcs_tip s'))) = bs.
Proof.
  unfold verify_successor. rewrite res_bind_Ok. split.
  - intros (bits & Hbits & E). rewrite res_bind_Ok in E. destruct E as (p & Hv & E).
    apply verify_header_Ok in Hv as (Hr & Hb & Hp). subst bits.
    rewrite fail_then, negb_false_iff, bool_decide_eq_true, res_bind_Ok in E.
    destruct E as (Hl & h & Hh & E). rewrite res_bind_Ok in E. destruct E as (c & Hc & E).
    rewrite res_bind_Ok in E. destruct E as (i & Hi & [= <-]).
    apply ok_or_Ok, checked_add_Some in Hh. apply ok_or_Ok, checked_add_num in Hc.
    split; [|done]. constructor; cbn; [exact Hbits|exact Hp|exact Hl|exact Hh|exact Hc|exists i; by split].
  - intros [[Hb Hp Hl Hh Hw (i & Hi & Hs)] Hr]. destruct s' as [h p c st]. cbn in *. subst st.
    eexists. split; [exact Hb|]. rewrite res_bind_Ok. exists p. rewrite verify_header_Ok. split; [done|].
    rewrite fail_then, negb_false_iff, bool_decide_eq_true, res_bind_Ok. split; [done|]. exists h.
    rewrite ok_or_Ok, checked_add_Some, res_bind_Ok. split; [done|]. exists c.
    rewrite ok_or_Ok, checked_add_num, res_bind_Ok. split; [done|]. by exists i.
Qed.

(** A successor header is accepted exactly when it is the 80 bytes of a
    header whose bits are the ones derived from the chain, whose hash meets
    the decoded target, and which links to the tip; the next state then has
    height one more and the header's work added. *)
Theorem verify_successor_iff (s : HeaderChainState) (bs : bytes) (params : PowParameters) (s' : HeaderChainState) :
  verify_successor s bs params = Ok s' <->
  successor params s s' /\ arr (hdr_raw (pvh_header (hcs_tip s'))) = bs.
Proof. apply verify_successor_Ok. Qed.

(** ** Runs of many headers *)

Inductive extends (params : PowParameters) (s : HeaderChainState) : list PowVerifiedHeader -> HeaderChainState -> Prop :=
| ext_nil : extends params s [] s
| ext_snoc hs s1 bs s2 :
    extends params s hs s1 -> verify_successor s1 bs params = Ok s2 ->
    extends params s (hs ++ [hcs_tip s2]) s2.

(** Each header names the hash of the one before it. *)
Fixpoint linked (previous : BlockHash) (hs : list PowVerifiedHeader) : Prop :=
  match hs with
  | [] => True
  | p :: hs => hdr_previous_block (pvh_header p) = previous /\ linked (pvh_hash p) hs
  end.

Definition end_hash (previous : BlockHash) (hs : list PowVerifiedHeader) : BlockHash :=
  from_option pvh_hash previous (last hs).

Lemma linked_snoc previous hs p :
  linked previous (hs ++ [p]) <-> linked previous hs /\ hdr_previous_block (pvh_header p) = end_hash previous hs.
Proof.
  revert previous. induction hs as [|q hs IH]; intros previous; cbn [app linked]; [cbn; tauto|].
  rewrite IH. unfold end_hash. rewrite last_cons. destruct (last hs); cbn; tauto.
Qed.

(** C26: Every run of accepted headers is a hash-linked chain of proof-of-work
    checked headers; the height counts them and the cumulative work is the
    initial work plus [2 ^ 256 / (target + 1)] of each, with no wrap-around. *)
Theorem chain_work_sound (params : PowParameters) (s : HeaderChainState) (hs : list PowVerifiedHeader)
    (s' : HeaderChainState) :
  extends params s hs s' ->
  linked (pvh_hash (hcs_tip s)) hs /\ Forall (pow_verified params) hs /\
  uval (hcs_height s') = hcs_height s + Z.of_nat (length hs) /\
  num (hcs_cumulative_work s') =
    num (hcs_cumulative_work s) + sumZ (fun p => 2 ^ 256 / (num (pvh_target p) + 1)) hs /\
  pvh_hash (hcs_tip s') = end_hash (pvh_hash (hcs_tip s)) hs.
Proof.
  induction 1 as [|hs s1 bs s2 _ (Hl & Hv & Hh & Hw & He) Hs]; [cbn; repeat split; by rewrite ?Z.add_0_r|].
  apply verify_successor_Ok in Hs as [[Hb Hp Hlk Hht Hwk Hst] _].
  split; [apply linked_snoc; split; [done|congruence]|]. split; [apply Forall_app; split; [exact Hv|constructor; [exact Hp|constructor]]|].
  rewrite length_app, sumZ_app. cbn [length]. split; [lia|]. unfold end_hash. rewrite last_snoc.
  split; [|done]. cbn [sumZ foldr]. pose proof (pv_work _ _ Hp) as Hx. apply block_work_Ok in Hx as [_ Hx]. lia.
Qed.
End chain.

(** ** Difficulty retargeting *)

Lemma clamp_range x lo hi : lo <= hi -> lo <= clamp x lo hi <= hi.
Proof. intros H. unfold clamp. destruct (Z.ltb_spec x lo); [lia|]. destruct (Z.ltb_spec hi x); lia. Qed.

(** The elapsed time a retarget uses, held within a factor four of the plan. *)
Definition retarget_span (s : HeaderChainState) (params : PowParameters) : Z :=
  clamp (hdr_time (pvh_header (hcs_tip s)) - hcs_interval_start_time s)
    (target_timespan params / 4) (target_timespan params * 4).

Lemma retarget_span_range s params :
  target_timespan params / 4 <= retarget_span s params <= target_timespan params * 4 /\
  0 <= retarget_span s params < 2 ^ 64.
Proof.
  pose proof (uint_range (target_timespan params)) as Hr. set (T := uval (target_timespan params)) in *.
  assert (0 <= T / 4 <= T * 4) by (pose proof (Z.div_mod T 4 ltac:(lia)); pose proof (Z.mod_pos_bound T 4 ltac:(lia)); lia).
  pose proof (clamp_range (hdr_time (pvh_header (hcs_tip s)) - hcs_interval_start_time s) (T / 4) (T * 4) ltac:(lia)).
  unfold retarget_span. fold T. lia.
Qed.

(** The next bits at a retarget height: the scaled target, capped at the limit. *)
Lemma next_work_retarget s params interval old :
  PowParameters_interval params = Ok interval -> hcs_height s + 1 < 2 ^ 32 ->
  (hcs_height s + 1) mod interval = 0 -> no_retargeting params = false ->
  decode_and_validate_target (hdr_bits (pvh_header (hcs_tip s))) (pow_limit params) = Ok old ->
  if 2 ^ 256 <=? num old * retarget_span s params
  then next_work_required s params = Err HE_RetargetArithmeticOverflow
  else exists x, next_work_required s params = Ok (to_compact x) /\
    num x = Z.min (num old * retarget_span s params / target_timespan params) (num (pow_limit params)).
Proof.
  intros Hi Hh Hm Hn Hold. destruct (proj1 (interval_Ok _ _) Hi) as (_ & HT & _).
  pose proof (retarget_span_range s params) as [_ Hs].
  unfold next_work_required. pose proof (uint_range (hcs_height s)).
  destruct (checked_add (hcs_height s) (uint_wrap 32 1)) as [h|] eqn:Eh.
  2: { apply uint_try_None in Eh. change (uval (uint_wrap 32 1)) with 1 in Eh. lia. }
  apply checked_add_Some in Eh. change (uval (uint_wrap 32 1)) with 1 in Eh.
  cbn [ok_or mbind res_bind]. rewrite Hi. cbn [mbind res_bind]. rewrite Eh, Hm, Hn, Hold.
  cbn [Z.eqb negb map_err mbind res_bind]. fold (retarget_span s params).
  set (span := retarget_span s params) in *. pose proof (uint_range (target_timespan params)).
  assert (uval (uint_wrap 64 span) = span) as Esp by (apply uval_wrap_small; lia).
  assert (uval (uint_wrap 64 (target_timespan params)) = target_timespan params) as ET
    by (apply uval_wrap_small; lia).
  pose proof (num_range old). destruct (Z.leb_spec (2 ^ 256) (num old * span)) as [Ho|Ho].
  - destruct (checked_mul_u64 old _) as [v|] eqn:Ev; [|done]. apply checked_mul_num in Ev.
    rewrite Esp in Ev. pose proof (num_range v). lia.
  - destruct (num_surj (num old * span)) as [v Hv]; [nia|].
    assert (checked_mul_u64 old (uint_wrap 64 span) = Some v) as -> by (apply checked_mul_num; by rewrite Esp).
    cbn [mbind option_bind].
    destruct (num_surj (num v / target_timespan params)) as [q Hq].
    { split; [apply Z.div_pos; lia|]. apply Z.div_lt_upper_bound; nia. }
    assert (div_u64 v (uint_wrap 64 (target_timespan params)) = Some q) as ->
      by (apply div_u64_num; rewrite ET; split; [lia|done]).
    cbn [ok_or mbind res_bind]. eexists. split; [done|]. by rewrite U256_min_num, Hq, Hv.
Qed.

Lemma next_work_same s params interval :
  PowParameters_interval params = Ok interval -> hcs_height s + 1 < 2 ^ 32 ->
  (hcs_height s + 1) mod interval <> 0 -> allow_min_difficulty_blocks params = false ->
  next_work_required s params = Ok (hdr_bits (pvh_header (hcs_tip s))).
Proof.
  intros Hi Hh Hm Ha. unfold next_work_required. pose proof (uint_range (hcs_height s)).
  destruct (checked_add (hcs_height s) (uint_wrap 32 1)) as [h|] eqn:Eh.
  2: { apply uint_try_None in Eh. change (uval (uint_wrap 32 1)) with 1 in Eh. lia. }
  apply checked_add_Some in Eh. change (uval (uint_wrap 32 1)) with 1 in Eh.
  cbn [ok_or mbind res_bind]. rewrite Hi. cbn [mbind res_bind]. rewrite Eh, (proj2 (Z.eqb_neq _ _) Hm), Ha. done.
Qed.

(** C36: With the frozen LayerTwo Signet parameters the next difficulty is
    always defined: the limit is chosen so that [old * 4 * timespan] never
    leaves 256 bits.  It changes only every 2016 blocks, and then by no more
    than a factor of four in either direction, never above the limit. *)
Theorem signet_difficulty {H : Sha256} (s : HeaderChainState) :
  pow_verified LAYER_TWO_SIGNET (hcs_tip s) -> hcs_height s + 1 < 2 ^ 32 ->
  let old := num (pvh_target (hcs_tip s)) in
  exists bits, next_work_required s LAYER_TWO_SIGNET = Ok bits /\
    if (hcs_height s + 1) mod 2016 =? 0
    then exists x, bits = to_compact x /\ old / 4 <= num x <= old * 4 /\ num x <= num (pow_limit LAYER_TWO_SIGNET)
    else bits = hdr_bits (pvh_header (hcs_tip s)).
Proof.
  intros Hp Hh old. pose proof (pv_target _ _ Hp) as Ht.
  pose proof (decode_target_Ok _ _ _ Ht) as (_ & Hold & _). fold old in Hold.
  assert (PowParameters_interval LAYER_TWO_SIGNET = Ok (uint_wrap 32 2016)) as Hi by (by vm_compute).
  change 2016 with (uval (uint_wrap 32 2016)). destruct (Z.eqb_spec ((hcs_height s + 1) mod uint_wrap 32 2016) 0) as [E|E].
  - pose proof (next_work_retarget s LAYER_TWO_SIGNET _ _ Hi Hh E eq_refl Ht) as Hr. fold old in Hr.
    destruct (retarget_span_range s LAYER_TWO_SIGNET) as [Hs _]. set (span := retarget_span _ _) in *.
    change (uval (target_timespan LAYER_TWO_SIGNET)) with 1209600 in *.
    change (1209600 / 4) with 302400 in Hs. change (1209600 * 4) with 4838400 in Hs.
    assert (num (pow_limit LAYER_TWO_SIGNET) = 0x377ae000000 * 2 ^ 192) as Hlim by (by vm_compute).
    rewrite (proj2 (Z.leb_gt _ _)) in Hr by (rewrite Hlim in Hold; nia).
    destruct Hr as (x & Hx & Hn). exists (to_compact x). split; [done|]. exists x. split; [done|]. rewrite Hn.
    assert (old / 4 <= old * span / 1209600) as Hlo.
    { rewrite <- (Z.div_mul_cancel_r old 4 302400) by lia. apply Z.div_le_mono; [lia|nia]. }
    assert (old * span / 1209600 <= old * 4) as Hhi by (apply Z.div_le_upper_bound; [lia|nia]).
    pose proof (Z.div_mod old 4 ltac:(lia)). pose proof (Z.mod_pos_bound old 4 ltac:(lia)). lia.
  - exists (hdr_bits (pvh_header (hcs_tip s))). split; [|done].
    by apply (next_work_same s LAYER_TWO_SIGNET (uint_wrap 32 2016)).
Qed.

(** A chain of two easy headers over a toy digest. *)
Definition easy_params : PowParameters := {|
  pow_limit := U256_MAX; target_timespan := uint_wrap 32 100; target_spacing := uint_wrap 32 10;
  allow_min_difficulty_blocks := false; no_retargeting := false |}.
Definition easy_raw (previous : bytes) : bytes :=
  le_bytes 4 1 ++ previous ++ repeat x07 32 ++ le_bytes 4 1700000000 ++ le_bytes 4 0x207fffff ++ le_bytes 4 0.
Definition unwrap_or {E A : Type} (d : A) (m : res E A) : A := match m with Ok a => a | _ => d end.
Definition easy_genesis : PowVerifiedHeader :=
  let h := header_of_raw (subarray 80 0 (easy_raw ZERO)) in
  unwrap_or (MkPowVerifiedHeader h ZERO U256_ZERO U256_ZERO)
    (@verify_header_pow_against_caller_supplied_bits toy_sha256 (easy_raw ZERO) (uint_wrap 32 0x207fffff) easy_params).
Definition easy_start : HeaderChainState :=
  MkHeaderChainState (uint_wrap 32 8) easy_genesis (pvh_work easy_genesis) (uint_wrap 32 1699999950).
Definition easy_next : HeaderChainState :=
  unwrap_or easy_start (@verify_successor toy_sha256 easy_start (easy_raw (pvh_hash easy_genesis)) easy_params).

Lemma easy_step : @verify_successor toy_sha256 easy_start (easy_raw (pvh_hash easy_genesis)) easy_params = Ok easy_next.
Proof. by vm_compute. Qed.

Example chain_work_sound_witness :
  @linked (pvh_hash easy_genesis) [hcs_tip easy_next] /\
  Forall (@pow_verified toy_sha256 easy_params) [hcs_tip easy_next] /\
  uval (hcs_height easy_next) = hcs_height easy_start + Z.of_nat 1 /\
  num (hcs_cumulative_work easy_next) =
    num (hcs_cumulative_work easy_start) + sumZ (fun p => 2 ^ 256 / (num (pvh_target p) + 1)) [hcs_tip easy_next] /\
  pvh_hash (hcs_tip easy_next) = end_hash (pvh_hash easy_genesis) [hcs_tip easy_next].
Proof.
  apply (@chain_work_sound toy_sha256 easy_params easy_start [hcs_tip easy_next] easy_next).
  apply (@ext_snoc toy_sha256 easy_params easy_start [] easy_start (easy_raw (pvh_hash easy_genesis))).
  - constructor.
  - exact easy_step.
Defined.

(** A Signet tip at the height before a retarget. *)
Definition signet_raw : bytes :=
  le_bytes 4 1 ++ repeat x00 32 ++ repeat x07 32 ++ le_bytes 4 1700000000 ++ le_bytes 4 0x1e0377ae ++ le_bytes 4 0.
Definition signet_tip : PowVerifiedHeader :=
  unwrap_or easy_genesis (@verify_header_pow_against_caller_supplied_bits toy_sha256 signet_raw
    (uint_wrap 32 0x1e0377ae) LAYER_TWO_SIGNET).
Definition signet_state : HeaderChainState :=
  MkHeaderChainState (uint_wrap 32 2015) signet_tip (pvh_work signet_tip) (uint_wrap 32 1699000000).

Lemma signet_tip_ok : @pow_verified toy_sha256 LAYER_TWO_SIGNET signet_tip.
Proof.
  apply (@verify_header_Ok toy_sha256 signet_raw (uint_wrap 32 0x1e0377ae) LAYER_TWO_SIGNET signet_tip).
  by vm_compute.
Qed.

Example signet_difficulty_witness :
  hcs_height signet_state + 1 < 2 ^ 32 /\
  exists bits, next_work_required signet_state LAYER_TWO_SIGNET = Ok bits /\
    if (hcs_height signet_state + 1) mod 2016 =? 0
    then exists x, bits = to_compact x /\
      num (pvh_target (hcs_tip signet_state)) / 4 <= num x <= num (pvh_target (hcs_tip signet_state)) * 4 /\
      num x <= num (pow_limit LAYER_TWO_SIGNET)
    else bits = hdr_bits (pvh_header (hcs_tip signet_state)).
Proof.
  assert (hcs_height signet_state + 1 < 2 ^ 32) as Hh by done.
  split; [exact Hh|]. exact (@signet_difficulty toy_sha256 signet_state signet_tip_ok Hh).
Defined.
