(* ===== verification/BmmCommitment.v ===== *)
(** The BMM commitment of an Elements block in a Bitcoin coinbase:
    [extract_elements_slot24_m7] and [extract_single_op_return_push] of
    [crates/usdd-bitcoin-bmm/src/lib.rs].

    The push parser is characterised as a grammar and the extraction is shown to
    succeed exactly on a coinbase with one canonical slot-24 M7 and no other
    output any parser could read as one. *)

From S2P Require Import Prelude Encoding Hashing BitcoinHeaders.

Local Open Scope Z_scope.

Definition ELEMENTS_DRIVECHAIN_SLOT : byte := byte_of 24.
Definition BITCOIN_MAX_BLOCK_WEIGHT : Z := 4000000.
Definition BITCOIN_WITNESS_SCALE_FACTOR : Z := 4.
Definition BITCOIN_MAX_BLOCK_BASE_BYTES : Z := BITCOIN_MAX_BLOCK_WEIGHT / BITCOIN_WITNESS_SCALE_FACTOR.
Definition BITCOIN_MIN_SERIALIZED_TXOUT_BASE_BYTES : Z := 9.
Definition BITCOIN_MAX_COINBASE_OUTPUTS : Z :=
  BITCOIN_MAX_BLOCK_BASE_BYTES / BITCOIN_MIN_SERIALIZED_TXOUT_BASE_BYTES.
Definition BITCOIN_MAX_COINBASE_OUTPUT_SCRIPT_BYTES : Z := BITCOIN_MAX_BLOCK_BASE_BYTES.

Definition OP_RETURN : byte := x6a.
Definition OP_PUSHDATA1 : byte := x4c.
Definition OP_PUSHDATA2 : byte := x4d.
Definition OP_PUSHDATA4 : byte := x4e.
Definition M7_TAG : bytes := [xd1; x61; x73; x68].
Definition M7_PAYLOAD_LEN : nat := 4 + 1 + 32.
Definition M7_CANONICAL_SCRIPT_LEN : nat := 1 + 1 + M7_PAYLOAD_LEN.

Inductive M7Error : Type :=
| M7_Missing | M7_Duplicate | M7_NonCanonical | M7_TooManyOutputs
| M7_AggregateScriptBytesExceeded | M7_OutputIndexOverflow | M7_WrongChildHash.

Record UnboundCanonicalM7 : Type := MkUnboundCanonicalM7 {
  m7_output_index : u32;
  m7_committed_child_hash : BlockHash
}.

Definition require_child_hash (m : UnboundCanonicalM7) (expected : BlockHash) : res M7Error UnboundCanonicalM7 :=
  fail_if (negb (bool_decide (m7_committed_child_hash m = expected))) M7_WrongChildHash;;
  Ok m.

Section extract.
Context {W : PtrWidth}.

(** The opcode at [script[1]]: where the payload starts and how long it is. *)
Definition push_header (script : bytes) (opcode : byte) : option (Z * Z) :=
  let op := byte_val opcode in
  if op =? 0 then Some (2, 0)
  else if (1 <=? op) && (op <=? 75) then Some (2, op)
  else if bool_decide (opcode = OP_PUSHDATA1) then
    b2 ← script !! 2%nat;
    Some (3, byte_val b2)
  else if bool_decide (opcode = OP_PUSHDATA2) then
    b2 ← script !! 2%nat; b3 ← script !! 3%nat;
    Some (4, le_val [b2; b3])
  else if bool_decide (opcode = OP_PUSHDATA4) then
    b2 ← script !! 2%nat; b3 ← script !! 3%nat; b4 ← script !! 4%nat; b5 ← script !! 5%nat;
    length ← usize_try (le_val [b2; b3; b4; b5]);
    Some (6, uval length)
  else None.

Definition push_payload (script : bytes) (payload_start payload_len : Z) : option bytes :=
  payload_end ← usize_try (payload_start + payload_len);
  if negb (uval payload_end =? Z.of_nat (length script)) then None
  else index_range (Z.to_nat payload_start) (Z.to_nat (uval payload_end)) script.

(** [None] is the panic of [script[0]] or [script[1]]; the [get]s are in
    [push_header]. *)
Definition extract_single_op_return_push (script : bytes) : option (option bytes) :=
  skip ← Some (length script <? 2)%nat ||? (is_return ← byte_is 0 OP_RETURN script; Some (negb is_return));
  if skip : bool then Some None
  else
    opcode ← script !! 1%nat;
    Some ('(payload_start, payload_len) ← push_header script opcode;
          push_payload script payload_start payload_len).

(** [payload.len() == M7_PAYLOAD_LEN && payload[..4] == M7_TAG && payload[4] == slot] *)
Definition is_m7_payload (payload : bytes) : option bool :=
  Some (length payload =? M7_PAYLOAD_LEN)%nat &&? range_is 0 4 M7_TAG payload
  &&? byte_is 4 ELEMENTS_DRIVECHAIN_SLOT payload.

(** [script.len() == M7_CANONICAL_SCRIPT_LEN && script[0] == OP_RETURN && ..] *)
Definition is_canonical_m7_script (script : bytes) : option bool :=
  Some (length script =? M7_CANONICAL_SCRIPT_LEN)%nat &&? byte_is 0 OP_RETURN script
  &&? byte_is 1 (byte_of (Z.of_nat M7_PAYLOAD_LEN)) script.

(** The locals of the loop of [extract_elements_slot24_m7]. *)
Record M7Scan : Type := MkM7Scan {
  ms_matches : nat;
  ms_noncanonical : nat;
  ms_matched_index : u32;
  ms_child_hash : BlockHash;
  ms_aggregate : uint usize_bits
}.

Definition m7_scan_step (index : nat) (script : bytes) (st : M7Scan) : res M7Error M7Scan :=
  aggregate ← ok_or (usize_try (ms_aggregate st + Z.of_nat (length script))) M7_AggregateScriptBytesExceeded;
  fail_if (BITCOIN_MAX_COINBASE_OUTPUT_SCRIPT_BYTES <? uval aggregate) M7_AggregateScriptBytesExceeded;;
  let st := MkM7Scan (ms_matches st) (ms_noncanonical st) (ms_matched_index st) (ms_child_hash st) aggregate in
  push ← expect (extract_single_op_return_push script);
  match push with
  | None => Ok st
  | Some payload =>
      is_m7 ← expect (is_m7_payload payload);
      if negb is_m7 then Ok st
      else
        canonical ← expect (is_canonical_m7_script script);
        matched_index ← ok_or (uint_try 32 (Z.of_nat index)) M7_OutputIndexOverflow;
        child_hash ← expect (copy_range 32 5 37 payload);
        Ok (MkM7Scan (S (ms_matches st))
              (if negb canonical then S (ms_noncanonical st) else ms_noncanonical st)
              matched_index child_hash aggregate)
  end.

Definition extract_elements_slot24_m7 (coinbase_output_scripts : list bytes) : res M7Error UnboundCanonicalM7 :=
  fail_if (BITCOIN_MAX_COINBASE_OUTPUTS <? Z.of_nat (length coinbase_output_scripts)) M7_TooManyOutputs;;
  st ← res_foldi m7_scan_step 0 coinbase_output_scripts
         (MkM7Scan 0 0 (uint_wrap 32 0) ZERO (uint_wrap usize_bits 0));
  fail_if (negb (ms_noncanonical st =? 0)%nat) M7_NonCanonical;;
  match ms_matches st with
  | 0%nat => Err M7_Missing
  | 1%nat => Ok (MkUnboundCanonicalM7 (ms_matched_index st) (ms_child_hash st))
  | _ => Err M7_Duplicate
  end.
End extract.

(** ** The reads above, as total functions *)

Section reads.
Context {W : PtrWidth}.

Definition op_return_push (script : bytes) : option bytes :=
  if (length script <? 2)%nat || negb (bool_decide (script !! 0%nat = Some OP_RETURN)) then None
  else
    opcode ← script !! 1%nat;
    '(payload_start, payload_len) ← push_header script opcode;
    push_payload script payload_start payload_len.

Definition m7_payload (payload : bytes) : bool :=
  (length payload =? M7_PAYLOAD_LEN)%nat && bool_decide (take 4 payload = M7_TAG)
  && bool_decide (payload !! 4%nat = Some ELEMENTS_DRIVECHAIN_SLOT).

Definition m7_canonical (script : bytes) : bool :=
  (length script =? M7_CANONICAL_SCRIPT_LEN)%nat && bool_decide (script !! 0%nat = Some OP_RETURN)
  && bool_decide (script !! 1%nat = Some (byte_of (Z.of_nat M7_PAYLOAD_LEN))).

Lemma extract_push_total script : extract_single_op_return_push script = Some (op_return_push script).
Proof.
  unfold extract_single_op_return_push, op_return_push. destruct (Nat.ltb_spec (length script) 2) as [|Hl]; [done|].
  rewrite byte_is_ok by lia. cbn [or_else mbind option_bind]. rewrite orb_false_l.
  destruct (negb _); [done|]. destruct (lookup_lt_is_Some_2 script 1 ltac:(lia)) as [op ->]. done.
Qed.
Lemma m7_payload_total payload : is_m7_payload payload = Some (m7_payload payload).
Proof.
  unfold is_m7_payload, m7_payload. rewrite (and_then_guard _ _ (bool_decide (take 4 payload = M7_TAG))).
  - apply and_then_guard. intros [Hl%Nat.eqb_eq _]%andb_true_iff. apply byte_is_ok. rewrite Hl. unfold M7_PAYLOAD_LEN. lia.
  - intros Hl%Nat.eqb_eq. by rewrite range_is_ok by (rewrite Hl; unfold M7_PAYLOAD_LEN; lia).
Qed.
Lemma m7_canonical_total script : is_canonical_m7_script script = Some (m7_canonical script).
Proof.
  unfold is_canonical_m7_script, m7_canonical.
  rewrite (and_then_guard _ _ (bool_decide (script !! 0%nat = Some OP_RETURN))).
  - apply and_then_guard. intros [Hl%Nat.eqb_eq _]%andb_true_iff. apply byte_is_ok. rewrite Hl. unfold M7_CANONICAL_SCRIPT_LEN. lia.
  - intros Hl%Nat.eqb_eq. apply byte_is_ok. rewrite Hl. unfold M7_CANONICAL_SCRIPT_LEN. lia.
Qed.
Lemma m7_child_total payload : m7_payload payload = true -> copy_range 32 5 37 payload = Some (subarray 32 5 payload).
Proof.
  unfold m7_payload. rewrite !andb_true_iff, Nat.eqb_eq. intros [[Hl _] _]. apply copy_range_ok; rewrite ?Hl; unfold M7_PAYLOAD_LEN; lia.
Qed.
End reads.

(** ** The push grammar *)

(** [OP_RETURN] followed by one push of the payload and nothing else. *)
Inductive push_script : bytes -> bytes -> Prop :=
| push_empty : push_script [OP_RETURN; x00] []
| push_direct op payload :
    1 <= byte_val op <= 75 -> Z.of_nat (length payload) = byte_val op ->
    push_script (OP_RETURN :: op :: payload) payload
| push_data1 b payload :
    Z.of_nat (length payload) = byte_val b ->
    push_script (OP_RETURN :: OP_PUSHDATA1 :: b :: payload) payload
| push_data2 b0 b1 payload :
    Z.of_nat (length payload) = le_val [b0; b1] ->
    push_script (OP_RETURN :: OP_PUSHDATA2 :: b0 :: b1 :: payload) payload
| push_data4 b0 b1 b2 b3 payload :
    Z.of_nat (length payload) = le_val [b0; b1; b2; b3] ->
    push_script (OP_RETURN :: OP_PUSHDATA4 :: b0 :: b1 :: b2 :: b3 :: payload) payload.

Section push.
Context {W : PtrWidth}.

Lemma usize_try_Some z (x : uint usize_bits) : usize_try z = Some x <-> uval x = z.
Proof. apply uint_try_Some. Qed.

(** With a header of [n] bytes the payload is the rest of the script. *)
Lemma push_payload_iff pre payload start len p :
  start = Z.of_nat (length pre) -> Z.of_nat (length (pre ++ payload)) < 2 ^ Zpos usize_bits ->
  push_payload (pre ++ payload) start len = Some p <-> p = payload /\ Z.of_nat (length payload) = len.
Proof.
  intros -> Hl. unfold push_payload. rewrite length_app in *. destruct (usize_try _) as [e|] eqn:Ee.
  - apply usize_try_Some in Ee. cbn. rewrite Ee.
    destruct (Z.eqb_spec (Z.of_nat (length payload)) len) as [<-|Hne].
    + rewrite (proj2 (Z.eqb_eq _ _)) by lia. cbn [negb].
      rewrite index_range_ok by (rewrite length_app; lia).
      replace (slice _ _ _) with payload; [naive_solver|]. unfold slice.
      rewrite Nat2Z.id, drop_app_length by done. symmetry. apply take_ge. lia.
    + rewrite (proj2 (Z.eqb_neq _ _)) by lia. naive_solver.
  - apply uint_try_None in Ee. cbn. split; [done|]. intros [_ <-]. lia.
Qed.

Lemma byte_val_eq (b : byte) (c : byte) : byte_val b = byte_val c <-> b = c.
Proof. split; [apply byte_val_inj|by intros ->]. Qed.

Lemma extract_push_sound script p :
  Z.of_nat (length script) < 2 ^ Zpos usize_bits ->
  op_return_push script = Some p -> push_script script p.
Proof.
  intros Hl. unfold op_return_push.
  destruct script as [|r [|op rest]]; [done|by destruct (bool_decide _)|].
  cbn [length Nat.ltb Nat.leb orb lookup list_lookup]. destruct (bool_decide_reflect (Some r = Some OP_RETURN)) as [E|];
    [|done]. injection E as ->. cbn [negb mbind option_bind].
  unfold push_header. destruct (Z.eqb_spec (byte_val op) 0) as [E0|].
  { change 0 with (byte_val x00) in E0. apply byte_val_inj in E0 as ->.
    intros H. cbn [mbind option_bind] in H.
    apply (push_payload_iff [OP_RETURN; x00] rest 2 0) in H as [-> Hz]; [|done..].
    destruct rest; [constructor|cbn in Hz; lia]. }
  destruct ((1 <=? byte_val op) && (byte_val op <=? 75)) eqn:Ed.
  { apply andb_prop in Ed as [H1 H2]. apply Z.leb_le in H1, H2. intros H. cbn [mbind option_bind] in H.
    apply (push_payload_iff [OP_RETURN; op] rest 2 _) in H as [-> Hz]; [|done..]. by constructor. }
  destruct (bool_decide_reflect (op = OP_PUSHDATA1)) as [->|].
  { destruct rest as [|b rest]; [done|]. intros H. cbn [lookup list_lookup mbind option_bind] in H.
    apply (push_payload_iff [OP_RETURN; OP_PUSHDATA1; b] rest 3 _) in H as [-> Hz]; [|done..]. by constructor. }
  destruct (bool_decide_reflect (op = OP_PUSHDATA2)) as [->|].
  { destruct rest as [|b0 [|b1 rest]]; [done..|]. intros H. cbn [lookup list_lookup mbind option_bind] in H.
    apply (push_payload_iff [OP_RETURN; OP_PUSHDATA2; b0; b1] rest 4 _) in H as [-> Hz]; [|done..]. by constructor. }
  destruct (bool_decide_reflect (op = OP_PUSHDATA4)) as [->|]; [|done].
  destruct rest as [|b0 [|b1 [|b2 [|b3 rest]]]]; [done..|]. intros H. cbn [lookup list_lookup mbind option_bind] in H.
  destruct (usize_try _) as [len|] eqn:Elen; [|done]. cbn [mbind option_bind] in H.
  apply usize_try_Some in Elen.
  apply (push_payload_iff [OP_RETURN; OP_PUSHDATA4; b0; b1; b2; b3] rest 6 _) in H as [-> Hz]; [|done..].
  constructor. congruence.
Qed.

Lemma extract_push_complete script p :
  Z.of_nat (length script) < 2 ^ Zpos usize_bits ->
  push_script script p -> op_return_push script = Some p.
Proof.
  intros Hl Hp. unfold op_return_push.
  assert (exists op rest, script = OP_RETURN :: op :: rest) as (op & rest & Es) by (destruct Hp; eauto).
  rewrite Es. cbn [length Nat.ltb Nat.leb orb lookup list_lookup].
  rewrite bool_decide_true by done. cbn [negb mbind option_bind]. rewrite <- Es.
  destruct Hp as [|op' payload Hop Hlen|b payload Hlen|b0 b1 payload Hlen|b0 b1 b2 b3 payload Hlen];
    injection Es as <- <-; unfold push_header.
  - cbn [byte_val]. apply (push_payload_iff [OP_RETURN; x00] [] 2 0); done.
  - rewrite (proj2 (Z.eqb_neq _ _)), (proj2 (Z.leb_le 1 _)), (proj2 (Z.leb_le _ 75)) by lia.
    cbn [andb mbind option_bind]. by apply (push_payload_iff [OP_RETURN; op'] payload 2 _).
  - cbn [lookup list_lookup mbind option_bind]. by apply (push_payload_iff [OP_RETURN; OP_PUSHDATA1; b] payload 3 _).
  - cbn [lookup list_lookup mbind option_bind]. by apply (push_payload_iff [OP_RETURN; OP_PUSHDATA2; b0; b1] payload 4 _).
  - cbn [lookup list_lookup mbind option_bind].
    destruct (usize_try (le_val [b0; b1; b2; b3])) as [len|] eqn:Elen.
    + apply usize_try_Some in Elen. cbn [mbind option_bind].
      apply (push_payload_iff [OP_RETURN; OP_PUSHDATA4; b0; b1; b2; b3] payload 6 _); [done..|].
      by rewrite Elen.
    + exfalso. apply uint_try_None in Elen. cbn [length] in Hl. lia.
Qed.
End push.

(** ** The unique commitment *)

Definition canonical_m7_script (child : BlockHash) : bytes :=
  OP_RETURN :: byte_of (Z.of_nat M7_PAYLOAD_LEN) :: M7_TAG ++ ELEMENTS_DRIVECHAIN_SLOT :: child.

Lemma canonical_child child : subarray 32 7 (canonical_m7_script child) = child.
Proof.
  apply array_eq. rewrite subarray_slice; [|cbn; by rewrite arr_length].
  cbn. unfold slice. cbn. apply take_ge. by rewrite arr_length.
Qed.

Section m7.
Context {W : PtrWidth} (Hwidth : 32 <= Zpos usize_bits).

(** The outputs, with their index, whose push is a slot-24 M7 in any encoding. *)
Definition carries_m7 (script : bytes) : bool :=
  match op_return_push script with
  | Some payload => m7_payload payload
  | None => false
  end.
Definition m7_outputs (scripts : list bytes) : list (nat * bytes) :=
  filter (fun o => carries_m7 o.2 = true) (imap pair scripts).
Definition noncanonical_outputs (scripts : list bytes) : list (nat * bytes) :=
  filter (fun o => m7_canonical o.2 = false) (m7_outputs scripts).
Definition script_bytes (scripts : list bytes) : Z := sumZ (fun s => Z.of_nat (length s)) scripts.

(** What the scan must report, on every branch. *)
Definition m7_spec (scripts : list bytes) : res M7Error UnboundCanonicalM7 :=
  if BITCOIN_MAX_COINBASE_OUTPUTS <? Z.of_nat (length scripts) then Err M7_TooManyOutputs
  else if BITCOIN_MAX_COINBASE_OUTPUT_SCRIPT_BYTES <? script_bytes scripts then Err M7_AggregateScriptBytesExceeded
  else match noncanonical_outputs scripts, m7_outputs scripts with
       | _ :: _, _ => Err M7_NonCanonical
       | [], [] => Err M7_Missing
       | [], [(i, script)] => Ok (MkUnboundCanonicalM7 (uint_wrap 32 (Z.of_nat i)) (subarray 32 7 script))
       | [], _ => Err M7_Duplicate
       end.

(** The state of the scan after a prefix of the outputs. *)
Definition m7_state (pre : list bytes) : M7Scan := {|
  ms_matches := length (m7_outputs pre);
  ms_noncanonical := length (noncanonical_outputs pre);
  ms_matched_index := from_option (fun o => uint_wrap 32 (Z.of_nat o.1)) (uint_wrap 32 0) (last (m7_outputs pre));
  ms_child_hash := from_option (fun o => subarray 32 5 (default [] (op_return_push o.2))) ZERO
                     (last (m7_outputs pre));
  ms_aggregate := uint_wrap usize_bits (script_bytes pre)
|}.

Lemma m7_outputs_snoc pre x :
  m7_outputs (pre ++ [x]) = m7_outputs pre ++ (if carries_m7 x then [(length pre, x)] else []).
Proof.
  unfold m7_outputs. rewrite imap_app, filter_app. f_equal. cbn [imap app].
  rewrite Nat.add_0_r. rewrite filter_cons, filter_nil. cbn [snd].
  destruct (carries_m7 x); [by rewrite decide_True|by rewrite decide_False by done].
Qed.

Lemma noncanonical_snoc pre x :
  noncanonical_outputs (pre ++ [x]) = noncanonical_outputs pre ++
    (if carries_m7 x && negb (m7_canonical x) then [(length pre, x)] else []).
Proof.
  unfold noncanonical_outputs. rewrite m7_outputs_snoc, filter_app. f_equal.
  destruct (carries_m7 x); [|done]. rewrite filter_cons, filter_nil. cbn [snd andb].
  destruct (m7_canonical x); [by rewrite decide_False by done|by rewrite decide_True].
Qed.

Lemma script_bytes_snoc pre x : script_bytes (pre ++ [x]) = script_bytes pre + Z.of_nat (length x).
Proof. unfold script_bytes. rewrite sumZ_app. cbn. lia. Qed.

Lemma script_bytes_nonneg l : 0 <= script_bytes l.
Proof. induction l as [|x l IH]; [done|]. unfold script_bytes, sumZ in *. cbn [foldr]. lia. Qed.

Lemma m7_scan_step_state pre x :
  Z.of_nat (length pre) < 2 ^ 32 -> script_bytes pre <= BITCOIN_MAX_COINBASE_OUTPUT_SCRIPT_BYTES ->
  m7_scan_step (length pre) x (m7_state pre) =
  if BITCOIN_MAX_COINBASE_OUTPUT_SCRIPT_BYTES <? script_bytes (pre ++ [x])
  then Err M7_AggregateScriptBytesExceeded else Ok (m7_state (pre ++ [x])).
Proof.
  intros Hi Hb. pose proof (script_bytes_nonneg pre) as H0.
  pose proof (Z.pow_le_mono_r 2 32 (Zpos usize_bits) ltac:(lia) Hwidth) as H32.
  assert (BITCOIN_MAX_COINBASE_OUTPUT_SCRIPT_BYTES = 1000000) as Hmax by done.
  unfold m7_scan_step. cbn [m7_state ms_aggregate ms_matches ms_noncanonical ms_matched_index ms_child_hash].
  rewrite (uval_wrap_small usize_bits) by lia. rewrite <- script_bytes_snoc.
  pose proof (script_bytes_nonneg (pre ++ [x])).
  destruct (usize_try _) as [agg|] eqn:Ea.
  2: { apply uint_try_None in Ea. cbn [ok_or mbind res_bind].
       by rewrite (proj2 (Z.ltb_lt _ _)) by lia. }
  apply uint_try_Some in Ea. cbn [ok_or mbind res_bind]. rewrite Ea.
  destruct (Z.ltb_spec BITCOIN_MAX_COINBASE_OUTPUT_SCRIPT_BYTES (script_bytes (pre ++ [x]))); [done|].
  cbn [fail_if mbind res_bind]. assert (agg = uint_wrap usize_bits (script_bytes (pre ++ [x]))) as ->
    by (rewrite <- Ea; symmetry; apply uint_wrap_uval).
  unfold m7_state. rewrite m7_outputs_snoc, noncanonical_snoc. unfold carries_m7.
  rewrite extract_push_total. cbn [expect mbind res_bind].
  destruct (op_return_push x) as [payload|] eqn:Ep; [|by rewrite !app_nil_r].
  rewrite m7_payload_total, m7_canonical_total. cbn [expect mbind res_bind].
  destruct (m7_payload payload) eqn:Em; cbn [negb andb]; [|by rewrite !app_nil_r].
  destruct (uint_try 32 _) as [i|] eqn:Ei; [|apply uint_try_None in Ei; lia].
  apply uint_try_Some in Ei. rewrite m7_child_total by done. cbn [ok_or expect mbind res_bind]. rewrite !length_app, last_snoc. cbn [from_option fst snd].
  rewrite Ep. cbn [default from_option]. rewrite <- Ei, uint_wrap_uval.
  do 2 f_equal; [cbn; lia|]. destruct (m7_canonical x); cbn [negb length]; lia.
Qed.

Lemma m7_scan_spec l pre :
  Z.of_nat (length pre + length l) < 2 ^ 32 -> script_bytes pre <= BITCOIN_MAX_COINBASE_OUTPUT_SCRIPT_BYTES ->
  res_foldi m7_scan_step (length pre) l (m7_state pre) =
  if BITCOIN_MAX_COINBASE_OUTPUT_SCRIPT_BYTES <? script_bytes (pre ++ l)
  then Err M7_AggregateScriptBytesExceeded else Ok (m7_state (pre ++ l)).
Proof.
  revert pre. induction l as [|x l IH]; intros pre Hi Hb; cbn [res_foldi].
  - rewrite app_nil_r. by rewrite (proj2 (Z.ltb_ge _ _)) by lia.
  - cbn [length] in Hi. rewrite m7_scan_step_state by lia.
    replace (pre ++ x :: l) with ((pre ++ [x]) ++ l) by (by rewrite <- app_assoc).
    destruct (Z.ltb_spec BITCOIN_MAX_COINBASE_OUTPUT_SCRIPT_BYTES (script_bytes (pre ++ [x]))) as [Ho|Ho]; cbn [mbind res_bind].
    + pose proof (script_bytes_nonneg l). unfold script_bytes in *. rewrite sumZ_app.
      by rewrite (proj2 (Z.ltb_lt _ _)) by lia.
    + rewrite <- IH by (rewrite ?length_app; cbn [length]; lia). by rewrite length_app, Nat.add_1_r.
Qed.

Lemma canonical_m7_bytes script :
  Z.of_nat (length script) < 2 ^ Zpos usize_bits ->
  carries_m7 script = true /\ m7_canonical script = true <->
  exists child : BlockHash, script = canonical_m7_script child.
Proof.
  intros Hl. split.
  - intros [Hc Hs]. unfold carries_m7 in Hc. destruct (op_return_push script) as [p|] eqn:Ep; [|done].
    apply extract_push_sound in Ep; [|done]. unfold m7_canonical in Hs.
    rewrite !andb_true_iff, !bool_decide_eq_true, Nat.eqb_eq in Hs. destruct Hs as [[Hlen H0] H1].
    assert (script = OP_RETURN :: byte_of (Z.of_nat M7_PAYLOAD_LEN) :: p) as ->.
    { destruct Ep as [|op p Hop Hp|b p Hp|b0 b1 p Hp|b0 b1 b2 b3 p Hp]; cbn in H1; try discriminate H1.
      by injection H1 as ->. }
    unfold m7_payload in Hc. rewrite !andb_true_iff, !bool_decide_eq_true, Nat.eqb_eq in Hc.
    destruct Hc as [[Hpl Ht] Hslot].
    destruct (array_try_length 32 (drop 5 p)) as (child & _ & Hchild); [rewrite length_drop, Hpl; done|].
    exists child. unfold canonical_m7_script. do 2 f_equal. rewrite Hchild, <- Ht.
    rewrite <- (take_drop 4 p) at 1. f_equal. by apply drop_S.
  - intros [child ->]. assert (length child = 32%nat) as Hch by apply arr_length. split.
    + unfold carries_m7.
      rewrite (extract_push_complete _ (M7_TAG ++ ELEMENTS_DRIVECHAIN_SLOT :: child) Hl).
      * unfold m7_payload. rewrite !andb_true_iff, !bool_decide_eq_true, Nat.eqb_eq. cbn. by rewrite Hch.
      * apply push_direct; [by vm_compute|]. cbn [M7_TAG app length]. by rewrite Hch.
    + unfold m7_canonical. rewrite !andb_true_iff, !bool_decide_eq_true, Nat.eqb_eq.
      cbn [canonical_m7_script M7_TAG app length]. by rewrite Hch.
Qed.

Lemma m7_outputs_elem scripts i s : (i, s) ∈ m7_outputs scripts <-> scripts !! i = Some s /\ carries_m7 s = true.
Proof.
  unfold m7_outputs. rewrite list_elem_of_filter. cbn [snd].
  rewrite list_elem_of_lookup. setoid_rewrite list_lookup_imap. split.
  - intros [Hc (k & Hk)]. destruct (scripts !! k) as [y|] eqn:Ek; [|done]. cbn in Hk. naive_solver.
  - intros [Hs Hc]. split; [done|]. exists i. by rewrite Hs.
Qed.

Lemma m7_outputs_NoDup scripts : NoDup (m7_outputs scripts).*1.
Proof.
  unfold m7_outputs. eapply sublist_NoDup; [|apply fmap_sublist, sublist_filter].
  replace ((imap pair scripts).*1) with (seq 0 (length scripts)); [apply NoDup_seq|].
  apply list_eq. intros k. rewrite list_lookup_fmap, list_lookup_imap.
  destruct (scripts !! k) as [x|] eqn:Ek; cbn.
  - apply lookup_seq. split; [lia|]. by apply lookup_lt_Some in Ek.
  - apply lookup_seq_ge. by apply lookup_ge_None in Ek.
Qed.

(** Exactly one M7 output, at [i]. *)
Lemma m7_outputs_single scripts i s :
  m7_outputs scripts = [(i, s)] <->
  scripts !! i = Some s /\ carries_m7 s = true /\
  forall j s', scripts !! j = Some s' -> carries_m7 s' = true -> j = i.
Proof.
  split.
  - intros E. assert ((i, s) ∈ m7_outputs scripts) as He by (rewrite E; by left).
    apply m7_outputs_elem in He as [Hi Hc]. split; [done|]. split; [done|]. intros j s' Hj Hs'.
    assert ((j, s') ∈ m7_outputs scripts) as Hj' by by apply m7_outputs_elem.
    rewrite E in Hj'. apply list_elem_of_singleton in Hj'. by injection Hj'.
  - intros (Hi & Hc & Hu). pose proof (m7_outputs_NoDup scripts) as Hnd.
    assert ((i, s) ∈ m7_outputs scripts) as He by by apply m7_outputs_elem.
    assert (forall o, o ∈ m7_outputs scripts -> o = (i, s)) as Hall.
    { intros [j s'] Hj. apply m7_outputs_elem in Hj as [Hj Hs']. pose proof (Hu j s' Hj Hs') as ->. congruence. }
    destruct (m7_outputs scripts) as [|a [|b l]]; [by apply not_elem_of_nil in He| |].
    + f_equal. apply Hall. by left.
    + exfalso. pose proof (Hall a ltac:(by left)) as ->. pose proof (Hall b ltac:(right; by left)) as ->.
      cbn in Hnd. apply NoDup_cons in Hnd as [Hn _]. apply Hn. by left.
Qed.

Lemma m7_extract_spec scripts : (forall s, s ∈ scripts -> Z.of_nat (length s) < 2 ^ Zpos usize_bits) ->
  extract_elements_slot24_m7 scripts = m7_spec scripts.
Proof.
  intros Hl. unfold extract_elements_slot24_m7, m7_spec.
  assert (BITCOIN_MAX_COINBASE_OUTPUTS = 111111) as Hmax by done.
  destruct (Z.ltb_spec BITCOIN_MAX_COINBASE_OUTPUTS (Z.of_nat (length scripts))); [done|]. cbn [fail_if mbind res_bind].
  change (MkM7Scan _ _ _ _ _) with (m7_state []).
  pose proof (m7_scan_spec scripts []) as Es. cbn [length Nat.add app] in Es. rewrite Es by (try done; lia).
  destruct (_ <? _); [done|]. cbn [mbind res_bind m7_state ms_noncanonical ms_matches].
  destruct (noncanonical_outputs scripts) eqn:En; [|done]. cbn [length Nat.eqb negb fail_if mbind res_bind].
  destruct (m7_outputs scripts) as [|[i s] [|]] eqn:Em; [done| |done]. cbn [length last from_option fst snd].
  unfold m7_state. cbn [ms_matched_index ms_child_hash]. rewrite Em. cbn [last from_option fst snd]. do 2 f_equal.
  assert ((i, s) ∈ m7_outputs scripts) as He by (rewrite Em; by left).
  apply m7_outputs_elem in He as [Hi Hc].
  assert (m7_canonical s = true) as Hs.
  { apply not_false_is_true. intros Hf. assert ((i, s) ∈ noncanonical_outputs scripts) as Hx; [|by rewrite En in Hx; apply not_elem_of_nil in Hx].
    unfold noncanonical_outputs. apply list_elem_of_filter. split; [done|]. rewrite Em. by left. }
  assert (Z.of_nat (length s) < 2 ^ Zpos usize_bits) as Hsl by (apply Hl; by eapply list_elem_of_lookup_2).
  destruct (proj1 (canonical_m7_bytes s Hsl)) as [child ->]; [done|].
  rewrite (extract_push_complete _ (M7_TAG ++ ELEMENTS_DRIVECHAIN_SLOT :: child) Hsl); [by apply array_eq|].
  apply push_direct; [by vm_compute|]. cbn [M7_TAG app length]. by rewrite arr_length.
Qed.

Lemma m7_lookup_form scripts m :
  (forall s, s ∈ scripts -> Z.of_nat (length s) < 2 ^ Zpos usize_bits) ->
  Z.of_nat (length scripts) < 2 ^ 32 ->
  match noncanonical_outputs scripts, m7_outputs scripts with
  | _ :: _, _ => Err M7_NonCanonical
  | [], [] => Err M7_Missing
  | [], [(i, script)] => Ok (MkUnboundCanonicalM7 (uint_wrap 32 (Z.of_nat i)) (subarray 32 7 script))
  | [], _ => Err M7_Duplicate
  end = Ok m <->
  scripts !! Z.to_nat (m7_output_index m) = Some (canonical_m7_script (m7_committed_child_hash m)) /\
  forall j s, scripts !! j = Some s -> carries_m7 s = true -> j = Z.to_nat (m7_output_index m).
Proof.
  intros Hl Hlen. split.
  - intros E. destruct (noncanonical_outputs scripts) eqn:En; [|done].
    destruct (m7_outputs scripts) as [|[i s] [|]] eqn:Em; [done| |done]. injection E as <-.
    apply m7_outputs_single in Em as Hs. destruct Hs as (Hi & Hc & Hu). pose proof (lookup_lt_Some _ _ _ Hi).
    cbn [m7_output_index m7_committed_child_hash]. rewrite uval_wrap_small, Nat2Z.id by lia. split; [|done].
    assert (m7_canonical s = true) as Hs.
    { apply not_false_is_true. intros Hf. unfold noncanonical_outputs in En. rewrite Em in En.
      by rewrite filter_cons_True in En. }
    destruct (proj1 (canonical_m7_bytes s (Hl s ltac:(by eapply list_elem_of_lookup_2)))) as [child ->]; [done|].
    rewrite Hi. do 2 f_equal. symmetry. by apply canonical_child.
  - intros [Hi Hu]. set (child := m7_committed_child_hash m) in *. set (i := Z.to_nat _) in *.
    destruct (proj2 (canonical_m7_bytes (canonical_m7_script child)
      (Hl _ ltac:(by eapply list_elem_of_lookup_2)))) as [Hc Hs]; [by exists child|].
    assert (m7_outputs scripts = [(i, canonical_m7_script child)]) as Em by by apply m7_outputs_single.
    unfold noncanonical_outputs. rewrite Em, filter_cons_False, filter_nil by (cbn [snd]; congruence).
    f_equal. destruct m as [idx ch]. cbn in *. pose proof (uint_range idx). unfold i. rewrite Z2Nat.id by lia.
    f_equal; [apply uint_wrap_uval|]. apply canonical_child.
Qed.

(** The push parser accepts exactly the scripts [OP_RETURN <one push>] of
    the five push encodings, with nothing before or after, and returns the
    pushed bytes. *)
Theorem op_return_push_grammar (script p : bytes) :
  Z.of_nat (length script) < 2 ^ Zpos usize_bits ->
  op_return_push script = Some p <-> push_script script p.
Proof. intros Hl. split; [by apply extract_push_sound|by apply extract_push_complete]. Qed.

Lemma m7_extract_Ok scripts m : (forall s, s ∈ scripts -> Z.of_nat (length s) < 2 ^ Zpos usize_bits) ->
  extract_elements_slot24_m7 scripts = Ok m <->
    Z.of_nat (length scripts) <= BITCOIN_MAX_COINBASE_OUTPUTS /\
    script_bytes scripts <= BITCOIN_MAX_COINBASE_OUTPUT_SCRIPT_BYTES /\
    scripts !! Z.to_nat (m7_output_index m) = Some (canonical_m7_script (m7_committed_child_hash m)) /\
    forall j s, scripts !! j = Some s -> carries_m7 s = true -> j = Z.to_nat (m7_output_index m).
Proof.
  intros Hl. rewrite m7_extract_spec by done. unfold m7_spec.
  assert (BITCOIN_MAX_COINBASE_OUTPUTS = 111111) as Hmax by done.
  destruct (Z.ltb_spec BITCOIN_MAX_COINBASE_OUTPUTS (Z.of_nat (length scripts))); [split; [done|lia]|].
  destruct (Z.ltb_spec BITCOIN_MAX_COINBASE_OUTPUT_SCRIPT_BYTES (script_bytes scripts)); [split; [done|lia]|].
  rewrite m7_lookup_form by (try done; lia). tauto.
Qed.

(** A coinbase yields an M7 exactly when one output is the canonical
    script of the child hash and no other output pushes a slot-24 M7 in any
    encoding; every other coinbase is refused, with the error [m7_spec] names. *)
Theorem m7_unique_iff (scripts : list bytes) :
  (forall s, s ∈ scripts -> Z.of_nat (length s) < 2 ^ Zpos usize_bits) ->
  extract_elements_slot24_m7 scripts = m7_spec scripts /\
  forall m, extract_elements_slot24_m7 scripts = Ok m <->
    Z.of_nat (length scripts) <= BITCOIN_MAX_COINBASE_OUTPUTS /\
    script_bytes scripts <= BITCOIN_MAX_COINBASE_OUTPUT_SCRIPT_BYTES /\
    scripts !! Z.to_nat (m7_output_index m) = Some (canonical_m7_script (m7_committed_child_hash m)) /\
    forall j s, scripts !! j = Some s -> carries_m7 s = true -> j = Z.to_nat (m7_output_index m).
Proof. intros Hl. split; [by apply m7_extract_spec|]. intros m. by apply m7_extract_Ok. Qed.
End m7.

Example op_return_push_grammar_witness :
  @op_return_push 64%positive [OP_RETURN; x02; x61; x62] = Some [x61; x62] <->
  push_script [OP_RETURN; x02; x61; x62] [x61; x62].
Proof. apply (@op_return_push_grammar 64%positive). by vm_compute. Defined.

Definition sample_outputs : list bytes :=
  [[x51]; canonical_m7_script (array_rep 32 x09); [OP_RETURN; x02; x61; x62]].

Example m7_unique_iff_witness :
  @extract_elements_slot24_m7 64%positive sample_outputs = @m7_spec 64%positive sample_outputs /\
  forall m, @extract_elements_slot24_m7 64%positive sample_outputs = Ok m <->
    Z.of_nat (length sample_outputs) <= BITCOIN_MAX_COINBASE_OUTPUTS /\
    script_bytes sample_outputs <= BITCOIN_MAX_COINBASE_OUTPUT_SCRIPT_BYTES /\
    sample_outputs !! Z.to_nat (m7_output_index m) = Some (canonical_m7_script (m7_committed_child_hash m)) /\
    forall j s, sample_outputs !! j = Some s -> @carries_m7 64%positive s = true -> j = Z.to_nat (m7_output_index m).
Proof.
  apply (@m7_unique_iff 64%positive).
  - by vm_compute.
  - apply Forall_forall. repeat (apply Forall_cons; split; [by vm_compute|]). by apply Forall_nil.
Defined.
