(* ===== verification/BlockParser.v ===== *)
(** Bitcoin transaction parsing: the [Cursor], compact sizes and
    [parse_transaction] of [crates/usdd-bitcoin-bmm/src/block.rs].

    The Rust [Cursor] is an input and a position, the pair [Decoder] of
    [Encoding]; its operations report [BlockStructureError].  [parse_transaction]
    is shown to accept exactly the serializations of the well-formed
    transactions [Tx]. *)

From S2P Require Import Prelude Encoding Hashing Readers BitcoinHeaders BmmCommitment.

Local Open Scope Z_scope.

Definition BITCOIN_MAX_SERIALIZED_BLOCK_BYTES : Z := BITCOIN_MAX_BLOCK_WEIGHT.
Definition BITCOIN_MIN_TRANSACTION_BASE_BYTES : Z := 60.
Definition BITCOIN_MIN_SERIALIZED_TXIN_BASE_BYTES : Z := 41.
Definition BITCOIN_MAX_TRANSACTIONS : Z := BITCOIN_MAX_BLOCK_BASE_BYTES / BITCOIN_MIN_TRANSACTION_BASE_BYTES.
Definition BITCOIN_MAX_INPUTS_PER_TRANSACTION : Z :=
  BITCOIN_MAX_BLOCK_BASE_BYTES / BITCOIN_MIN_SERIALIZED_TXIN_BASE_BYTES.
Definition MAX_MONEY_SATOSHIS : Z := 21000000 * 100000000.

Inductive BlockStructureError : Type :=
| BS_BlockTooShort | BS_SerializedBlockTooLarge | BS_UnexpectedEnd | BS_NonCanonicalCompactSize
| BS_LengthOverflow | BS_TrailingBytes | BS_EmptyBlock | BS_TooManyTransactions | BS_EmptyInputs
| BS_TooManyInputs | BS_EmptyOutputs | BS_TooManyOutputs | BS_InvalidWitnessFlags | BS_SuperfluousWitness
| BS_FirstTransactionNotCoinbase | BS_MultipleCoinbaseTransactions | BS_InvalidCoinbaseScriptSize
| BS_NullPreviousOutput | BS_DuplicateInput | BS_OutputValueOutOfRange | BS_OutputTotalOutOfRange
| BS_BlockWeightExceeded | BS_MerkleRootMismatch | BS_MutatedMerkleTree | BS_MissingWitnessCommitment
| BS_InvalidCoinbaseWitness | BS_WitnessCommitmentMismatch.

Abbreviation Cursor := Decoder.
Abbreviation parser := (reader BlockStructureError).

Definition Cursor_new (bs : bytes) (position : nat) : Cursor := MkDecoder bs position.
Definition Cursor_remaining (c : Cursor) : nat := (length (dec_bytes c) - cursor c)%nat.

(** [let start = cursor.position;] and [&cursor.bytes[..]] *)
Definition ask_cursor : parser Cursor := fun c => Ok (c, c).

Section parse.
Context {W : PtrWidth}.

Definition Cursor_take (len : Z) : parser bytes := fun c =>
  match usize_try (Z.of_nat (cursor c) + len) with
  | None => Err BS_LengthOverflow
  | Some e =>
      if uval e <=? Z.of_nat (length (dec_bytes c))
      then Ok (slice (cursor c) (Z.to_nat (uval e)) (dec_bytes c), MkDecoder (dec_bytes c) (Z.to_nat (uval e)))
      else Err BS_UnexpectedEnd
  end.

(** [cursor.take(N)?.try_into().expect(..)] *)
Definition Cursor_array (n : nat) : parser (array n) :=
  value ← Cursor_take (Z.of_nat n); raise (expect (array_try n value)).

Definition Cursor_byte : parser byte := value ← Cursor_array 1; mret (hd x00 (arr value)).

Definition Cursor_peek : parser byte := fun c =>
  match dec_bytes c !! cursor c with
  | Some b => Ok (b, c)
  | None => Err BS_UnexpectedEnd
  end.

Definition Cursor_compact_size : parser (uint usize_bits) :=
  prefix ← Cursor_byte;
  value ← (if byte_val prefix <=? 0xfc then mret (byte_val prefix)
    else if byte_val prefix =? 0xfd then
      bs ← Cursor_array 2;
      raise (fail_if (le_val (arr bs) <? 0xfd) BS_NonCanonicalCompactSize);;
      mret (le_val (arr bs))
    else if byte_val prefix =? 0xfe then
      bs ← Cursor_array 4;
      raise (fail_if (le_val (arr bs) <=? 2 ^ 16 - 1) BS_NonCanonicalCompactSize);;
      mret (le_val (arr bs))
    else
      bs ← Cursor_array 8;
      raise (fail_if (le_val (arr bs) <=? 2 ^ 32 - 1) BS_NonCanonicalCompactSize);;
      mret (le_val (arr bs)));
  raise (ok_or (usize_try value) BS_LengthOverflow).

(** The bytes [encode_compact_size] appends. *)
Definition encode_compact_size (value : Z) : res BlockStructureError bytes :=
  if value <? 0xfd then Ok [byte_of value]
  else if value <=? 2 ^ 16 - 1 then Ok (xfd :: le_bytes 2 value)
  else if value <=? 2 ^ 32 - 1 then Ok (xfe :: le_bytes 4 value)
  else value ← ok_or (uint_try 64 value) BS_LengthOverflow; Ok (xff :: le_bytes 8 (uval value)).

(** ** Transactions *)

Record ParsedOutput : Type := MkParsedOutput { po_value : array 8; po_script : bytes }.

Record ParsedCoinbase : Type := MkParsedCoinbase {
  pc_version : array 4;
  pc_inputs_and_output_count : bytes;
  pc_outputs : list ParsedOutput;
  pc_witness : list bytes;
  pc_lock_time : array 4
}.

Record ParsedTransaction : Type := MkParsedTransaction {
  pt_txid : BlockHash;
  pt_wtxid : BlockHash;
  pt_stripped_size : uint usize_bits;
  pt_has_witness : bool;
  pt_is_coinbase : bool;
  pt_coinbase : option ParsedCoinbase;
  pt_inputs : list (array 36);
  pt_outputs : list ParsedOutput
}.

Definition outpoint_is_null (outpoint : array 36) : bool :=
  forallb (fun b => bool_decide (b = x00)) (take 32 outpoint)
  && bool_decide (drop 32 outpoint = le_bytes 4 (2 ^ 32 - 1)).

(** The locals of the input loop. *)
Record InputScan : Type := MkInputScan {
  is_outpoints : list (array 36);
  is_null_previous_outputs : nat;
  is_sole_input_script_size : uint usize_bits
}.

Definition parse_input (input_index : nat) (st : InputScan) : parser InputScan :=
  outpoint ← Cursor_array 36;
  null_previous_outputs ← raise (expect (
    if outpoint_is_null outpoint then usize_succ (is_null_previous_outputs st)
    else Some (is_null_previous_outputs st)));
  script_size ← Cursor_compact_size;
  raise (fail_if (BITCOIN_MAX_COINBASE_OUTPUT_SCRIPT_BYTES <? uval script_size) BS_LengthOverflow);;
  Cursor_take (uval script_size);;
  Cursor_take 4;;
  mret {|
    is_outpoints := is_outpoints st ++ [outpoint];
    is_null_previous_outputs := null_previous_outputs;
    is_sole_input_script_size := if (input_index =? 0)%nat then script_size else is_sole_input_script_size st
  |}.

(** [for index in start..start + count { state = step(index, state)? }] *)
Fixpoint parse_loop {T : Type} (step : nat -> T -> parser T) (count index : nat) (st : T) : parser T :=
  match count with
  | O => mret st
  | S count => st ← step index st; parse_loop step count (S index) st
  end.

Record OutputScan : Type := MkOutputScan { os_outputs : list ParsedOutput; os_total : u64 }.

Definition parse_output (st : OutputScan) : parser OutputScan :=
  value_bytes ← Cursor_array 8;
  value ← raise (ok_or (uint_try 64 (signed 64 (le_val (arr value_bytes)))) BS_OutputValueOutOfRange);
  raise (fail_if (MAX_MONEY_SATOSHIS <? uval value) BS_OutputValueOutOfRange);;
  output_total ← raise (ok_or (checked_add (os_total st) value) BS_OutputTotalOutOfRange);
  raise (fail_if (MAX_MONEY_SATOSHIS <? uval output_total) BS_OutputTotalOutOfRange);;
  script_size ← Cursor_compact_size;
  raise (fail_if (BITCOIN_MAX_COINBASE_OUTPUT_SCRIPT_BYTES <? uval script_size) BS_LengthOverflow);;
  script ← Cursor_take (uval script_size);
  mret (MkOutputScan (os_outputs st ++ [MkParsedOutput value_bytes script]) output_total).

Definition parse_witness_item (keep : bool) (items : list bytes) : parser (list bytes) :=
  item_size ← Cursor_compact_size;
  raise (fail_if (BITCOIN_MAX_SERIALIZED_BLOCK_BYTES <? uval item_size) BS_LengthOverflow);;
  item ← Cursor_take (uval item_size);
  mret (if keep then items ++ [item] else items).

(** One witness stack: whether one was non-empty so far, and the kept items. *)
Definition parse_witness_stack (is_coinbase : bool) (input_index : nat) (st : bool * list bytes)
    : parser (bool * list bytes) :=
  item_count ← Cursor_compact_size;
  remaining ← ask_remaining;
  raise (fail_if (Z.of_nat remaining <? uval item_count) BS_LengthOverflow);;
  items ← parse_loop (fun _ => parse_witness_item (is_coinbase && (input_index =? 0)%nat))
            (Z.to_nat (uval item_count)) 0 st.2;
  mret (st.1 || negb (uval item_count =? 0), items).

(** [outpoints.windows(2).any(|pair| pair[0] == pair[1])] *)
Fixpoint adjacent_equal (l : list (array 36)) : bool :=
  match l with
  | a :: (b :: _) as l => bool_decide (a = b) || adjacent_equal l
  | _ => false
  end.

(** [outpoints.sort_unstable()]: the order is total on arrays, so every sort
    gives the same list. *)
Definition outpoint_le (a b : array 36) : Prop := array_leb a b = true.
#[export] Instance outpoint_le_dec : RelDecision outpoint_le.
Proof. intros a b. unfold outpoint_le. apply _. Defined.
Definition sort_outpoints (l : list (array 36)) : list (array 36) := merge_sort outpoint_le l.

(** The checks between the inputs and the outputs; [Ok] of the kept outpoints. *)
Definition check_inputs (input_count : Z) (st : InputScan) : res BlockStructureError (bool * list (array 36)) :=
  let is_coinbase := (input_count =? 1) && (is_null_previous_outputs st =? 1)%nat in
  fail_if (negb is_coinbase && negb (is_null_previous_outputs st =? 0)%nat) BS_NullPreviousOutput;;
  fail_if (is_coinbase && negb ((2 <=? uval (is_sole_input_script_size st))
                                && (uval (is_sole_input_script_size st) <=? 100))) BS_InvalidCoinbaseScriptSize;;
  if negb is_coinbase then
    let outpoints := sort_outpoints (is_outpoints st) in
    fail_if (adjacent_equal outpoints) BS_DuplicateInput;;
    Ok (is_coinbase, outpoints)
  else Ok (is_coinbase, is_outpoints st).

(** [&cursor.bytes[start.position..end.position]] *)
Definition between (a b : Cursor) : res BlockStructureError bytes :=
  expect (index_range (cursor a) (cursor b) (dec_bytes b)).

(** The input count, the inputs and their checks. *)
Definition parse_inputs : parser (Z * (bool * list (array 36))) :=
  input_count ← Cursor_compact_size;
  raise (fail_if (uval input_count =? 0) BS_EmptyInputs);;
  remaining ← ask_remaining;
  raise (fail_if ((BITCOIN_MAX_INPUTS_PER_TRANSACTION <? uval input_count)
                  || (Z.of_nat remaining / BITCOIN_MIN_SERIALIZED_TXIN_BASE_BYTES <? uval input_count))
           BS_TooManyInputs);;
  scan ← parse_loop parse_input (Z.to_nat (uval input_count)) 0 (MkInputScan [] 0 (uint_wrap usize_bits 0));
  checked ← raise (check_inputs (uval input_count) scan);
  mret (uval input_count, checked).

(** The outputs after their count. *)
Definition parse_outputs (output_count : Z) : parser (list ParsedOutput) :=
  raise (fail_if (output_count =? 0) BS_EmptyOutputs);;
  remaining ← ask_remaining;
  raise (fail_if ((BITCOIN_MAX_COINBASE_OUTPUTS <? output_count)
                  || (Z.of_nat remaining / BITCOIN_MIN_SERIALIZED_TXOUT_BASE_BYTES <? output_count))
           BS_TooManyOutputs);;
  outs ← parse_loop (fun _ => parse_output) (Z.to_nat output_count) 0 (MkOutputScan [] (uint_wrap 64 0));
  mret (os_outputs outs).

(** The witness stacks; what is kept is the coinbase witness. *)
Definition parse_witness (input_count : Z) (is_coinbase : bool) : parser (list bytes) :=
  '(has_witness, coinbase_witness) ← parse_loop (parse_witness_stack is_coinbase) (Z.to_nat input_count) 0 (false, []);
  raise (fail_if (negb has_witness) BS_SuperfluousWitness);;
  mret coinbase_witness.

(** The positions [parse_transaction] keeps. *)
Record Marks : Type := MkMarks {
  transaction_start : Cursor;
  after_version : Cursor;
  input_count_start : Cursor;
  outputs_start : Cursor;
  outputs_end : Cursor;
  lock_time_start : Cursor;
  transaction_end : Cursor
}.

(** [parse_transaction] after its last read: the sizes, the identifiers over the
    slices between the positions, and the result. *)
Definition finish_transaction {H : Sha256} (k : Marks) (version : array 4) (has_witness_encoding is_coinbase : bool)
    (outpoints : list (array 36)) (outputs : list ParsedOutput) (coinbase_witness : list bytes) (lock_time : array 4)
    : res BlockStructureError ParsedTransaction :=
  body_size ← expect (usize_sub (cursor (outputs_end k)) (cursor (input_count_start k)));
  stripped_size ← ok_or (
      usize_try (4 + Z.of_nat body_size) ≫= fun value : uint usize_bits => usize_try (uval value + 4)) BS_LengthOverflow;
  txid ← (if has_witness_encoding then
      version_bytes ← between (transaction_start k) (after_version k);
      body ← between (input_count_start k) (outputs_end k);
      lock_time_bytes ← between (lock_time_start k) (transaction_end k);
      Ok (sha256 (sha256 (version_bytes ++ body ++ lock_time_bytes)))
    else
      whole ← between (transaction_start k) (transaction_end k);
      Ok (double_sha256 whole));
  wtxid ← (if has_witness_encoding then
      whole ← between (transaction_start k) (transaction_end k);
      Ok (double_sha256 whole)
    else Ok txid);
  coinbase ← (if is_coinbase then
      inputs_and_output_count ← between (input_count_start k) (outputs_start k);
      Ok (Some {|
        pc_version := version;
        pc_inputs_and_output_count := inputs_and_output_count;
        pc_outputs := outputs;
        pc_witness := coinbase_witness;
        pc_lock_time := lock_time
      |})
    else Ok None);
  Ok {|
    pt_txid := txid;
    pt_wtxid := wtxid;
    pt_stripped_size := stripped_size;
    pt_has_witness := has_witness_encoding;
    pt_is_coinbase := is_coinbase;
    pt_coinbase := coinbase;
    pt_inputs := outpoints;
    pt_outputs := outputs
  |}.

(** [parse_transaction] after the marker: [input_count_start] and the cursors
    before and after the version are its arguments. *)
Definition parse_body {H : Sha256} (transaction_start after_version input_count_start : Cursor)
    (version : array 4) (has_witness_encoding : bool) : parser ParsedTransaction :=
  '(input_count, (is_coinbase, outpoints)) ← parse_inputs;
  output_count ← Cursor_compact_size;
  outputs_start ← ask_cursor;
  outputs ← parse_outputs (uval output_count);
  outputs_end ← ask_cursor;
  coinbase_witness ← (if has_witness_encoding then parse_witness input_count is_coinbase else mret []);
  lock_time_start ← ask_cursor;
  lock_time ← Cursor_array 4;
  transaction_end ← ask_cursor;
  raise (finish_transaction (MkMarks transaction_start after_version input_count_start outputs_start
                               outputs_end lock_time_start transaction_end)
           version has_witness_encoding is_coinbase outpoints outputs coinbase_witness lock_time).

Definition parse_transaction {H : Sha256} : parser ParsedTransaction :=
  transaction_start ← ask_cursor;
  version ← Cursor_array 4;
  after_version ← ask_cursor;
  marker ← Cursor_peek;
  let has_witness_encoding := bool_decide (marker = x00) in
  input_count_start ← (if has_witness_encoding then
      Cursor_byte;;
      flags ← Cursor_byte;
      raise (fail_if (negb (bool_decide (flags = x01))) BS_InvalidWitnessFlags);;
      ask_cursor
    else mret after_version);
  parse_body transaction_start after_version input_count_start version has_witness_encoding.
End parse.

(** ** Parsers as relations between a value and the bytes consumed *)

Section parses.
Context {W : PtrWidth}.

(** A cursor inside an input that fits in memory. *)
Definition fits (c : Cursor) : Prop :=
  (cursor c <= length (dec_bytes c))%nat /\ Z.of_nat (length (dec_bytes c)) < 2 ^ Zpos usize_bits.

Definition parses {A : Type} (m : parser A) (S : A -> bytes -> Prop) : Prop :=
  forall c a c', fits c -> m c = Ok (a, c') <-> exists p, S a p /\ reads (Some p) c c'.

Lemma reads_length p c c' : reads (Some p) c c' -> (length p <= length (unread c))%nat.
Proof. intros [H _]%reads_Some. rewrite H, length_app. lia. Qed.

Lemma fits_reads p c c' : fits c -> reads (Some p) c c' -> fits c'.
Proof.
  intros [Hc Hf] Hr. pose proof (reads_length _ _ _ Hr) as Hl. apply reads_Some in Hr as [_ ->].
  unfold fits, advance, unread in *. cbn. rewrite length_drop in Hl. split; [lia|done].
Qed.

Lemma reads_slice p c c' : reads (Some p) c c' -> slice (cursor c) (cursor c') (dec_bytes c') = p.
Proof.
  intros [Hu ->]%reads_Some. unfold slice, advance. cbn [cursor dec_bytes].
  replace (cursor c + length p - cursor c)%nat with (length p) by lia.
  change (drop _ _) with (unread c). rewrite Hu. by rewrite take_app_length.
Qed.

Lemma reads_between p c c' : fits c -> reads (Some p) c c' -> between c c' = Ok p.
Proof.
  intros Hc Hr. pose proof (fits_reads _ _ _ Hc Hr) as [Hc' _]. unfold between.
  rewrite index_range_ok; [by rewrite (reads_slice p)|]. apply reads_Some in Hr as [_ ->].
  unfold advance in *. cbn [cursor dec_bytes] in *. lia.
Qed.

Lemma reads_trans p q c c1 c2 :
  reads (Some p) c c1 -> reads (Some q) c1 c2 -> reads (Some (p ++ q)) c c2.
Proof. intros Hp Hq. apply (reads_app (Some p) (Some q)). by exists c1. Qed.

Lemma reads_split p q c c2 :
  reads (Some (p ++ q)) c c2 -> exists c1, reads (Some p) c c1 /\ reads (Some q) c1 c2.
Proof. intros H. by apply (reads_app (Some p) (Some q)). Qed.

Lemma parses_weaken {A} (m : parser A) (S T : A -> bytes -> Prop) :
  parses m S -> (forall a p, S a p <-> T a p) -> parses m T.
Proof. intros Hm Hi c a c' Hc. rewrite (Hm c a c' Hc). by setoid_rewrite Hi. Qed.

Lemma parses_ret {A} (x : A) : parses (mret x) (fun a p => a = x /\ p = []).
Proof.
  intros c a c' _. rewrite reader_ret_Ok. split.
  - intros [-> ->]. exists []. by rewrite reads_nil.
  - intros (p & [-> ->] & Hr). by apply reads_nil in Hr.
Qed.

Lemma parses_raise {A} (r : res BlockStructureError A) : parses (raise r) (fun a p => r = Ok a /\ p = []).
Proof.
  intros c a c' _. rewrite raise_Ok. split.
  - intros [-> ->]. exists []. by rewrite reads_nil.
  - intros (p & [-> ->] & Hr). by apply reads_nil in Hr.
Qed.

Lemma parses_bind {A B} (m : parser A) (f : A -> parser B) (S : A -> bytes -> Prop) (T : A -> B -> bytes -> Prop) :
  parses m S -> (forall a p, S a p -> parses (f a) (T a)) ->
  parses (m ≫= f) (fun b p => exists a p1 p2, p = p1 ++ p2 /\ S a p1 /\ T a b p2).
Proof.
  intros Hm Hf c b c' Hc. rewrite reader_bind_Ok. split.
  - intros (a & c1 & H1 & H2). apply Hm in H1 as (p1 & HS & Hr1); [|done].
    apply (Hf a p1 HS) in H2 as (p2 & HT & Hr2); [|by eapply fits_reads].
    exists (p1 ++ p2). split; [by exists a, p1, p2|]. by eapply reads_trans.
  - intros (p & (a & p1 & p2 & -> & HS & HT) & Hr). apply reads_split in Hr as (c1 & Hr1 & Hr2).
    exists a, c1. split; [apply Hm; [done|by exists p1]|]. apply (Hf a p1 HS); [by eapply fits_reads|]. by exists p2.
Qed.

(** A check of the bytes left that the rest of the parse implies anyway. *)
Lemma parses_guard {A} (g : nat -> bool) e (m : parser A) (S : A -> bytes -> Prop) :
  parses m S -> (forall a p r, S a p -> (length p <= r)%nat -> g r = false) ->
  parses (remaining ← ask_remaining; raise (fail_if (g remaining) e);; m) S.
Proof.
  intros Hm Hg c a c' Hc. rewrite <- (Hm c a c' Hc), reader_bind_Ok. split.
  - intros (r & d & Hn & H1). apply ask_remaining_Ok in Hn as [-> ->]. rewrite reader_bind_Ok in H1.
    destruct H1 as ([] & d & Hn & H1). by apply raise_Ok in Hn as [_ ->].
  - intros H1. exists (length (unread c)), c. rewrite ask_remaining_Ok, reader_bind_Ok. split; [done|].
    exists tt, c. rewrite raise_Ok, fail_if_Ok. split; [|done]. split; [|done].
    apply Hm in H1 as (p & HS & Hr); [|done]. by eapply Hg, reads_length.
Qed.

Lemma parses_take n : 0 <= n -> parses (Cursor_take n) (fun a p => a = p /\ Z.of_nat (length p) = n).
Proof.
  intros Hn c a c' [Hc Hf]. unfold Cursor_take. split.
  - destruct (usize_try _) as [e|] eqn:Ee; [|done]. apply usize_try_Some in Ee. rewrite Ee.
    destruct (Z.leb_spec (Z.of_nat (cursor c) + n) (Z.of_nat (length (dec_bytes c)))) as [Hle|]; [|done].
    intros [= <- <-]. destruct (Z_of_nat_complete n Hn) as [k ->].
    replace (Z.to_nat (Z.of_nat (cursor c) + Z.of_nat k)) with (cursor c + k)%nat by lia.
    assert (slice (cursor c) (cursor c + k) (dec_bytes c) = take k (unread c)) as ->
      by (unfold slice, unread; f_equal; lia).
    assert (length (take k (unread c)) = k) as Hk by (unfold unread; rewrite length_take, length_drop; lia).
    exists (take k (unread c)). split; [by rewrite Hk|].
    change (MkDecoder _ _) with (advance c k). rewrite <- Hk at 2. apply (reads_complete _ c (drop k (unread c))).
    by rewrite take_drop.
  - intros (p & [-> Hl] & Hr). pose proof (reads_length _ _ _ Hr) as Hlen.
    pose proof (reads_slice _ _ _ Hr) as Hb. apply reads_Some in Hr as [_ ->].
    unfold unread in Hlen. rewrite length_drop in Hlen. unfold advance in *. cbn [cursor dec_bytes] in *.
    destruct (usize_try _) as [e|] eqn:Ee; [|apply uint_try_None in Ee; lia]. apply usize_try_Some in Ee.
    rewrite Ee, (proj2 (Z.leb_le _ _)) by lia.
    replace (Z.to_nat (Z.of_nat (cursor c) + n)) with (cursor c + length p)%nat by lia. by rewrite Hb.
Qed.

Lemma parses_array n : parses (Cursor_array n) (fun a p => p = arr a).
Proof.
  eapply parses_weaken.
  { apply parses_bind with (S := fun a p => a = p /\ Z.of_nat (length p) = Z.of_nat n)
      (T := fun a b p => expect (E:=BlockStructureError) (array_try n a) = Ok b /\ p = []);
      [apply parses_take; lia|intros; apply parses_raise]. }
  intros a p. cbn. setoid_rewrite expect_Ok. setoid_rewrite array_try_Some. split.
  - intros (x & p1 & p2 & -> & [-> _] & <- & ->). apply app_nil_r.
  - intros ->. exists (arr a), (arr a), []. rewrite app_nil_r, arr_length. done.
Qed.

Lemma parses_byte : parses Cursor_byte (fun b p => p = [b]).
Proof.
  eapply parses_weaken.
  { apply parses_bind with (S := fun a p => p = arr a) (T := fun (a : array 1) b p => b = hd x00 (arr a) /\ p = []);
      [apply parses_array|intros; apply parses_ret]. }
  intros b p. cbn. split.
  - intros (x & p1 & p2 & -> & -> & -> & ->). rewrite app_nil_r. pose proof (arr_length x) as Hx.
    destruct (arr x) as [|y [|]]; done.
  - intros ->. exists (array_rep 1 b), [b], []. done.
Qed.
End parses.

(** Break a parser along its binds; the leaves are found by the lemmas above. *)
Ltac parse_step :=
  lazymatch goal with
  | |- parses (mret _) _ => apply parses_ret
  | |- parses (raise _) _ => apply parses_raise
  | |- parses Cursor_byte _ => apply parses_byte
  | |- parses (Cursor_array _) _ => apply parses_array
  | |- parses (mbind _ _) _ => eapply parses_bind; [|intros]
  end.

Definition compact_bytes (n : Z) : bytes :=
  if n <? 0xfd then [byte_of n]
  else if n <=? 2 ^ 16 - 1 then xfd :: le_bytes 2 n
  else if n <=? 2 ^ 32 - 1 then xfe :: le_bytes 4 n
  else xff :: le_bytes 8 n.

Lemma encode_compact_Ok n bs : 0 <= n -> encode_compact_size n = Ok bs <-> n < 2 ^ 64 /\ bs = compact_bytes n.
Proof.
  intros Hn. unfold encode_compact_size, compact_bytes.
  destruct (Z.ltb_spec n 0xfd); [split; [intros [= <-]; split; [lia|done]|intros [_ ->]; done]|].
  destruct (Z.leb_spec n (2 ^ 16 - 1)); [split; [intros [= <-]; split; [lia|done]|intros [_ ->]; done]|].
  destruct (Z.leb_spec n (2 ^ 32 - 1)); [split; [intros [= <-]; split; [lia|done]|intros [_ ->]; done]|].
  rewrite res_bind_Ok. setoid_rewrite ok_or_Ok. setoid_rewrite uint_try_Some. split.
  - intros (v & Hv & [= <-]). pose proof (uint_range v). rewrite Hv. split; [lia|done].
  - intros [Hlt ->]. exists (uint_wrap 64 n). rewrite uval_wrap_small by lia. done.
Qed.

Lemma compact_bytes_length n : (1 <= length (compact_bytes n) <= 9)%nat.
Proof. unfold compact_bytes. repeat case_match; cbn [length]; rewrite ?length_le_bytes; lia. Qed.

Lemma le_val_array n (a : array n) : le_bytes n (le_val (arr a)) = arr a.
Proof. pose proof (le_bytes_val (arr a)) as E. by rewrite arr_length in E. Qed.

Lemma array_of_le n z : exists a : array n, arr a = le_bytes n z.
Proof. destruct (array_try_length n (le_bytes n z)) as (a & _ & Ha); [apply length_le_bytes|]. by exists a. Qed.

Section compact.
Context {W : PtrWidth}.

(** One multi-byte form: [n] bytes of value at least [lo]. *)
Lemma parses_compact_word (n : nat) (bad : Z -> bool) (lo : Z) :
  (forall v, bad v = false <-> lo <= v) ->
  parses (bs ← Cursor_array n; raise (fail_if (bad (le_val (arr bs))) BS_NonCanonicalCompactSize);; mret (le_val (arr bs)))
    (fun v p => lo <= v /\ 0 <= v < 256 ^ Z.of_nat n /\ p = le_bytes n v).
Proof.
  intros Hbad. eapply parses_weaken; [repeat parse_step|]. intros v p. cbn. split.
  - intros (a & p1 & p2 & -> & -> & [] & q1 & q2 & -> & [Hc ->] & -> & ->).
    apply fail_if_Ok, Hbad in Hc. rewrite !app_nil_r, le_val_array. split; [done|]. split; [|done].
    pose proof (le_val_range (arr a)) as Hr. by rewrite arr_length in Hr.
  - intros (Hlo & Hr & ->). destruct (array_of_le n v) as [a Ha].
    assert (le_val (arr a) = v) as Hv by (rewrite Ha, le_val_bytes; by apply Z.mod_small).
    exists a, (arr a), []. split; [by rewrite app_nil_r, Ha|]. split; [done|]. exists tt, [], [].
    rewrite fail_if_Ok, Hbad, Hv. done.
Qed.

Lemma compact_bytes_cases v prefix q : 0 <= v < 2 ^ 64 ->
  compact_bytes v = prefix :: q <->
  (byte_val prefix <= 0xfc /\ v = byte_val prefix /\ q = []) \/
  (prefix = xfd /\ 0xfd <= v < 2 ^ 16 /\ q = le_bytes 2 v) \/
  (prefix = xfe /\ 2 ^ 16 <= v < 2 ^ 32 /\ q = le_bytes 4 v) \/
  (prefix = xff /\ 2 ^ 32 <= v /\ q = le_bytes 8 v).
Proof.
  intros Hv. unfold compact_bytes. pose proof (byte_val_range prefix) as Hp.
  destruct (Z.ltb_spec v 0xfd) as [H1|H1].
  { split.
    - intros [= <- <-]. left. rewrite byte_val_of, Z.mod_small by lia. split; [lia|done].
    - intros [(_ & -> & ->)|[(_ & H & _)|[(_ & H & _)|(_ & H & _)]]]; [by rewrite byte_of_val|lia..]. }
  assert (forall r, v = byte_val prefix -> byte_val prefix <= 0xfc -> r) as Hno by (intros; lia).
  destruct (Z.leb_spec v (2 ^ 16 - 1)); [|destruct (Z.leb_spec v (2 ^ 32 - 1))].
  - split; [intros [= <- <-]; right; left; split; [done|split; [lia|done]]|].
    intros [(? & ? & _)|[(-> & _ & ->)|[(_ & ? & _)|(_ & ? & _)]]]; [by apply Hno|done|lia..].
  - split; [intros [= <- <-]; right; right; left; split; [done|split; [lia|done]]|].
    intros [(? & ? & _)|[(_ & ? & _)|[(-> & _ & ->)|(_ & ? & _)]]]; [by apply Hno|lia|done|lia].
  - split; [intros [= <- <-]; right; right; right; split; [done|split; [lia|done]]|].
    intros [(? & ? & _)|[(_ & ? & _)|[(_ & ? & _)|(-> & _ & ->)]]]; [by apply Hno|lia..|done].
Qed.

(** The value read before its conversion to [usize]. *)
Lemma parses_compact_value (prefix : byte) :
  parses (if byte_val prefix <=? 0xfc then mret (byte_val prefix)
    else if byte_val prefix =? 0xfd then
      bs ← Cursor_array 2; raise (fail_if (le_val (arr bs) <? 0xfd) BS_NonCanonicalCompactSize);; mret (le_val (arr bs))
    else if byte_val prefix =? 0xfe then
      bs ← Cursor_array 4; raise (fail_if (le_val (arr bs) <=? 2 ^ 16 - 1) BS_NonCanonicalCompactSize);; mret (le_val (arr bs))
    else bs ← Cursor_array 8; raise (fail_if (le_val (arr bs) <=? 2 ^ 32 - 1) BS_NonCanonicalCompactSize);; mret (le_val (arr bs)))
    (fun v q => 0 <= v < 2 ^ 64 /\ compact_bytes v = prefix :: q).
Proof.
  pose proof (byte_val_range prefix) as Hp. destruct (Z.leb_spec (byte_val prefix) 0xfc) as [H|H].
  { eapply parses_weaken; [apply parses_ret|]. intros v q. cbn. split.
    - intros [-> ->]. split; [lia|]. apply compact_bytes_cases; [lia|]. by left.
    - intros [Hv E]. apply compact_bytes_cases in E; [|done].
      destruct E as [(_ & -> & ->)|[(-> & _)|[(-> & _)|(-> & _)]]]; [done|cbn in H; lia..]. }
  destruct (Z.eqb_spec (byte_val prefix) 0xfd) as [E|E]; [|destruct (Z.eqb_spec (byte_val prefix) 0xfe) as [E'|E']].
  - apply (byte_val_inj _ xfd) in E as ->. eapply parses_weaken.
    { apply (parses_compact_word 2 (fun v => v <? 0xfd) 0xfd). intros v. apply Z.ltb_ge. }
    intros v q. change (256 ^ Z.of_nat 2) with (2 ^ 16). split.
    + intros (H1 & H2 & ->). split; [lia|]. apply compact_bytes_cases; [lia|]. right. left. repeat split; lia.
    + intros [Hv C]. apply compact_bytes_cases in C; [|done].
      destruct C as [(C & _)|[(_ & ? & ->)|[(C & _)|(C & _)]]]; [cbn in C; lia|repeat split; lia|done..].
  - apply (byte_val_inj _ xfe) in E' as ->. eapply parses_weaken.
    { apply (parses_compact_word 4 (fun v => v <=? 2 ^ 16 - 1) (2 ^ 16)). intros v. rewrite Z.leb_gt. lia. }
    intros v q. change (256 ^ Z.of_nat 4) with (2 ^ 32). split.
    + intros (H1 & H2 & ->). split; [lia|]. apply compact_bytes_cases; [lia|]. right. right. left. repeat split; lia.
    + intros [Hv C]. apply compact_bytes_cases in C; [|done].
      destruct C as [(C & _)|[(C & _)|[(_ & ? & ->)|(C & _)]]]; [cbn in C; lia|done|repeat split; lia|done].
  - assert (prefix = xff) as -> by (apply byte_val_inj; change (byte_val xff) with 255; lia). eapply parses_weaken.
    { apply (parses_compact_word 8 (fun v => v <=? 2 ^ 32 - 1) (2 ^ 32)). intros v. rewrite Z.leb_gt. lia. }
    intros v q. change (256 ^ Z.of_nat 8) with (2 ^ 64). split.
    + intros (H1 & H2 & ->). split; [lia|]. apply compact_bytes_cases; [lia|]. right. right. right. repeat split; lia.
    + intros [Hv C]. apply compact_bytes_cases in C; [|done].
      destruct C as [(C & _)|[(C & _)|[(C & _)|(_ & ? & ->)]]]; [cbn in C; lia|done|done|repeat split; lia].
Qed.

(** [compact_size] reads exactly the shortest encoding of the value. *)
Lemma parses_compact :
  parses Cursor_compact_size (fun (n : uint usize_bits) p => n < 2 ^ 64 /\ p = compact_bytes n).
Proof.
  unfold Cursor_compact_size. eapply parses_weaken.
  { eapply parses_bind; [apply parses_byte|]. intros prefix p _.
    eapply parses_bind; [apply parses_compact_value|]. intros v q _. apply parses_raise. }
  intros n p. cbn. setoid_rewrite ok_or_Ok. setoid_rewrite usize_try_Some. split.
  - intros (b & p1 & p2 & -> & -> & v & q1 & q2 & -> & [Hv E] & <- & ->). rewrite app_nil_r. split; [lia|done].
  - intros [Hn ->]. pose proof (uint_range n).
    destruct (compact_bytes n) as [|b q] eqn:E; [by pose proof (compact_bytes_length n) as Hl; rewrite E in Hl; cbn in Hl; lia|].
    exists b, [b], q. split; [done|]. split; [done|]. exists (uval n), q, []. rewrite app_nil_r. split; [done|].
    split; [|done]. split; [lia|done].
Qed.
End compact.

(** ** Loops that read one item per iteration *)

Section loop.
Context {W : PtrWidth} {T X : Type}.
Context (step : nat -> T -> parser T) (Q : nat -> T -> X -> Prop) (upd : nat -> T -> X -> T) (ser : X -> bytes).

Fixpoint loop_ok (i : nat) (st : T) (xs : list X) : Prop :=
  match xs with
  | [] => True
  | x :: xs => Q i st x /\ loop_ok (S i) (upd i st x) xs
  end.
Fixpoint loop_end (i : nat) (st : T) (xs : list X) : T :=
  match xs with
  | [] => st
  | x :: xs => loop_end (S i) (upd i st x) xs
  end.

Lemma parses_loop :
  (forall i st, parses (step i st) (fun st' p => exists x, Q i st x /\ st' = upd i st x /\ p = ser x)) ->
  forall count i st, parses (parse_loop step count i st)
    (fun st' p => exists xs, length xs = count /\ loop_ok i st xs /\ st' = loop_end i st xs /\ p = concat (map ser xs)).
Proof.
  intros Hstep. induction count as [|count IH]; intros i st; cbn [parse_loop].
  - eapply parses_weaken; [apply parses_ret|]. intros st' p. cbn. split.
    + intros [-> ->]. by exists [].
    + intros ([|x xs] & Hl & _ & -> & ->); done.
  - eapply parses_weaken; [eapply parses_bind; [apply Hstep|intros; apply IH]|].
    intros st' p. cbn. split.
    + intros (st1 & p1 & p2 & -> & (x & Hx & -> & ->) & xs & <- & Hok & -> & ->).
      by exists (x :: xs).
    + intros ([|x xs] & [= <-] & [Hx Hok] & -> & ->).
      exists (upd i st x), (ser x), (concat (map ser xs)). split; [done|]. split; [by exists x|]. by exists xs.
Qed.
End loop.

(** ** The grammar of a transaction *)

Record TxIn : Type := MkTxIn { in_outpoint : array 36; in_script : bytes; in_sequence : array 4 }.

(** The witness stacks, one per input, when the transaction has any. *)
Record Tx : Type := MkTx {
  tx_version : array 4;
  tx_inputs : list TxIn;
  tx_outputs : list ParsedOutput;
  tx_witness : option (list (list bytes));
  tx_lock_time : array 4
}.

Definition var_bytes (bs : bytes) : bytes := compact_bytes (Z.of_nat (length bs)) ++ bs.
Definition serialize_in (i : TxIn) : bytes := arr (in_outpoint i) ++ var_bytes (in_script i) ++ arr (in_sequence i).
Definition serialize_out (o : ParsedOutput) : bytes := arr (po_value o) ++ var_bytes (po_script o).
Definition serialize_stack (items : list bytes) : bytes :=
  compact_bytes (Z.of_nat (length items)) ++ concat (map var_bytes items).

Definition serialize_ins (ins : list TxIn) : bytes :=
  compact_bytes (Z.of_nat (length ins)) ++ concat (map serialize_in ins).
Definition serialize_outs (outs : list ParsedOutput) : bytes :=
  compact_bytes (Z.of_nat (length outs)) ++ concat (map serialize_out outs).

(** The serialization hashed into the txid, and the one hashed into the wtxid. *)
Definition serialize_base (tx : Tx) : bytes :=
  arr (tx_version tx) ++ (serialize_ins (tx_inputs tx) ++ serialize_outs (tx_outputs tx)) ++ arr (tx_lock_time tx).
Definition serialize_tx (tx : Tx) : bytes :=
  match tx_witness tx with
  | None => serialize_base tx
  | Some stacks =>
      arr (tx_version tx) ++ [x00; x01] ++ (serialize_ins (tx_inputs tx) ++ serialize_outs (tx_outputs tx))
      ++ concat (map serialize_stack stacks) ++ arr (tx_lock_time tx)
  end.

Definition out_value (o : ParsedOutput) : Z := signed 64 (le_val (arr (po_value o))).
Definition null_inputs (ins : list TxIn) : nat := length (filter (fun i => outpoint_is_null (in_outpoint i) = true) ins).
Definition ins_coinbase (ins : list TxIn) : bool := (length ins =? 1)%nat && (null_inputs ins =? 1)%nat.
Definition tx_is_coinbase (tx : Tx) : bool := ins_coinbase (tx_inputs tx).

Record wf_inputs (ins : list TxIn) : Prop := {
  wfi_count : 0 < Z.of_nat (length ins) <= BITCOIN_MAX_INPUTS_PER_TRANSACTION;
  wfi_scripts : Forall (fun i => Z.of_nat (length (in_script i)) <= BITCOIN_MAX_COINBASE_OUTPUT_SCRIPT_BYTES) ins;
  wfi_coinbase : ins_coinbase ins = true -> Forall (fun i => (2 <= length (in_script i) <= 100)%nat) ins;
  wfi_null : ins_coinbase ins = false -> null_inputs ins = 0%nat;
  wfi_distinct : ins_coinbase ins = false -> NoDup (map in_outpoint ins)
}.

Record wf_outputs (outs : list ParsedOutput) : Prop := {
  wfo_count : 0 < Z.of_nat (length outs) <= BITCOIN_MAX_COINBASE_OUTPUTS;
  wfo_scripts : Forall (fun o => Z.of_nat (length (po_script o)) <= BITCOIN_MAX_COINBASE_OUTPUT_SCRIPT_BYTES) outs;
  wfo_values : Forall (fun o => 0 <= out_value o) outs;
  wfo_total : sumZ out_value outs <= MAX_MONEY_SATOSHIS
}.

Definition wf_stack `{PtrWidth} (items : list bytes) : Prop :=
  Z.of_nat (length items) < 2 ^ 64 /\ Z.of_nat (length items) < 2 ^ Zpos usize_bits /\
  Forall (fun item => Z.of_nat (length item) <= BITCOIN_MAX_SERIALIZED_BLOCK_BYTES) items.

Definition wf_witness `{PtrWidth} (inputs : nat) (stacks : list (list bytes)) : Prop :=
  length stacks = inputs /\ Forall wf_stack stacks /\ Exists (fun items => items <> []) stacks.

Record wf_tx `{PtrWidth} (tx : Tx) : Prop := {
  wf_ins : wf_inputs (tx_inputs tx);
  wf_outs : wf_outputs (tx_outputs tx);
  wf_wit : forall stacks, tx_witness tx = Some stacks -> wf_witness (length (tx_inputs tx)) stacks
}.

Section steps.
Context {W : PtrWidth} (Hwidth : 32 <= Zpos usize_bits).

Definition usize_len {A : Type} (l : list A) : uint usize_bits := uint_wrap usize_bits (Z.of_nat (length l)).

Lemma usize_small z : 0 <= z < 2 ^ 32 -> uval (uint_wrap usize_bits z) = z.
Proof.
  intros Hz. apply uval_wrap_small.
  pose proof (Z.pow_le_mono_r 2 32 (Zpos usize_bits) ltac:(lia) Hwidth). lia.
Qed.

(** A length-prefixed byte string, bounded, and what follows it. *)
Lemma parses_var_bytes {B} (limit : Z) e (f : uint usize_bits -> bytes -> parser B)
    (T : uint usize_bits -> bytes -> B -> bytes -> Prop) :
  limit < 2 ^ 32 -> (forall size s, parses (f size s) (T size s)) ->
  parses (size ← Cursor_compact_size; raise (fail_if (limit <? uval size) e);; s ← Cursor_take (uval size); f size s)
    (fun b p => exists s q, Z.of_nat (length s) <= limit /\ p = var_bytes s ++ q /\ T (usize_len s) s b q).
Proof.
  intros Hlim Hf. eapply parses_weaken.
  { eapply parses_bind; [apply parses_compact|]. intros size p _.
    eapply parses_bind; [apply parses_raise|]. intros u q _.
    eapply parses_bind; [apply parses_take; apply uint_range|]. intros s q' _. apply Hf. }
  intros b p. cbn. split.
  - intros (size & p1 & p2 & -> & [_ ->] & [] & q1 & q2 & -> & [Hlt ->] & s & s1 & q & -> & [-> Hs] & Ht).
    apply fail_if_Ok, Z.ltb_ge in Hlt. exists s1, q. rewrite Hs. split; [done|]. unfold var_bytes. rewrite Hs.
    rewrite <- app_assoc. split; [done|]. unfold usize_len. by rewrite Hs, uint_wrap_uval.
  - intros (s & q & Hle & -> & Ht). exists (usize_len s), (compact_bytes (Z.of_nat (length s))), (s ++ q).
    assert (uval (usize_len s) = Z.of_nat (length s)) as Hu by (apply usize_small; lia).
    rewrite Hu. unfold var_bytes. rewrite <- app_assoc. split; [done|]. split; [split; [lia|done]|].
    exists tt, [], (s ++ q). rewrite fail_if_Ok, Z.ltb_ge. split; [done|]. split; [done|]. exists s, s, q. done.
Qed.

Definition input_update (index : nat) (st : InputScan) (i : TxIn) : InputScan := {|
  is_outpoints := is_outpoints st ++ [in_outpoint i];
  is_null_previous_outputs := (if outpoint_is_null (in_outpoint i) then 1 else 0) + is_null_previous_outputs st;
  is_sole_input_script_size := if (index =? 0)%nat then usize_len (in_script i) else is_sole_input_script_size st
|}.

(** An input within the script limit, whose null outpoint can still be counted. *)
Definition input_fits (_ : nat) (st : InputScan) (i : TxIn) : Prop :=
  Z.of_nat (length (in_script i)) <= BITCOIN_MAX_COINBASE_OUTPUT_SCRIPT_BYTES /\
  (outpoint_is_null (in_outpoint i) = true -> Z.of_nat (S (is_null_previous_outputs st)) < 2 ^ Zpos usize_bits).

Lemma count_null st (o : array 36) n :
  (if outpoint_is_null o then usize_succ (is_null_previous_outputs st) else Some (is_null_previous_outputs st)) = Some n <->
  (outpoint_is_null o = true -> Z.of_nat (S (is_null_previous_outputs st)) < 2 ^ Zpos usize_bits) /\
  n = ((if outpoint_is_null o then 1 else 0) + is_null_previous_outputs st)%nat.
Proof. destruct (outpoint_is_null o); [rewrite usize_succ_Some|]; naive_solver. Qed.

Lemma parses_input index st :
  parses (parse_input index st) (fun st' p => exists i, input_fits index st i /\
    st' = input_update index st i /\ p = serialize_in i).
Proof.
  unfold parse_input. eapply parses_weaken.
  { eapply parses_bind; [apply parses_array|]. intros o p _.
    eapply parses_bind; [apply parses_raise|]. intros n p' _.
    apply parses_var_bytes with (limit := BITCOIN_MAX_COINBASE_OUTPUT_SCRIPT_BYTES); [done|].
    intros size s. eapply parses_bind; [by apply parses_take|]. intros s' q _. apply parses_ret. }
  intros st' p. cbn beta. setoid_rewrite expect_Ok. setoid_rewrite count_null. split.
  - intros (o & p1 & p2 & -> & -> & n & p3 & p4 & -> & [[Hn ->] ->] & s & q & Hs & -> & sq & q1 & q2 & -> & [_ Hq] & -> & ->).
    destruct (array_try_length 4 q1) as (sequence & _ & <-); [lia|].
    exists (MkTxIn o s sequence). split; [done|]. split; [done|]. unfold serialize_in. cbn. by rewrite app_nil_r.
  - intros ([o s sequence] & [Hs Hn] & -> & ->). unfold serialize_in. cbn [in_outpoint in_script in_sequence] in *.
    exists o, (arr o), (var_bytes s ++ arr sequence). split; [done|]. split; [done|].
    eexists _, [], (var_bytes s ++ arr sequence). split; [done|]. split; [split; [split; [exact Hn|reflexivity]|done]|].
    exists s, (arr sequence). split; [done|]. split; [done|]. exists (arr sequence), (arr sequence), [].
    rewrite app_nil_r, arr_length. done.
Qed.

Definition output_update (st : OutputScan) (o : ParsedOutput) : OutputScan :=
  MkOutputScan (os_outputs st ++ [o]) (uint_wrap 64 (os_total st + out_value o)).

Lemma signed64_range z : - 2 ^ 63 <= signed 64 z < 2 ^ 63.
Proof.
  unfold signed. change (2 ^ (Z.pos 64 - 1)) with (2 ^ 63).
  pose proof (Z.mod_pos_bound (z + 2 ^ 63) (2 ^ 64) ltac:(lia)). lia.
Qed.

Lemma parses_output st :
  parses (parse_output st) (fun st' p => exists o,
    (0 <= out_value o <= MAX_MONEY_SATOSHIS /\ os_total st + out_value o <= MAX_MONEY_SATOSHIS /\
     Z.of_nat (length (po_script o)) <= BITCOIN_MAX_COINBASE_OUTPUT_SCRIPT_BYTES) /\
    st' = output_update st o /\ p = serialize_out o).
Proof.
  unfold parse_output. eapply parses_weaken.
  { eapply parses_bind; [apply parses_array|]. intros v p _.
    do 4 (eapply parses_bind; [apply parses_raise|]; intros).
    apply parses_var_bytes with (limit := BITCOIN_MAX_COINBASE_OUTPUT_SCRIPT_BYTES); [done|].
    intros size s. apply parses_ret. }
  intros st' p. cbn beta. setoid_rewrite ok_or_Ok. setoid_rewrite fail_if_Ok. setoid_rewrite uint_try_Some.
  assert (MAX_MONEY_SATOSHIS = 2100000000000000) as Hm by done. pose proof (uint_range (os_total st)).
  split.
  - intros (v & p1 & p2 & -> & -> & value & q1 & q2 & -> & [Hv ->] & [] & q3 & q4 & -> & [Hmax ->]
      & total & q5 & q6 & -> & [Ht ->] & [] & q7 & q8 & -> & [Htm ->] & s & q & Hs & -> & -> & ->).
    apply Z.ltb_ge in Hmax, Htm. pose proof (uint_range value).
    exists (MkParsedOutput v s). unfold out_value, output_update, serialize_out. cbn [po_value po_script].
    rewrite <- Hv. rewrite app_nil_r. split; [split; [lia|split; [lia|done]]|]. split; [|done].
    f_equal. apply uint_eq. unfold out_value. cbn [po_value]. rewrite <- Hv, uval_wrap_small by lia. done.
  - intros ([v s] & (Hv & Ht & Hs) & -> & ->). unfold out_value, output_update, serialize_out in *. cbn [po_value po_script] in *.
    exists v, (arr v), (var_bytes s). split; [done|]. split; [done|].
    exists (uint_wrap 64 (signed 64 (le_val (arr v)))), [], (var_bytes s).
    rewrite uval_wrap_small by lia. split; [done|]. split; [done|].
    exists tt, [], (var_bytes s). split; [done|]. split; [split; [apply Z.ltb_ge; lia|done]|].
    exists (uint_wrap 64 (os_total st + signed 64 (le_val (arr v)))), [], (var_bytes s). split; [done|]. split.
    { split; [|done]. by rewrite !uval_wrap_small by lia. }
    exists tt, [], (var_bytes s). split; [done|].
    rewrite uval_wrap_small by lia. split; [split; [apply Z.ltb_ge; lia|done]|].
    exists s, []. rewrite app_nil_r. done.
Qed.

(** ** The loops in closed form *)

Lemma concat_length_min {A} (ser : A -> bytes) (k : nat) xs :
  (forall x, k <= length (ser x))%nat -> (k * length xs <= length (concat (map ser xs)))%nat.
Proof.
  intros Hk. induction xs as [|x xs IH]; cbn [map concat length]; [lia|].
  rewrite length_app. specialize (Hk x). lia.
Qed.

Lemma loop_ok_Forall {T X} (P : X -> Prop) (upd : nat -> T -> X -> T) i st xs :
  loop_ok (fun _ _ => P) upd i st xs <-> Forall P xs.
Proof.
  revert i st. induction xs as [|x xs IH]; intros i st; cbn [loop_ok]; [split; [by constructor|done]|].
  by rewrite IH, Forall_cons.
Qed.

Lemma input_loop_ok i st ins : Z.of_nat (is_null_previous_outputs st + length ins) < 2 ^ Zpos usize_bits ->
  loop_ok input_fits input_update i st ins <->
  Forall (fun i => Z.of_nat (length (in_script i)) <= BITCOIN_MAX_COINBASE_OUTPUT_SCRIPT_BYTES) ins.
Proof.
  revert i st. induction ins as [|x ins IH]; intros i st Hn; cbn [loop_ok length] in *; [split; [by constructor|done]|].
  rewrite Forall_cons, IH by (unfold input_update; cbn [is_null_previous_outputs]; destruct (outpoint_is_null _); lia).
  unfold input_fits. split; [tauto|]. intros [? ?]. split; [split; [done|lia]|done].
Qed.

Lemma input_loop_end i st ins :
  loop_end input_update i st ins = {|
    is_outpoints := is_outpoints st ++ map in_outpoint ins;
    is_null_previous_outputs := null_inputs ins + is_null_previous_outputs st;
    is_sole_input_script_size := match i, ins with
                                 | O, x :: _ => usize_len (in_script x)
                                 | _, _ => is_sole_input_script_size st
                                 end
  |}.
Proof.
  revert i st. induction ins as [|x ins IH]; intros i st; cbn [loop_end map].
  - rewrite app_nil_r. destruct st, i; done.
  - rewrite IH. unfold input_update. cbn [is_outpoints is_null_previous_outputs is_sole_input_script_size].
    rewrite <- app_assoc. cbn [app]. f_equal; [|destruct i; [|destruct ins]; done].
    unfold null_inputs. rewrite filter_cons. destruct (outpoint_is_null (in_outpoint x)).
    + rewrite decide_True by done. cbn [length]. lia.
    + rewrite decide_False by done. lia.
Qed.

Lemma output_loop i st outs :
  0 <= os_total st <= MAX_MONEY_SATOSHIS ->
  loop_ok (fun _ st o => 0 <= out_value o <= MAX_MONEY_SATOSHIS /\ os_total st + out_value o <= MAX_MONEY_SATOSHIS /\
     Z.of_nat (length (po_script o)) <= BITCOIN_MAX_COINBASE_OUTPUT_SCRIPT_BYTES) (fun _ => output_update) i st outs <->
  Forall (fun o => 0 <= out_value o) outs /\ os_total st + sumZ out_value outs <= MAX_MONEY_SATOSHIS /\
  Forall (fun o => Z.of_nat (length (po_script o)) <= BITCOIN_MAX_COINBASE_OUTPUT_SCRIPT_BYTES) outs.
Proof.
  assert (MAX_MONEY_SATOSHIS = 2100000000000000) as Hm by done.
  revert i st. induction outs as [|o outs IH]; intros i st Hst; cbn [loop_ok].
  - cbn [sumZ foldr]. split; [intros _; split; [constructor|split; [lia|constructor]]|done].
  - rewrite !Forall_cons. unfold sumZ. cbn [foldr]. fold (sumZ out_value outs).
    assert (0 <= out_value o -> os_total st + out_value o <= MAX_MONEY_SATOSHIS ->
      os_total (output_update st o) = os_total st + out_value o :> Z) as Hu.
    { intros. cbn [output_update os_total]. apply uval_wrap_small. lia. }
    split.
    + intros ((Ho & Ht & Hs) & Hr). rewrite IH in Hr by (rewrite Hu by lia; lia). rewrite Hu in Hr by lia.
      destruct Hr as (Hf & Hsum & Hss). split; [split; [lia|done]|]. split; [lia|done].
    + intros ([Ho Hf] & Hsum & Hs & Hss).
      assert (0 <= sumZ out_value outs) as H0.
      { clear -Hf. induction Hf as [|x l Hx _ IHl]; [done|]. unfold sumZ in *. cbn [foldr]. lia. }
      split; [split; [lia|split; [lia|done]]|]. rewrite IH by (rewrite Hu by lia; lia). rewrite Hu by lia.
      split; [done|]. split; [lia|done].
Qed.

Lemma output_loop_end i st outs :
  os_outputs (loop_end (fun _ => output_update) i st outs) = os_outputs st ++ outs.
Proof.
  revert i st. induction outs as [|o outs IH]; intros i st; cbn [loop_end]; [by rewrite app_nil_r|].
  rewrite IH. cbn [output_update os_outputs]. by rewrite <- app_assoc.
Qed.

(** ** The duplicate check of the sorted outpoints *)

Lemma outpoint_le_val a b : outpoint_le a b <-> be_val a <= be_val b.
Proof. apply array_leb_iff. Qed.

#[local] Instance outpoint_le_total : Total outpoint_le.
Proof. intros a b. rewrite !outpoint_le_val. lia. Qed.
#[local] Instance outpoint_le_trans : Transitive outpoint_le.
Proof. intros a b c. rewrite !outpoint_le_val. lia. Qed.

Lemma outpoint_le_antisym a b : outpoint_le a b -> outpoint_le b a -> a = b.
Proof.
  rewrite !outpoint_le_val. intros H1 H2. apply array_eq, be_val_inj; [by rewrite !arr_length|lia].
Qed.

Lemma adjacent_NoDup l : StronglySorted outpoint_le l -> adjacent_equal l = false <-> NoDup l.
Proof.
  induction 1 as [|a l Hs IH Ha]; [split; [constructor|done]|].
  destruct l as [|b l]; [split; [intros; apply NoDup_singleton|done]|].
  cbn [adjacent_equal]. rewrite orb_false_iff, bool_decide_eq_false, NoDup_cons.
  change (adjacent_equal (b :: l) = false) with (adjacent_equal (b :: l) = false) in IH.
  rewrite IH. split.
  - intros [Hab Hnd]. split; [|done]. intros Hin. apply list_elem_of_In in Hin as [->|Hin]; [done|].
    apply Hab, outpoint_le_antisym.
    + rewrite Forall_cons in Ha. apply Ha.
    + apply StronglySorted_inv in Hs as [_ Hb]. rewrite List.Forall_forall in Hb. by apply Hb.
  - intros [Hna Hnd]. split; [|done]. intros ->. apply Hna. by left.
Qed.

Lemma sort_NoDup l : adjacent_equal (sort_outpoints l) = false <-> NoDup l.
Proof.
  rewrite adjacent_NoDup by (apply StronglySorted_merge_sort; apply _). unfold sort_outpoints.
  by rewrite merge_sort_Permutation.
Qed.

(** The outpoints a transaction keeps: sorted, except in a coinbase. *)
Definition kept_outpoints (ins : list TxIn) : list (array 36) :=
  if ins_coinbase ins then map in_outpoint ins else sort_outpoints (map in_outpoint ins).

Definition inputs_checked (ins : list TxIn) : Prop :=
  (ins_coinbase ins = true -> Forall (fun i => (2 <= length (in_script i) <= 100)%nat) ins) /\
  (ins_coinbase ins = false -> null_inputs ins = 0%nat) /\
  (ins_coinbase ins = false -> NoDup (map in_outpoint ins)).

Lemma check_inputs_Ok ins st r :
  Forall (fun i => Z.of_nat (length (in_script i)) <= BITCOIN_MAX_COINBASE_OUTPUT_SCRIPT_BYTES) ins ->
  is_outpoints st = map in_outpoint ins -> is_null_previous_outputs st = null_inputs ins ->
  (forall x, ins = [x] -> is_sole_input_script_size st = usize_len (in_script x)) ->
  check_inputs (Z.of_nat (length ins)) st = Ok r <->
  inputs_checked ins /\ r = (ins_coinbase ins, kept_outpoints ins).
Proof.
  intros Hscripts Ho Hn Hsole. unfold check_inputs, inputs_checked, kept_outpoints. rewrite Ho, Hn.
  assert ((Z.of_nat (length ins) =? 1) && (null_inputs ins =? 1)%nat = ins_coinbase ins) as ->.
  { unfold ins_coinbase. f_equal. destruct (Nat.eqb_spec (length ins) 1); [apply Z.eqb_eq|apply Z.eqb_neq]; lia. }
  destruct (ins_coinbase ins) eqn:Ec; cbn [negb andb].
  - unfold ins_coinbase in Ec. apply andb_prop in Ec as [El _]. apply Nat.eqb_eq in El.
    destruct ins as [|x [|]]; [done| |done]. rewrite (Hsole x) by done. apply Forall_cons in Hscripts as [Hx _].
    unfold usize_len. rewrite usize_small by (change BITCOIN_MAX_COINBASE_OUTPUT_SCRIPT_BYTES with 1000000 in Hx; lia).
    cbn [fail_if mbind res_bind]. rewrite fail_then, negb_false_iff, andb_true_iff, !Z.leb_le, Forall_singleton.
    split; [intros [Hl [= <-]]; repeat split; done || lia|]. intros [(Hl & _ & _) ->]. specialize (Hl eq_refl).
    split; [lia|done].
  - rewrite fail_then, negb_false_iff, Nat.eqb_eq. cbn [fail_if mbind res_bind].
    rewrite fail_then, sort_NoDup. split.
    + intros (H1 & H2 & [= <-]). done.
    + intros [(_ & H1 & H2) ->]. auto.
Qed.

Lemma serialize_in_min i : (41 <= length (serialize_in i))%nat.
Proof.
  unfold serialize_in, var_bytes. rewrite !length_app, !arr_length.
  pose proof (compact_bytes_length (Z.of_nat (length (in_script i)))). lia.
Qed.
Lemma serialize_out_min o : (9 <= length (serialize_out o))%nat.
Proof.
  unfold serialize_out, var_bytes. rewrite !length_app, !arr_length.
  pose proof (compact_bytes_length (Z.of_nat (length (po_script o)))). lia.
Qed.

Lemma uval_count {A} (n : uint usize_bits) (l : list A) : length l = Z.to_nat (uval n) -> uval n = Z.of_nat (length l).
Proof. intros ->. pose proof (uint_range n). lia. Qed.

(** A count that must not exceed what the bytes left could hold. *)
Lemma count_guard (limit unit : Z) (k count r : nat) :
  Z.of_nat count <= limit -> unit = Z.of_nat k -> 0 < unit -> (k * count <= r)%nat ->
  (limit <? Z.of_nat count) || (Z.of_nat r / unit <? Z.of_nat count) = false.
Proof.
  intros Hl -> Hu Hr. apply orb_false_iff. rewrite !Z.ltb_ge. split; [done|]. apply Z.div_le_lower_bound; nia.
Qed.

(** The guard of a count, as the condition it leaves on the count alone. *)
Lemma parses_count {B} (limit unit : Z) (k count : nat) e (m : parser B) (S : B -> bytes -> Prop) :
  unit = Z.of_nat k -> 0 < unit -> parses m S -> (forall b p, S b p -> (k * count <= length p)%nat) ->
  parses (remaining ← ask_remaining;
          raise (fail_if ((limit <? Z.of_nat count) || (Z.of_nat remaining / unit <? Z.of_nat count)) e);; m)
    (fun b p => Z.of_nat count <= limit /\ S b p).
Proof.
  intros Hk Hu Hm Hmin. destruct (decide (Z.of_nat count <= limit)) as [Hle|Hgt].
  - eapply parses_weaken; [apply parses_guard with (S := S); [exact Hm|]|intros; tauto].
    intros b p r HS Hr. apply (count_guard limit unit k); [done..|]. specialize (Hmin b p HS). lia.
  - intros c a c' Hc. split; [|intros (p & [? _] & _); lia]. intros H. exfalso.
    apply reader_bind_Ok in H as (r & d & _ & H). apply reader_bind_Ok in H as (u & d' & H & _).
    apply raise_Ok in H as [H _]. apply fail_if_Ok, orb_false_iff in H as [H _]. apply Z.ltb_ge in H. lia.
Qed.

Lemma parses_inputs : parses parse_inputs (fun r p => exists ins,
  wf_inputs ins /\ r = (Z.of_nat (length ins), (ins_coinbase ins, kept_outpoints ins)) /\ p = serialize_ins ins).
Proof.
  unfold parse_inputs. eapply parses_weaken.
  { eapply parses_bind; [apply parses_compact|]. intros n p _.
    assert (uval n = Z.of_nat (Z.to_nat (uval n))) as En by (pose proof (uint_range n); lia).
    eapply parses_bind; [apply parses_raise|]. intros u q _. rewrite En.
    eapply (parses_count BITCOIN_MAX_INPUTS_PER_TRANSACTION BITCOIN_MIN_SERIALIZED_TXIN_BASE_BYTES 41); [done|done| |].
    - eapply parses_bind; [apply (parses_loop _ _ input_update serialize_in parses_input)|]. intros st q' _.
      eapply parses_bind; [apply parses_raise|]. intros r q'' _. apply parses_ret.
    - rewrite Nat2Z.id. intros b s (st & p1 & p2 & -> & (ins & <- & _ & _ & ->) & _).
      rewrite length_app. pose proof (concat_length_min serialize_in 41 ins serialize_in_min). lia. }
  intros r p. cbn beta. setoid_rewrite fail_if_Ok. split.
  - intros (n & p1 & p2 & -> & [Hn ->] & [] & q1 & q2 & -> & [H0 ->] & Hmax & st & q3 & q4 & -> &
      (ins & Hl & Hok & -> & ->) & chk & q5 & q6 & -> & [Hchk ->] & -> & ->).
    rewrite Nat2Z.id in Hl. apply uval_count in Hl as Hu. rewrite Hu, Nat2Z.id in *. apply Z.eqb_neq in H0.
    apply input_loop_ok in Hok; [|pose proof (uint_range n); cbn [is_null_previous_outputs]; lia].
    rewrite input_loop_end in Hchk. apply (check_inputs_Ok ins) in Hchk as [(Hc & Hnull & Hd) ->]; [|done|done| |].
    + exists ins. split; [constructor; try done; lia|]. split; [done|]. unfold serialize_ins. by rewrite !app_nil_r.
    + cbn. lia.
    + intros x ->. done.
  - intros (ins & [Hcount Hs Hc Hnull Hd] & -> & ->).
    assert (uval (usize_len ins) = Z.of_nat (length ins)) as Hu
      by (apply usize_small; change BITCOIN_MAX_INPUTS_PER_TRANSACTION with 24390 in Hcount; lia).
    exists (usize_len ins), (compact_bytes (Z.of_nat (length ins))), (concat (map serialize_in ins)). rewrite Hu, Nat2Z.id.
    split; [done|]. split; [split; [change BITCOIN_MAX_INPUTS_PER_TRANSACTION with 24390 in Hcount; lia|done]|].
    exists tt, [], (concat (map serialize_in ins)). split; [done|]. split; [split; [apply Z.eqb_neq; lia|done]|].
    split; [lia|]. eexists _, (concat (map serialize_in ins)), []. rewrite app_nil_r. split; [done|]. split.
    { exists ins. split; [by rewrite Nat2Z.id|]. split; [|split; [reflexivity|done]].
      apply input_loop_ok; [|done]. pose proof (uint_range (usize_len ins)). cbn [is_null_previous_outputs]. lia. }
    exists (ins_coinbase ins, kept_outpoints ins), [], []. split; [done|]. split; [|done]. split; [|done].
    apply (check_inputs_Ok ins); [done|by rewrite input_loop_end| | |done].
    + rewrite input_loop_end. cbn. lia.
    + intros x ->. done.
Qed.

Lemma parses_outputs (count : nat) : parses (parse_outputs (Z.of_nat count)) (fun r p =>
  length r = count /\ wf_outputs r /\ p = concat (map serialize_out r)).
Proof.
  unfold parse_outputs. eapply parses_weaken.
  { eapply parses_bind; [apply parses_raise|]. intros u q _.
    eapply (parses_count BITCOIN_MAX_COINBASE_OUTPUTS BITCOIN_MIN_SERIALIZED_TXOUT_BASE_BYTES 9); [done|done| |].
    - eapply parses_bind; [apply (parses_loop _ _ (fun _ => output_update) serialize_out (fun _ => parses_output))|].
      intros st q' _. apply parses_ret.
    - rewrite Nat2Z.id. intros b s (st & p1 & p2 & -> & (outs & <- & _ & _ & ->) & _).
      rewrite length_app. pose proof (concat_length_min serialize_out 9 outs serialize_out_min). lia. }
  intros r p. cbn beta. setoid_rewrite fail_if_Ok. rewrite Nat2Z.id.
  assert (0 <= uval (os_total (MkOutputScan [] (uint_wrap 64 0))) <= MAX_MONEY_SATOSHIS) as H00 by done.
  split.
  - intros ([] & q1 & q2 & -> & [H0 ->] & Hmax & st & q3 & q4 & -> & (outs & Hl & Hok & -> & ->) & -> & ->).
    apply Z.eqb_neq in H0. apply output_loop in Hok as (Hv & Ht & Hs); [|done].
    rewrite output_loop_end. cbn [os_outputs app]. rewrite app_nil_r. split; [done|]. split; [|done].
    constructor; try done. lia.
  - intros (Hl & [Hc Hs Hv Ht] & ->). exists tt, [], (concat (map serialize_out r)).
    split; [done|]. split; [split; [apply Z.eqb_neq; lia|done]|]. split; [lia|].
    eexists _, (concat (map serialize_out r)), []. rewrite app_nil_r. split; [done|]. split.
    { exists r. split; [done|]. split; [by apply output_loop|]. split; [reflexivity|done]. }
    by rewrite output_loop_end.
Qed.

(** ** Witness stacks *)

Lemma parses_witness_item keep items :
  parses (parse_witness_item keep items) (fun st' p => exists x,
    Z.of_nat (length x) <= BITCOIN_MAX_SERIALIZED_BLOCK_BYTES /\
    st' = (if keep then items ++ [x] else items) /\ p = var_bytes x).
Proof.
  unfold parse_witness_item. eapply parses_weaken.
  { apply parses_var_bytes with (limit := BITCOIN_MAX_SERIALIZED_BLOCK_BYTES); [done|]. intros. apply parses_ret. }
  intros st' p. cbn beta. split.
  - intros (s & q & Hs & -> & -> & ->). exists s. by rewrite app_nil_r.
  - intros (s & Hs & -> & ->). exists s, []. by rewrite app_nil_r.
Qed.

Lemma item_loop_end keep i items xs :
  loop_end (fun _ items (x : bytes) => if keep : bool then items ++ [x] else items) i items xs
  = if keep then items ++ xs else items.
Proof.
  revert i items. induction xs as [|x xs IH]; intros i items; cbn [loop_end].
  - destruct keep; [by rewrite app_nil_r|done].
  - rewrite IH. destruct keep; [by rewrite <- app_assoc|done].
Qed.

Definition stack_update (is_coinbase : bool) (index : nat) (st : bool * list bytes) (items : list bytes)
    : bool * list bytes :=
  (st.1 || negb (Z.of_nat (length items) =? 0), if is_coinbase && (index =? 0)%nat then st.2 ++ items else st.2).

Lemma parses_stack is_coinbase index st :
  parses (parse_witness_stack is_coinbase index st) (fun st' p => exists items,
    wf_stack items /\ st' = stack_update is_coinbase index st items /\ p = serialize_stack items).
Proof.
  unfold parse_witness_stack. eapply parses_weaken.
  { eapply parses_bind; [apply parses_compact|]. intros n p _. eapply parses_guard.
    - eapply parses_bind; [apply (parses_loop _ (fun _ _ x => Z.of_nat (length x) <= BITCOIN_MAX_SERIALIZED_BLOCK_BYTES)
        (fun _ items x => if is_coinbase && (index =? 0)%nat then items ++ [x] else items) var_bytes);
        intros; apply parses_witness_item|].
      intros items q _. apply parses_ret.
    - intros r s k (items & p1 & p2 & -> & (xs & Hl & _ & _ & ->) & _) Hk. apply Z.ltb_ge.
      rewrite length_app in Hk. pose proof (uint_range n).
      assert (length xs <= length (concat (map var_bytes xs)))%nat; [|lia].
      etransitivity; [|apply (concat_length_min var_bytes 1)]; [lia|].
      intros x. unfold var_bytes. rewrite length_app. pose proof (compact_bytes_length (Z.of_nat (length x))). lia. }
  intros st' p. cbn beta. split.
  - intros (n & p1 & p2 & -> & [Hn ->] & items & q1 & q2 & -> & (xs & Hl & Hok & -> & ->) & -> & ->).
    apply uval_count in Hl as Hu. rewrite Hu, item_loop_end. pose proof (uint_range n).
    apply loop_ok_Forall in Hok. exists xs. split; [split; [lia|split; [lia|done]]|].
    split; [done|]. unfold serialize_stack. by rewrite app_nil_r.
  - intros (xs & (H1 & H2 & H3) & -> & ->).
    assert (uval (usize_len xs) = Z.of_nat (length xs)) as Hu by (apply uval_wrap_small; lia).
    exists (usize_len xs), (compact_bytes (Z.of_nat (length xs))), (concat (map var_bytes xs)). rewrite Hu, Nat2Z.id.
    split; [done|]. split; [done|]. eexists _, (concat (map var_bytes xs)), []. rewrite app_nil_r. split; [done|]. split.
    { exists xs. split; [done|]. split; [by apply loop_ok_Forall|]. split; [reflexivity|done]. }
    by rewrite item_loop_end.
Qed.

Lemma stack_loop_end is_coinbase i st stacks :
  loop_end (stack_update is_coinbase) i st stacks =
  (st.1 || existsb (fun items => negb (Z.of_nat (length items) =? 0)) stacks,
   st.2 ++ match i, stacks with O, items :: _ => if is_coinbase then items else [] | _, _ => [] end).
Proof.
  revert i st. induction stacks as [|items stacks IH]; intros i st; cbn [loop_end existsb].
  - rewrite orb_false_r. destruct st, i; by rewrite app_nil_r.
  - rewrite IH. cbn [stack_update fst snd]. rewrite orb_assoc. f_equal.
    destruct i; cbn [Nat.eqb]; [|rewrite andb_false_r; by destruct stacks].
    rewrite andb_true_r. by destruct is_coinbase, stacks; rewrite ?app_nil_r.
Qed.

Definition kept_witness (is_coinbase : bool) (stacks : list (list bytes)) : list bytes :=
  match stacks with items :: _ => if is_coinbase then items else [] | [] => [] end.

Lemma parses_witness is_coinbase (count : nat) :
  parses (parse_witness (Z.of_nat count) is_coinbase) (fun w p => exists stacks,
    wf_witness count stacks /\ w = kept_witness is_coinbase stacks /\ p = concat (map serialize_stack stacks)).
Proof.
  unfold parse_witness. eapply parses_weaken.
  { eapply parses_bind with (T := fun (r : bool * list bytes) w p => exists u q1 q2, p = q1 ++ q2 /\
      (fail_if (negb r.1) BS_SuperfluousWitness = Ok u /\ q1 = []) /\ w = r.2 /\ q2 = []);
      [apply (parses_loop _ (fun _ _ => wf_stack) (stack_update is_coinbase) serialize_stack);
      intros; apply parses_stack|].
    intros [has w] p _. eapply parses_bind; [apply parses_raise|]. intros u q _. apply parses_ret. }
  intros w p. rewrite Nat2Z.id. cbn beta.
  assert (forall stacks, existsb (fun items : list bytes => negb (Z.of_nat (length items) =? 0)) stacks = true <->
    Exists (fun items => items <> []) stacks) as Hex.
  { intros stacks. rewrite existsb_exists, List.Exists_exists. split; intros (x & Hx & Hn); exists x; (split; [done|]).
    - destruct x; done.
    - destruct x; done. }
  split.
  - intros ([has w'] & p1 & p2 & -> & (stacks & Hl & Hok & Est & ->) & [] & q1 & q2 & -> & [Hh ->] & -> & ->).
    rewrite stack_loop_end in Est. cbn [fst snd orb] in Est. injection Est as -> ->.
    apply fail_if_Ok, negb_false_iff, Hex in Hh. apply loop_ok_Forall in Hok.
    exists stacks. split; [done|]. rewrite !app_nil_r. by destruct stacks.
  - intros (stacks & (Hl & Hf & He) & -> & ->).
    eexists (existsb (fun items : list bytes => negb (Z.of_nat (length items) =? 0)) stacks, _),
      (concat (map serialize_stack stacks)), []. rewrite app_nil_r. split; [done|]. split.
    { exists stacks. split; [done|]. split; [by apply loop_ok_Forall|]. split; [|done].
      rewrite stack_loop_end. reflexivity. }
    exists tt, [], []. split; [done|]. cbn [fst snd]. rewrite fail_if_Ok, negb_false_iff, Hex. split; [done|].
    split; [|done]. by destruct stacks.
Qed.

(** ** The transaction *)

Lemma ask_cursor_Ok c a c' : ask_cursor c = Ok (a, c') <-> a = c /\ c' = c.
Proof. unfold ask_cursor. naive_solver. Qed.

Definition witness_bytes (w : option (list (list bytes))) : bytes :=
  match w with Some stacks => concat (map serialize_stack stacks) | None => [] end.
Definition is_witness (w : option (list (list bytes))) : bool :=
  match w with Some _ => true | None => false end.
Definition witness_kept (is_coinbase : bool) (w : option (list (list bytes))) : list bytes :=
  match w with Some stacks => kept_witness is_coinbase stacks | None => [] end.

Lemma parses_optional_witness (hw is_coinbase : bool) (count : nat) :
  parses (if hw then parse_witness (Z.of_nat count) is_coinbase else mret []) (fun r p => exists w,
    is_witness w = hw /\ (forall stacks, w = Some stacks -> wf_witness count stacks) /\
    r = witness_kept is_coinbase w /\ p = witness_bytes w).
Proof.
  destruct hw.
  - eapply parses_weaken; [apply parses_witness|]. intros r p. split.
    + intros (stacks & Hw & -> & ->). exists (Some stacks). split; [done|]. split; [by intros ? [= <-]|done].
    + intros ([stacks|] & Hi & Hw & -> & ->); [|done]. exists stacks. split; [by apply Hw|done].
  - eapply parses_weaken; [apply parses_ret|]. intros r p. cbn. split.
    + intros [-> ->]. by exists None.
    + intros ([stacks|] & Hi & Hw & -> & ->); done.
Qed.

Section transaction.
Context {H : Sha256}.

Definition parsed_of (tx : Tx) : ParsedTransaction := {|
  pt_txid := double_sha256 (serialize_base tx);
  pt_wtxid := double_sha256 (serialize_tx tx);
  pt_stripped_size := usize_len (serialize_base tx);
  pt_has_witness := is_witness (tx_witness tx);
  pt_is_coinbase := tx_is_coinbase tx;
  pt_coinbase := if tx_is_coinbase tx then Some {|
      pc_version := tx_version tx;
      pc_inputs_and_output_count :=
        serialize_ins (tx_inputs tx) ++ compact_bytes (Z.of_nat (length (tx_outputs tx)));
      pc_outputs := tx_outputs tx;
      pc_witness := witness_kept (tx_is_coinbase tx) (tx_witness tx);
      pc_lock_time := tx_lock_time tx
    |} else None;
  pt_inputs := kept_outpoints (tx_inputs tx);
  pt_outputs := tx_outputs tx
|}.

(** What the body reads after the marker. *)
Definition body_bytes (tx : Tx) : bytes :=
  serialize_ins (tx_inputs tx) ++ serialize_outs (tx_outputs tx) ++ witness_bytes (tx_witness tx)
  ++ arr (tx_lock_time tx).

(** The cursors around the fixed part: [mark] is what lies between the version and the inputs. *)
Definition placed (ts av c : Cursor) (v : array 4) (mark : bytes) : Prop :=
  reads (Some (arr v)) ts av /\ reads (Some mark) av c.

Lemma stripped_size_Ok (c c3 c' : Cursor) (n : nat) :
  fits c' -> (4 <= cursor c)%nat -> cursor c3 = (cursor c + n)%nat -> (cursor c3 + 4 <= cursor c')%nat ->
  forall s : uint usize_bits,
  (usize_try (4 + Z.of_nat n)
    ≫= fun value : uint usize_bits => usize_try (uval value + 4)) = Some s <-> uval s = Z.of_nat (4 + n + 4).
Proof.
  intros [Hc Hf] H4 Hn H3 s.
  destruct (usize_try _) as [v|] eqn:Ev; cbn [mbind option_bind].
  - apply usize_try_Some in Ev. rewrite usize_try_Some, Ev. lia.
  - apply uint_try_None in Ev. lia.
Qed.

(** The cursors between the parts of the body. *)
Record split_body (tx : Tx) (c c1 c2 c3 c4 c' : Cursor) : Prop := {
  sb_ins : reads (Some (serialize_ins (tx_inputs tx))) c c1;
  sb_count : reads (Some (compact_bytes (Z.of_nat (length (tx_outputs tx))))) c1 c2;
  sb_outs : reads (Some (concat (map serialize_out (tx_outputs tx)))) c2 c3;
  sb_wit : reads (Some (witness_bytes (tx_witness tx))) c3 c4;
  sb_lock : reads (Some (arr (tx_lock_time tx))) c4 c'
}.

Lemma split_body_whole tx c c' :
  reads (Some (body_bytes tx)) c c' <-> exists c1 c2 c3 c4, split_body tx c c1 c2 c3 c4 c'.
Proof.
  unfold body_bytes, serialize_outs. rewrite <- !app_assoc. split.
  - intros Hr. apply reads_split in Hr as (c1 & H1 & Hr). apply reads_split in Hr as (c2 & H2 & Hr).
    apply reads_split in Hr as (c3 & H3 & Hr). apply reads_split in Hr as (c4 & H4 & H5).
    by exists c1, c2, c3, c4.
  - intros (c1 & c2 & c3 & c4 & [H1 H2 H3 H4 H5]). repeat (eapply reads_trans; [eassumption|]). done.
Qed.

(** The slices the code takes are the serializations of the parts. *)
Lemma split_body_slices tx ts av c c1 c2 c3 c4 c' mark :
  fits ts -> placed ts av c (tx_version tx) mark -> mark = (if is_witness (tx_witness tx) then [x00; x01] else []) ->
  split_body tx c c1 c2 c3 c4 c' ->
  between ts c' = Ok (serialize_tx tx) /\ between ts av = Ok (arr (tx_version tx)) /\
  between c c3 = Ok (serialize_ins (tx_inputs tx) ++ serialize_outs (tx_outputs tx)) /\
  between c4 c' = Ok (arr (tx_lock_time tx)) /\
  between c c2 = Ok (serialize_ins (tx_inputs tx) ++ compact_bytes (Z.of_nat (length (tx_outputs tx)))).
Proof.
  intros Hts [Hv Hm] -> Hs.
  assert (fits c) as Hc by (repeat (eapply fits_reads; [|eassumption]); done).
  assert (reads (Some (body_bytes tx)) c c') as Hb by (apply split_body_whole; eauto).
  destruct Hs as [H1 H2 H3 H4 H5].
  assert (fits c4) as Hc4 by (repeat (eapply fits_reads; [|eassumption]); done). split; [|split; [|split; [|split]]].
  - apply reads_between; [done|]. pose proof (reads_trans _ _ _ _ _ Hv (reads_trans _ _ _ _ _ Hm Hb)) as Hall.
    unfold serialize_tx, serialize_base, body_bytes in *.
    destruct (tx_witness tx); cbn [is_witness witness_bytes app] in *; by rewrite <- !app_assoc in *.
  - by apply reads_between.
  - apply reads_between; [done|]. unfold serialize_outs. eapply reads_trans; [done|]. by eapply reads_trans.
  - by apply reads_between.
  - apply reads_between; [done|]. by eapply reads_trans.
Qed.

Lemma reads_cursor p c c' : reads (Some p) c c' -> cursor c' = (cursor c + length p)%nat.
Proof. by intros [_ ->]%reads_Some. Qed.

Lemma serialize_base_length tx :
  length (serialize_base tx) = (4 + length (serialize_ins (tx_inputs tx) ++ serialize_outs (tx_outputs tx)) + 4)%nat.
Proof. unfold serialize_base. rewrite !(length_app (arr (tx_version tx))), !length_app, !arr_length. lia. Qed.

Lemma body_stripped tx ts av c c1 c2 c3 c4 c' mark :
  fits ts -> placed ts av c (tx_version tx) mark -> split_body tx c c1 c2 c3 c4 c' ->
  exists n, usize_sub (cursor c3) (cursor c) = Some n /\
    (usize_try (4 + Z.of_nat n) ≫= fun value : uint usize_bits => usize_try (uval value + 4))
      = Some (usize_len (serialize_base tx)).
Proof.
  intros Hts [Hv Hm] [H1 H2 H3 H4 H5].
  assert (fits c') as Hf by (repeat (eapply fits_reads; [|eassumption]); done).
  apply reads_cursor in Hv, Hm, H1, H2, H3, H4, H5. rewrite arr_length in *.
  set (n := length (serialize_ins (tx_inputs tx) ++ serialize_outs (tx_outputs tx))).
  assert (cursor c3 = (cursor c + n)%nat) as Hn by (unfold n, serialize_outs; rewrite !length_app; lia).
  exists n. split; [apply usize_sub_Some; lia|].
  apply (stripped_size_Ok c c3 c' n); [done|lia..|]. unfold usize_len. rewrite serialize_base_length. fold n.
  apply uval_wrap_small. destruct Hf; lia.
Qed.

(** What the code computes from the positions is what the grammar assigns. *)
Lemma finish_transaction_Ok tx ts av c c1 c2 c3 c4 c' mark :
  fits ts -> placed ts av c (tx_version tx) mark -> mark = (if is_witness (tx_witness tx) then [x00; x01] else []) ->
  split_body tx c c1 c2 c3 c4 c' ->
  finish_transaction (MkMarks ts av c c2 c3 c4 c') (tx_version tx) (is_witness (tx_witness tx)) (tx_is_coinbase tx)
    (kept_outpoints (tx_inputs tx)) (tx_outputs tx) (witness_kept (tx_is_coinbase tx) (tx_witness tx)) (tx_lock_time tx)
  = Ok (parsed_of tx).
Proof.
  intros Hts Hpl Hmark Hs. destruct (split_body_slices tx ts av c c1 c2 c3 c4 c' mark) as (E1 & E2 & E3 & E4 & E5); [done..|].
  destruct (body_stripped tx ts av c c1 c2 c3 c4 c' mark) as (n & En & Es); [done..|].
  unfold finish_transaction, parsed_of, double_sha256. cbn [transaction_start after_version input_count_start outputs_start outputs_end
    lock_time_start transaction_end]. rewrite En, E1, E2, E3, E4, E5. cbn [expect mbind res_bind]. rewrite Es.
  cbn [ok_or mbind res_bind]. unfold serialize_tx, serialize_base.
  by destruct (tx_witness tx), (tx_is_coinbase tx).
Qed.

Lemma parse_body_sound ts av c v mark hw pt c' :
  fits ts -> placed ts av c v mark -> mark = (if hw : bool then [x00; x01] else []) ->
  parse_body ts av c v hw c = Ok (pt, c') ->
  exists tx, wf_tx tx /\ tx_version tx = v /\ is_witness (tx_witness tx) = hw /\
    reads (Some (body_bytes tx)) c c' /\ pt = parsed_of tx.
Proof.
  intros Hts Hpl Hmark. pose proof Hpl as [Hv Hm].
  assert (fits c) as Hc by (repeat (eapply fits_reads; [|eassumption]); done).
  unfold parse_body. intros Hp. apply reader_bind_Ok in Hp as ([n [cb ops]] & c1 & Hins & Hp).
  apply parses_inputs in Hins as (p1 & (ins & Hwi & [= -> -> ->] & ->) & R1); [|done].
  assert (fits c1) as Hc1 by by eapply fits_reads.
  apply reader_bind_Ok in Hp as (n & c2 & Hcount & Hp). apply parses_compact in Hcount as (p2 & [_ ->] & R2); [|done].
  assert (fits c2) as Hc2 by by eapply fits_reads.
  apply reader_bind_Ok in Hp as (x & d & Hask & Hp). apply ask_cursor_Ok in Hask as [-> ->].
  apply reader_bind_Ok in Hp as (outs & c3 & Houts & Hp).
  assert (uval n = Z.of_nat (Z.to_nat (uval n))) as En by (pose proof (uint_range n); lia).
  rewrite En in Houts. apply parses_outputs in Houts as (p3 & (Hlo & Hwo & ->) & R3); [|done].
  assert (fits c3) as Hc3 by by eapply fits_reads. rewrite En, <- Hlo in R2.
  apply reader_bind_Ok in Hp as (x & d & Hask & Hp). apply ask_cursor_Ok in Hask as [-> ->].
  apply reader_bind_Ok in Hp as (cw & c4 & Hwit & Hp).
  apply parses_optional_witness in Hwit as (p4 & (w & Hiw & Hww & -> & ->) & R4); [|done].
  assert (fits c4) as Hc4 by by eapply fits_reads.
  apply reader_bind_Ok in Hp as (x & d & Hask & Hp). apply ask_cursor_Ok in Hask as [-> ->].
  apply reader_bind_Ok in Hp as (lt & c5 & Hlt & Hp). apply parses_array in Hlt as (p5 & -> & R5); [|done].
  apply reader_bind_Ok in Hp as (x & d & Hask & Hp). apply ask_cursor_Ok in Hask as [-> ->].
  apply raise_Ok in Hp as [Hp ->]. set (tx := MkTx v ins outs w lt). exists tx.
  assert (split_body tx c c1 c2 c3 c4 c5) as Hsb by done. subst hw.
  pose proof (finish_transaction_Ok tx ts av c c1 c2 c3 c4 c5 mark Hts Hpl Hmark Hsb) as Hfin.
  cbn [tx tx_witness tx_version tx_inputs tx_outputs tx_lock_time] in Hfin.
  unfold tx_is_coinbase in Hfin. cbn [tx tx_inputs] in Hfin. rewrite Hfin in Hp. injection Hp as <-.
  split; [by constructor|]. split; [done|]. split; [done|]. split; [apply split_body_whole; eauto|done].
Qed.
Lemma parse_body_complete ts av c v mark hw pt c' :
  fits ts -> placed ts av c v mark -> mark = (if hw : bool then [x00; x01] else []) ->
  (exists tx, wf_tx tx /\ tx_version tx = v /\ is_witness (tx_witness tx) = hw /\
    reads (Some (body_bytes tx)) c c' /\ pt = parsed_of tx) ->
  parse_body ts av c v hw c = Ok (pt, c').
Proof.
  intros Hts Hpl Hmark. pose proof Hpl as [Hv Hm].
  assert (fits c) as Hc by (repeat (eapply fits_reads; [|eassumption]); done).
  unfold parse_body. intros (tx & [Hwi Hwo Hww] & Hver & Hiw & Hr & ->). apply split_body_whole in Hr as (c1 & c2 & c3 & c4 & Hsb).
  pose proof Hsb as [R1 R2 R3 R4 R5]. rewrite <- Hver in Hpl.
  assert (fits c1) as Hc1 by by eapply fits_reads. assert (fits c2) as Hc2 by by eapply fits_reads.
  assert (fits c3) as Hc3 by by eapply fits_reads. assert (fits c4) as Hc4 by by eapply fits_reads.
  pose proof (wfo_count _ Hwo) as Hcount. change BITCOIN_MAX_COINBASE_OUTPUTS with 111111 in Hcount.
  assert (uval (usize_len (tx_outputs tx)) = Z.of_nat (length (tx_outputs tx))) as Hu by (apply usize_small; lia).
  apply reader_bind_Ok. exists (Z.of_nat (length (tx_inputs tx)), (tx_is_coinbase tx, kept_outpoints (tx_inputs tx))), c1.
  split; [apply parses_inputs; [done|]; exists (serialize_ins (tx_inputs tx)); split; [by exists (tx_inputs tx)|done]|].
  apply reader_bind_Ok. exists (usize_len (tx_outputs tx)), c2.
  split; [apply parses_compact; [done|]; eexists; split; [split; [|reflexivity]|]; rewrite Hu; [lia|done]|].
  apply reader_bind_Ok. exists c2, c2. split; [done|].
  apply reader_bind_Ok. exists (tx_outputs tx), c3. rewrite Hu.
  split; [apply parses_outputs; [done|]; eexists; split; [split; [done|split; [done|reflexivity]]|done]|].
  apply reader_bind_Ok. exists c3, c3. split; [done|].
  apply reader_bind_Ok. exists (witness_kept (tx_is_coinbase tx) (tx_witness tx)), c4.
  split; [apply parses_optional_witness; [done|]; eexists; split; [by exists (tx_witness tx)|done]|].
  apply reader_bind_Ok. exists c4, c4. split; [done|].
  apply reader_bind_Ok. exists (tx_lock_time tx), c'. split; [apply parses_array; [done|]; exists (arr (tx_lock_time tx)); done|].
  apply reader_bind_Ok. exists c', c'. split; [done|].
  apply raise_Ok. split; [|done]. subst hw v. by apply (finish_transaction_Ok tx ts av c c1 c2 c3 c4 c' mark).
Qed.
Lemma parse_body_Ok ts av c v mark hw pt c' :
  fits ts -> placed ts av c v mark -> mark = (if hw : bool then [x00; x01] else []) ->
  parse_body ts av c v hw c = Ok (pt, c') <->
  exists tx, wf_tx tx /\ tx_version tx = v /\ is_witness (tx_witness tx) = hw /\
    reads (Some (body_bytes tx)) c c' /\ pt = parsed_of tx.
Proof. intros Ht Hp Hm. split; [by eapply parse_body_sound|by eapply parse_body_complete]. Qed.

Lemma peek_Ok c m c' : Cursor_peek c = Ok (m, c') <-> c' = c /\ exists r, unread c = m :: r.
Proof.
  unfold Cursor_peek, unread. split.
  - destruct (dec_bytes c !! cursor c) as [b|] eqn:E; [|done]. intros [= <- <-]. split; [done|].
    eexists. by apply drop_S.
  - intros [-> [r Hr]]. assert (dec_bytes c !! cursor c = Some m) as ->; [|done].
    rewrite <- (Nat.add_0_r (cursor c)), <- lookup_drop, Hr. done.
Qed.

(** The bytes between the version and the inputs: the witness marker and flag. *)
Definition mark_bytes (w : option (list (list bytes))) : bytes := if is_witness w then [x00; x01] else [].

Lemma serialize_tx_parts tx :
  serialize_tx tx = arr (tx_version tx) ++ mark_bytes (tx_witness tx) ++ body_bytes tx.
Proof.
  unfold serialize_tx, serialize_base, mark_bytes, body_bytes.
  by destruct (tx_witness tx); cbn [is_witness witness_bytes app]; rewrite <- !app_assoc.
Qed.

Lemma compact_head n : 0 < n < 2 ^ 64 -> exists b q, compact_bytes n = b :: q /\ b <> x00.
Proof.
  intros Hn. destruct (compact_bytes n) as [|b q] eqn:E;
    [pose proof (compact_bytes_length n) as Hl; rewrite E in Hl; cbn in Hl; lia|].
  exists b, q. split; [done|]. intros ->. apply compact_bytes_cases in E; [|lia].
  destruct E as [(_ & E & _)|[(E & _)|[(E & _)|(E & _)]]]; [cbn in E; lia|done..].
Qed.

(** The marker byte tells whether the transaction has witnesses. *)
Lemma body_marker tx av c c' m r :
  wf_tx tx -> reads (Some (mark_bytes (tx_witness tx))) av c -> reads (Some (body_bytes tx)) c c' ->
  unread av = m :: r -> bool_decide (m = x00) = is_witness (tx_witness tx).
Proof.
  intros [Hwi _ _] Hm Hb Hu. pose proof (reads_trans _ _ _ _ _ Hm Hb) as Hr.
  apply reads_Some in Hr as [Hr _]. rewrite Hu in Hr. unfold mark_bytes in Hr.
  destruct (is_witness (tx_witness tx)); [injection Hr as -> _; by apply bool_decide_eq_true|].
  pose proof (wfi_count _ Hwi) as Hc. change BITCOIN_MAX_INPUTS_PER_TRANSACTION with 24390 in Hc.
  destruct (compact_head (Z.of_nat (length (tx_inputs tx)))) as (b & q & Eb & Hb0); [lia|].
  unfold body_bytes, serialize_ins in Hr. rewrite Eb in Hr. injection Hr as -> _.
  by apply bool_decide_eq_false.
Qed.

(** [parse_transaction] reads exactly the serializations of well-formed transactions. *)
Lemma parse_transaction_sound c pt c' :
  fits c -> parse_transaction c = Ok (pt, c') ->
  exists tx, wf_tx tx /\ reads (Some (serialize_tx tx)) c c' /\ pt = parsed_of tx.
Proof.
  intros Hc. unfold parse_transaction. intros Hp. apply reader_bind_Ok in Hp as (x & d & Hask & Hp). apply ask_cursor_Ok in Hask as [-> ->].
  apply reader_bind_Ok in Hp as (v & av & Hv & Hp). apply parses_array in Hv as (p1 & -> & R1); [|done].
  assert (fits av) as Hav by by eapply fits_reads.
  apply reader_bind_Ok in Hp as (x & d & Hask & Hp). apply ask_cursor_Ok in Hask as [-> ->].
  apply reader_bind_Ok in Hp as (m & d & Hpeek & Hp). apply peek_Ok in Hpeek as [-> [r Hu]].
  apply reader_bind_Ok in Hp as (ics & c2 & Hmark & Hp).
  assert (ics = c2 /\ reads (Some (if bool_decide (m = x00) then [x00; x01] else [])) av c2) as [-> R2].
  { destruct (bool_decide_reflect (m = x00)) as [->|].
    - apply reader_bind_Ok in Hmark as (b & d1 & Hb & Hmark). apply parses_byte in Hb as (q & -> & Q1); [|done].
      apply reader_bind_Ok in Hmark as (f & d2 & Hf & Hmark).
      apply parses_byte in Hf as (q' & -> & Q2); [|by eapply fits_reads].
      apply reader_bind_Ok in Hmark as (u & d3 & Hraise & Hmark). apply raise_Ok in Hraise as [Hraise ->].
      apply fail_if_Ok, negb_bool_decide_false in Hraise as ->.
      apply ask_cursor_Ok in Hmark as [-> ->]. split; [done|].
      pose proof Q1 as Q1'. apply reads_Some in Q1' as [Q1' _]. rewrite Hu in Q1'. injection Q1' as <- _.
      by apply (reads_trans [x00] [x01] av d1).
    - apply reader_ret_Ok in Hmark as [-> ->]. split; [done|]. by apply reads_nil. }
  apply (parse_body_Ok c av c2 v (if bool_decide (m = x00) then [x00; x01] else []) (bool_decide (m = x00))) in Hp as (tx & Hwf & <- & Hw & R3 & ->); [|done|by split|done].
  exists tx. split; [done|]. split; [|done]. rewrite serialize_tx_parts. eapply reads_trans; [exact R1|].
  eapply reads_trans; [|exact R3]. unfold mark_bytes. by rewrite Hw.
Qed.
Lemma parse_transaction_complete c pt c' :
  fits c -> (exists tx, wf_tx tx /\ reads (Some (serialize_tx tx)) c c' /\ pt = parsed_of tx) ->
  parse_transaction c = Ok (pt, c').
Proof.
  intros Hc. unfold parse_transaction. intros (tx & Hwf & Hr & ->). rewrite serialize_tx_parts in Hr.
  apply reads_split in Hr as (av & R1 & Hr). apply reads_split in Hr as (c2 & R2 & R3).
  assert (fits av) as Hav by by eapply fits_reads.
  assert (exists m r, unread av = m :: r) as (m & r & Hu).
  { pose proof (reads_trans _ _ _ _ _ R2 R3) as Hr. apply reads_length in Hr as Hl.
    destruct (unread av) as [|m r]; [|eauto]. exfalso. unfold body_bytes in Hl. rewrite !length_app, arr_length in Hl.
    cbn [length] in Hl. lia. }
  pose proof (body_marker tx av c2 c' m r Hwf R2 R3 Hu) as Hm.
  apply reader_bind_Ok. exists c, c. split; [done|].
  apply reader_bind_Ok. exists (tx_version tx), av.
  split; [apply parses_array; [done|]; exists (arr (tx_version tx)); done|].
  apply reader_bind_Ok. exists av, av. split; [done|].
  apply reader_bind_Ok. exists m, av. split; [apply peek_Ok; split; [done|by exists r]|].
  apply reader_bind_Ok. exists c2, c2. rewrite Hm. split.
  { unfold mark_bytes in R2. destruct (is_witness (tx_witness tx)).
    - apply (reads_split [x00] [x01]) in R2 as (d1 & Q1 & Q2). assert (fits d1) as Hd1 by by eapply fits_reads.
      apply reader_bind_Ok. exists x00, d1. split; [apply parses_byte; [done|]; by exists [x00]|].
      apply reader_bind_Ok. exists x01, c2. split; [apply parses_byte; [done|]; by exists [x01]|].
      apply reader_bind_Ok. exists tt, c2. split; [done|]. by apply ask_cursor_Ok.
    - apply reads_nil in R2 as ->. by apply reader_ret_Ok. }
  apply (parse_body_Ok c av c2 (tx_version tx) (mark_bytes (tx_witness tx))); [done|by split|done|].
  exists tx. done.
Qed.
Lemma parse_transaction_Ok c pt c' :
  fits c -> parse_transaction c = Ok (pt, c') <->
  exists tx, wf_tx tx /\ reads (Some (serialize_tx tx)) c c' /\ pt = parsed_of tx.
Proof. intros Hc. split; [by apply parse_transaction_sound|by apply parse_transaction_complete]. Qed.

(** [parse_transaction] succeeds exactly on the serialization of a
    well-formed transaction, consumes exactly that serialization, and returns
    its identifiers: the txid is the double hash of the serialization without
    witnesses, the wtxid that of the whole, and the stripped size its length. *)
Theorem parse_transaction_iff (c : Cursor) (pt : ParsedTransaction) (c' : Cursor) :
  (cursor c <= length (dec_bytes c))%nat -> Z.of_nat (length (dec_bytes c)) < 2 ^ Zpos usize_bits ->
  parse_transaction c = Ok (pt, c') <->
  exists tx, wf_tx tx /\ pt = parsed_of tx /\
    unread c = serialize_tx tx ++ unread c' /\ c' = advance c (length (serialize_tx tx)).
Proof.
  intros Hc Hf. rewrite parse_transaction_Ok by done. setoid_rewrite reads_Some. naive_solver.
Qed.
End transaction.
End steps.

(** A coinbase with one output, and its parse. *)
Definition sample_tx : Tx := {|
  tx_version := array_rep 4 x01;
  tx_inputs := [MkTxIn (Array (n:=36) (repeat x00 32 ++ repeat xff 4) eq_refl) [x51; x51] (array_rep 4 xff)];
  tx_outputs := [MkParsedOutput (array_rep 8 x00) [x6a]];
  tx_witness := None;
  tx_lock_time := array_rep 4 x00
|}.

Example parse_transaction_iff_witness :
  let c := Cursor_new (serialize_tx sample_tx ++ [x07]) 0 in
  let c' := advance c (length (serialize_tx sample_tx)) in
  @parse_transaction 64%positive toy_sha256 c = Ok (@parsed_of 64%positive toy_sha256 sample_tx, c') <->
  exists tx, @wf_tx 64%positive tx /\ @parsed_of 64%positive toy_sha256 sample_tx = @parsed_of 64%positive toy_sha256 tx /\
    unread c = serialize_tx tx ++ unread c' /\ c' = advance c (length (serialize_tx tx)).
Proof.
  intros c c'. apply (@parse_transaction_iff 64%positive ltac:(done) toy_sha256 c).
  - vm_compute. lia.
  - by vm_compute.
Defined.
