(* ===== verification/BitcoinBlock.v ===== *)
(** Bitcoin blocks: the transaction Merkle tree, the BIP141 witness commitment,
    [parse_and_verify_block] and the composed successor transition of
    [crates/usdd-bitcoin-bmm/src/block.rs].

    A verified block is shown to be the serialization of a header and of
    well-formed transactions whose identifiers the header commits to; the
    mutation flag is what makes that commitment binding. *)

From S2P Require Import Prelude Encoding Hashing Readers Uint256 BitcoinHeaders BmmCommitment BlockParser.

Local Open Scope Z_scope.

(** ** The Merkle tree *)

Section merkle.
Context {H : Sha256}.

(** [hashes.chunks_exact(2)] *)
Fixpoint pairs {A : Type} (l : list A) : list (A * A) :=
  match l with
  | a :: b :: l => (a, b) :: pairs l
  | _ => []
  end.

(** [if hashes.len() % 2 != 0 { hashes.push(last) }] *)
Definition pad_last (hashes : list BlockHash) : list BlockHash :=
  if Nat.odd (length hashes) then hashes ++ option_list (last hashes) else hashes.

Definition pair_preimage (p : BlockHash * BlockHash) : bytes := arr p.1 ++ arr p.2.
Definition merkle_level (hashes : list BlockHash) : list BlockHash :=
  map (fun p => double_sha256 (pair_preimage p)) (pairs (pad_last hashes)).
Definition level_mutated (hashes : list BlockHash) : bool :=
  existsb (fun p => bool_decide (p.1 = p.2)) (pairs hashes).

(** [while hashes.len() > 1 { .. }], then [(hashes[0], mutated)]: [None] is the
    index panic on an empty list, or fuel that ran out. *)
Fixpoint merkle_loop (fuel : nat) (hashes : list BlockHash) (mutated : bool) : option (BlockHash * bool) :=
  match hashes with
  | [] => None
  | [root] => Some (root, mutated)
  | _ => match fuel with
         | O => None
         | S fuel => merkle_loop fuel (merkle_level hashes) (mutated || level_mutated hashes)
         end
  end.
Definition merkle_root_and_mutation (hashes : list BlockHash) : option (BlockHash * bool) :=
  merkle_loop (length hashes) hashes false.
End merkle.

(** ** The witness commitment *)

(** [output.script.len() >= 38 && output.script[..6] == [..]] *)
Definition is_witness_commitment (script : bytes) : option bool :=
  Some (38 <=? length script)%nat &&? range_is 0 6 [x6a; x24; xaa; x21; xa9; xed] script.

(** [outputs.iter().enumerate().filter(..).map(..).next_back()]: the scan runs
    from the back, to the first match. *)
Fixpoint last_commitment (index : nat) (reversed : list ParsedOutput) : option (option nat) :=
  match reversed with
  | [] => Some None
  | output :: reversed =>
      found ← is_witness_commitment (po_script output);
      if found : bool then Some (Some (index - 1)%nat) else last_commitment (index - 1) reversed
  end.
Definition witness_commitment_index (outputs : list ParsedOutput) : option (option nat) :=
  last_commitment (length outputs) (rev outputs).

Section block.
Context {W : PtrWidth} {H : Sha256}.

(** [leaves[0] = BlockHash::ZERO] *)
Definition zero_first (leaves : list BlockHash) : option (list BlockHash) :=
  match leaves with [] => None | _ :: leaves => Some (ZERO :: leaves) end.

Definition verify_witness_commitment (coinbase : ParsedCoinbase) (wtxids : list BlockHash)
    (block_has_witness : bool) : res BlockStructureError unit :=
  commitment_index ← expect (witness_commitment_index (pc_outputs coinbase));
  if negb block_has_witness && negb (bool_decide (is_Some commitment_index)) then Ok tt
  else
    commitment_index ← ok_or commitment_index BS_MissingWitnessCommitment;
    match pc_witness coinbase with
    | [reserved] =>
        fail_if (negb (length reserved =? 32)%nat) BS_InvalidCoinbaseWitness;;
        leaves ← expect (zero_first wtxids);
        '(root, _) ← expect (merkle_root_and_mutation leaves);
        reserved ← expect (array_try 32 reserved);
        let expected := double_sha256 (arr root ++ arr reserved) in
        output ← expect (pc_outputs coinbase !! commitment_index);
        committed ← expect (index_range 6 38 (po_script output));
        fail_if (negb (bool_decide (committed = arr expected))) BS_WitnessCommitmentMismatch
    | _ => Err BS_InvalidCoinbaseWitness
    end.

(** ** Blocks *)

Record MerkleVerifiedBitcoinBlock : Type := MkMerkleVerifiedBitcoinBlock {
  mvb_header : BitcoinHeader;
  mvb_block_hash : BlockHash;
  mvb_coinbase_txid : BlockHash;
  mvb_transaction_count : u32;
  mvb_stripped_size : u32;
  mvb_total_size : u32;
  mvb_weight : u32
}.

Record ParsedBlock : Type := MkParsedBlock {
  pb_metadata : MerkleVerifiedBitcoinBlock;
  pb_coinbase : ParsedCoinbase;
  pb_txids : list BlockHash;
  pb_transactions : list ParsedTransaction
}.

(** The locals of the transaction loop. *)
Record BlockScan : Type := MkBlockScan {
  bk_txids : list BlockHash;
  bk_wtxids : list BlockHash;
  bk_has_witness : bool;
  bk_stripped_size : uint usize_bits;
  bk_coinbase_txid : BlockHash;
  bk_coinbase : option ParsedCoinbase;
  bk_transactions : list ParsedTransaction
}.

Definition parse_block_transaction (index : nat) (st : BlockScan) : parser BlockScan :=
  transaction ← parse_transaction;
  '(coinbase_txid, coinbase) ← raise (
    if (index =? 0)%nat then
      fail_if (negb (pt_is_coinbase transaction)) BS_FirstTransactionNotCoinbase;;
      Ok (pt_txid transaction, pt_coinbase transaction)
    else
      fail_if (pt_is_coinbase transaction) BS_MultipleCoinbaseTransactions;;
      Ok (bk_coinbase_txid st, bk_coinbase st));
  stripped_size ← raise (ok_or (checked_add (bk_stripped_size st) (pt_stripped_size transaction)) BS_LengthOverflow);
  mret {|
    bk_txids := bk_txids st ++ [pt_txid transaction];
    bk_wtxids := bk_wtxids st ++ [pt_wtxid transaction];
    bk_has_witness := bk_has_witness st || pt_has_witness transaction;
    bk_stripped_size := stripped_size;
    bk_coinbase_txid := coinbase_txid;
    bk_coinbase := coinbase;
    bk_transactions := bk_transactions st ++ [transaction]
  |}.

(** The transactions of a block, from the byte after the header. *)
Definition parse_block_transactions : parser (nat * BlockScan) :=
  transaction_count_start ← ask_cursor;
  transaction_count ← Cursor_compact_size;
  transaction_count_end ← ask_cursor;
  transaction_count_size ← raise (expect (usize_sub (cursor transaction_count_end) (cursor transaction_count_start)));
  raise (fail_if (uval transaction_count =? 0) BS_EmptyBlock);;
  remaining ← ask_remaining;
  raise (fail_if ((BITCOIN_MAX_TRANSACTIONS <? uval transaction_count)
                  || (Z.of_nat remaining / BITCOIN_MIN_TRANSACTION_BASE_BYTES <? uval transaction_count))
           BS_TooManyTransactions);;
  stripped_size ← raise (ok_or (usize_try (Z.of_nat (BITCOIN_HEADER_LEN + transaction_count_size))) BS_LengthOverflow);
  scan ← parse_loop parse_block_transaction (Z.to_nat (uval transaction_count)) 0
           (MkBlockScan [] [] false stripped_size ZERO None []);
  mret (Z.to_nat (uval transaction_count), scan).

Definition parse_and_verify_block (bs : bytes) : res BlockStructureError ParsedBlock :=
  fail_if (length bs <? BITCOIN_HEADER_LEN + 1)%nat BS_BlockTooShort;;
  fail_if (BITCOIN_MAX_SERIALIZED_BLOCK_BYTES <? Z.of_nat (length bs)) BS_SerializedBlockTooLarge;;
  header_bytes ← expect (index_range 0 BITCOIN_HEADER_LEN bs);
  header ← map_err (fun _ => BS_BlockTooShort) (BitcoinHeader_decode_exact header_bytes);
  '(transaction_count, scan, c) ← parse_block_transactions (Cursor_new bs BITCOIN_HEADER_LEN);
  fail_if (negb (cursor c =? length bs)%nat) BS_TrailingBytes;;
  weight ← ok_or (usize_try (uval (bk_stripped_size scan) * 3) ≫= fun value : uint usize_bits =>
                  usize_try (uval value + Z.of_nat (length bs))) BS_LengthOverflow;
  fail_if (BITCOIN_MAX_BLOCK_WEIGHT <? uval weight) BS_BlockWeightExceeded;;
  '(merkle_root, mutated) ← expect (merkle_root_and_mutation (bk_txids scan));
  fail_if mutated BS_MutatedMerkleTree;;
  fail_if (negb (bool_decide (merkle_root = hdr_merkle_root header))) BS_MerkleRootMismatch;;
  coinbase ← ok_or (bk_coinbase scan) BS_FirstTransactionNotCoinbase;
  verify_witness_commitment coinbase (bk_wtxids scan) (bk_has_witness scan);;
  count ← ok_or (uint_try 32 (Z.of_nat transaction_count)) BS_LengthOverflow;
  stripped ← ok_or (uint_try 32 (uval (bk_stripped_size scan))) BS_LengthOverflow;
  total ← ok_or (uint_try 32 (Z.of_nat (length bs))) BS_LengthOverflow;
  weight ← ok_or (uint_try 32 (uval weight)) BS_LengthOverflow;
  Ok {|
    pb_metadata := {|
      mvb_header := header;
      mvb_block_hash := block_hash header;
      mvb_coinbase_txid := bk_coinbase_txid scan;
      mvb_transaction_count := count;
      mvb_stripped_size := stripped;
      mvb_total_size := total;
      mvb_weight := weight
    |};
    pb_coinbase := coinbase;
    pb_txids := bk_txids scan;
    pb_transactions := bk_transactions scan
  |}.

Definition verify_serialized_block_merkle (bs : bytes) : res BlockStructureError MerkleVerifiedBitcoinBlock :=
  parsed ← parse_and_verify_block bs; Ok (pb_metadata parsed).
End block.

(** ** The Merkle root is defined and binding *)

Section merkle_facts.
Context {H : Sha256}.

Lemma pairs_length {A} (l : list A) : length (pairs l) = (length l / 2)%nat.
Proof.
  induction l as [|a|a b l IH] using list_ind2; [done..|]. cbn [pairs length]. rewrite IH.
  replace (S (S (length l))) with (length l + 1 * 2)%nat by lia. rewrite Nat.div_add by lia. lia.
Qed.

Lemma half_up_even k : ((2 * k + 1) / 2 = k)%nat.
Proof. symmetry. apply (Nat.div_unique _ _ _ 1); lia. Qed.
Lemma half_up_odd k : ((2 * k + 1 + 1) / 2 = k + 1)%nat.
Proof. symmetry. apply (Nat.div_unique _ _ _ 0); lia. Qed.

(** Every natural number is twice its half, or one more. *)
Lemma even_or_odd n : (exists k, n = 2 * k /\ Nat.odd n = false)%nat \/ (exists k, n = 2 * k + 1 /\ Nat.odd n = true)%nat.
Proof.
  destruct (Nat.odd n) eqn:E; [right; apply Nat.odd_spec in E as [k ->]; by exists k|left].
  rewrite <- Nat.negb_even, negb_false_iff in E. apply Nat.even_spec in E as [k ->]. by exists k.
Qed.

Lemma pad_last_length (l : list BlockHash) : length (pad_last l) = (2 * ((length l + 1) / 2))%nat.
Proof.
  unfold pad_last. destruct (even_or_odd (length l)) as [(k & Hk & ->)|(k & Hk & ->)].
  - by rewrite Hk, half_up_even.
  - destruct (last l) as [x|] eqn:El; [|apply last_None in El; subst; cbn in Hk; lia].
    rewrite length_app, Hk, half_up_odd. change (length (option_list (Some x))) with 1%nat. lia.
Qed.

Lemma merkle_level_length l : length (merkle_level l) = ((length l + 1) / 2)%nat.
Proof.
  unfold merkle_level. rewrite length_map, pairs_length, pad_last_length, Nat.mul_comm.
  apply Nat.div_mul. lia.
Qed.

Lemma half_up_lt n : (2 <= n)%nat -> ((n + 1) / 2 < n)%nat /\ (1 <= (n + 1) / 2)%nat.
Proof.
  intros Hn. pose proof (Nat.div_mod_eq (n + 1) 2). pose proof (Nat.mod_upper_bound (n + 1) 2 ltac:(lia)). lia.
Qed.

(** One iteration, on at least two hashes. *)
Lemma merkle_loop_step fuel l m : (2 <= length l)%nat ->
  merkle_loop (S fuel) l m = merkle_loop fuel (merkle_level l) (m || level_mutated l).
Proof. destruct l as [|a [|b l]]; cbn [length]; [lia..|done]. Qed.

(** Fuel equal to the number of hashes is enough. *)
Lemma merkle_loop_total fuel l m : l <> [] -> (length l <= S fuel)%nat -> exists r, merkle_loop fuel l m = Some r.
Proof.
  revert l m. induction fuel as [|fuel IH]; intros l m Hl Hf.
  - destruct l as [|a [|b l]]; cbn [length] in Hf; [done|by eexists|lia].
  - destruct (decide (length l = 1)%nat) as [E|E].
    { destruct l as [|a [|b l]]; [done|by eexists|done]. }
    assert (2 <= length l)%nat as H2 by (destruct l; [done|cbn [length] in *; lia]).
    rewrite merkle_loop_step by done. pose proof (half_up_lt _ H2). apply IH.
    + intros E0. apply (f_equal length) in E0. rewrite merkle_level_length in E0. cbn [length] in E0. lia.
    + rewrite merkle_level_length. lia.
Qed.

Lemma merkle_root_total l : l <> [] -> exists r, merkle_root_and_mutation l = Some r.
Proof. intros Hl. apply merkle_loop_total; [done|lia]. Qed.

(** Every 64-byte string hashed on the way to the root. *)
Fixpoint merkle_preimages (fuel : nat) (l : list BlockHash) : list bytes :=
  match l with
  | [] | [_] => []
  | _ => match fuel with
         | O => []
         | S fuel => map pair_preimage (pairs (pad_last l)) ++ merkle_preimages fuel (merkle_level l)
         end
  end.

Definition block_merkle_collision (l l' : list BlockHash) : Prop :=
  exists x y, x ∈ merkle_preimages (length l) l /\ y ∈ merkle_preimages (length l') l' /\
    x <> y /\ double_sha256 x = double_sha256 y.

Lemma pair_preimage_inj p q : pair_preimage p = pair_preimage q -> p = q.
Proof.
  destruct p as [a b], q as [c d]. unfold pair_preimage. cbn [fst snd]. intros E.
  apply app_inj_1 in E as [E1 E2]; [|by rewrite !arr_length]. by apply array_eq in E1 as ->; apply array_eq in E2 as ->.
Qed.

Lemma map_collision (xs ys : list (BlockHash * BlockHash)) :
  map (fun p => double_sha256 (pair_preimage p)) xs = map (fun p => double_sha256 (pair_preimage p)) ys ->
  xs = ys \/ exists x y, x ∈ map pair_preimage xs /\ y ∈ map pair_preimage ys /\ x <> y /\ double_sha256 x = double_sha256 y.
Proof.
  revert ys. induction xs as [|p xs IH]; intros [|q ys]; cbn [map]; [by left|done..|].
  intros [= Hh Ht]. destruct (decide (p = q)) as [->|Hne].
  - destruct (IH ys Ht) as [->|(x & y & Hx & Hy & Hc)]; [by left|].
    right. exists x, y. by repeat split; try (right; done); try apply Hc.
  - right. exists (pair_preimage p), (pair_preimage q). split; [by left|]. split; [by left|].
    split; [|done]. intros E. by apply pair_preimage_inj in E.
Qed.

Lemma pairs_inj (l l' : list BlockHash) :
  Nat.even (length l) = true -> Nat.even (length l') = true -> pairs l = pairs l' -> l = l'.
Proof.
  revert l'. induction l as [|a|a b l IH] using list_ind2; intros [|a' [|b' l']]; cbn [pairs length]; try done.
  intros He He' [= -> -> E]. by rewrite (IH l').
Qed.

Lemma pad_last_even l : Nat.even (length (pad_last l)) = true.
Proof. rewrite pad_last_length, Nat.even_mul. done. Qed.

(** A list whose last element repeats the one before it at an even place is flagged. *)
Lemma doubled_mutated (l : list BlockHash) x :
  Nat.odd (length l) = true -> last l = Some x -> level_mutated (l ++ [x]) = true.
Proof.
  induction l as [|a|a b l IH] using list_ind2; [done| |].
  - intros _ [= ->]. unfold level_mutated. cbn. by rewrite bool_decide_true.
  - intros Ho Hl. unfold level_mutated in *. cbn [app pairs existsb]. rewrite IH; [apply orb_true_r|done|].
    destruct l; [done|]. exact Hl.
Qed.

Lemma pad_last_inj l l' :
  level_mutated l = false -> level_mutated l' = false -> pad_last l = pad_last l' -> l = l'.
Proof.
  assert (forall a b : list BlockHash, Nat.odd (length a) = true -> level_mutated b = false ->
    a ++ option_list (last a) = b -> False) as Hx.
  { intros a b Ho Hm Hb. destruct (last a) as [x|] eqn:El; [|apply last_None in El; by subst].
    pose proof (doubled_mutated a x Ho El) as Hd. cbn in Hb. congruence. }
  intros Hm Hm' E. unfold pad_last in E.
  destruct (Nat.odd (length l)) eqn:Ho, (Nat.odd (length l')) eqn:Ho'; [|exfalso; by apply (Hx l l')|exfalso; by apply (Hx l' l)|done].
  destruct (last l) as [x|] eqn:El; [|apply last_None in El; by subst].
  destruct (last l') as [x'|] eqn:El'; [|apply last_None in El'; by subst].
  cbn in E. by apply app_inj_2 in E as [-> _].
Qed.

(** Equal unmutated levels above equal depth come from equal levels below. *)
Lemma merkle_level_inj l l' :
  level_mutated l = false -> level_mutated l' = false -> merkle_level l = merkle_level l' ->
  l = l' \/ exists x y, x ∈ map pair_preimage (pairs (pad_last l)) /\ y ∈ map pair_preimage (pairs (pad_last l')) /\
    x <> y /\ double_sha256 x = double_sha256 y.
Proof.
  intros Hm Hm' E. apply map_collision in E as [E|E]; [|by right].
  left. apply pad_last_inj; [done..|]. by apply pairs_inj; [apply pad_last_even..|].
Qed.

Lemma log2_up_half_up n : (2 <= n)%nat -> Nat.log2_up n = S (Nat.log2_up ((n + 1) / 2)).
Proof.
  intros Hn. destruct (even_or_odd n) as [(k & -> & _)|(k & -> & _)].
  - rewrite half_up_even. apply Nat.log2_up_double. lia.
  - rewrite half_up_odd, Nat.log2_up_succ_double by lia.
    rewrite (Nat.log2_up_eqn (k + 1)) by lia. by replace (Nat.pred (k + 1)) with k by lia.
Qed.

Lemma merkle_loop_flag fuel l m r : merkle_loop fuel l m = Some (r, false) -> m = false.
Proof.
  revert l m. induction fuel as [|fuel IH]; intros l m; cbn [merkle_loop].
  - destruct l as [|a [|b l]]; [done|by intros [= _ ->]|done].
  - destruct l as [|a [|b l]]; [done|by intros [= _ ->]|]. intros E%IH. by apply orb_false_iff in E as [-> _].
Qed.

Lemma merkle_loop_binding d : forall fuel fuel' l l' r,
  Nat.log2_up (length l) = d -> Nat.log2_up (length l') = d ->
  merkle_loop fuel l false = Some (r, false) -> merkle_loop fuel' l' false = Some (r, false) ->
  l = l' \/ exists x y, x ∈ merkle_preimages fuel l /\ y ∈ merkle_preimages fuel' l' /\
    x <> y /\ double_sha256 x = double_sha256 y.
Proof.
  induction d as [|d IH]; intros fuel fuel' l l' r Hd Hd' Hl Hl'.
  - apply Nat.log2_up_null in Hd, Hd'.
    destruct l as [|a [|]]; cbn [length] in Hd; [by destruct fuel| |lia].
    destruct l' as [|a' [|]]; cbn [length] in Hd'; [by destruct fuel'| |lia].
    destruct fuel, fuel'; cbn in Hl, Hl'; left; congruence.
  - assert (2 <= length l)%nat as H2 by (destruct (decide (2 <= length l)%nat) as [|Hn]; [done|];
      rewrite (proj2 (Nat.log2_up_null (length l))) in Hd by lia; done).
    assert (2 <= length l')%nat as H2' by (destruct (decide (2 <= length l')%nat) as [|Hn]; [done|];
      rewrite (proj2 (Nat.log2_up_null (length l'))) in Hd' by lia; done).
    rewrite log2_up_half_up, <- merkle_level_length in Hd, Hd' by done. injection Hd as Hd. injection Hd' as Hd'.
    destruct fuel as [|fuel]; [by destruct l as [|a [|b l]]; cbn [length] in H2; try lia|].
    destruct fuel' as [|fuel']; [by destruct l' as [|a [|b l']]; cbn [length] in H2'; try lia|].
    rewrite merkle_loop_step in Hl, Hl' by done. cbn [orb] in Hl, Hl'.
    pose proof (merkle_loop_flag _ _ _ _ Hl) as Hm. pose proof (merkle_loop_flag _ _ _ _ Hl') as Hm'.
    rewrite Hm in Hl. rewrite Hm' in Hl'.
    assert (merkle_preimages (S fuel) l = map pair_preimage (pairs (pad_last l)) ++ merkle_preimages fuel (merkle_level l)) as ->
      by (by destruct l as [|a [|b l]]; cbn [length] in H2; try lia).
    assert (merkle_preimages (S fuel') l' = map pair_preimage (pairs (pad_last l')) ++ merkle_preimages fuel' (merkle_level l')) as ->
      by (by destruct l' as [|a [|b l']]; cbn [length] in H2'; try lia).
    destruct (IH _ _ _ _ _ Hd Hd' Hl Hl') as [E|(x & y & Hx & Hy & Hc)].
    + apply merkle_level_inj in E as [->|(x & y & Hx & Hy & Hc)]; [by left| |done..].
      right. exists x, y. rewrite !elem_of_app. auto.
    + right. exists x, y. rewrite !elem_of_app. auto.
Qed.

(** C27: The Merkle root together with the absence of the mutation flag commits
    to the list of transaction identifiers: two lists of the same tree depth
    with the same root, neither flagged, are equal, or two different 64-byte
    nodes hashed for them have the same double hash.  The flag is what excludes
    the lists that differ by a duplicated tail. *)
Theorem merkle_root_binding (l l' : list BlockHash) (r : BlockHash) :
  merkle_root_and_mutation l = Some (r, false) -> merkle_root_and_mutation l' = Some (r, false) ->
  Nat.log2_up (length l) = Nat.log2_up (length l') ->
  l = l' \/ block_merkle_collision l l'.
Proof. intros Hl Hl' Hd. by apply (merkle_loop_binding (Nat.log2_up (length l)) _ _ l l' r). Qed.
End merkle_facts.

(** ** The grammar of a block *)

Section block_facts.
Context {W : PtrWidth} (Hwidth : 32 <= Zpos usize_bits) {H : Sha256}.

Definition txid (tx : Tx) : BlockHash := double_sha256 (serialize_base tx).
Definition wtxid (tx : Tx) : BlockHash := double_sha256 (serialize_tx tx).
Definition base_size (tx : Tx) : Z := Z.of_nat (length (serialize_base tx)).
Definition serialize_block (raw : array 80) (txs : list Tx) : bytes :=
  arr raw ++ compact_bytes (Z.of_nat (length txs)) ++ concat (map serialize_tx txs).
Definition stripped_size (txs : list Tx) : Z :=
  80 + Z.of_nat (length (compact_bytes (Z.of_nat (length txs)))) + sumZ base_size txs.
Definition total_size (raw : array 80) (txs : list Tx) : Z := Z.of_nat (length (serialize_block raw txs)).

(** The coinbase is the first transaction and only the first. *)
Definition coinbase_first (txs : list Tx) : Prop :=
  forall k tx, txs !! k = Some tx -> tx_is_coinbase tx = (k =? 0)%nat.

Lemma parses_transaction : parses parse_transaction (fun pt p => exists tx, wf_tx tx /\ pt = parsed_of tx /\ p = serialize_tx tx).
Proof.
  intros c pt c' Hc. rewrite parse_transaction_Ok by done. naive_solver.
Qed.

Definition block_update (index : nat) (st : BlockScan) (tx : Tx) : BlockScan := {|
  bk_txids := bk_txids st ++ [txid tx];
  bk_wtxids := bk_wtxids st ++ [wtxid tx];
  bk_has_witness := bk_has_witness st || is_witness (tx_witness tx);
  bk_stripped_size := uint_wrap usize_bits (bk_stripped_size st + usize_len (serialize_base tx));
  bk_coinbase_txid := if (index =? 0)%nat then txid tx else bk_coinbase_txid st;
  bk_coinbase := if (index =? 0)%nat then pt_coinbase (parsed_of tx) else bk_coinbase st;
  bk_transactions := bk_transactions st ++ [parsed_of tx]
|}.

Definition block_tx_ok (index : nat) (st : BlockScan) (tx : Tx) : Prop :=
  wf_tx tx /\ tx_is_coinbase tx = (index =? 0)%nat /\
  bk_stripped_size st + usize_len (serialize_base tx) < 2 ^ Zpos usize_bits.

Lemma parses_block_transaction index st :
  parses (parse_block_transaction index st) (fun st' p => exists tx,
    block_tx_ok index st tx /\ st' = block_update index st tx /\ p = serialize_tx tx).
Proof.
  unfold parse_block_transaction. eapply parses_weaken.
  { eapply parses_bind; [apply parses_transaction|]. intros pt p _.
    eapply parses_bind with (T := fun (r : BlockHash * option ParsedCoinbase) st' p => exists s q1 q2, p = q1 ++ q2 /\
      (ok_or (checked_add (bk_stripped_size st) (pt_stripped_size pt)) BS_LengthOverflow = Ok s /\ q1 = []) /\
      st' = MkBlockScan (bk_txids st ++ [pt_txid pt]) (bk_wtxids st ++ [pt_wtxid pt])
              (bk_has_witness st || pt_has_witness pt) s r.1 r.2 (bk_transactions st ++ [pt]) /\ q2 = []);
      [apply parses_raise|].
    intros [cid cb] q _. eapply parses_bind; [apply parses_raise|]. intros s q' _. apply parses_ret. }
  intros st' p. cbn beta. setoid_rewrite ok_or_Ok. setoid_rewrite checked_add_Some.
  assert (forall tx (r : BlockHash * option ParsedCoinbase),
    (if (index =? 0)%nat then fail_if (negb (pt_is_coinbase (parsed_of tx))) BS_FirstTransactionNotCoinbase;;
       Ok (pt_txid (parsed_of tx), pt_coinbase (parsed_of tx))
     else fail_if (pt_is_coinbase (parsed_of tx)) BS_MultipleCoinbaseTransactions;; Ok (bk_coinbase_txid st, bk_coinbase st)) = Ok r <->
    tx_is_coinbase tx = (index =? 0)%nat /\
    r = if (index =? 0)%nat then (txid tx, pt_coinbase (parsed_of tx)) else (bk_coinbase_txid st, bk_coinbase st)) as Hr.
  { intros tx r. destruct (index =? 0)%nat; rewrite fail_then, ?negb_false_iff; cbn [pt_is_coinbase parsed_of]; naive_solver. }
  split.
  - intros (pt & p1 & p2 & -> & (tx & Hwf & -> & ->) & r & q1 & q2 & -> & [Hchk ->] & s & q3 & q4 & -> & [Hs ->] & -> & ->).
    apply Hr in Hchk as [Hcb ->]. exists tx. cbn [pt_stripped_size parsed_of] in Hs. pose proof (uint_range s).
    split; [split; [done|split; [done|lia]]|]. rewrite !app_nil_r. split; [|done].
    unfold block_update. f_equal; [|by destruct (index =? 0)%nat..]. rewrite <- Hs. symmetry. apply uint_wrap_uval.
  - intros (tx & (Hwf & Hcb & Hlt) & -> & ->). exists (parsed_of tx), (serialize_tx tx), [].
    rewrite app_nil_r. split; [done|]. split; [by exists tx|].
    eexists _, [], []. split; [done|]. split; [split; [by apply Hr|done]|].
    exists (uint_wrap usize_bits (bk_stripped_size st + usize_len (serialize_base tx))), [], [].
    pose proof (uint_range (bk_stripped_size st)). pose proof (uint_range (usize_len (serialize_base tx))).
    split; [done|]. split; [split; [apply uval_wrap_small; cbn [pt_stripped_size parsed_of]; lia|done]|]. split; [|done].
    unfold block_update. by destruct (index =? 0)%nat.
Qed.

Lemma base_size_sum txs : 0 <= sumZ base_size txs.
Proof. induction txs; unfold sumZ, base_size in *; cbn [foldr]; lia. Qed.

(** The loop over the transactions, in closed form while sizes fit. *)
Lemma block_loop_ok index st txs :
  uval (bk_stripped_size st) + sumZ base_size txs < 2 ^ 32 ->
  loop_ok block_tx_ok block_update index st txs <->
  Forall wf_tx txs /\ forall k tx, txs !! k = Some tx -> tx_is_coinbase tx = (index + k =? 0)%nat.
Proof.
  pose proof (Z.pow_le_mono_r 2 32 (Zpos usize_bits) ltac:(lia) Hwidth) as H32.
  revert index st. induction txs as [|tx txs IH]; intros index st Hs; cbn [loop_ok].
  - split; [intros _; split; [constructor|done]|done].
  - unfold sumZ in Hs. cbn [foldr] in Hs. fold (sumZ base_size txs) in Hs.
    pose proof (base_size_sum txs) as H0.
    pose proof (uint_range (bk_stripped_size st)).
    assert (uval (usize_len (serialize_base tx)) = base_size tx) as Hu
      by (apply usize_small; unfold base_size in *; lia).
    assert (uval (bk_stripped_size (block_update index st tx)) = bk_stripped_size st + base_size tx) as Hu'.
    { cbn [block_update bk_stripped_size]. rewrite Hu. apply usize_small; unfold base_size in *; lia. }
    rewrite IH by lia. unfold block_tx_ok. rewrite Hu, Forall_cons. split.
    + intros ((Hw & Hc & _) & Hf & Hk). split; [done|]. intros [|k] t; cbn [lookup list_lookup].
      * intros [= <-]. by rewrite Nat.add_0_r.
      * intros Ht. rewrite (Hk k t Ht). f_equal. lia.
    + intros ([Hw Hf] & Hk). split.
      * split; [done|]. split; [specialize (Hk 0%nat tx eq_refl); by rewrite Nat.add_0_r in Hk|].
        unfold base_size in *. lia.
      * split; [done|]. intros k t Ht. specialize (Hk (S k) t Ht). by replace (S index + k)%nat with (index + S k)%nat by lia.
Qed.

Lemma block_loop_end index st txs :
  uval (bk_stripped_size st) + sumZ base_size txs < 2 ^ 32 ->
  loop_end block_update index st txs = {|
    bk_txids := bk_txids st ++ map txid txs;
    bk_wtxids := bk_wtxids st ++ map wtxid txs;
    bk_has_witness := bk_has_witness st || existsb (fun tx => is_witness (tx_witness tx)) txs;
    bk_stripped_size := uint_wrap usize_bits (bk_stripped_size st + sumZ base_size txs);
    bk_coinbase_txid := match index, txs with O, tx :: _ => txid tx | _, _ => bk_coinbase_txid st end;
    bk_coinbase := match index, txs with O, tx :: _ => pt_coinbase (parsed_of tx) | _, _ => bk_coinbase st end;
    bk_transactions := bk_transactions st ++ map parsed_of txs
  |}.
Proof.
  revert index st. induction txs as [|tx txs IH]; intros index st Hs; cbn [loop_end map existsb].
  - rewrite !app_nil_r, orb_false_r. unfold sumZ. cbn [foldr]. rewrite Z.add_0_r, uint_wrap_uval. by destruct st, index.
  - unfold sumZ in Hs |- *. cbn [foldr] in Hs |- *. fold (sumZ base_size txs) in Hs |- *.
    pose proof (base_size_sum txs) as H0.
    pose proof (uint_range (bk_stripped_size st)).
    assert (uval (usize_len (serialize_base tx)) = base_size tx) as Hu
      by (apply usize_small; unfold base_size in *; lia).
    assert (uval (bk_stripped_size (block_update index st tx)) = bk_stripped_size st + base_size tx) as Hu'.
    { cbn [block_update bk_stripped_size]. rewrite Hu. apply usize_small; unfold base_size in *; lia. }
    rewrite IH, Hu' by lia. cbn [block_update bk_txids bk_wtxids bk_has_witness bk_coinbase_txid bk_coinbase bk_transactions].
    rewrite <- !app_assoc, orb_assoc, Z.add_assoc. cbn [app]. f_equal; destruct index; done.
Qed.

Lemma serialize_tx_min tx : wf_tx tx -> (60 <= length (serialize_tx tx))%nat.
Proof.
  intros [[Hi _ _ _ _] [Ho _ _ _] _].
  assert (60 <= length (serialize_base tx))%nat as Hb.
  { unfold serialize_base, serialize_ins, serialize_outs. rewrite !length_app, !arr_length.
    pose proof (concat_length_min serialize_in 41 (tx_inputs tx) serialize_in_min).
    pose proof (concat_length_min serialize_out 9 (tx_outputs tx) serialize_out_min).
    pose proof (compact_bytes_length (Z.of_nat (length (tx_inputs tx)))).
    pose proof (compact_bytes_length (Z.of_nat (length (tx_outputs tx)))). lia. }
  unfold serialize_tx. destruct (tx_witness tx); [|done]. unfold serialize_base in Hb. rewrite !length_app in *. lia.
Qed.

Lemma base_size_le tx : base_size tx <= Z.of_nat (length (serialize_tx tx)).
Proof.
  unfold base_size, serialize_tx. destruct (tx_witness tx); [|done].
  unfold serialize_base. rewrite !length_app. lia.
Qed.

Lemma base_sum_le txs : sumZ base_size txs <= Z.of_nat (length (concat (map serialize_tx txs))).
Proof.
  induction txs as [|tx txs IH]; [done|]. unfold sumZ. cbn [foldr map concat]. fold (sumZ base_size txs).
  rewrite length_app. pose proof (base_size_le tx). lia.
Qed.

Lemma txs_length_min txs : Forall wf_tx txs -> (60 * length txs <= length (concat (map serialize_tx txs)))%nat.
Proof.
  induction 1 as [|tx txs Hw _ IH]; [done|]. cbn [map concat length]. rewrite length_app.
  pose proof (serialize_tx_min tx Hw). lia.
Qed.

Definition scan_start (size : nat) : BlockScan :=
  MkBlockScan [] [] false (uint_wrap usize_bits (Z.of_nat (BITCOIN_HEADER_LEN + size))) ZERO None [].

(** The part of [parse_block_transactions] after the count. *)
Lemma parses_transactions (count size : nat) : (size <= 9)%nat ->
  parses (raise (fail_if (Z.of_nat count =? 0) BS_EmptyBlock);;
    remaining ← ask_remaining;
    raise (fail_if ((BITCOIN_MAX_TRANSACTIONS <? Z.of_nat count)
                    || (Z.of_nat remaining / BITCOIN_MIN_TRANSACTION_BASE_BYTES <? Z.of_nat count))
             BS_TooManyTransactions);;
    stripped_size ← raise (ok_or (usize_try (Z.of_nat (BITCOIN_HEADER_LEN + size))) BS_LengthOverflow);
    scan ← parse_loop parse_block_transaction (Z.to_nat (Z.of_nat count)) 0
             (MkBlockScan [] [] false stripped_size ZERO None []);
    mret (Z.to_nat (Z.of_nat count), scan))
  (fun r p => Z.of_nat count <> 0 /\ Z.of_nat count <= BITCOIN_MAX_TRANSACTIONS /\ exists txs, length txs = count /\
    loop_ok block_tx_ok block_update 0 (scan_start size) txs /\
    r = (count, loop_end block_update 0 (scan_start size) txs) /\ p = concat (map serialize_tx txs)).
Proof.
  intros Hsize. rewrite Nat2Z.id.
  assert (uval (uint_wrap usize_bits (Z.of_nat (BITCOIN_HEADER_LEN + size))) = Z.of_nat (BITCOIN_HEADER_LEN + size)) as Hu
    by (apply usize_small; [done|unfold BITCOIN_HEADER_LEN; lia]).
  eapply parses_weaken.
  { eapply parses_bind; [apply parses_raise|]. intros u q _.
    eapply (parses_count BITCOIN_MAX_TRANSACTIONS BITCOIN_MIN_TRANSACTION_BASE_BYTES 60); [done|done| |].
    - eapply parses_bind; [apply parses_raise|]. intros s q' _.
      eapply parses_bind; [apply (parses_loop _ block_tx_ok block_update serialize_tx parses_block_transaction)|].
      intros st q'' _. apply parses_ret.
    - intros b s (x & p1 & p2 & -> & _ & st & p3 & p4 & -> & (txs & <- & Hok & _ & ->) & _).
      rewrite !length_app. assert (Forall wf_tx txs) as Hw; [|pose proof (txs_length_min txs Hw); lia].
      clear -Hok. revert Hok. generalize 0%nat as i, (MkBlockScan [] [] false x ZERO None []) as st0.
      induction txs as [|tx txs IH]; intros i st0; [constructor|]. intros [[Hw _] Hok].
      constructor; [done|by eapply IH]. }
  intros r p. cbn beta. setoid_rewrite fail_if_Ok. setoid_rewrite ok_or_Ok. setoid_rewrite usize_try_Some. split.
  - intros ([] & q1 & q2 & -> & [H0 ->] & Hmax & s & q3 & q4 & -> & [Hs ->] & st & q5 & q6 & -> &
      (txs & Hl & Hok & -> & ->) & -> & ->). apply Z.eqb_neq in H0.
    assert (s = uint_wrap usize_bits (Z.of_nat (BITCOIN_HEADER_LEN + size))) as -> by (apply uint_eq; congruence).
    split; [done|]. split; [done|]. exists txs. rewrite app_nil_r. done.
  - intros (H0 & Hmax & txs & Hl & Hok & -> & ->). exists tt, [], (concat (map serialize_tx txs)).
    split; [done|]. split; [split; [by apply Z.eqb_neq|done]|]. split; [done|].
    exists (uint_wrap usize_bits (Z.of_nat (BITCOIN_HEADER_LEN + size))), [], (concat (map serialize_tx txs)).
    split; [done|]. split; [done|]. eexists _, (concat (map serialize_tx txs)), []. rewrite app_nil_r. split; [done|].
    split; [by exists txs|done].
Qed.

Lemma parse_block_transactions_Ok c n scan c' :
  fits c -> parse_block_transactions c = Ok ((n, scan), c') <->
  exists txs, let size := length (compact_bytes (Z.of_nat (length txs))) in
    n = length txs /\ 0 < Z.of_nat (length txs) <= BITCOIN_MAX_TRANSACTIONS /\
    loop_ok block_tx_ok block_update 0 (scan_start size) txs /\
    scan = loop_end block_update 0 (scan_start size) txs /\
    reads (Some (compact_bytes (Z.of_nat (length txs)) ++ concat (map serialize_tx txs))) c c'.
Proof.
  intros Hc. assert (BITCOIN_MAX_TRANSACTIONS = 16666) as Hmax by done.
  unfold parse_block_transactions. cbv zeta. split.
  - intros Hp. apply reader_bind_Ok in Hp as (x & d & Hask & Hp). apply ask_cursor_Ok in Hask as [-> ->].
    apply reader_bind_Ok in Hp as (cnt & c1 & Hcnt & Hp). apply parses_compact in Hcnt as (p & [_ ->] & R1); [|done].
    apply reader_bind_Ok in Hp as (x & d & Hask & Hp). apply ask_cursor_Ok in Hask as [-> ->].
    assert (uval cnt = Z.of_nat (Z.to_nat (uval cnt))) as En by (pose proof (uint_range cnt); lia).
    apply reads_cursor in R1 as Hcur. apply reader_bind_Ok in Hp as (sz & d & Hsz & Hp).
    apply raise_Ok in Hsz as [Hsz ->]. apply expect_Ok, usize_sub_Some in Hsz as [_ ->]. rewrite Hcur in Hp.
    replace (cursor c + length (compact_bytes (uval cnt)) - cursor c)%nat with (length (compact_bytes (uval cnt))) in Hp by lia.
    rewrite En in Hp. apply parses_transactions in Hp as (p & (H0 & Hm & txs & Hl & Hok & Heq & ->) & R2);
      [|apply compact_bytes_length|by eapply fits_reads].
    exists txs. rewrite Hl. injection Heq as -> ->. split; [done|]. split; [lia|]. split; [done|]. split; [done|].
    rewrite En in R1. by eapply reads_trans.
  - intros (txs & -> & Hcount & Hok & -> & Hr). apply reads_split in Hr as (c1 & R1 & R2).
    assert (uval (usize_len txs) = Z.of_nat (length txs)) as Hu by (apply usize_small; [done|lia]).
    apply reader_bind_Ok. exists c, c. split; [done|].
    apply reader_bind_Ok. exists (usize_len txs), c1.
    split; [apply parses_compact; [done|]; eexists; split; [split; [|reflexivity]|]; rewrite Hu; [lia|done]|].
    apply reader_bind_Ok. exists c1, c1. split; [done|].
    apply reads_cursor in R1 as Hcur. rewrite Hcur, Hu.
    apply reader_bind_Ok. exists (length (compact_bytes (Z.of_nat (length txs)))), c1.
    split; [apply raise_Ok; split; [|done]; apply expect_Ok, usize_sub_Some; lia|].
    apply parses_transactions; [apply compact_bytes_length|by eapply fits_reads|].
    exists (concat (map serialize_tx txs)). split; [|done]. split; [lia|]. split; [lia|]. by exists txs.
Qed.

(** ** Blocks that verify *)

Definition commitment_script (script : bytes) : bool :=
  (38 <=? length script)%nat && bool_decide (take 6 script = [x6a; x24; xaa; x21; xa9; xed]).

(** The index of the last output that is a commitment. *)
Definition commitment_output (outputs : list ParsedOutput) : option nat :=
  last (map fst (filter (fun o => commitment_script (po_script o.2) = true) (imap pair outputs))).

Lemma commitment_script_total script : is_witness_commitment script = Some (commitment_script script).
Proof.
  apply and_then_guard. intros Hl%Nat.leb_le. by rewrite range_is_ok by lia.
Qed.
Lemma commitment_output_snoc outputs o :
  commitment_output (outputs ++ [o]) = if commitment_script (po_script o) then Some (length outputs) else commitment_output outputs.
Proof.
  unfold commitment_output. rewrite imap_app, filter_app. cbn [imap]. rewrite Nat.add_0_r, filter_cons, filter_nil. cbn [snd].
  destruct (commitment_script (po_script o)); [rewrite decide_True by done|rewrite decide_False by done].
  - rewrite map_app. apply last_snoc.
  - by rewrite app_nil_r.
Qed.
Lemma commitment_index_total outputs : witness_commitment_index outputs = Some (commitment_output outputs).
Proof.
  unfold witness_commitment_index. induction outputs as [|o outputs IH] using rev_ind; [done|].
  rewrite rev_unit, length_app, Nat.add_1_r. cbn [last_commitment]. rewrite commitment_script_total, commitment_output_snoc.
  cbn [mbind option_bind]. replace (S (length outputs) - 1)%nat with (length outputs) by lia.
  by destruct (commitment_script (po_script o)).
Qed.

(** BIP141: the last commitment output commits to the wtxids, the coinbase's
    own counted as zero, with the 32-byte reserved value of its witness. *)
Definition witness_committed (outputs : list ParsedOutput) (witness : list bytes) (wtxids : list BlockHash)
    (has_witness : bool) : Prop :=
  (has_witness = false /\ commitment_output outputs = None) \/
  exists i out reserved root flag, commitment_output outputs = Some i /\ outputs !! i = Some out /\
    witness = [reserved] /\ length reserved = 32%nat /\
    merkle_root_and_mutation (<[0%nat := ZERO]> wtxids) = Some (root, flag) /\
    slice 6 38 (po_script out) = arr (double_sha256 (arr root ++ reserved)).

Lemma commitment_index_lookup outputs i :
  commitment_output outputs = Some i ->
  exists out, outputs !! i = Some out /\ commitment_script (po_script out) = true.
Proof.
  unfold commitment_output. intros E. apply last_Some_elem_of in E.
  apply list_elem_of_In, in_map_iff in E as ([j out] & Hj & Hin). cbn in Hj. subst j.
  apply list_elem_of_In, list_elem_of_filter in Hin as [Hc Hin]. cbn [snd] in Hc.
  apply list_elem_of_lookup in Hin as (k & Hk). rewrite list_lookup_imap in Hk.
  destruct (outputs !! k) as [x|] eqn:Ek; [|done]. cbn in Hk. injection Hk as -> ->. by exists out.
Qed.

Lemma zero_first_Some leaves l : zero_first leaves = Some l <-> leaves <> [] /\ l = <[0%nat := ZERO]> leaves.
Proof. destruct leaves; cbn; naive_solver. Qed.

Lemma verify_witness_commitment_Ok cb wtxids has u :
  verify_witness_commitment cb wtxids has = Ok u <->
  witness_committed (pc_outputs cb) (pc_witness cb) wtxids has.
Proof.
  destruct u. unfold verify_witness_commitment, witness_committed. rewrite commitment_index_total. cbn [expect].
  change (@mbind (res BlockStructureError) _ ?A ?B ?f (Ok ?x)) with (f x). cbv beta.
  destruct (commitment_output (pc_outputs cb)) as [i|] eqn:Ei.
  - rewrite bool_decide_true by done. cbn [negb]. rewrite andb_false_r. cbn [ok_or mbind res_bind].
    destruct (pc_witness cb) as [|reserved [|]].
    + split; [done|]. intros [[_ ?]|(? & ? & ? & ? & ? & _ & _ & ? & _)]; done.
    + destruct (commitment_index_lookup _ _ Ei) as (out & Hout & [Hlen%Nat.leb_le _]%andb_true_iff).
      rewrite fail_then, negb_false_iff, Nat.eqb_eq. split.
      * intros (Hl & Hc). destruct (array_try_length 32 reserved Hl) as (a & Ea & Harr).
        apply res_bind_Ok in Hc as (leaves & [_ ->]%expect_Ok%zero_first_Some & Hc).
        apply res_bind_Ok in Hc as ([root flag] & Hr%expect_Ok & Hc). rewrite Ea, Hout in Hc. cbn [expect mbind res_bind] in Hc.
        rewrite index_range_ok in Hc by lia. cbn [expect mbind res_bind] in Hc.
        apply fail_if_Ok, negb_bool_decide_false in Hc. rewrite Harr in Hc. right. by exists i, out, reserved, root, flag.
      * intros [[_ ?]|(j & o & res & root & flag & [= <-] & Ho & [= <-] & Hl & Hr & Hc)]; [done|].
        rewrite Hout in Ho. injection Ho as <-. split; [done|]. destruct (array_try_length 32 reserved Hl) as (a & Ea & Harr).
        apply res_bind_Ok. exists (<[0%nat := ZERO]> wtxids). split; [apply expect_Ok, zero_first_Some|].
        { split; [|done]. intros ->. done. }
        rewrite Hr, Ea, Hout. cbn [expect mbind res_bind]. rewrite index_range_ok by lia. cbn [expect mbind res_bind].
        apply fail_if_Ok, negb_bool_decide_false. by rewrite Harr.
    + split; [done|]. intros [[_ ?]|(? & ? & ? & ? & ? & _ & _ & ? & _)]; done.
  - rewrite bool_decide_false by (by intros [? ?]). cbn [negb]. rewrite andb_true_r. destruct has; cbn [negb].
    + split; [done|]. intros [[? _]|(? & ? & ? & ? & ? & ? & _)]; done.
    + split; [by left|done].
Qed.

Definition coinbase_part (tx : Tx) : ParsedCoinbase := {|
  pc_version := tx_version tx;
  pc_inputs_and_output_count := serialize_ins (tx_inputs tx) ++ compact_bytes (Z.of_nat (length (tx_outputs tx)));
  pc_outputs := tx_outputs tx;
  pc_witness := witness_kept true (tx_witness tx);
  pc_lock_time := tx_lock_time tx
|}.

Definition has_witness (txs : list Tx) : bool := existsb (fun tx => is_witness (tx_witness tx)) txs.

(** A header and its transactions, the coinbase apart, that make a valid block. *)
Record block_ok (raw : array 80) (cb : Tx) (rest : list Tx) : Prop := {
  bo_count : Z.of_nat (length (cb :: rest)) <= BITCOIN_MAX_TRANSACTIONS;
  bo_wf : Forall wf_tx (cb :: rest);
  bo_first : tx_is_coinbase cb = true;
  bo_others : Forall (fun tx => tx_is_coinbase tx = false) rest;
  bo_size : total_size raw (cb :: rest) <= BITCOIN_MAX_SERIALIZED_BLOCK_BYTES;
  bo_weight : stripped_size (cb :: rest) * 3 + total_size raw (cb :: rest) <= BITCOIN_MAX_BLOCK_WEIGHT;
  bo_merkle : merkle_root_and_mutation (map txid (cb :: rest)) = Some (hdr_merkle_root (header_of_raw raw), false);
  bo_witness : witness_committed (tx_outputs cb) (witness_kept true (tx_witness cb)) (map wtxid (cb :: rest))
                 (has_witness (cb :: rest))
}.

Definition block_of (raw : array 80) (cb : Tx) (rest : list Tx) : ParsedBlock := {|
  pb_metadata := {|
    mvb_header := header_of_raw raw;
    mvb_block_hash := double_sha256 (arr raw);
    mvb_coinbase_txid := txid cb;
    mvb_transaction_count := uint_wrap 32 (Z.of_nat (length (cb :: rest)));
    mvb_stripped_size := uint_wrap 32 (stripped_size (cb :: rest));
    mvb_total_size := uint_wrap 32 (total_size raw (cb :: rest));
    mvb_weight := uint_wrap 32 (stripped_size (cb :: rest) * 3 + total_size raw (cb :: rest))
  |};
  pb_coinbase := coinbase_part cb;
  pb_txids := map txid (cb :: rest);
  pb_transactions := map parsed_of (cb :: rest)
|}.

Lemma stripped_le_total raw txs : 0 <= stripped_size txs <= total_size raw txs.
Proof.
  unfold stripped_size, total_size, serialize_block. rewrite !length_app, arr_length.
  pose proof (base_sum_le txs). pose proof (base_size_sum txs). lia.
Qed.

Lemma coinbase_first_cons cb rest :
  (forall k tx, (cb :: rest) !! k = Some tx -> tx_is_coinbase tx = (0 + k =? 0)%nat) <->
  tx_is_coinbase cb = true /\ Forall (fun tx => tx_is_coinbase tx = false) rest.
Proof.
  split.
  - intros Hk. split; [apply (Hk 0%nat cb eq_refl)|]. apply Forall_lookup. intros i tx Hi. apply (Hk (S i) tx Hi).
  - intros [Hc Hr] [|k] tx; [by intros [= <-]|]. intros Hk. by apply (Forall_lookup_1 _ _ _ _ Hr Hk).
Qed.

(** The scan of the transactions of a block small enough. *)
Lemma block_scan cb rest : stripped_size (cb :: rest) < 2 ^ 32 ->
  let size := length (compact_bytes (Z.of_nat (length (cb :: rest)))) in
  (loop_ok block_tx_ok block_update 0 (scan_start size) (cb :: rest) <->
   Forall wf_tx (cb :: rest) /\ tx_is_coinbase cb = true /\ Forall (fun tx => tx_is_coinbase tx = false) rest) /\
  let scan := loop_end block_update 0 (scan_start size) (cb :: rest) in
  uval (bk_stripped_size scan) = stripped_size (cb :: rest) /\ bk_txids scan = map txid (cb :: rest) /\
  bk_wtxids scan = map wtxid (cb :: rest) /\ bk_has_witness scan = has_witness (cb :: rest) /\
  bk_coinbase_txid scan = txid cb /\ bk_coinbase scan = pt_coinbase (parsed_of cb) /\
  bk_transactions scan = map parsed_of (cb :: rest).
Proof.
  intros Hs size. unfold stripped_size in Hs. pose proof (base_size_sum (cb :: rest)) as H0.
  assert (uval (bk_stripped_size (scan_start size)) = 80 + Z.of_nat size) as Hu.
  { cbn [scan_start bk_stripped_size]. unfold BITCOIN_HEADER_LEN. rewrite usize_small; lia. }
  fold size in Hs. split.
  - rewrite block_loop_ok, coinbase_first_cons by lia. done.
  - rewrite block_loop_end by lia. rewrite Hu. cbn [bk_stripped_size bk_txids bk_wtxids bk_has_witness
      bk_coinbase_txid bk_coinbase bk_transactions]. split; [|done]. unfold stripped_size. fold size.
    apply usize_small; [done|lia].
Qed.

Lemma slice_prefix (p q : bytes) n : length p = n -> slice 0 n (p ++ q) = p.
Proof. intros <-. unfold slice. rewrite drop_0, Nat.sub_0_r. apply take_app_length. Qed.

(** The cursor after the header: it reads the rest of the block to its end. *)
Lemma block_cursor (raw : array 80) (body : bytes) c' :
  reads (Some body) (Cursor_new (arr raw ++ body) 80) c' /\ cursor c' = length (arr raw ++ body) <->
  c' = advance (Cursor_new (arr raw ++ body) 80) (length body).
Proof.
  assert (unread (Cursor_new (arr raw ++ body) 80) = body) as Hu.
  { unfold unread, Cursor_new. cbn [cursor dec_bytes]. apply drop_app_length'. by rewrite arr_length. }
  split; [intros [[_ ->]%reads_Some _]; done|]. intros ->. split.
  - apply (reads_complete body _ []). by rewrite app_nil_r.
  - unfold advance, Cursor_new. cbn [cursor]. rewrite length_app, arr_length. lia.
Qed.

Lemma block_weight_Ok s n w : 0 <= s -> s <= n -> n <= 4000000 ->
  (usize_try (s * 3) ≫= fun value : uint usize_bits => usize_try (uval value + n)) = Some w <-> uval w = s * 3 + n.
Proof.
  intros Hs Hn Hm. pose proof (Z.pow_le_mono_r 2 32 (Zpos usize_bits) ltac:(lia) Hwidth).
  destruct (usize_try _) as [v|] eqn:Ev; cbn [mbind option_bind].
  - apply usize_try_Some in Ev. by rewrite usize_try_Some, Ev.
  - apply uint_try_None in Ev. lia.
Qed.

(** The checks after the parse, on a scan of known contents. *)
Lemma block_checks (raw : array 80) cb rest scan (n : Z) pb :
  let txs := cb :: rest in
  Z.of_nat (length txs) <= BITCOIN_MAX_TRANSACTIONS -> tx_is_coinbase cb = true ->
  n = total_size raw txs -> n <= BITCOIN_MAX_SERIALIZED_BLOCK_BYTES ->
  uval (bk_stripped_size scan) = stripped_size txs -> bk_txids scan = map txid txs ->
  bk_wtxids scan = map wtxid txs -> bk_has_witness scan = has_witness txs ->
  bk_coinbase_txid scan = txid cb -> bk_coinbase scan = pt_coinbase (parsed_of cb) ->
  bk_transactions scan = map parsed_of txs ->
  (weight ← ok_or (usize_try (uval (bk_stripped_size scan) * 3) ≫= fun value : uint usize_bits =>
                   usize_try (uval value + n)) BS_LengthOverflow;
   fail_if (BITCOIN_MAX_BLOCK_WEIGHT <? uval weight) BS_BlockWeightExceeded;;
   '(merkle_root, mutated) ← expect (merkle_root_and_mutation (bk_txids scan));
   fail_if mutated BS_MutatedMerkleTree;;
   fail_if (negb (bool_decide (merkle_root = hdr_merkle_root (header_of_raw raw)))) BS_MerkleRootMismatch;;
   coinbase ← ok_or (bk_coinbase scan) BS_FirstTransactionNotCoinbase;
   verify_witness_commitment coinbase (bk_wtxids scan) (bk_has_witness scan);;
   count ← ok_or (uint_try 32 (Z.of_nat (length txs))) BS_LengthOverflow;
   stripped ← ok_or (uint_try 32 (uval (bk_stripped_size scan))) BS_LengthOverflow;
   total ← ok_or (uint_try 32 n) BS_LengthOverflow;
   weight ← ok_or (uint_try 32 (uval weight)) BS_LengthOverflow;
   Ok {| pb_metadata := {| mvb_header := header_of_raw raw; mvb_block_hash := block_hash (header_of_raw raw);
           mvb_coinbase_txid := bk_coinbase_txid scan; mvb_transaction_count := count; mvb_stripped_size := stripped;
           mvb_total_size := total; mvb_weight := weight |};
         pb_coinbase := coinbase; pb_txids := bk_txids scan; pb_transactions := bk_transactions scan |}) = Ok pb <->
  (stripped_size txs * 3 + n <= BITCOIN_MAX_BLOCK_WEIGHT /\
   merkle_root_and_mutation (map txid txs) = Some (hdr_merkle_root (header_of_raw raw), false) /\
   witness_committed (tx_outputs cb) (witness_kept true (tx_witness cb)) (map wtxid txs) (has_witness txs)) /\
  pb = block_of raw cb rest.
Proof.
  intros txs Hcount Hcb -> Hn Hs Ht Hw Hh Hid Hc Htr. rewrite Hs, Ht, Hw, Hh, Hid, Hc, Htr.
  change BITCOIN_MAX_SERIALIZED_BLOCK_BYTES with 4000000 in Hn. change BITCOIN_MAX_TRANSACTIONS with 16666 in Hcount.
  pose proof (stripped_le_total raw txs) as Hst.
  assert (pt_coinbase (parsed_of cb) = Some (coinbase_part cb)) as -> by (cbn [parsed_of pt_coinbase]; by rewrite Hcb).
  rewrite res_bind_Ok. setoid_rewrite ok_or_Ok. setoid_rewrite block_weight_Ok; [|lia..].
  change BITCOIN_MAX_BLOCK_WEIGHT with 4000000. split.
  - intros (w & Hweight & E). rewrite fail_then, Hweight, Z.ltb_ge, res_bind_Ok in E.
    destruct E as (Hle & [root flag] & Hroot & E). apply expect_Ok in Hroot.
    rewrite fail_then in E. destruct E as [-> E]. rewrite fail_then, negb_bool_decide_false in E. destruct E as [-> E].
    cbn [ok_or mbind res_bind] in E. apply res_bind_Ok in E as (u & Hwit & E).
    apply verify_witness_commitment_Ok in Hwit.
    apply res_bind_Ok in E as (a1 & E1 & E). apply res_bind_Ok in E as (a2 & E2 & E).
    apply res_bind_Ok in E as (a3 & E3 & E). apply res_bind_Ok in E as (a4 & E4 & E).
    apply ok_or_Ok, uint_try_Some in E1, E2, E3, E4. injection E as <-.
    split; [done|]. unfold block_of. subst txs. unfold block_hash. cbn [hdr_raw header_of_raw].
    rewrite <- E4, <- E1, <- E2, <- E3, !uint_wrap_uval. done.
  - intros [(Hle & Hroot & Hwit) ->]. exists (uint_wrap usize_bits (stripped_size txs * 3 + total_size raw txs)).
    rewrite usize_small by lia. split; [done|]. rewrite fail_then, Z.ltb_ge, res_bind_Ok. split; [done|].
    exists (hdr_merkle_root (header_of_raw raw), false). rewrite expect_Ok. split; [done|].
    rewrite fail_then, fail_then, negb_bool_decide_false. split; [done|]. split; [done|].
    cbn [ok_or mbind res_bind]. apply res_bind_Ok. exists tt. split; [by apply verify_witness_commitment_Ok|].
    apply res_bind_Ok. exists (uint_wrap 32 (Z.of_nat (length txs))).
    split; [apply ok_or_Ok, uint_try_Some, uval_wrap_small; lia|].
    apply res_bind_Ok. exists (uint_wrap 32 (stripped_size txs)).
    split; [apply ok_or_Ok, uint_try_Some, uval_wrap_small; lia|].
    apply res_bind_Ok. exists (uint_wrap 32 (total_size raw txs)).
    split; [apply ok_or_Ok, uint_try_Some, uval_wrap_small; lia|].
    apply res_bind_Ok. exists (uint_wrap 32 (stripped_size txs * 3 + total_size raw txs)).
    split; [apply ok_or_Ok, uint_try_Some, uval_wrap_small; lia|]. done.
Qed.

Lemma serialize_block_split (raw : array 80) txs :
  serialize_block raw txs = arr raw ++ (compact_bytes (Z.of_nat (length txs)) ++ concat (map serialize_tx txs)).
Proof. done. Qed.

Lemma Cursor_new_fits bs n : (n <= length bs)%nat -> Z.of_nat (length bs) <= 4000000 -> fits (Cursor_new bs n).
Proof.
  intros Hn Hl. pose proof (Z.pow_le_mono_r 2 32 (Zpos usize_bits) ltac:(lia) Hwidth).
  split; unfold Cursor_new; cbn [cursor dec_bytes]; lia.
Qed.

Lemma parse_block_sound bs pb : parse_and_verify_block bs = Ok pb ->
  exists raw cb rest, block_ok raw cb rest /\ bs = serialize_block raw (cb :: rest) /\ pb = block_of raw cb rest.
Proof.
  pose proof (Z.pow_le_mono_r 2 32 (Zpos usize_bits) ltac:(lia) Hwidth) as H32.
  unfold parse_and_verify_block. rewrite !fail_then, Nat.ltb_ge, Z.ltb_ge.
  change BITCOIN_MAX_SERIALIZED_BLOCK_BYTES with 4000000. unfold BITCOIN_HEADER_LEN.
  intros (Hmin & Hmax & E). apply res_bind_Ok in E as (hb & Hhb & E). apply expect_Ok, index_range_Some in Hhb as [_ ->].
  apply res_bind_Ok in E as (h & Hh & E). apply map_err_Ok, header_decode_Ok in Hh as (raw & Hraw & ->).
  apply res_bind_Ok in E as ([[n scan] c] & Hp & E). cbn beta iota in E.
  assert (bs = arr raw ++ drop 80 bs) as Hbs.
  { rewrite Hraw. unfold slice. rewrite drop_0, Nat.sub_0_r. symmetry. apply take_drop. }
  rewrite fail_then, negb_false_iff, Nat.eqb_eq in E. destruct E as [Hend E].
  apply parse_block_transactions_Ok in Hp as (txs & -> & Hcount & Hok & -> & Hreads); [|apply Cursor_new_fits; lia].
  rewrite Hbs in Hreads. apply reads_Some in Hreads as Hr. destruct Hr as [Hr Hc].
  assert (unread (Cursor_new (arr raw ++ drop 80 bs) 80) = drop 80 bs) as Hu.
  { unfold unread, Cursor_new. cbn [cursor dec_bytes]. apply drop_app_length'. by rewrite arr_length. }
  assert (bs = serialize_block raw txs) as Hser.
  { rewrite serialize_block_split, Hbs. f_equal. rewrite <- Hu, Hr.
    assert (unread c = []) as ->; [|by rewrite app_nil_r].
    apply drop_ge. rewrite Hc. unfold advance, Cursor_new in *. cbn [cursor dec_bytes]. rewrite <- Hbs.
    rewrite Hc in Hend. cbn [advance cursor] in Hend. lia. }
  destruct txs as [|cb rest]; [cbn [length] in Hcount; lia|].
  pose proof (stripped_le_total raw (cb :: rest)) as Hst.
  assert (Z.of_nat (length bs) = total_size raw (cb :: rest)) as Htot by (unfold total_size; by rewrite <- Hser).
  assert (stripped_size (cb :: rest) < 2 ^ 32) as Hsmall by lia.
  destruct (block_scan cb rest Hsmall) as (Hloop & Es & Et & Ew & Ewit & Eid & Ec & Etr).
  apply Hloop in Hok as (Hwf & Hcb & Hrest).
  apply (block_checks raw cb rest _ _ pb) in E as [(Hw & Hm & Hwit) ->]; [|first [done|tauto|lia]..].
  destruct Hcount. exists raw, cb, rest. split; [|done]. by constructor; rewrite <- ?Htot.
Qed.
Lemma parse_block_complete raw cb rest : block_ok raw cb rest ->
  parse_and_verify_block (serialize_block raw (cb :: rest)) = Ok (block_of raw cb rest).
Proof.
  pose proof (Z.pow_le_mono_r 2 32 (Zpos usize_bits) ltac:(lia) Hwidth) as H32.
  unfold parse_and_verify_block. rewrite !fail_then, Nat.ltb_ge, Z.ltb_ge.
  change BITCOIN_MAX_SERIALIZED_BLOCK_BYTES with 4000000. unfold BITCOIN_HEADER_LEN.
  intros [Hcnt Hwf Hcb Hrest Hsz Hw Hm Hwit].
  pose proof (stripped_le_total raw (cb :: rest)) as Hst. pose proof (txs_length_min _ Hwf) as Hlen.
  change BITCOIN_MAX_SERIALIZED_BLOCK_BYTES with 4000000 in Hsz. fold (total_size raw (cb :: rest)).
  assert (stripped_size (cb :: rest) < 2 ^ 32) as Hsmall by lia.
  destruct (block_scan cb rest Hsmall) as (Hloop & Es & Et & Ew & Ewit & Eid & Ec & Etr).
  split; [unfold serialize_block; rewrite !length_app, arr_length; cbn [length] in Hlen; lia|]. split; [done|].
  apply res_bind_Ok. exists (slice 0 80 (serialize_block raw (cb :: rest))). split.
  { apply expect_Ok, index_range_ok. unfold serialize_block. rewrite length_app, arr_length. lia. }
  apply res_bind_Ok. exists (header_of_raw raw). split.
  { apply map_err_Ok, header_decode_Ok. exists raw. split; [|done]. symmetry. apply slice_prefix, arr_length. }
  set (body := compact_bytes (Z.of_nat (length (cb :: rest))) ++ concat (map serialize_tx (cb :: rest))) in *.
  pose proof (proj2 (block_cursor raw body (advance (Cursor_new (arr raw ++ body) 80) (length body))) eq_refl) as [Hr Hend].
  apply res_bind_Ok. eexists (_, _, _). split.
  { apply parse_block_transactions_Ok; [apply Cursor_new_fits; [|unfold total_size in Hsz; lia]|].
    - unfold serialize_block. rewrite length_app, arr_length. lia.
    - exists (cb :: rest). split; [done|]. split; [split; [cbn [length]; lia|done]|]. split; [by apply Hloop|]. split; [done|exact Hr]. }
  cbn beta iota. rewrite fail_then, negb_false_iff, Nat.eqb_eq. split; [exact Hend|].
  by apply (block_checks raw cb rest).
Qed.
Lemma parse_block_Ok bs pb :
  parse_and_verify_block bs = Ok pb <->
  exists raw cb rest, block_ok raw cb rest /\ bs = serialize_block raw (cb :: rest) /\ pb = block_of raw cb rest.
Proof. split; [apply parse_block_sound|]. intros (raw & cb & rest & Hok & -> & ->). by apply parse_block_complete. Qed.

(** C6: [parse_and_verify_block] accepts exactly the serializations of valid
    blocks: a header, then the minimal compact size and the canonical
    serializations of well-formed transactions, the coinbase first and only
    first, within the size and weight limits, whose unmutated txid Merkle root
    the header carries and whose witness commitment the coinbase carries; and
    it returns that header, coinbase, identifiers, sizes and weight. *)
Theorem parse_block_iff (bs : bytes) (pb : ParsedBlock) :
  parse_and_verify_block bs = Ok pb <->
  exists raw cb rest, block_ok raw cb rest /\ bs = serialize_block raw (cb :: rest) /\ pb = block_of raw cb rest.
Proof. apply parse_block_Ok. Qed.
End block_facts.

(** A block of one coinbase over a toy digest, extending [easy_genesis]. *)
Definition sample_coinbase : Tx := {|
  tx_version := array_rep 4 x01;
  tx_inputs := tx_inputs sample_tx;
  tx_outputs := [MkParsedOutput (array_rep 8 x00) [x6a]; MkParsedOutput (array_rep 8 x00) (canonical_m7_script (array_rep 32 x05))];
  tx_witness := None;
  tx_lock_time := array_rep 4 x00
|}.
Definition sample_raw (root : bytes) : array 80 :=
  subarray 80 0 (le_bytes 4 1 ++ pvh_hash easy_genesis ++ root ++ le_bytes 4 1700000000 ++ le_bytes 4 0x207fffff ++ le_bytes 4 0).
Definition sample_block_raw : array 80 := sample_raw (@txid toy_sha256 sample_coinbase).
Definition sample_block : bytes := serialize_block sample_block_raw [sample_coinbase].

Definition sample_parsed : ParsedBlock :=
  unwrap_or (@block_of 64%positive toy_sha256 sample_block_raw sample_coinbase [])
    (@parse_and_verify_block 64%positive toy_sha256 sample_block).

Lemma sample_block_parses : @parse_and_verify_block 64%positive toy_sha256 sample_block = Ok sample_parsed.
Proof. by vm_compute. Qed.

Example parse_block_iff_witness : exists raw cb rest, @block_ok 64%positive toy_sha256 raw cb rest /\
  sample_block = serialize_block raw (cb :: rest) /\ sample_parsed = @block_of 64%positive toy_sha256 raw cb rest.
Proof.
  apply (@parse_block_iff 64%positive ltac:(done) toy_sha256 sample_block). exact sample_block_parses.
Defined.

Lemma root_by_bytes {H : Sha256} l (r : BlockHash) :
  option_map (fun p => (arr p.1, p.2)) (merkle_root_and_mutation l) = Some (arr r, false) ->
  merkle_root_and_mutation l = Some (r, false).
Proof. destruct (merkle_root_and_mutation l) as [[x b]|]; [|done]. cbn. intros [= E ->]. by apply array_eq in E as ->. Qed.

(** Three leaves, and three others with the same root under the toy digest. *)
Example merkle_root_binding_witness :
  let l := [array_rep 32 x01; array_rep 32 x02; array_rep 32 x03] in
  let l' := [array_rep 32 x01; array_rep 32 x04; array_rep 32 x03] in
  l = l' \/ @block_merkle_collision toy_sha256 l l'.
Proof.
  intros l l'. apply (@merkle_root_binding toy_sha256 l l' (array_rep 32 x01)).
  - apply root_by_bytes. by vm_compute.
  - apply root_by_bytes. by vm_compute.
  - done.
Defined.
