(* ===== verification/BlockTotality.v ===== *)
(** [parse_and_verify_block] returns a block or an error on every input: the
    fixed-width reads convert, the slices and indices are in range, the
    subtractions of positions and the counters do not overflow, and the Merkle
    loops end within their fuel. *)

From S2P Require Import Prelude Encoding Hashing Readers Uint256 BitcoinHeaders BmmCommitment BlockParser BitcoinBlock.

Local Open Scope Z_scope.

Definition any_error {E : Type} : E -> Prop := fun _ => True.

(** Positions inside the input, and positions further on in the same input. *)
Definition inside (c : Cursor) : Prop := (cursor c <= length (dec_bytes c))%nat.
Definition reached (c c' : Cursor) : Prop :=
  dec_bytes c' = dec_bytes c /\ (cursor c <= cursor c' <= length (dec_bytes c))%nat.

#[export] Instance after_trans : Transitive reached.
Proof. intros a b c [E1 H1] [E2 H2]. split; [congruence|]. rewrite E1 in H2. lia. Qed.
Lemma after_refl c : inside c -> reached c c.
Proof. by split; [|unfold inside in *; lia]. Qed.
Lemma after_inside c c' : reached c c' -> inside c'.
Proof. intros [E Hc]. unfold inside. rewrite E. lia. Qed.

(** A reader that only moves forward and never panics, with [Q] of its results. *)
Definition safe {A : Type} (Q : A -> Prop) (m : parser A) : Prop :=
  forall c, inside c -> meets any_error (fun r => Q r.1 /\ reached c r.2) (m c).
Definition anything {A : Type} : A -> Prop := fun _ => True.

Section safe.
Context {W : PtrWidth}.

(** One read of a parser that runs from a known position. *)
Lemma safe_at {A B : Type} (Q : A -> Prop) (R : B * Cursor -> Prop) (m : parser A) (f : A -> parser B) c :
  safe Q m -> inside c -> (forall a c', Q a -> reached c c' -> meets any_error R (f a c')) ->
  meets any_error R ((m ≫= f) c).
Proof.
  intros Hm Hc Hf. specialize (Hm c Hc). unfold mbind, reader_bind.
  destruct (m c) as [[a c']|e|]; [|exact I|done]. destruct Hm. by apply Hf.
Qed.
Lemma ask_at {B : Type} (R : B * Cursor -> Prop) (f : Cursor -> parser B) c :
  meets any_error R (f c c) -> meets any_error R ((ask_cursor ≫= f) c).
Proof. done. Qed.
Lemma bind_at {A B : Type} (Q : A -> Cursor -> Prop) (R : B * Cursor -> Prop) (m : parser A) (f : A -> parser B) c :
  meets any_error (fun r => Q r.1 r.2) (m c) -> (forall a c', Q a c' -> meets any_error R (f a c')) ->
  meets any_error R ((m ≫= f) c).
Proof. intros Hm Hf. unfold mbind, reader_bind. destruct (m c) as [[a c']|e|]; [by apply Hf|exact I|done]. Qed.
Lemma safe_bind {A B : Type} (Q : A -> Prop) (R : B -> Prop) (m : parser A) (f : A -> parser B) :
  safe Q m -> (forall a, Q a -> safe R (f a)) -> safe R (m ≫= f).
Proof.
  intros Hm Hf c Hc. eapply safe_at; [exact Hm|done|]. intros a c' Ha Hc'.
  eapply meets_weaken; [apply Hf; [done|by eapply after_inside]|]. intros r _ [Hr H1]. split; [done|]. by transitivity c'.
Qed.
Lemma safe_ret {A : Type} (Q : A -> Prop) (a : A) : Q a -> safe Q (mret a).
Proof. intros Ha c Hc. split; [done|by apply after_refl]. Qed.
Lemma safe_raise {A : Type} (Q : A -> Prop) (m : res BlockStructureError A) :
  meets any_error Q m -> safe Q (raise m).
Proof. intros Hm c Hc. unfold raise. destruct m; [|done..]. split; [done|by apply after_refl]. Qed.
Lemma safe_fail_if (b : bool) e : safe anything (raise (fail_if b e)).
Proof. apply safe_raise. by destruct b. Qed.
Lemma safe_ok_or {A : Type} (o : option A) e : safe anything (raise (ok_or o e)).
Proof. apply safe_raise. by destruct o. Qed.
Lemma safe_ask_cursor : safe anything ask_cursor.
Proof. intros c Hc. split; [done|by apply after_refl]. Qed.
Lemma safe_ask_remaining : safe anything (ask_remaining : parser nat).
Proof. intros c Hc. split; [done|by apply after_refl]. Qed.

Lemma safe_take len : 0 <= len -> safe (fun bs => Z.of_nat (length bs) = len) (Cursor_take len).
Proof.
  intros Hlen c Hc. unfold Cursor_take, inside in *. destruct (usize_try _) as [e|] eqn:Ee; [|exact I]. apply usize_try_Some in Ee.
  destruct (Z.leb_spec (uval e) (Z.of_nat (length (dec_bytes c)))); [|exact I].
  cbn [meets fst snd]. unfold slice. rewrite length_take, length_drop. split; [lia|]. unfold reached. cbn [dec_bytes cursor].
  split; [done|lia].
Qed.
Lemma safe_array n : safe anything (Cursor_array n).
Proof.
  eapply safe_bind; [apply safe_take; lia|]. intros bs Hbs%Nat2Z.inj. apply safe_raise.
  destruct (array_try_length n bs Hbs) as (a & -> & _). exact I.
Qed.
Lemma safe_any_take len : 0 <= len -> safe anything (Cursor_take len).
Proof. intros Hlen c Hc. eapply meets_weaken; [by apply safe_take|]. by intros r _ [_ ?]. Qed.
Lemma safe_take_uval {w} (n : uint w) : safe anything (Cursor_take (uval n)).
Proof. apply safe_any_take. pose proof (uint_range n). lia. Qed.
Lemma safe_peek : safe anything Cursor_peek.
Proof. intros c Hc. unfold Cursor_peek. destruct (_ !! _); [|done]. split; [done|by apply after_refl]. Qed.

Lemma safe_loop {T : Type} (Q : nat -> T -> Prop) (step : nat -> T -> parser T) count index st :
  Q index st -> (forall i st, (i < index + count)%nat -> Q i st -> safe (Q (S i)) (step i st)) ->
  safe (Q (index + count)%nat) (parse_loop step count index st).
Proof.
  revert index st. induction count as [|count IH]; intros index st H0 Hs; cbn [parse_loop].
  - rewrite Nat.add_0_r. by apply safe_ret.
  - eapply safe_bind; [apply Hs; [lia|done]|]. intros st' H1. rewrite Nat.add_succ_r. apply (IH (S index)); [done|].
    intros i s Hi. apply Hs. lia.
Qed.
Lemma safe_any_loop {T : Type} (step : nat -> T -> parser T) count index st :
  (forall i st, safe anything (step i st)) -> safe anything (parse_loop step count index st).
Proof. intros Hs. apply (safe_loop (fun _ => anything)); [done|]. intros i s _ _. apply Hs. Qed.
End safe.

(** Walk a parser whose pieces are safe. *)
Create HintDb safe.
#[export] Hint Resolve safe_fail_if safe_ok_or safe_ask_cursor safe_ask_remaining safe_array safe_take_uval safe_peek : safe.
Ltac safe_step :=
  lazymatch goal with
  | |- safe _ (mbind _ _) => eapply safe_bind; [solve [eauto with safe]|intros ? _]
  | |- safe _ (mret _) => by apply safe_ret
  | |- safe _ (if ?b then _ else _) => destruct b
  | |- safe _ (let '(_, _) := ?p in _) => destruct p
  | |- safe _ _ => solve [eauto with safe]
  end.
Ltac safe := repeat safe_step.

Section parser.
Context {W : PtrWidth} {H : Sha256}.

Lemma safe_byte : safe anything Cursor_byte.
Proof. unfold Cursor_byte. safe. Qed.
Hint Resolve safe_byte : safe.

Lemma safe_compact : safe anything Cursor_compact_size.
Proof.
  unfold Cursor_compact_size. eapply safe_bind; [apply safe_byte|]. intros prefix _.
  eapply (safe_bind anything); [safe|]. intros value _. apply safe_ok_or.
Qed.
Hint Resolve safe_compact : safe.

(** The null outpoints counted after [i] inputs are at most [i]. *)
Definition nulls_counted (i : nat) (st : InputScan) : Prop := (is_null_previous_outputs st <= i)%nat.

Lemma safe_input (n : uint usize_bits) i st : (i < Z.to_nat (uval n))%nat -> nulls_counted i st ->
  safe (nulls_counted (S i)) (parse_input i st).
Proof.
  intros Hi Hn. unfold parse_input, nulls_counted in *. safe_step. pose proof (uint_range n).
  eapply (safe_bind (fun k => k <= S i)%nat).
  { apply safe_raise. destruct (outpoint_is_null a); [|cbn; lia].
    rewrite (proj2 (usize_succ_Some (is_null_previous_outputs st) (S (is_null_previous_outputs st)))); [cbn; lia|].
    split; [done|lia]. }
  intros k Hk. do 2 safe_step. eapply safe_bind; [by apply safe_take_uval|]. intros _ _.
  eapply safe_bind; [by apply safe_any_take|]. intros _ _. by apply safe_ret.
Qed.

Lemma safe_output st : safe anything (parse_output st).
Proof. unfold parse_output. safe. Qed.

Lemma safe_witness_stack b i st : safe anything (parse_witness_stack b i st).
Proof.
  unfold parse_witness_stack. do 3 safe_step. eapply safe_bind; [|intros items _; safe].
  apply safe_any_loop. intros j items. unfold parse_witness_item. safe.
Qed.

Lemma safe_inputs : safe anything parse_inputs.
Proof.
  unfold parse_inputs. do 4 safe_step.
  eapply safe_bind; [apply (safe_loop nulls_counted); [unfold nulls_counted; cbn; lia|intros; by eapply safe_input]|]. intros st _.
  eapply (safe_bind anything); [|intros checked _; safe]. apply safe_raise. unfold check_inputs. cbv zeta.
  do 2 (apply meets_fail_then; [done|]; intros _). destruct (negb _); [|done]. by apply meets_fail_then.
Qed.

Lemma safe_outputs n : safe anything (parse_outputs n).
Proof.
  unfold parse_outputs. do 3 safe_step. eapply safe_bind; [apply safe_any_loop; intros; apply safe_output|]. intros st _. safe.
Qed.

Lemma safe_witness n b : safe anything (parse_witness n b).
Proof.
  unfold parse_witness. eapply safe_bind; [apply safe_any_loop; intros; apply safe_witness_stack|]. intros [? ?] _. safe.
Qed.
Hint Resolve safe_inputs safe_outputs safe_witness : safe.

Lemma between_safe a b : reached a b -> exists bs, between a b = Ok bs.
Proof. intros [E Hb]. unfold between. rewrite E, index_range_ok by lia. by eexists. Qed.

Lemma finish_safe k v hw cb ops outs w lt :
  reached (transaction_start k) (after_version k) -> reached (after_version k) (input_count_start k) ->
  reached (input_count_start k) (outputs_start k) -> reached (outputs_start k) (outputs_end k) ->
  reached (outputs_end k) (lock_time_start k) -> reached (lock_time_start k) (transaction_end k) ->
  meets any_error anything (finish_transaction k v hw cb ops outs w lt).
Proof.
  intros H1 H2 H3 H4 H5 H6. unfold finish_transaction.
  assert (reached (input_count_start k) (outputs_end k)) as H34 by (by transitivity (outputs_start k)).
  assert (reached (transaction_start k) (transaction_end k)) as Hall.
  { transitivity (after_version k); [done|]. transitivity (input_count_start k); [done|].
    transitivity (outputs_end k); [done|]. by transitivity (lock_time_start k). }
  destruct (between_safe _ _ H1) as [? ->], (between_safe _ _ H34) as [? ->], (between_safe _ _ H6) as [? ->].
  destruct (between_safe _ _ Hall) as [? ->], (between_safe _ _ H3) as [? ->].
  eapply meets_bind; [apply meets_expect; eexists; apply usize_sub_Some; split; [|reflexivity]; apply H34|]. intros n _ _.
  eapply meets_bind; [by apply meets_ok_or|]. intros s _ _. by destruct hw, cb.
Qed.

Lemma safe_body ts av ics c v hw : reached ts av -> reached av ics -> reached ics c ->
  meets any_error (fun r => reached c r.2) (parse_body ts av ics v hw c).
Proof.
  intros Hts Hav Hics. unfold parse_body. pose proof (after_inside _ _ Hics) as Hc.
  eapply safe_at; [apply safe_inputs|done|]. intros [n [cb ops]] c1 _ H1. pose proof (after_inside _ _ H1) as I1.
  eapply safe_at; [apply safe_compact|done|]. intros m c2 _ H2. pose proof (after_inside _ _ H2) as I2. apply ask_at.
  eapply safe_at; [apply safe_outputs|done|]. intros outs c3 _ H3. pose proof (after_inside _ _ H3) as I3. apply ask_at.
  eapply (safe_at anything); [safe|done|]. intros w c4 _ H4. pose proof (after_inside _ _ H4) as I4. apply ask_at.
  eapply safe_at; [apply safe_array|done|]. intros lt c5 _ H5. apply ask_at.
  assert (reached c c2) as H12 by (by transitivity c1). assert (reached ics c2) as Hi2 by (by transitivity c).
  pose proof (finish_safe (MkMarks ts av ics c2 c3 c4 c5) v hw cb ops outs w lt Hts Hav Hi2 H3 H4 H5) as Hf.
  unfold raise. destruct (finish_transaction _ _ _ _ _ _ _ _); [|done..]. cbn [meets snd].
  transitivity c2; [done|]. transitivity c3; [done|]. by transitivity c4.
Qed.

Lemma safe_transaction : safe anything parse_transaction.
Proof.
  intros c Hc. unfold parse_transaction. apply ask_at.
  eapply safe_at; [apply safe_array|done|]. intros v c1 _ H1. pose proof (after_inside _ _ H1) as I1. apply ask_at.
  eapply safe_at; [apply safe_peek|done|]. intros marker c2 _ H2. pose proof (after_inside _ _ H2) as I2. cbv zeta.
  assert (reached c c2) as H02 by (by transitivity c1).
  assert (forall ics c3, reached c1 ics -> reached ics c3 -> reached c2 c3 -> meets any_error (fun r => anything r.1 /\ reached c r.2)
    (parse_body c c1 ics v (bool_decide (marker = x00)) c3)) as Hbody.
  { intros ics c3 Hi H3 H23. eapply meets_weaken; [by apply safe_body|]. intros r _ Hr. split; [done|].
    transitivity c3; [by transitivity c2|done]. }
  destruct (bool_decide (marker = x00)); [|by apply Hbody; [apply after_refl|..]].
  eapply (bind_at (fun ics c3 => reached c2 c3 /\ ics = c3)).
  - eapply safe_at; [apply safe_byte|done|]. intros _ c3 _ H3. pose proof (after_inside _ _ H3) as I3.
    eapply safe_at; [apply safe_byte|done|]. intros flags c4 _ H4. pose proof (after_inside _ _ H4) as I4.
    eapply safe_at; [apply safe_fail_if|done|]. intros _ c5 _ H5. change (reached c2 c5 /\ c5 = c5). split; [|done].
    transitivity c3; [done|]. by transitivity c4.
  - intros ics c3 [H3 ->]. apply Hbody; [by transitivity c2|by apply after_refl, (after_inside c2)|done].
Qed.

Definition scan_count (n : nat) (st : BlockScan) : Prop := length (bk_txids st) = n /\ length (bk_wtxids st) = n.

Lemma safe_block_transaction i st : scan_count i st -> safe (scan_count (S i)) (parse_block_transaction i st).
Proof.
  intros [H1 H2]. unfold parse_block_transaction. eapply safe_bind; [apply safe_transaction|]. intros t _.
  eapply (safe_bind anything).
  { apply safe_raise. destruct (_ =? _)%nat; by apply meets_fail_then. }
  intros [cid cb] _. eapply safe_bind; [apply safe_ok_or|]. intros s _. apply safe_ret.
  split; cbn [bk_txids bk_wtxids]; rewrite length_app; cbn [length]; lia.
Qed.

Lemma safe_block_transactions :
  safe (fun r => (0 < length (bk_txids r.2))%nat /\ (0 < length (bk_wtxids r.2))%nat) parse_block_transactions.
Proof.
  intros c Hc. unfold parse_block_transactions. apply ask_at.
  eapply safe_at; [apply safe_compact|done|]. intros n c1 _ H1. pose proof (after_inside _ _ H1) as I1. apply ask_at.
  rewrite (proj2 (usize_sub_Some (cursor c1) (cursor c) _) (conj (proj1 (proj2 H1)) eq_refl)).
  cbn [expect]. eapply (safe_at (fun _ => True)); [by apply safe_raise|done|]. intros size c2 _ H2.
  pose proof (after_inside _ _ H2) as I2.
  lazymatch goal with |- meets _ _ (?m c2) =>
    assert (safe (fun r => (0 < length (bk_txids r.2))%nat /\ (0 < length (bk_wtxids r.2))%nat) m) as Hm end.
  2: { eapply meets_weaken; [exact (Hm c2 I2)|]. intros r _ [Hr H3]. split; [done|].
       transitivity c1; [done|]. by transitivity c2. }
  eapply (safe_bind (fun _ => uval n <> 0)); [apply safe_raise; destruct (Z.eqb_spec (uval n) 0); done|]. intros _ Hn.
  do 3 safe_step. eapply safe_bind; [apply (safe_loop scan_count); [done|intros; by apply safe_block_transaction]|].
  intros st [G1 G2]. apply safe_ret. cbn [snd]. pose proof (uint_range n). lia.
Qed.

Lemma witness_commitment_safe cb wtxids has : (0 < length wtxids)%nat ->
  meets any_error anything (verify_witness_commitment cb wtxids has).
Proof.
  intros Hl. unfold verify_witness_commitment. rewrite commitment_index_total. cbn [expect].
  change (@mbind (res BlockStructureError) _ ?A ?B ?f (Ok ?x)) with (f x). cbv beta. destruct (_ && _); [exact I|].
  eapply meets_bind; [by apply meets_ok_or|]. intros i _ Hi.
  apply commitment_index_lookup in Hi as (out & Ho & [Hlen%Nat.leb_le _]%andb_true_iff).
  destruct (pc_witness cb) as [|reserved [|]]; [exact I| |exact I]. apply meets_fail_then; [done|].
  intros Hr%negb_false_iff%Nat.eqb_eq. destruct (array_try_length 32 reserved Hr) as (a & -> & _).
  destruct wtxids as [|w wtxids]; [cbn in Hl; lia|]. cbn [zero_first expect mbind res_bind].
  destruct (merkle_root_total (ZERO :: wtxids)) as [[root flag] ->]; [done|]. cbn [expect mbind res_bind]. rewrite Ho. cbn [expect mbind res_bind].
  rewrite index_range_ok by lia.
  cbn [expect mbind res_bind]. by destruct (negb _).
Qed.

Lemma parse_block_safe (bs : bytes) : meets any_error anything (parse_and_verify_block bs).
Proof.
  unfold parse_and_verify_block. apply meets_fail_then; [done|]. intros Hmin%Nat.ltb_ge. apply meets_fail_then; [done|]. intros _.
  unfold BITCOIN_HEADER_LEN in *. rewrite index_range_ok by lia. cbn [expect].
  change (@mbind (res BlockStructureError) _ ?A ?B ?f (Ok ?x)) with (f x). cbv beta.
  apply (meets_bind _ anything).
  { unfold BitcoinHeader_decode_exact. destruct (negb _); [done|]. cbn [fail_if mbind res_bind].
    by destruct (array_try _ _). }
  intros h _ _. eapply meets_bind; [apply safe_block_transactions; unfold inside, Cursor_new; cbn [cursor dec_bytes]; lia|].
  intros [[n scan] c] _ [[H1 H2] _]. cbn [fst snd] in H1, H2.
  apply meets_fail_then; [done|]. intros _. eapply meets_bind; [by apply meets_ok_or|]. intros w _ _.
  apply meets_fail_then; [done|]. intros _.
  destruct (merkle_root_total (bk_txids scan)) as [[root flag] ->]; [by destruct (bk_txids scan); cbn in H1; [lia|]|].
  cbn [expect mbind res_bind]. do 2 (apply meets_fail_then; [done|]; intros _).
  eapply meets_bind; [by apply meets_ok_or|]. intros cb _ _.
  eapply meets_bind; [by apply witness_commitment_safe|]. intros u _ _.
  do 4 (eapply meets_bind; [by apply meets_ok_or|]; intros ? _ _). exact I.
Qed.
(** C28: The block parser is total: every byte string is parsed to a block or
    refused with an error; no fixed-width conversion, index, slice, machine
    addition or subtraction fails, and the fuel of the Merkle loops suffices. *)
Theorem parse_block_total (bs : bytes) : exists r : BlockStructureError + ParsedBlock,
  parse_and_verify_block bs = match r with inl e => Err e | inr pb => Ok pb end.
Proof.
  pose proof (parse_block_safe bs) as Hm.
  destruct (parse_and_verify_block bs) as [pb|e|]; [by exists (inr pb)|by exists (inl e)|done].
Qed.
End parser.
