(* ===== verification/ParentBlock.v ===== *)
(** The composed transition of [crates/usdd-bitcoin-bmm/src/block.rs]:
    [verify_pow_merkle_bound_elements_m7_successor] reads one serialized block,
    checks its transactions and Merkle tree, extends the header chain with its
    header and extracts the Elements commitment from its coinbase.  The theorem
    composes the exactness results of the three components. *)

From S2P Require Import Prelude Encoding Hashing Readers Uint256 BitcoinHeaders BmmCommitment BlockParser BitcoinBlock.

Local Open Scope Z_scope.

Record PowMerkleBoundM7 : Type := MkPowMerkleBoundM7 {
  pm7_parent_block_hash : BlockHash;
  pm7_parent_height : u32;
  pm7_coinbase_txid : BlockHash;
  pm7_output_index : u32;
  pm7_committed_child_hash : BlockHash;
  pm7_transaction_count : u32;
  pm7_block_weight : u32
}.

Definition require_validated_child_hash (m : PowMerkleBoundM7) (child_hash : BlockHash) : res M7Error PowMerkleBoundM7 :=
  fail_if (negb (bool_decide (pm7_committed_child_hash m = child_hash))) M7_WrongChildHash;;
  Ok m.

Record PowMerkleBoundM7Transition : Type := MkPowMerkleBoundM7Transition {
  pmt_next_parent_state : HeaderChainState;
  pmt_commitment : PowMerkleBoundM7
}.

Inductive ParentBlockM7Error : Type :=
| PB_Header (e : HeaderError)
| PB_Block (e : BlockStructureError)
| PB_Commitment (e : M7Error).

Section parent.
Context {W : PtrWidth} {H : Sha256}.

(** The [debug_assert_eq] of the two block hashes is the lemma [tip_hash]. *)
Definition verify_pow_merkle_bound_elements_m7_successor (prior : HeaderChainState) (serialized_block : bytes)
    (params : PowParameters) : res ParentBlockM7Error PowMerkleBoundM7Transition :=
  parsed ← map_err PB_Block (parse_and_verify_block serialized_block);
  next_parent_state ← map_err PB_Header
    (verify_successor prior (arr (hdr_raw (mvb_header (pb_metadata parsed)))) params);
  let coinbase_output_scripts := map po_script (pc_outputs (pb_coinbase parsed)) in
  unbound ← map_err PB_Commitment (extract_elements_slot24_m7 coinbase_output_scripts);
  Ok {|
    pmt_next_parent_state := next_parent_state;
    pmt_commitment := {|
      pm7_parent_block_hash := mvb_block_hash (pb_metadata parsed);
      pm7_parent_height := hcs_height next_parent_state;
      pm7_coinbase_txid := mvb_coinbase_txid (pb_metadata parsed);
      pm7_output_index := m7_output_index unbound;
      pm7_committed_child_hash := m7_committed_child_hash unbound;
      pm7_transaction_count := mvb_transaction_count (pb_metadata parsed);
      pm7_block_weight := mvb_weight (pb_metadata parsed)
    |}
  |}.
End parent.

Section parent_facts.
Context {W : PtrWidth} (Hwidth : 32 <= Zpos usize_bits) {H : Sha256}.

(** The commitment in a coinbase: one output is the canonical script of the
    child, and it is the only one any parser reads as a slot-24 M7. *)
Definition commits_to_child (outputs : list ParsedOutput) (index : u32) (child : BlockHash) : Prop :=
  map po_script outputs !! Z.to_nat index = Some (canonical_m7_script child) /\
  forall j s, map po_script outputs !! j = Some s -> carries_m7 s = true -> j = Z.to_nat index.

Lemma script_bytes_outs outs : script_bytes (map po_script outs) <= Z.of_nat (length (serialize_outs outs)).
Proof.
  unfold serialize_outs. rewrite length_app. transitivity (Z.of_nat (length (concat (map serialize_out outs)))); [|lia].
  induction outs as [|o outs IH]; [done|]. unfold script_bytes, sumZ in *. cbn [map foldr concat].
  rewrite length_app. unfold serialize_out at 1, var_bytes. rewrite !length_app. lia.
Qed.

(** The weight limit implies the limits of the extraction. *)
Lemma coinbase_scripts_small raw cb rest : block_ok raw cb rest ->
  Z.of_nat (length (map po_script (tx_outputs cb))) <= BITCOIN_MAX_COINBASE_OUTPUTS /\
  script_bytes (map po_script (tx_outputs cb)) <= BITCOIN_MAX_COINBASE_OUTPUT_SCRIPT_BYTES /\
  forall s, s ∈ map po_script (tx_outputs cb) -> Z.of_nat (length s) < 2 ^ Zpos usize_bits.
Proof.
  intros [_ Hwf _ _ _ Hw _ _]. apply Forall_cons in Hwf as [[_ Ho _] _].
  pose proof (Z.pow_le_mono_r 2 32 (Zpos usize_bits) ltac:(lia) Hwidth) as H32.
  change BITCOIN_MAX_BLOCK_WEIGHT with 4000000 in Hw. pose proof (stripped_le_total raw (cb :: rest)) as Hst.
  assert (script_bytes (map po_script (tx_outputs cb)) <= 1000000) as Hs.
  { pose proof (script_bytes_outs (tx_outputs cb)). pose proof (base_size_sum rest).
    assert (Z.of_nat (length (serialize_outs (tx_outputs cb))) <= base_size cb)
      by (unfold base_size, serialize_base; rewrite !length_app; lia).
    assert (base_size cb <= stripped_size (cb :: rest))
      by (unfold stripped_size, sumZ in *; cbn [foldr]; lia). lia. }
  rewrite length_map. split; [apply (wfo_count _ Ho)|]. split; [exact Hs|]. intros s Hin.
  apply list_elem_of_fmap in Hin as (o & -> & Hin). pose proof (wfo_scripts _ Ho) as Hsc.
  apply (proj1 (Forall_forall _ _) Hsc) in Hin. change BITCOIN_MAX_COINBASE_OUTPUT_SCRIPT_BYTES with 1000000 in Hin. lia.
Qed.

Lemma tip_hash params s s' : successor params s s' ->
  pvh_hash (hcs_tip s') = block_hash (pvh_header (hcs_tip s')).
Proof. intros Hs. apply (pv_hash _ _ (suc_pow _ _ _ Hs)). Qed.

Definition bound_transition (raw : array 80) (cb : Tx) (rest : list Tx) (next : HeaderChainState) (index : u32)
    (child : BlockHash) : PowMerkleBoundM7Transition := {|
  pmt_next_parent_state := next;
  pmt_commitment := {|
    pm7_parent_block_hash := pvh_hash (hcs_tip next);
    pm7_parent_height := hcs_height next;
    pm7_coinbase_txid := txid cb;
    pm7_output_index := index;
    pm7_committed_child_hash := child;
    pm7_transaction_count := uint_wrap 32 (Z.of_nat (length (cb :: rest)));
    pm7_block_weight := uint_wrap 32 (stripped_size (cb :: rest) * 3 + total_size raw (cb :: rest))
  |}
|}.

(** C16: The composed transition accepts exactly the serializations of valid
    blocks whose header extends the chain state and whose coinbase carries one
    canonical slot-24 M7 and no other; the result binds that commitment to the
    hash and height of the new tip and to the identifier of the coinbase.  The
    output and script limits of the extraction follow from the block weight. *)
Theorem parent_block_m7_iff (prior : HeaderChainState) (bs : bytes) (params : PowParameters)
    (t : PowMerkleBoundM7Transition) :
  verify_pow_merkle_bound_elements_m7_successor prior bs params = Ok t <->
  exists raw cb rest next index child,
    block_ok raw cb rest /\ bs = serialize_block raw (cb :: rest) /\
    successor params prior next /\ hdr_raw (pvh_header (hcs_tip next)) = raw /\
    commits_to_child (tx_outputs cb) index child /\ t = bound_transition raw cb rest next index child.
Proof.
  unfold verify_pow_merkle_bound_elements_m7_successor. split.
  - intros E. apply res_bind_Ok in E as (pb & Hp & E). apply map_err_Ok, parse_block_Ok in Hp as (raw & cb & rest & Hok & -> & ->); [|done].
    apply res_bind_Ok in E as (next & Hs & E). apply map_err_Ok, verify_successor_Ok in Hs as [Hs Hraw].
    apply res_bind_Ok in E as (m & Hm & E). pose proof (coinbase_scripts_small _ _ _ Hok) as (Hc & Hb & Hl).
    apply map_err_Ok, m7_extract_Ok in Hm; [|done..]. destruct Hm as (_ & _ & Hm).
    apply array_eq in Hraw. exists raw, cb, rest, next, (m7_output_index m), (m7_committed_child_hash m).
    injection E as <-. do 5 (split; [done|]). unfold bound_transition. f_equal. f_equal.
    rewrite (tip_hash _ _ _ Hs). unfold block_hash. by rewrite Hraw.
  - intros (raw & cb & rest & next & i & child & Hok & -> & Hs & Hraw & Hm & ->).
    pose proof (coinbase_scripts_small _ _ _ Hok) as (Hc & Hb & Hl).
    apply res_bind_Ok. exists (block_of raw cb rest). split; [apply map_err_Ok, parse_block_Ok; [done|]; by eexists _, _, _|].
    apply res_bind_Ok. exists next. split; [apply map_err_Ok, verify_successor_Ok; split; [done|]; by rewrite Hraw|].
    apply res_bind_Ok. exists (MkUnboundCanonicalM7 i child). split; [apply map_err_Ok, m7_extract_Ok; [exact Hwidth|exact Hl|split; [exact Hc|split; [exact Hb|exact Hm]]]|].
    unfold bound_transition. do 3 f_equal. rewrite (tip_hash _ _ _ Hs). unfold block_hash. by rewrite Hraw.
Qed.
End parent_facts.

Lemma sample_transition_Ok : exists t,
  @verify_pow_merkle_bound_elements_m7_successor 64%positive toy_sha256 easy_start sample_block easy_params = Ok t.
Proof. apply is_ok_true. by vm_compute. Qed.

Example parent_block_m7_iff_witness : exists t raw cb rest next index child,
  @block_ok 64%positive toy_sha256 raw cb rest /\
  sample_block = serialize_block raw (cb :: rest) /\
  @successor toy_sha256 easy_params easy_start next /\ hdr_raw (pvh_header (hcs_tip next)) = raw /\
  @commits_to_child 64%positive (tx_outputs cb) index child /\
  t = @bound_transition toy_sha256 raw cb rest next index child.
Proof.
  destruct sample_transition_Ok as [t Ht]. exists t.
  by apply (@parent_block_m7_iff 64%positive ltac:(done) toy_sha256 easy_start sample_block easy_params t).
Defined.
