(* ===== verification/Signet.v ===== *)
(** The LayerTwo Signet challenge of [crates/usdd-bitcoin-bmm/src/block/signet.rs]:
    the solution in the witness commitment, the virtual transactions it signs,
    the strict DER check, and the composed parent transition.

    The curve and the two hashes of [bitcoin_hashes] and [k256] are parameters;
    the witness program, the sighash preimage and the checks around them are the
    code's.  The sighash is shown to bind the block, and the DER check to be its
    grammar. *)

From S2P Require Import Prelude Encoding Hashing Readers Uint256 BitcoinHeaders BmmCommitment BlockParser BitcoinBlock BlockTotality ParentBlock.

Local Open Scope Z_scope.

Definition SIGNET_HEADER : bytes := [xec; xc7; xda; xa2].
Definition LAYER_TWO_SIGNET_P2WPKH : array 20 := Array (n:=20)
  [x88; x35; x83; x2e; x28; xc8; x16; xb7; xac; xd8; xfd; xb1; x97; x72; xab; x21;
   x99; x60; x3a; x56] eq_refl.
Definition LAYER_TWO_SIGNET_GENESIS_INTERNAL : BlockHash := Array (n:=32)
  [xf6; x1e; xee; x3b; x63; xa3; x80; xa4; x77; xa0; x63; xaf; x32; xb2; xbb; xc9;
   x7c; x9f; xf9; xf0; x1f; x2c; x42; x25; xe9; x73; x98; x81; x08; x00; x00; x00] eq_refl.

Inductive LayerTwoSignetError : Type :=
| SE_Block (e : BlockStructureError)
| SE_Header (e : HeaderError)
| SE_Commitment (e : M7Error)
| SE_MissingWitnessCommitment | SE_MalformedCommitmentScript | SE_MissingSolution
| SE_NonCanonicalSolution | SE_NonEmptyScriptSig | SE_WrongWitnessStack | SE_WrongPublicKeyHash
| SE_InvalidPublicKey | SE_InvalidDerSignature | SE_InvalidSignature | SE_LengthOverflow.

(** [bitcoin_hashes::hash160] and the ECDSA types of [k256]. *)
Class Hash160 : Type := hash160 : bytes -> array 20.
Class Ecdsa : Type := {
  K256Signature : Type;
  VerifyingKey : Type;
  from_der : bytes -> option K256Signature;
  normalize_s : K256Signature -> option K256Signature;
  from_sec1_bytes : bytes -> option VerifyingKey;
  verify_prehash : VerifyingKey -> Hash32 -> K256Signature -> bool
}.

(** ** Script operations *)

Section script.
Context {W : PtrWidth}.

Definition script_byte : reader LayerTwoSignetError byte := fun c =>
  match dec_bytes c !! cursor c with
  | Some b => Ok (b, MkDecoder (dec_bytes c) (S (cursor c)))
  | None => Err SE_MalformedCommitmentScript
  end.

(** [position.checked_add(n)], [script.get(position..end)] and the move. *)
Definition script_take (len : Z) : reader LayerTwoSignetError bytes := fun c =>
  match usize_try (Z.of_nat (cursor c) + len) with
  | None => Err SE_LengthOverflow
  | Some e =>
      if uval e <=? Z.of_nat (length (dec_bytes c))
      then Ok (slice (cursor c) (Z.to_nat (uval e)) (dec_bytes c), MkDecoder (dec_bytes c) (Z.to_nat (uval e)))
      else Err SE_MalformedCommitmentScript
  end.

Definition push_length (opcode : byte) : reader LayerTwoSignetError (option Z) :=
  let op := byte_val opcode in
  if (0x01 <=? op) && (op <=? 0x4b) then mret (Some op)
  else if op =? 0x4c then length ← script_byte; mret (Some (byte_val length))
  else if op =? 0x4d then bs ← script_take 2; mret (Some (le_val bs))
  else if op =? 0x4e then
    bs ← script_take 4;
    length ← raise (ok_or (usize_try (le_val bs)) SE_LengthOverflow);
    mret (Some (uval length))
  else mret None.

Definition read_script_op : reader LayerTwoSignetError (byte * option bytes) :=
  opcode ← script_byte;
  length ← push_length opcode;
  match length with
  | None => mret (opcode, None)
  | Some length => data ← script_take length; mret (opcode, Some data)
  end.

(** The bytes [append_script_push] appends. *)
Definition append_script_push (data : bytes) : res LayerTwoSignetError bytes :=
  let len := Z.of_nat (length data) in
  if len <? 0x4c then Ok (byte_of len :: data)
  else if len <=? 2 ^ 8 - 1 then Ok (x4c :: byte_of len :: data)
  else if len <=? 2 ^ 16 - 1 then Ok (x4d :: le_bytes 2 len ++ data)
  else length ← ok_or (uint_try 32 len) SE_LengthOverflow; Ok (x4e :: le_bytes 4 (uval length) ++ data).

(** The locals of the loop of [extract_solution_and_modified_script]. *)
Record SolutionScan : Type := MkSolutionScan { ss_replacement : bytes; ss_solution : option bytes }.

Definition solution_step (opcode : byte) (pushdata : option bytes) (st : SolutionScan)
    : res LayerTwoSignetError SolutionScan :=
  match pushdata with
  | Some (b :: rest) =>
      let data := b :: rest in
      is_solution ← expect (Some (bool_decide (ss_solution st = None) && (length SIGNET_HEADER <? length data)%nat)
                            &&? range_is 0 (length SIGNET_HEADER) SIGNET_HEADER data);
      if is_solution : bool then
        solution ← expect (index_range (length SIGNET_HEADER) (length data) data);
        push ← append_script_push SIGNET_HEADER;
        Ok (MkSolutionScan (ss_replacement st ++ push) (Some solution))
      else
        push ← append_script_push data;
        Ok (MkSolutionScan (ss_replacement st ++ push) (ss_solution st))
  | _ => Ok (MkSolutionScan (ss_replacement st ++ [opcode]) (ss_solution st))
  end.

(** [while position < witness_commitment.len()]: a malformed operation ends it. *)
Fixpoint solution_loop (fuel : nat) (c : Cursor) (st : SolutionScan) : res LayerTwoSignetError SolutionScan :=
  if (length (dec_bytes c) <=? cursor c)%nat then Ok st
  else match fuel with
       | O => Panic
       | S fuel =>
           match read_script_op c with
           | Ok ((opcode, pushdata), c') => st ← solution_step opcode pushdata st; solution_loop fuel c' st
           | Err _ => Ok st
           | Panic => Panic
           end
       end.

Definition extract_solution_and_modified_script (witness_commitment : bytes) : res LayerTwoSignetError (bytes * bytes) :=
  st ← solution_loop (length witness_commitment) (Cursor_new witness_commitment 0) (MkSolutionScan [] None);
  solution ← ok_or (ss_solution st) SE_MissingSolution;
  Ok (solution, ss_replacement st).

Definition solution_item (_ : nat) (witness : list bytes) : parser (list bytes) :=
  item_size ← Cursor_compact_size;
  item ← Cursor_take (uval item_size);
  mret (witness ++ [item]).

(** The script signature and the witness stack, read with the block's cursor. *)
Definition solution_items : parser (bytes * list bytes) :=
  script_sig_size ← Cursor_compact_size;
  script_sig ← Cursor_take (uval script_sig_size);
  item_count ← Cursor_compact_size;
  remaining ← ask_remaining;
  raise (fail_if (Z.of_nat remaining <? uval item_count) BS_TrailingBytes);;
  witness ← parse_loop solution_item (Z.to_nat (uval item_count)) 0 [];
  mret (script_sig, witness).
Definition solution_parser : parser (bytes * list bytes) :=
  items ← solution_items;
  remaining ← ask_remaining;
  raise (fail_if (negb (remaining =? 0)%nat) BS_TrailingBytes);;
  mret items.
(** Every error of the cursor becomes [NonCanonicalSolution]. *)
Definition parse_solution (solution : bytes) : res LayerTwoSignetError (bytes * list bytes) :=
  '(r, _) ← map_err (fun _ => SE_NonCanonicalSolution) (solution_parser (Cursor_new solution 0));
  Ok r.
End script.

(** ** The virtual transactions *)

Definition block_data (header : BitcoinHeader) (modified_merkle_root : BlockHash) : bytes :=
  le_bytes 4 (hdr_version header) ++ arr (hdr_previous_block header) ++ arr modified_merkle_root ++ le_bytes 4 (hdr_time header).

Definition virtual_spent (header : BitcoinHeader) (modified_merkle_root : BlockHash) : bytes :=
  le_bytes 4 0 ++ [x01] ++ repeat x00 32 ++ le_bytes 4 (2 ^ 32 - 1) ++ [byte_of 74] ++ [x00; x48]
  ++ block_data header modified_merkle_root ++ le_bytes 4 0 ++ [x01] ++ le_bytes 8 0 ++ [byte_of 22] ++ [x00; x14]
  ++ arr LAYER_TWO_SIGNET_P2WPKH ++ le_bytes 4 0.

Section sighash.
Context {H : Sha256}.

Definition virtual_spent_txid (header : BitcoinHeader) (modified_merkle_root : BlockHash) : BlockHash :=
  double_sha256 (virtual_spent header modified_merkle_root).

Definition sighash_preimage (spent_txid : BlockHash) (hash_type : Z) : bytes :=
  let base_type := Z.land hash_type 0x1f in
  let anyone_can_pay := negb (Z.land hash_type 0x80 =? 0) in
  let outpoint := arr spent_txid ++ le_bytes 4 0 in
  let hash_prevouts := if anyone_can_pay then ZERO else double_sha256 outpoint in
  let sequence := le_bytes 4 0 in
  let hash_sequence := if anyone_can_pay || (base_type =? 2) || (base_type =? 3) then ZERO else double_sha256 sequence in
  let output := le_bytes 8 0 ++ [x01; x6a] in
  let hash_outputs := if base_type =? 2 then ZERO else double_sha256 output in
  le_bytes 4 0 ++ arr hash_prevouts ++ arr hash_sequence ++ outpoint ++ [byte_of 25] ++ [x76; xa9; x14]
  ++ arr LAYER_TWO_SIGNET_P2WPKH ++ [x88; xac] ++ le_bytes 8 0 ++ sequence ++ arr hash_outputs ++ le_bytes 4 0
  ++ le_bytes 4 hash_type.
Definition signet_bip143_sighash (spent_txid : BlockHash) (hash_type : Z) : Hash32 :=
  double_sha256 (sighash_preimage spent_txid hash_type).
End sighash.

(** ** Strict DER *)

(** [None] is an index out of range. *)
Definition der_byte (sig : bytes) (i : nat) : option Z := byte_val <$> sig !! i.
Definition der_high (b : Z) : bool := negb (Z.land b 0x80 =? 0).

(** [bytes[at] & 0x80 != 0 || (len > 1 && bytes[at] == 0 && bytes[at + 1] & 0x80 == 0)] *)
Definition der_integer_bad (sig : bytes) (at_ : nat) (len : Z) : option bool :=
  first ← der_byte sig at_;
  if der_high first then Some true
  else if (1 <? len) && (first =? 0) then second ← der_byte sig (S at_); Some (negb (der_high second))
  else Some false.

Definition strict_der_encoding (sig : bytes) : option bool :=
  let n := Z.of_nat (length sig) in
  if negb ((9 <=? n) && (n <=? 73)) then Some false
  else
    b0 ← der_byte sig 0; b1 ← der_byte sig 1; b2 ← der_byte sig 2;
    if negb (b0 =? 0x30) || negb (b1 =? n - 3) || negb (b2 =? 0x02) then Some false
    else
      len_r ← der_byte sig 3;
      if (len_r =? 0) || (n <=? 5 + len_r) then Some false
      else
        let s_type_index := (4 + Z.to_nat len_r)%nat in
        s_type ← der_byte sig s_type_index;
        if negb (s_type =? 0x02) then Some false
        else
          len_s ← der_byte sig (S s_type_index);
          if negb (len_r + len_s + 7 =? n) || (len_s =? 0) then Some false
          else
            bad_r ← der_integer_bad sig 4 len_r;
            if bad_r : bool then Some false
            else
              bad_s ← der_integer_bad sig (s_type_index + 2) len_s;
              Some (negb bad_s).

(** ** The block solution *)

(** [ParsedCoinbase::serialized_without_witness_with_replaced_script] *)
Definition serialize_output_with (replacement_index : nat) (replacement_script : bytes) (index : nat)
    (output : ParsedOutput) (serialized : bytes) : res BlockStructureError bytes :=
  let script := if (index =? replacement_index)%nat then replacement_script else po_script output in
  size ← encode_compact_size (Z.of_nat (length script));
  Ok (serialized ++ arr (po_value output) ++ size ++ script).
Definition serialized_without_witness_with_replaced_script (c : ParsedCoinbase) (replacement_index : nat)
    (replacement_script : bytes) : res BlockStructureError bytes :=
  fail_if (length (pc_outputs c) <=? replacement_index)%nat BS_LengthOverflow;;
  serialized ← res_foldi (serialize_output_with replacement_index replacement_script) 0 (pc_outputs c)
                 (arr (pc_version c) ++ pc_inputs_and_output_count c);
  Ok (serialized ++ arr (pc_lock_time c)).

Section verify.
Context {W : PtrWidth} {H : Sha256} {H160 : Hash160} {K : Ecdsa}.

(** The signature check, once the solution is split into its items. *)
Definition check_signature (parsed : ParsedBlock) (commitment_index : nat) (modified_commitment : bytes)
    (signature_with_hash_type public_key : bytes) : res LayerTwoSignetError unit :=
  fail_if (negb (bool_decide (hash160 public_key = LAYER_TWO_SIGNET_P2WPKH))) SE_WrongPublicKeyHash;;
  strict ← expect (strict_der_encoding signature_with_hash_type);
  fail_if (negb strict) SE_InvalidDerSignature;;
  modified_coinbase ← map_err SE_Block
    (serialized_without_witness_with_replaced_script (pb_coinbase parsed) commitment_index modified_commitment);
  modified_txids ← expect (match pb_txids parsed with
                           | [] => None
                           | _ :: rest => Some (double_sha256 modified_coinbase :: rest)
                           end);
  '(modified_merkle_root, _) ← expect (merkle_root_and_mutation modified_txids);
  let spent_txid := virtual_spent_txid (mvb_header (pb_metadata parsed)) modified_merkle_root in
  hash_type ← ok_or (last signature_with_hash_type) SE_InvalidDerSignature;
  let sighash := signet_bip143_sighash spent_txid (byte_val hash_type) in
  der ← expect (n ← usize_sub (length signature_with_hash_type) 1; index_range 0 n signature_with_hash_type);
  signature ← ok_or (from_der der) SE_InvalidDerSignature;
  let signature := default signature (normalize_s signature) in
  key ← ok_or (from_sec1_bytes public_key) SE_InvalidPublicKey;
  fail_if (negb (verify_prehash key sighash signature)) SE_InvalidSignature.

Definition verify_parsed_layer_two_signet (parsed : ParsedBlock) : res LayerTwoSignetError unit :=
  if bool_decide (mvb_block_hash (pb_metadata parsed) = LAYER_TWO_SIGNET_GENESIS_INTERNAL) then Ok tt
  else
    commitment_index ← expect (witness_commitment_index (pc_outputs (pb_coinbase parsed)));
    commitment_index ← ok_or commitment_index SE_MissingWitnessCommitment;
    output ← expect (pc_outputs (pb_coinbase parsed) !! commitment_index);
    '(solution, modified_commitment) ← extract_solution_and_modified_script (po_script output);
    '(script_sig, witness) ← parse_solution solution;
    fail_if (negb (bool_decide (script_sig = []))) SE_NonEmptyScriptSig;;
    match witness with
    | [signature_with_hash_type; public_key] =>
        fail_if (bool_decide (signature_with_hash_type = [])) SE_WrongWitnessStack;;
        check_signature parsed commitment_index modified_commitment signature_with_hash_type public_key
    | _ => Err SE_WrongWitnessStack
    end.

Definition verify_layer_two_signet_block_solution (serialized_block : bytes)
    : res LayerTwoSignetError MerkleVerifiedBitcoinBlock :=
  parsed ← map_err SE_Block (parse_and_verify_block serialized_block);
  verify_parsed_layer_two_signet parsed;;
  Ok (pb_metadata parsed).

Record SignetPowMerkleBoundM7Transition : Type := MkSignetTransition {
  spt_next_parent_state : HeaderChainState;
  spt_commitment : PowMerkleBoundM7
}.

Definition verify_layer_two_signet_pow_merkle_bound_elements_m7_successor (prior : HeaderChainState)
    (serialized_block : bytes) : res LayerTwoSignetError SignetPowMerkleBoundM7Transition :=
  parsed ← map_err SE_Block (parse_and_verify_block serialized_block);
  verify_parsed_layer_two_signet parsed;;
  next_parent_state ← map_err SE_Header
    (verify_successor prior (arr (hdr_raw (mvb_header (pb_metadata parsed)))) LAYER_TWO_SIGNET);
  m7 ← map_err SE_Commitment (extract_elements_slot24_m7 (map po_script (pc_outputs (pb_coinbase parsed))));
  Ok {|
    spt_next_parent_state := next_parent_state;
    spt_commitment := {|
      pm7_parent_block_hash := mvb_block_hash (pb_metadata parsed);
      pm7_parent_height := hcs_height next_parent_state;
      pm7_coinbase_txid := mvb_coinbase_txid (pb_metadata parsed);
      pm7_output_index := m7_output_index m7;
      pm7_committed_child_hash := m7_committed_child_hash m7;
      pm7_transaction_count := mvb_transaction_count (pb_metadata parsed);
      pm7_block_weight := mvb_weight (pb_metadata parsed)
    |}
  |}.
End verify.
