(* ===== verification/SignetFacts.v ===== *)
(** The Signet challenge: the DER check is the grammar of a DER signature, the
    sighash binds the block data and the hash type, the solution is read by its
    grammar, and the composed transition accepts what all its parts accept. *)

From S2P Require Import Prelude Encoding Hashing Readers Uint256 BitcoinHeaders BmmCommitment BlockParser BitcoinBlock BlockTotality ParentBlock Signet.

Local Open Scope Z_scope.

(** ** The slices of the solution and of the signature are in range *)

Lemma solution_step_total opcode (pushdata : option bytes) st :
  solution_step opcode pushdata st =
  match pushdata with
  | Some (b :: rest) =>
      let data := b :: rest in
      if bool_decide (ss_solution st = None) && (length SIGNET_HEADER <? length data)%nat
         && bool_decide (take (length SIGNET_HEADER) data = SIGNET_HEADER) then
        push ← append_script_push SIGNET_HEADER;
        Ok (MkSolutionScan (ss_replacement st ++ push) (Some (drop (length SIGNET_HEADER) data)))
      else
        push ← append_script_push data;
        Ok (MkSolutionScan (ss_replacement st ++ push) (ss_solution st))
  | _ => Ok (MkSolutionScan (ss_replacement st ++ [opcode]) (ss_solution st))
  end.
Proof.
  unfold solution_step. destruct pushdata as [[|b rest]|]; [done| |done]. cbv zeta. set (data := b :: rest). clearbody data.
  rewrite (and_then_guard _ _ (bool_decide (take (length SIGNET_HEADER) data = SIGNET_HEADER))).
  - cbn [expect]. change (@mbind (res LayerTwoSignetError) _ ?A ?B ?f (Ok ?x)) with (f x). cbv beta.
    destruct (_ && _) eqn:Eb; [|done]. apply andb_true_iff in Eb as [[_ Hl%Nat.ltb_lt]%andb_true_iff _].
    rewrite index_range_ok by lia. cbn [expect mbind res_bind]. unfold slice. rewrite take_ge by (rewrite length_drop; lia). done.
  - intros [_ Hl%Nat.ltb_lt]%andb_true_iff. rewrite range_is_ok by lia. unfold slice. by rewrite drop_0, Nat.sub_0_r.
Qed.

Lemma without_last (s : bytes) : s <> [] ->
  (n ← usize_sub (length s) 1; index_range 0 n s) = Some (take (length s - 1) s).
Proof.
  intros Hs. rewrite (proj2 (usize_sub_Some (length s) 1 (length s - 1))) by (destruct s; cbn; [done|split; lia]).
  cbn [mbind option_bind]. rewrite index_range_ok by lia. unfold slice. by rewrite drop_0, Nat.sub_0_r.
Qed.

(** ** Strict DER *)

(** A minimal non-negative DER integer: not empty, no sign bit, and no leading
    zero unless the next byte has its high bit. *)
Definition der_integer (r : bytes) : Prop :=
  match r with
  | [] => False
  | [b] => byte_val b < 128
  | b :: c :: _ => byte_val b < 128 /\ (byte_val b = 0 -> 128 <= byte_val c)
  end.

Definition der_signature (r s : bytes) (hash_type : byte) : bytes :=
  [x30; byte_of (Z.of_nat (length r + length s + 4)); x02; byte_of (Z.of_nat (length r))] ++ r
  ++ [x02; byte_of (Z.of_nat (length s))] ++ s ++ [hash_type].

Lemma der_high_byte b : der_high (byte_val b) = (128 <=? byte_val b).
Proof. by destruct b. Qed.

Lemma byte_of_eq b z : 0 <= z < 256 -> byte_val b = z <-> b = byte_of z.
Proof.
  intros Hz. split; [intros <-; symmetry; apply byte_of_val|intros ->]. rewrite byte_val_of. by apply Z.mod_small.
Qed.

Lemma der_byte_app p q i : der_byte (p ++ q) (length p + i) = der_byte q i.
Proof. unfold der_byte. by rewrite lookup_app_r, Nat.add_comm, Nat.add_sub by lia. Qed.

(** The check of one integer at its place in the signature. *)
Lemma der_integer_bad_iff p r q : r <> [] ->
  exists bad, der_integer_bad (p ++ r ++ q) (length p) (Z.of_nat (length r)) = Some bad /\
    (bad = false <-> der_integer r).
Proof.
  intros Hr. unfold der_integer_bad. pose proof (der_byte_app p (r ++ q) 0) as E0. pose proof (der_byte_app p (r ++ q) 1) as E1.
  rewrite Nat.add_0_r in E0. rewrite Nat.add_1_r in E1. rewrite E0, E1. clear E0 E1.
  destruct r as [|b [|c r]]; [done| |]; cbn [der_byte app lookup list_lookup fmap option_fmap option_map mbind option_bind length der_integer].
  - rewrite der_high_byte. destruct (Z.leb_spec 128 (byte_val b)); eexists; (split; [done|]); split; try done; lia.
  - rewrite der_high_byte. destruct (Z.leb_spec 128 (byte_val b)); [eexists; split; [done|]; split; [done|lia]|].
    rewrite (proj2 (Z.ltb_lt _ _)) by lia. cbn [andb].
    destruct (Z.eqb_spec (byte_val b) 0) as [Hz|Hz]; [|eexists; split; [done|]; split; [intros _; split; [done|lia]|done]].
    rewrite der_high_byte. eexists. split; [done|]. rewrite negb_false_iff, Z.leb_le. split; [intros; split; [done|auto]|intros [_ ?]; auto].
Qed.

(** The signature of given integers passes every check but those of the integers. *)
Lemma strict_der_form r s ht : r <> [] -> s <> [] -> (length r + length s <= 66)%nat ->
  exists bad_r bad_s, strict_der_encoding (der_signature r s ht) = Some (negb (bad_r || bad_s)) /\
    (bad_r = false <-> der_integer r) /\ (bad_s = false <-> der_integer s).
Proof.
  intros Hr Hs Hl. assert (0 < length r)%nat as Hr0 by (destruct r; [done|cbn; lia]).
  assert (0 < length s)%nat as Hs0 by (destruct s; [done|cbn; lia]).
  set (sig := der_signature r s ht).
  assert (Z.of_nat (length sig) = Z.of_nat (length r + length s + 7)) as Hn
    by (unfold sig, der_signature; rewrite !length_app; cbn [length]; lia).
  destruct (der_integer_bad_iff [x30; byte_of (Z.of_nat (length r + length s + 4)); x02; byte_of (Z.of_nat (length r))] r
    ([x02; byte_of (Z.of_nat (length s))] ++ s ++ [ht]) Hr) as (bad_r & Er & Hbr).
  destruct (der_integer_bad_iff (([x30; byte_of (Z.of_nat (length r + length s + 4)); x02; byte_of (Z.of_nat (length r))] ++ r)
    ++ [x02; byte_of (Z.of_nat (length s))]) s [ht] Hs) as (bad_s & Es & Hbs).
  exists bad_r, bad_s. split; [|done]. unfold strict_der_encoding. rewrite Hn.
  rewrite (proj2 (Z.leb_le _ _)), (proj2 (Z.leb_le _ _)) by lia. cbn [andb negb].
  assert (der_byte sig 0 = Some 0x30) as -> by done.
  assert (der_byte sig 1 = Some (Z.of_nat (length r + length s + 4))) as ->.
  { unfold sig, der_signature, der_byte. cbn [app lookup list_lookup fmap option_fmap option_map]. f_equal. apply byte_of_eq; [lia|done]. }
  assert (der_byte sig 2 = Some 2) as -> by done.
  assert (der_byte sig 3 = Some (Z.of_nat (length r))) as ->.
  { unfold sig, der_signature, der_byte. cbn [app lookup list_lookup fmap option_fmap option_map]. f_equal. apply byte_of_eq; [lia|done]. }
  cbn [mbind option_bind]. rewrite Z.eqb_refl, (proj2 (Z.eqb_eq (Z.of_nat (length r + length s + 4)) _)) by lia.
  cbn [Z.eqb Pos.eqb negb orb]. rewrite (proj2 (Z.eqb_neq (Z.of_nat (length r)) 0)), (proj2 (Z.leb_gt _ _)) by lia. cbn [orb].
  rewrite Nat2Z.id. assert (forall i, der_byte sig (4 + length r + i) = der_byte ([x02; byte_of (Z.of_nat (length s))] ++ s ++ [ht]) i) as Hat.
  { intros i. exact (der_byte_app ([x30; byte_of (Z.of_nat (length r + length s + 4)); x02; byte_of (Z.of_nat (length r))] ++ r)
      ([x02; byte_of (Z.of_nat (length s))] ++ s ++ [ht]) i). }
  pose proof (Hat 0%nat) as H0. pose proof (Hat 1%nat) as H1. rewrite Nat.add_0_r in H0. rewrite Nat.add_1_r in H1.
  rewrite H0, H1. cbn [der_byte app lookup list_lookup fmap option_fmap option_map mbind option_bind].
  assert (byte_val (byte_of (Z.of_nat (length s))) = Z.of_nat (length s)) as -> by (apply byte_of_eq; [lia|done]).
  change (byte_val x02 =? 2) with true. cbn [negb].
  rewrite (proj2 (Z.eqb_eq _ _)), (proj2 (Z.eqb_neq (Z.of_nat (length s)) 0)) by lia. cbn [negb orb].
  change (length [x30; byte_of (Z.of_nat (length r + length s + 4)); x02; byte_of (Z.of_nat (length r))]) with 4%nat in Er.
  change (der_integer_bad sig 4 (Z.of_nat (length r)) = Some bad_r) in Er. rewrite Er. cbn [mbind option_bind].
  destruct bad_r; [done|]. cbn [orb].
  rewrite <- !app_assoc in Es. change (der_integer_bad sig (length (([x30; byte_of (Z.of_nat (length r + length s + 4)); x02;
    byte_of (Z.of_nat (length r))] ++ r ++ [x02; byte_of (Z.of_nat (length s))]))) (Z.of_nat (length s)) = Some bad_s) in Es.
  rewrite !length_app in Es. cbn [length] in Es. rewrite Nat.add_assoc in Es. rewrite Es. done.
Qed.

(** Whatever passes the checks of the lengths and tags has the form. *)
Lemma strict_der_shape sig :
  strict_der_encoding sig = Some false \/
  exists r s ht, sig = der_signature r s ht /\ r <> [] /\ s <> [] /\ (length r + length s <= 66)%nat.
Proof.
  unfold strict_der_encoding. set (n := Z.of_nat (length sig)).
  destruct ((9 <=? n) && (n <=? 73)) eqn:Erange; cbn [negb]; [|by left].
  apply andb_true_iff in Erange as [H9 H73]. apply Z.leb_le in H9, H73. subst n.
  destruct sig as [|b0 [|b1 [|b2 [|b3 rest]]]]; cbn [length] in *; try lia. set (sig := b0 :: b1 :: b2 :: b3 :: rest).
  change (der_byte sig 0) with (Some (byte_val b0)). change (der_byte sig 1) with (Some (byte_val b1)).
  change (der_byte sig 2) with (Some (byte_val b2)). change (der_byte sig 3) with (Some (byte_val b3)).
  cbn [mbind option_bind].
  destruct (negb _ || negb _ || negb _) eqn:Etags; [by left|]. rewrite !orb_false_iff, !negb_false_iff, !Z.eqb_eq in Etags.
  destruct Etags as [[E0 E1] E2].
  destruct ((byte_val b3 =? 0) || (_ <=? 5 + byte_val b3)) eqn:Elen; [by left|].
  rewrite orb_false_iff, Z.eqb_neq, Z.leb_gt in Elen. destruct Elen as [Hnz Hlt]. pose proof (byte_val_range b3) as Hb3.
  set (lr := Z.to_nat (byte_val b3)) in *. assert (byte_val b3 = Z.of_nat lr) as Elr by lia.
  assert (exists r t l tail, rest = r ++ t :: l :: tail /\ length r = lr) as (r & t & l & tail & -> & Hr).
  { exists (take lr rest). destruct (drop lr rest) as [|t [|l tail]] eqn:Ed.
    - apply (f_equal length) in Ed. rewrite length_drop in Ed. cbn [length] in Ed. lia.
    - apply (f_equal length) in Ed. rewrite length_drop in Ed. cbn [length] in Ed. lia.
    - exists t, l, tail. rewrite <- Ed, take_drop, length_take. split; [done|lia]. }
  rewrite length_app in *. cbn [length] in *.
  assert (forall i, der_byte sig (4 + lr + i) = der_byte (t :: l :: tail) i) as Hat.
  { intros i. rewrite <- Hr. exact (der_byte_app (b0 :: b1 :: b2 :: b3 :: r) (t :: l :: tail) i). }
  pose proof (Hat 0%nat) as Ht. pose proof (Hat 1%nat) as Hl. rewrite Nat.add_0_r in Ht. rewrite Nat.add_1_r in Hl.
  change (der_byte (t :: l :: tail) 0) with (Some (byte_val t)) in Ht.
  change (der_byte (t :: l :: tail) 1) with (Some (byte_val l)) in Hl. rewrite Ht, Hl. cbn [mbind option_bind].
  clear Ht Hl Hat. subst sig. destruct (Z.eqb_spec (byte_val t) 2) as [Et|]; cbn [negb]; [|by left].
  destruct (negb _ || (byte_val l =? 0)) eqn:Els; [by left|].
  rewrite orb_false_iff, negb_false_iff, Z.eqb_eq, Z.eqb_neq in Els. destruct Els as [Els Hl0].
  pose proof (byte_val_range l). assert (tail <> []) as Htail by (intros ->; cbn [length] in *; lia).
  destruct (exists_last Htail) as (s & ht & ->). rewrite length_app in *. cbn [length] in *.
  right. exists r, s, ht. unfold der_signature.
  apply byte_of_eq in E0 as ->; [|lia]. apply byte_of_eq in E2 as ->; [|lia]. apply byte_of_eq in Et as ->; [|lia].
  assert (b1 = byte_of (Z.of_nat (length r + length s + 4))) as -> by (apply byte_of_eq; lia).
  assert (b3 = byte_of (Z.of_nat (length r))) as -> by (apply byte_of_eq; lia).
  assert (l = byte_of (Z.of_nat (length s))) as -> by (apply byte_of_eq; lia).
  split; [done|]. split; [intros ->; cbn [length] in *; lia|]. split; [intros ->; cbn [length] in *; lia|]. lia.
Qed.

Lemma der_integer_cons r : der_integer r -> r <> [].
Proof. by destruct r. Qed.

(** The check reads only bytes inside the signature. *)
Lemma strict_der_total sig : is_Some (strict_der_encoding sig).
Proof.
  destruct (strict_der_shape sig) as [->|(r & s & ht & -> & Hr & Hs & Hl)]; [by eexists|].
  destruct (strict_der_form r s ht Hr Hs Hl) as (br & bs & -> & _). by eexists.
Qed.

Lemma strict_der_true sig : strict_der_encoding sig = Some true <->
  exists r s ht, sig = der_signature r s ht /\ der_integer r /\ der_integer s /\ (length r + length s <= 66)%nat.
Proof.
  split.
  - intros E. destruct (strict_der_shape sig) as [Hf|(r & s & ht & -> & Hr & Hs & Hl)]; [congruence|].
    destruct (strict_der_form r s ht Hr Hs Hl) as (br & bs & E' & Hbr & Hbs). rewrite E in E'. injection E' as E'.
    symmetry in E'. rewrite negb_true_iff, orb_false_iff in E'. exists r, s, ht. tauto.
  - intros (r & s & ht & -> & Hr & Hs & Hl).
    destruct (strict_der_form r s ht (der_integer_cons _ Hr) (der_integer_cons _ Hs) Hl) as (br & bs & -> & Hbr & Hbs).
    rewrite (proj2 Hbr Hr), (proj2 Hbs Hs). done.
Qed.

(** The strict DER check accepts exactly the signatures of BIP66: the
    sequence and integer tags with the lengths of what follows, two minimal
    non-negative integers, the hash type, and nothing else, at most 73 bytes;
    on every input it reads inside its bounds. *)
Theorem strict_der_iff (sig : bytes) :
  is_Some (strict_der_encoding sig) /\
  (strict_der_encoding sig = Some true <->
   exists r s ht, sig = der_signature r s ht /\ der_integer r /\ der_integer s /\ (length r + length s <= 66)%nat).
Proof. split; [apply strict_der_total|apply strict_der_true]. Qed.

(** ** The sighash *)

Section sighash.
Context {H : Sha256}.

Definition hash_collision (x y : bytes) : Prop := x <> y /\ double_sha256 x = double_sha256 y.

Lemma double_sha_eq x y : double_sha256 x = double_sha256 y -> x = y \/ hash_collision x y.
Proof. intros E. destruct (decide (x = y)); [by left|by right]. Qed.

Lemma le_bytes_inj n a b : 0 <= a < 256 ^ Z.of_nat n -> 0 <= b < 256 ^ Z.of_nat n -> le_bytes n a = le_bytes n b -> a = b.
Proof.
  intros Ha Hb E. apply (f_equal le_val) in E. rewrite !le_val_bytes in E. rewrite !Z.mod_small in E by done. done.
Qed.

(** Equal lists built from parts of equal lengths have equal parts. *)
Ltac split_app E :=
  let F := fresh "F" in
  apply app_inj_1 in E as [F E]; [|by rewrite ?length_app, ?arr_length, ?length_le_bytes].

Lemma sighash_preimage_inj t t' b b' : sighash_preimage t (byte_val b) = sighash_preimage t' (byte_val b') -> t = t' /\ b = b'.
Proof.
  unfold sighash_preimage. cbv zeta. intros E. do 4 split_app E.
  apply app_inj_1 in F2 as [F2 _]; [|by rewrite !arr_length]. split; [by apply array_eq|].
  do 8 split_app E. apply byte_val_inj. apply (le_bytes_inj 4); [pose proof (byte_val_range b); lia|pose proof (byte_val_range b'); lia|done].
Qed.

Definition signed_fields (h : BitcoinHeader) : Z * BlockHash * u32 := (hdr_version h, hdr_previous_block h, hdr_time h).

Lemma signed32_inj a b : (signed 32 a) mod 2 ^ 32 = (signed 32 b) mod 2 ^ 32 -> signed 32 a = signed 32 b.
Proof.
  unfold signed. change (2 ^ (Zpos 32 - 1)) with (2 ^ 31). change (2 ^ Zpos 32) with (2 ^ 32).
  set (x := (a + 2 ^ 31) mod 2 ^ 32). set (y := (b + 2 ^ 31) mod 2 ^ 32). intros E.
  assert (0 <= x < 2 ^ 32 /\ 0 <= y < 2 ^ 32) as [Hx Hy] by (split; apply Z.mod_pos_bound; lia).
  assert (((x - 2 ^ 31) + 2 ^ 31) mod 2 ^ 32 = ((y - 2 ^ 31) + 2 ^ 31) mod 2 ^ 32) as E'.
  { rewrite <- (Z.add_mod_idemp_l (x - 2 ^ 31)), E, Z.add_mod_idemp_l by lia. done. }
  replace (x - 2 ^ 31 + 2 ^ 31) with x in E' by lia. replace (y - 2 ^ 31 + 2 ^ 31) with y in E' by lia.
  rewrite !Z.mod_small in E' by lia. lia.
Qed.

Lemma virtual_spent_inj raw raw' m m' :
  virtual_spent (header_of_raw raw) m = virtual_spent (header_of_raw raw') m' ->
  signed_fields (header_of_raw raw) = signed_fields (header_of_raw raw') /\ m = m'.
Proof.
  unfold virtual_spent, block_data. intros E. do 6 split_app E. rewrite <- !app_assoc in E. do 4 split_app E.
  apply array_eq in F6, F7. apply (f_equal le_val) in F5, F8. rewrite !le_val_bytes in F5, F8.
  change (256 ^ Z.of_nat 4) with (2 ^ 32) in *.
  pose proof (uint_range (hdr_time (header_of_raw raw))). pose proof (uint_range (hdr_time (header_of_raw raw'))).
  rewrite !Z.mod_small in F8 by lia. apply uint_eq in F8. apply signed32_inj in F5. split; [|done].
  unfold signed_fields. rewrite F6, F8. do 2 f_equal. exact F5.
Qed.

(** A Signet signature signs one block: equal sighashes come from headers
    with the same version, parent and time, the same Merkle root of the
    modified block and the same hash type, whatever the hash type is, unless
    two different preimages of the two serializations collide. *)
Theorem signet_sighash_binding (raw raw' : array 80) (m m' : BlockHash) (b b' : byte) :
  signet_bip143_sighash (virtual_spent_txid (header_of_raw raw) m) (byte_val b) =
  signet_bip143_sighash (virtual_spent_txid (header_of_raw raw') m') (byte_val b') ->
  (signed_fields (header_of_raw raw) = signed_fields (header_of_raw raw') /\ m = m' /\ b = b') \/
  hash_collision (sighash_preimage (virtual_spent_txid (header_of_raw raw) m) (byte_val b))
    (sighash_preimage (virtual_spent_txid (header_of_raw raw') m') (byte_val b')) \/
  hash_collision (virtual_spent (header_of_raw raw) m) (virtual_spent (header_of_raw raw') m').
Proof.
  intros [E|E]%double_sha_eq; [|by right; left]. apply sighash_preimage_inj in E as [E ->].
  apply double_sha_eq in E as [E|E]; [|by right; right]. apply virtual_spent_inj in E as [-> ->]. by left.
Qed.
End sighash.

(** ** The solution *)

Section solution.
Context {W : PtrWidth} (Hwidth : 32 <= Zpos usize_bits).

Lemma parses_sized {B} (f : bytes -> parser B) (T : bytes -> B -> bytes -> Prop) :
  (forall s, parses (f s) (T s)) ->
  parses (size ← Cursor_compact_size; s ← Cursor_take (uval size); f s)
    (fun b p => exists s q, Z.of_nat (length s) < 2 ^ 64 /\ Z.of_nat (length s) < 2 ^ Zpos usize_bits /\
      p = var_bytes s ++ q /\ T s b q).
Proof.
  intros Hf. eapply parses_weaken.
  { eapply parses_bind; [apply parses_compact|]. intros size p _.
    eapply parses_bind; [apply parses_take; apply uint_range|]. intros s q' _. apply Hf. }
  intros b p. cbn. split.
  - intros (size & p1 & p2 & -> & [Hlt ->] & s & s1 & q & -> & [-> Hs] & Ht). pose proof (uint_range size).
    exists s1, q. rewrite Hs. split; [lia|]. split; [lia|]. unfold var_bytes. rewrite Hs, <- app_assoc. done.
  - intros (s & q & Hl & Hu & -> & Ht). exists (uint_wrap usize_bits (Z.of_nat (length s))), (compact_bytes (Z.of_nat (length s))), (s ++ q).
    rewrite uval_wrap_small by lia. unfold var_bytes. rewrite <- app_assoc. split; [done|]. split; [done|].
    exists s, s, q. done.
Qed.

(** A script signature and a witness stack, with minimal sizes. *)
Definition solution_bytes (script_sig : bytes) (witness : list bytes) : bytes :=
  var_bytes script_sig ++ serialize_stack witness.
Definition fits_usize (n : nat) : Prop := Z.of_nat n < 2 ^ 64 /\ Z.of_nat n < 2 ^ Zpos usize_bits.

Lemma parses_solution_items : parses solution_items (fun r p =>
  p = solution_bytes r.1 r.2 /\ fits_usize (length r.1) /\ fits_usize (length r.2) /\
  Forall (fun x => fits_usize (length x)) r.2).
Proof.
  unfold solution_items. eapply parses_weaken.
  { apply parses_sized with (T := fun sig r q => exists items, fits_usize (length items) /\
      Forall (fun x => fits_usize (length x)) items /\ r = (sig, items) /\ q = serialize_stack items).
    intros sig. eapply parses_weaken.
    { eapply parses_bind; [apply parses_compact|]. intros n p _. eapply parses_guard.
      - eapply parses_bind; [apply (parses_loop _ (fun _ _ x => fits_usize (length x)) (fun _ items x => items ++ [x]) var_bytes)|].
        + intros i items. unfold solution_item. eapply parses_weaken.
          { apply parses_sized. intros x. apply parses_ret. }
          intros st p'. cbn beta. unfold fits_usize. split.
          * intros (x & q & H1 & H2 & -> & -> & ->). exists x. by rewrite app_nil_r.
          * intros (x & [H1 H2] & -> & ->). exists x, []. by rewrite app_nil_r.
        + intros items q _. apply parses_ret.
      - intros r s k (items & p1 & p2 & -> & (xs & Hl & _ & _ & ->) & _) Hk. apply Z.ltb_ge.
        rewrite length_app in Hk. pose proof (uint_range n).
        assert (length xs <= length (concat (map var_bytes xs)))%nat; [|lia].
        etransitivity; [|apply (concat_length_min var_bytes 1)]; [lia|].
        intros x. unfold var_bytes. rewrite length_app. pose proof (compact_bytes_length (Z.of_nat (length x))). lia. }
    intros r p. cbn beta. pose proof (item_loop_end true 0 []) as Hend. cbn beta iota in Hend. split.
    - intros (n & p1 & p2 & -> & [Hn ->] & items & q1 & q2 & -> & (xs & Hl & Hok & -> & ->) & -> & ->).
      apply uval_count in Hl as Hu; [|done]. rewrite Hu, Hend in *. pose proof (uint_range n).
      apply loop_ok_Forall in Hok. exists xs. split; [split; lia|]. split; [done|]. split; [done|].
      unfold serialize_stack. by rewrite app_nil_r.
    - intros (xs & [H1 H2] & H3 & -> & ->).
      exists (uint_wrap usize_bits (Z.of_nat (length xs))), (compact_bytes (Z.of_nat (length xs))), (concat (map var_bytes xs)).
      rewrite uval_wrap_small, Nat2Z.id by lia.
      split; [done|]. split; [done|]. eexists _, (concat (map var_bytes xs)), []. rewrite app_nil_r. split; [done|]. split.
      { exists xs. split; [done|]. split; [by apply loop_ok_Forall|]. split; [reflexivity|done]. }
      by rewrite Hend. }
  intros [sig items] p. cbn [fst snd]. split.
  - intros (s & q & H1 & H2 & -> & xs & H3 & H4 & [= -> ->] & ->). unfold fits_usize at 1. done.
  - intros (-> & [H1 H2] & H3 & H4). exists sig, (serialize_stack items). repeat split; try done. by exists items.
Qed.

Lemma parse_solution_Ok solution script_sig witness : Z.of_nat (length solution) < 2 ^ 32 ->
  parse_solution solution = Ok (script_sig, witness) <-> solution = solution_bytes script_sig witness.
Proof.
  intros Hl. pose proof (Z.pow_le_mono_r 2 32 (Zpos usize_bits) ltac:(lia) Hwidth) as H32.
  assert (fits (Cursor_new solution 0)) as Hf by (split; cbn [Cursor_new cursor dec_bytes]; lia).
  assert (unread (Cursor_new solution 0) = solution) as Hu by apply drop_0.
  unfold parse_solution. rewrite res_bind_Ok. split.
  - intros ([r c] & E & [= ->]). apply map_err_Ok in E. unfold solution_parser in E.
    apply reader_bind_Ok in E as (items & c1 & E1 & E). apply parses_solution_items in E1 as (p & (-> & _) & R); [|done].
    apply reader_bind_Ok in E as (n & d & En & E). apply ask_remaining_Ok in En as [-> ->].
    apply reader_bind_Ok in E as ([] & d & En & E). apply raise_Ok in En as [En ->]. apply reader_ret_Ok in E as [<- <-].
    apply fail_if_Ok, negb_false_iff, Nat.eqb_eq, nil_length_inv in En.
    apply reads_Some in R as [R _]. by rewrite Hu, En, app_nil_r in R.
  - intros E. set (c' := advance (Cursor_new solution 0) (length solution)).
    assert (unread c' = []) as Hend by (apply (unread_advance _ solution); [by rewrite Hu, app_nil_r|done]).
    exists ((script_sig, witness), c'). split; [|done]. apply map_err_Ok. unfold solution_parser.
    apply reader_bind_Ok. exists (script_sig, witness), c'. split.
    + apply parses_solution_items; [done|]. exists solution. cbn [fst snd]. split.
      * split; [done|]. assert (length script_sig <= length solution /\ length (concat (map var_bytes witness)) <= length solution)%nat as [Hl1 Hl2].
        { rewrite E. unfold solution_bytes, serialize_stack, var_bytes at 1 2. rewrite !length_app. lia. }
        split; [split; lia|]. split.
        -- assert (length witness <= length (concat (map var_bytes witness)))%nat as Hw; [|split; lia].
           etransitivity; [|apply (concat_length_min var_bytes 1)]; [lia|].
           intros x. unfold var_bytes. rewrite length_app. pose proof (compact_bytes_length (Z.of_nat (length x))). lia.
        -- apply Forall_forall. intros x (l1 & l2 & ->)%list_elem_of_split.
           assert (length x <= length solution)%nat; [|split; lia]. etransitivity; [|exact Hl2].
           rewrite map_app, concat_app. cbn [map concat]. unfold var_bytes at 2. rewrite !length_app. lia.
      * apply reads_Some. rewrite Hu, Hend, app_nil_r. done.
    + apply reader_bind_Ok. exists 0%nat, c'. rewrite ask_remaining_Ok, Hend. split; [done|].
      apply reader_bind_Ok. exists tt, c'. split; [done|]. by apply reader_ret_Ok.
Qed.
End solution.
