(* ===== verification/SignetScript.v ===== *)
(** The commitment script of the Signet challenge, as a list of operations:
    [extract_solution_and_modified_script] cuts the first pushed solution out
    of it, and ends on every script. *)

From S2P Require Import Prelude Encoding Hashing Readers Uint256 BitcoinHeaders BmmCommitment BlockParser BitcoinBlock BlockTotality ParentBlock Signet SignetFacts.

Local Open Scope Z_scope.

Inductive script_op : Type :=
| op_code (opcode : byte)
| op_push (data : bytes).

(** The shortest push of [data]. *)
Definition push_bytes (data : bytes) : bytes :=
  let len := Z.of_nat (length data) in
  if len <? 0x4c then byte_of len :: data
  else if len <=? 2 ^ 8 - 1 then x4c :: byte_of len :: data
  else if len <=? 2 ^ 16 - 1 then x4d :: le_bytes 2 len ++ data
  else x4e :: le_bytes 4 len ++ data.
Definition op_bytes (o : script_op) : bytes :=
  match o with op_code b => [b] | op_push data => push_bytes data end.
Definition script_bytes_of (ops : list script_op) : bytes := concat (map op_bytes ops).
Definition canonical_op (o : script_op) : Prop :=
  match o with
  | op_code b => byte_val b = 0 \/ 0x4e < byte_val b
  | op_push data => data <> [] /\ Z.of_nat (length data) < 2 ^ 32
  end.

(** The first push of the header and more is cut to the header. *)
Fixpoint clear_solution (found : option bytes) (ops : list script_op) : option bytes * list script_op :=
  match ops with
  | [] => (found, [])
  | op_push data :: ops =>
      if bool_decide (found = None) && (length SIGNET_HEADER <? length data)%nat
         && bool_decide (take (length SIGNET_HEADER) data = SIGNET_HEADER) then
        let '(f, ops) := clear_solution (Some (drop (length SIGNET_HEADER) data)) ops in (f, op_push SIGNET_HEADER :: ops)
      else let '(f, ops) := clear_solution found ops in (f, op_push data :: ops)
  | op :: ops => let '(f, ops) := clear_solution found ops in (f, op :: ops)
  end.

Section script.
Context {W : PtrWidth} (Hwidth : 32 <= Zpos usize_bits).

Lemma append_push_Ok data : Z.of_nat (length data) < 2 ^ 32 -> append_script_push data = Ok (push_bytes data).
Proof.
  intros Hl. unfold append_script_push, push_bytes. cbv zeta. repeat case_match; try done.
  destruct (uint_try 32 (Z.of_nat (length data))) as [n|] eqn:En; cbn [ok_or mbind res_bind].
  - apply uint_try_Some in En. by rewrite En.
  - apply uint_try_None in En. lia.
Qed.

Lemma script_byte_read c b r : unread c = b :: r -> script_byte c = Ok (b, advance c 1).
Proof.
  intros Hu. unfold script_byte, unread in *.
  assert (dec_bytes c !! cursor c = Some b) as ->.
  { rewrite <- (Nat.add_0_r (cursor c)), <- lookup_drop, Hu. done. }
  unfold advance. by rewrite Nat.add_1_r.
Qed.

Lemma script_take_read c p r : fits c -> unread c = p ++ r -> script_take (Z.of_nat (length p)) c = Ok (p, advance c (length p)).
Proof.
  intros [Hc Hf] Hu. unfold script_take. assert (length (unread c) = length (dec_bytes c) - cursor c)%nat as Hlu by apply length_drop.
  rewrite Hu, length_app in Hlu. destruct (usize_try _) as [e|] eqn:Ee.
  - apply usize_try_Some in Ee. rewrite Ee, (proj2 (Z.leb_le _ _)) by lia. unfold slice, advance.
    replace (Z.to_nat (Z.of_nat (cursor c) + Z.of_nat (length p))) with (cursor c + length p)%nat by lia.
    replace (cursor c + length p - cursor c)%nat with (length p) by lia.
    unfold unread in Hu. by rewrite Hu, take_app_length.
  - apply uint_try_None in Ee. lia.
Qed.

Lemma fits_advance c p r : fits c -> unread c = p ++ r -> fits (advance c (length p)).
Proof.
  intros [Hc Hf] Hu. assert (length (unread c) = length (dec_bytes c) - cursor c)%nat as Hlu by apply length_drop.
  rewrite Hu, length_app in Hlu. split; cbn [advance cursor dec_bytes]; lia.
Qed.

(** Reading a push whose length field is already read. *)
Lemma read_push c p data r opcode k : fits c -> unread c = p ++ data ++ r ->
  push_length opcode (advance c 1) = Ok (Some (Z.of_nat (length data)), advance c (length p)) ->
  script_byte c = Ok (opcode, advance c 1) -> k = (length p + length data)%nat ->
  read_script_op c = Ok ((opcode, Some data), advance c k).
Proof.
  intros Hf Hu Hp Hb ->. unfold read_script_op. unfold mbind, reader_bind. rewrite Hb, Hp.
  rewrite (script_take_read _ data r); [|by eapply fits_advance|by eapply unread_advance].
  by rewrite advance_advance.
Qed.

Lemma read_op c o r : fits c -> canonical_op o -> unread c = op_bytes o ++ r ->
  exists opcode, read_script_op c =
    Ok ((opcode, match o with op_code _ => None | op_push data => Some data end), advance c (length (op_bytes o))) /\
    match o with op_code b => opcode = b | op_push _ => True end.
Proof.
  intros Hf Hcan Hu. destruct o as [b|data]; cbn [op_bytes canonical_op] in *.
  - exists b. split; [|done]. unfold read_script_op, mbind, reader_bind. rewrite (script_byte_read c b r Hu).
    unfold push_length. cbv zeta. pose proof (byte_val_range b).
    destruct (Z.leb_spec 1 (byte_val b)), (Z.leb_spec (byte_val b) 0x4b); cbn [andb]; try lia;
      rewrite ?(proj2 (Z.eqb_neq (byte_val b) _)) by lia; done.
  - destruct Hcan as [Hne Hl]. assert (0 < length data)%nat by (destruct data; [done|cbn; lia]).
    unfold push_bytes in *. set (len := Z.of_nat (length data)) in *.
    destruct (Z.ltb_spec len 0x4c).
    { assert (byte_val (byte_of len) = len) as Hb by (apply byte_of_eq; [lia|done]).
      exists (byte_of len). split; [|done]. apply (read_push c [byte_of len] data r); [done..| |by apply (script_byte_read c _ (data ++ r))|done].
      unfold push_length. cbv zeta. rewrite Hb, (proj2 (Z.leb_le 1 _)), (proj2 (Z.leb_le _ _)) by lia. done. }
    destruct (Z.leb_spec len (2 ^ 8 - 1)).
    { assert (byte_val (byte_of len) = len) as Hb by (apply byte_of_eq; [lia|done]).
      exists x4c. split; [|done]. apply (read_push c [x4c; byte_of len] data r); [done..| |by apply (script_byte_read c _ (byte_of len :: data ++ r))|done].
      unfold push_length. cbv zeta. change (1 <=? byte_val x4c) with true. change (byte_val x4c <=? 75) with false.
      change (byte_val x4c =? 76) with true. cbn [andb]. unfold mbind, reader_bind.
      rewrite (script_byte_read (advance c 1) (byte_of len) (data ++ r)); [|by eapply (unread_advance _ [x4c])].
      rewrite advance_advance, Hb. done. }
    destruct (Z.leb_spec len (2 ^ 16 - 1)).
    { exists x4d. cbn [app] in Hu. rewrite <- app_assoc in Hu. split; [|done].
      apply (read_push c (x4d :: le_bytes 2 len) data r); [done|done| |by apply (script_byte_read c _ (le_bytes 2 len ++ data ++ r))|exact (length_app (x4d :: le_bytes 2 len) data)].
      unfold push_length. cbv zeta. change (byte_val x4d) with 77. cbn [Z.leb Z.eqb Z.compare Pos.compare Pos.compare_cont Pos.eqb andb].
      unfold mbind, reader_bind.
      change (script_take 2 (advance c 1)) with (script_take (Z.of_nat (length (le_bytes 2 len))) (advance c 1)).
    rewrite (script_take_read (advance c 1) (le_bytes 2 len) (data ++ r)); [|by apply (fits_advance c [x4d] (le_bytes 2 len ++ data ++ r))|by eapply (unread_advance _ [x4d])].
      rewrite advance_advance, le_val_bytes, Z.mod_small by (change (256 ^ Z.of_nat 2) with (2 ^ 16); lia). done. }
    exists x4e. cbn [app] in Hu. rewrite <- app_assoc in Hu. split; [|done].
    apply (read_push c (x4e :: le_bytes 4 len) data r); [done|done| |by apply (script_byte_read c _ (le_bytes 4 len ++ data ++ r))|exact (length_app (x4e :: le_bytes 4 len) data)].
    unfold push_length. cbv zeta. change (byte_val x4e) with 78. cbn [Z.leb Z.eqb Z.compare Pos.compare Pos.compare_cont Pos.eqb andb].
    unfold mbind, reader_bind.
    change (script_take 4 (advance c 1)) with (script_take (Z.of_nat (length (le_bytes 4 len))) (advance c 1)).
    rewrite (script_take_read (advance c 1) (le_bytes 4 len) (data ++ r)); [|by apply (fits_advance c [x4e] (le_bytes 4 len ++ data ++ r))|by eapply (unread_advance _ [x4e])].
    rewrite advance_advance, le_val_bytes, Z.mod_small by (change (256 ^ Z.of_nat 4) with (2 ^ 32); lia).
    unfold raise. destruct (usize_try len) as [n|] eqn:En; cbn [ok_or].
    + apply usize_try_Some in En. rewrite En. done.
    + apply uint_try_None in En. pose proof (Z.pow_le_mono_r 2 32 (Zpos usize_bits) ltac:(lia) Hwidth). lia.
Qed.

Lemma op_bytes_length o : (1 <= length (op_bytes o))%nat.
Proof. destruct o as [b|d]; cbn [op_bytes length]; [lia|]. unfold push_bytes. cbv zeta. repeat case_match; cbn [length]; lia. Qed.

Lemma step_op o opcode found repl : canonical_op o ->
  match o with op_code b => opcode = b | op_push _ => True end ->
  solution_step opcode (match o with op_code _ => None | op_push data => Some data end) (MkSolutionScan repl found) =
  Ok (match o with
      | op_push data =>
          if bool_decide (found = None) && (length SIGNET_HEADER <? length data)%nat
             && bool_decide (take (length SIGNET_HEADER) data = SIGNET_HEADER)
          then MkSolutionScan (repl ++ op_bytes (op_push SIGNET_HEADER)) (Some (drop (length SIGNET_HEADER) data))
          else MkSolutionScan (repl ++ op_bytes o) found
      | op_code _ => MkSolutionScan (repl ++ op_bytes o) found
      end).
Proof.
  destruct o as [b|data]; cbn [canonical_op].
  - intros _ ->. done.
  - intros [Hne Hl] _. destruct data as [|d data]; [done|]. rewrite solution_step_total. cbv zeta. cbn [ss_solution ss_replacement].
    destruct (_ && _); [rewrite append_push_Ok by done; done|]. rewrite append_push_Ok by done. done.
Qed.

Lemma solution_loop_ops ops : forall fuel c found repl, (length ops <= fuel)%nat -> fits c -> Forall canonical_op ops ->
  unread c = script_bytes_of ops ->
  solution_loop fuel c (MkSolutionScan repl found) =
  Ok (MkSolutionScan (repl ++ script_bytes_of (clear_solution found ops).2) (clear_solution found ops).1).
Proof.
  induction ops as [|o ops IH]; intros fuel c found repl Hfuel Hf Hcan Hu.
  - assert ((length (dec_bytes c) <=? cursor c)%nat = true) as He.
    { apply Nat.leb_le. apply (f_equal length) in Hu. unfold unread in Hu. rewrite length_drop in Hu. cbn in Hu. lia. }
    destruct fuel; cbn [solution_loop]; rewrite He; cbn; by rewrite app_nil_r.
  - apply Forall_cons in Hcan as [Ho Hops]. change (script_bytes_of (o :: ops)) with (op_bytes o ++ script_bytes_of ops) in Hu.
    pose proof (op_bytes_length o) as Hlen. cbn [length] in Hfuel. destruct fuel as [|fuel]; [lia|].
    assert ((length (dec_bytes c) <=? cursor c)%nat = false) as He.
    { apply Nat.leb_gt. apply (f_equal length) in Hu. unfold unread in Hu. rewrite length_drop, length_app in Hu. lia. }
    cbn [solution_loop]. rewrite He. destruct (read_op c o (script_bytes_of ops) Hf Ho Hu) as (opcode & -> & Hop).
    rewrite (step_op o opcode found repl Ho Hop). cbn [mbind res_bind].
    assert (fits (advance c (length (op_bytes o)))) as Hf' by by eapply fits_advance.
    assert (unread (advance c (length (op_bytes o))) = script_bytes_of ops) as Hu' by by eapply unread_advance.
    destruct o as [b|data]; cbn [clear_solution]; [|destruct (_ && _)]; rewrite IH by (done || lia);
      destruct (clear_solution _ ops) as [f ops'] eqn:Ec; cbn [fst snd]; rewrite <- app_assoc; done.
Qed.

(** On a script of codes and shortest pushes, extracting the Signet
    solution is cutting it out: the data after the header of the first push
    that has any is the solution, the script that is signed keeps that push as
    the bare header and every other operation as it was, and a script without
    such a push has no solution. *)
Theorem signet_extract_spec (ops : list script_op) :
  Forall canonical_op ops -> Z.of_nat (length (script_bytes_of ops)) < 2 ^ 32 ->
  extract_solution_and_modified_script (script_bytes_of ops) =
  match clear_solution None ops with
  | (Some solution, ops') => Ok (solution, script_bytes_of ops')
  | (None, _) => Err SE_MissingSolution
  end.
Proof.
  intros Hcan Hl. pose proof (Z.pow_le_mono_r 2 32 (Zpos usize_bits) ltac:(lia) Hwidth) as H32.
  assert (length ops <= length (script_bytes_of ops))%nat as Hops.
  { clear Hcan Hl. unfold script_bytes_of. induction ops as [|o ops IH]; [done|]. cbn [map concat length]. rewrite length_app.
    pose proof (op_bytes_length o). lia. }
  unfold extract_solution_and_modified_script. rewrite (solution_loop_ops ops); [|done| |done|apply drop_0].
  - cbn [mbind res_bind ss_solution ss_replacement app]. by destruct (clear_solution None ops) as [[s|] ops'].
  - split; cbn [Cursor_new cursor dec_bytes]; lia.
Qed.
End script.

(** ** The loop ends on every script *)

Section total.
Context {W : PtrWidth}.

Definition forward {A : Type} (m : reader LayerTwoSignetError A) : Prop :=
  forall c, meets any_error (fun r => (cursor c <= cursor r.2)%nat /\ dec_bytes r.2 = dec_bytes c) (m c).

Lemma forward_bind {A B} (m : reader LayerTwoSignetError A) (f : A -> reader LayerTwoSignetError B) :
  forward m -> (forall a, forward (f a)) -> forward (m ≫= f).
Proof.
  intros Hm Hf c. specialize (Hm c). unfold mbind, reader_bind. destruct (m c) as [[a c']|e|]; [|exact I|done].
  cbn [meets fst snd] in Hm. destruct Hm as [H1 H2]. eapply meets_weaken; [apply Hf|]. intros [b c2] _ [H3 H4]. cbn [snd] in *.
  split; [lia|congruence].
Qed.
Lemma forward_ret {A} (a : A) : forward (mret a).
Proof. intros c. cbn. done. Qed.
Lemma forward_byte : forward script_byte.
Proof. intros c. unfold script_byte. destruct (_ !! _); [|exact I]. cbn [meets snd cursor dec_bytes]. split; [lia|done]. Qed.
Lemma forward_take len : 0 <= len -> forward (script_take len).
Proof.
  intros Hl c. unfold script_take. destruct (usize_try _) as [e|] eqn:Ee; [|exact I]. apply usize_try_Some in Ee.
  destruct (_ <=? _); [|exact I]. cbn [meets snd cursor dec_bytes]. split; [lia|done].
Qed.

Lemma push_length_forward opcode c : meets any_error (fun r => (cursor c <= cursor r.2)%nat /\ dec_bytes r.2 = dec_bytes c /\
  forall l, r.1 = Some l -> 0 <= l) (push_length opcode c).
Proof.
  unfold push_length. cbv zeta. pose proof (byte_val_range opcode).
  destruct (_ && _) eqn:E1; [cbn; split; [done|]; split; [done|]; intros l [= <-]; lia|].
  destruct (_ =? 0x4c).
  { unfold mbind, reader_bind. pose proof (forward_byte c) as Hb. destruct (script_byte c) as [[b c']|e|]; [|exact I|done].
    cbn in *. split; [tauto|]. split; [tauto|]. intros l [= <-]. apply byte_val_range. }
  destruct (_ =? 0x4d).
  { unfold mbind, reader_bind. pose proof (forward_take 2 ltac:(lia) c) as Hb. destruct (script_take 2 c) as [[b c']|e|]; [|exact I|done].
    cbn in *. split; [tauto|]. split; [tauto|]. intros l [= <-]. apply le_val_range. }
  destruct (_ =? 0x4e); [|cbn; done].
  unfold mbind, reader_bind, raise. pose proof (forward_take 4 ltac:(lia) c) as Hb. destruct (script_take 4 c) as [[b c']|e|]; [|exact I|done].
  destruct (usize_try (le_val b)) as [n|]; cbn in *; [|exact I]. split; [tauto|]. split; [tauto|]. intros l [= <-]. apply uint_range.
Qed.

(** An operation moves the position. *)
Lemma read_script_op_moves c : meets any_error (fun r => (cursor c < cursor r.2)%nat /\ dec_bytes r.2 = dec_bytes c) (read_script_op c).
Proof.
  unfold read_script_op, mbind, reader_bind. unfold script_byte at 1. destruct (dec_bytes c !! cursor c) as [b|]; [|exact I].
  set (c1 := MkDecoder (dec_bytes c) (S (cursor c))).
  assert (cursor c1 = S (cursor c)) as Hc1 by done. assert (dec_bytes c1 = dec_bytes c) as Hd1 by done. clearbody c1.
  pose proof (push_length_forward b c1) as Hp.
  destruct (push_length b c1) as [[len c2]|e|]; [|exact I|done]. cbn [meets fst snd] in Hp. destruct Hp as (H1 & H2 & H3).
  destruct len as [l|]; [|cbn [meets mret reader_ret snd]; split; [lia|congruence]].
  pose proof (forward_take l (H3 l eq_refl) c2) as Ht. destruct (script_take l c2) as [[d c3]|e|]; [|exact I|done].
  cbn [meets mret reader_ret fst snd] in *. destruct Ht as [H4 H5]. split; [lia|congruence].
Qed.

Lemma append_push_safe data : meets any_error anything (append_script_push data).
Proof. unfold append_script_push. cbv zeta. repeat case_match; try done. by destruct (uint_try _ _). Qed.

Lemma solution_step_safe opcode pushdata st : meets any_error anything (solution_step opcode pushdata st).
Proof.
  rewrite solution_step_total. destruct pushdata as [[|b rest]|]; [done| |done]. cbv zeta.
  destruct (_ && _); (eapply meets_bind; [apply append_push_safe|done]).
Qed.

Lemma solution_loop_safe fuel c st : (length (dec_bytes c) - cursor c <= fuel)%nat ->
  meets any_error anything (solution_loop fuel c st).
Proof.
  revert c st. induction fuel as [|fuel IH]; intros c st Hf; cbn [solution_loop].
  - rewrite (proj2 (Nat.leb_le _ _)) by lia. done.
  - destruct (Nat.leb_spec (length (dec_bytes c)) (cursor c)); [done|]. pose proof (read_script_op_moves c) as Hm.
    destruct (read_script_op c) as [[[opcode pushdata] c']|e|]; [|done..]. cbn [meets snd] in Hm. destruct Hm as [H1 H2].
    eapply meets_bind; [apply solution_step_safe|]. intros st' _ _. apply IH. rewrite H2. lia.
Qed.

Lemma extract_safe script : meets any_error anything (extract_solution_and_modified_script script).
Proof.
  unfold extract_solution_and_modified_script. eapply meets_bind; [apply solution_loop_safe; cbn; lia|].
  intros st _ _. eapply meets_bind; [by apply meets_ok_or|]. done.
Qed.

Lemma safe_map_err {E F A : Type} (f : E -> F) (m : res E A) (Q : A -> Prop) :
  meets any_error Q m -> meets any_error Q (map_err f m).
Proof. by destruct m. Qed.

Lemma parse_solution_safe solution : meets any_error anything (parse_solution solution).
Proof.
  unfold parse_solution. eapply meets_bind; [apply safe_map_err|by intros [r c] _ _].
  assert (safe anything solution_items) as Hs.
  { unfold solution_items. eapply safe_bind; [apply safe_compact|]. intros n _. do 3 (eapply safe_bind; [solve [eauto using safe_compact with safe]|]; intros ? _).
    eapply safe_bind; [apply safe_fail_if|]. intros _ _. eapply safe_bind; [apply safe_any_loop|intros w _; by apply safe_ret].
    intros i items. unfold solution_item. eapply safe_bind; [apply safe_compact|]. intros m _. safe. }
  unfold solution_parser. pose proof (safe_bind anything anything solution_items
    (fun items => remaining ← ask_remaining; raise (fail_if (negb (remaining =? 0)%nat) BS_TrailingBytes);; mret items) Hs) as Hb.
  eapply meets_weaken; [apply Hb; [intros items _; safe|]|done]. unfold inside, Cursor_new. cbn. lia.
Qed.

Context {H : Sha256} {H160 : Hash160} {K : Ecdsa}.

Lemma replaced_safe c i script : meets any_error anything (serialized_without_witness_with_replaced_script c i script).
Proof.
  unfold serialized_without_witness_with_replaced_script. apply meets_fail_then; [done|]. intros _.
  apply (meets_bind _ anything); [|done]. eapply meets_weaken; [apply (meets_foldi any_error _ (fun _ => anything)); [done|]|done].
  intros k o acc _ _. unfold serialize_output_with. cbv zeta. apply (meets_bind _ anything); [|done].
  unfold encode_compact_size. repeat case_match; try done; by destruct (uint_try _ _).
Qed.

Lemma check_signature_safe pb i modified signature key : signature <> [] -> pb_txids pb <> [] ->
  meets any_error anything (check_signature pb i modified signature key).
Proof.
  intros Hsig Htx. unfold check_signature. apply meets_fail_then; [done|]. intros _.
  destruct (strict_der_total signature) as [strict ->]. cbn [expect mbind res_bind]. apply meets_fail_then; [done|]. intros _.
  eapply meets_bind; [apply safe_map_err, replaced_safe|]. intros cb _ _.
  destruct (pb_txids pb) as [|t rest]; [done|]. cbn [expect mbind res_bind].
  destruct (merkle_root_total (double_sha256 cb :: rest)) as [[root flag] ->]; [done|]. cbn [expect mbind res_bind]. cbv zeta.
  eapply meets_bind; [by apply meets_ok_or|]. intros ht _ _. rewrite without_last by done. cbn [expect mbind res_bind].
  do 2 (eapply meets_bind; [by apply meets_ok_or|]; intros ? _ _). by destruct (negb _).
Qed.

Lemma parse_block_txids bs pb : parse_and_verify_block bs = Ok pb -> pb_txids pb <> [].
Proof.
  unfold parse_and_verify_block. intros E. rewrite !fail_then in E. destruct E as (_ & _ & E).
  apply res_bind_Ok in E as (hb & Hhb%expect_Ok%index_range_Some & E).
  apply res_bind_Ok in E as (h & _ & E). apply res_bind_Ok in E as ([[n scan] c] & Hp & E). cbn beta iota in E.
  pose proof (safe_block_transactions (Cursor_new bs BITCOIN_HEADER_LEN) ltac:(unfold inside; apply Hhb)) as [Hs _]%(fun H => meets_Ok _ _ _ _ H Hp). cbn [fst snd] in Hs.
  rewrite fail_then in E. destruct E as [_ E]. apply res_bind_Ok in E as (w & _ & E). rewrite fail_then in E. destruct E as [_ E].
  apply res_bind_Ok in E as ([root flag] & _ & E). rewrite !fail_then in E. destruct E as (_ & _ & E).
  do 6 (apply res_bind_Ok in E as (? & _ & E)). injection E as <-. cbn [pb_txids].
  destruct (bk_txids scan); cbn [length] in Hs; [lia|done].
Qed.

Lemma verify_parsed_safe pb : pb_txids pb <> [] -> meets any_error anything (verify_parsed_layer_two_signet pb).
Proof.
  intros Htx. unfold verify_parsed_layer_two_signet. destruct (bool_decide _); [done|].
  rewrite commitment_index_total. cbn [expect]. change (@mbind (res LayerTwoSignetError) _ ?A ?B ?f (Ok ?x)) with (f x). cbv beta.
  eapply meets_bind; [by apply meets_ok_or|]. intros i _ Hi. apply commitment_index_lookup in Hi as (out & Ho & _).
  rewrite Ho. cbn [expect mbind res_bind]. eapply meets_bind; [apply extract_safe|]. intros [solution modified] _ _.
  eapply meets_bind; [apply parse_solution_safe|]. intros [sig witness] _ _. apply meets_fail_then; [done|]. intros _.
  destruct witness as [|signature [|key [|]]]; try done. apply meets_fail_then; [done|]. intros Hne%bool_decide_eq_false.
  by apply check_signature_safe.
Qed.

Lemma signet_verify_safe bs : meets any_error anything (verify_layer_two_signet_block_solution bs).
Proof.
  unfold verify_layer_two_signet_block_solution. eapply meets_bind; [apply safe_map_err, parse_block_safe|].
  intros pb Hpb _. apply map_err_Ok, parse_block_txids in Hpb. eapply meets_bind; [by apply verify_parsed_safe|]. done.
Qed.

(** The Signet verification is total: on every byte string it accepts the
    block or reports an error, so the script loop ends, every index is in range
    and the Merkle root of the modified block exists. *)
Theorem signet_verify_total (bs : bytes) : exists r : LayerTwoSignetError + MerkleVerifiedBitcoinBlock,
  verify_layer_two_signet_block_solution bs = match r with inl e => Err e | inr b => Ok b end.
Proof.
  pose proof (signet_verify_safe bs) as Hm.
  destruct (verify_layer_two_signet_block_solution bs) as [b|e|]; [by exists (inr b)|by exists (inl e)|done].
Qed.
End total.
