(* ===== verification/SignetTransition.v ===== *)
(** The composed Signet transition: it accepts exactly a valid block whose
    solution signs it, whose header extends the chain and whose coinbase commits
    to one child. *)

From S2P Require Import Prelude Encoding Hashing Readers Uint256 BitcoinHeaders BmmCommitment BlockParser BitcoinBlock BlockTotality ParentBlock.
From S2P Require Import Signet SignetFacts SignetScript.

Local Open Scope Z_scope.

(** The transaction with the script of one output replaced. *)
Definition replace_output (i : nat) (script : bytes) (k : nat) (o : ParsedOutput) : ParsedOutput :=
  if (k =? i)%nat then MkParsedOutput (po_value o) script else o.
Definition replace_script (tx : Tx) (i : nat) (script : bytes) : Tx :=
  MkTx (tx_version tx) (tx_inputs tx) (imap (replace_output i script) (tx_outputs tx)) None (tx_lock_time tx).

Section transition.
Context {W : PtrWidth} (Hwidth : 32 <= Zpos usize_bits) {H : Sha256} {H160 : Hash160} {K : Ecdsa}.

Definition encodable (script : bytes) : Prop := Z.of_nat (length script) < 2 ^ 64.

Lemma serialize_output_with_Ok i script k o acc b :
  serialize_output_with i script k o acc = Ok b <->
  encodable (po_script (replace_output i script k o)) /\ b = acc ++ serialize_out (replace_output i script k o).
Proof.
  unfold serialize_output_with, encodable, replace_output, serialize_out, var_bytes. cbv zeta. rewrite res_bind_Ok.
  destruct (k =? i)%nat; cbn [po_value po_script]; setoid_rewrite encode_compact_Ok; try lia; naive_solver.
Qed.

Lemma serialize_outputs_Ok i script outs k acc b :
  res_foldi (serialize_output_with i script) k outs acc = Ok b <->
  Forall (fun o => encodable (po_script o)) (imap (fun j => replace_output i script (k + j)) outs) /\
  b = acc ++ concat (map serialize_out (imap (fun j => replace_output i script (k + j)) outs)).
Proof.
  revert k acc. induction outs as [|o outs IH]; intros k acc; cbn [res_foldi imap map concat].
  - rewrite app_nil_r. split; [intros [= <-]; split; [constructor|done]|by intros [_ ->]].
  - rewrite res_bind_Ok. setoid_rewrite serialize_output_with_Ok. setoid_rewrite IH.
    rewrite Nat.add_0_r, Forall_cons.
    assert (imap ((fun j => replace_output i script (k + j)) ∘ S) outs = imap (fun j => replace_output i script (S k + j)) outs) as ->.
    { apply imap_ext. intros j x _. cbn. by rewrite Nat.add_succ_r. }
    split.
    + intros (a & [Ho ->] & Hf & ->). rewrite <- app_assoc. done.
    + intros [[Ho Hf] ->]. eexists. split; [split; [done|reflexivity]|]. rewrite <- app_assoc. done.
Qed.

Lemma replaced_serialization cb i script b : wf_tx cb ->
  serialized_without_witness_with_replaced_script (coinbase_part cb) i script = Ok b <->
  (i < length (tx_outputs cb))%nat /\ encodable script /\ b = serialize_base (replace_script cb i script).
Proof.
  intros [_ [Hc Hs _ _] _]. unfold serialized_without_witness_with_replaced_script.
  rewrite fail_then, Nat.leb_gt, res_bind_Ok. setoid_rewrite serialize_outputs_Ok.
  cbn [coinbase_part pc_version pc_inputs_and_output_count pc_outputs pc_lock_time].
  change (imap (fun j => replace_output i script (0 + j)) (tx_outputs cb)) with (imap (replace_output i script) (tx_outputs cb)).
  assert ((arr (tx_version cb) ++ serialize_ins (tx_inputs cb) ++ compact_bytes (Z.of_nat (length (tx_outputs cb)))) ++
    concat (map serialize_out (imap (replace_output i script) (tx_outputs cb))) ++ arr (tx_lock_time cb) =
    serialize_base (replace_script cb i script)) as Hser.
  { unfold serialize_base, replace_script. cbn [tx_version tx_inputs tx_outputs tx_lock_time].
    unfold serialize_outs. rewrite length_imap, <- !app_assoc. done. }
  assert ((i < length (tx_outputs cb))%nat -> Forall (fun o => encodable (po_script o)) (imap (replace_output i script) (tx_outputs cb)) <->
    encodable script) as Hf.
  { intros Hi. rewrite Forall_lookup. setoid_rewrite list_lookup_imap_Some. split.
    - intros Hall. destruct (lookup_lt_is_Some_2 _ _ Hi) as [o Ho].
      specialize (Hall i (replace_output i script i o) (ex_intro _ o (conj Ho eq_refl))).
      unfold replace_output in Hall. by rewrite Nat.eqb_refl in Hall.
    - intros He k x (o & Ho & ->). unfold replace_output. destruct (k =? i)%nat; [done|].
      apply (Forall_lookup_1 _ _ _ _ Hs) in Ho. unfold encodable. change BITCOIN_MAX_COINBASE_OUTPUT_SCRIPT_BYTES with 1000000 in Ho. lia. }
  split.
  - intros (Hi & a & [Ha ->] & [= <-]). split; [done|]. split; [by apply Hf|]. by rewrite <- Hser, <- !app_assoc.
  - intros (Hi & He & ->). split; [done|]. eexists. split; [split; [by apply Hf|reflexivity]|].
    rewrite <- Hser, <- !app_assoc. done.
Qed.

(** The block is the Signet genesis, or its coinbase carries the solution: a
    P2WPKH witness of the frozen key, in strict DER, over the virtual
    transaction that spends the block with the solution cut out. *)
Definition signet_authorized (raw : array 80) (cb : Tx) (rest : list Tx) : Prop :=
  double_sha256 (arr raw) = LAYER_TWO_SIGNET_GENESIS_INTERNAL \/
  exists i out modified signature key root flag r s hash_type sig vk,
    commitment_output (tx_outputs cb) = Some i /\ tx_outputs cb !! i = Some out /\
    extract_solution_and_modified_script (po_script out) = Ok (solution_bytes [] [signature; key], modified) /\
    encodable modified /\
    hash160 key = LAYER_TWO_SIGNET_P2WPKH /\
    (signature = der_signature r s hash_type /\ der_integer r /\ der_integer s /\ (length r + length s <= 66)%nat) /\
    merkle_root_and_mutation (txid (replace_script cb i modified) :: map txid rest) = Some (root, flag) /\
    from_der (take (length signature - 1) signature) = Some sig /\ from_sec1_bytes key = Some vk /\
    verify_prehash vk (signet_bip143_sighash (virtual_spent_txid (header_of_raw raw) root) (byte_val hash_type))
      (default sig (normalize_s sig)) = true.

Lemma der_signature_last r s ht : last (der_signature r s ht) = Some ht.
Proof. unfold der_signature. rewrite !app_assoc. apply last_snoc. Qed.

Lemma check_signature_Ok raw cb rest i modified signature key u : block_ok raw cb rest -> (i < length (tx_outputs cb))%nat ->
  check_signature (block_of raw cb rest) i modified signature key = Ok u <->
  exists root flag r s hash_type sig vk, encodable modified /\ hash160 key = LAYER_TWO_SIGNET_P2WPKH /\
    (signature = der_signature r s hash_type /\ der_integer r /\ der_integer s /\ (length r + length s <= 66)%nat) /\
    merkle_root_and_mutation (txid (replace_script cb i modified) :: map txid rest) = Some (root, flag) /\
    from_der (take (length signature - 1) signature) = Some sig /\ from_sec1_bytes key = Some vk /\
    verify_prehash vk (signet_bip143_sighash (virtual_spent_txid (header_of_raw raw) root) (byte_val hash_type))
      (default sig (normalize_s sig)) = true.
Proof.
  intros [_ Hwf _ _ _ _ _ _] Hi. apply Forall_cons in Hwf as [Hcb _]. destruct u. unfold check_signature.
  rewrite fail_then, negb_bool_decide_false. split.
  - intros (Hkey & E). apply res_bind_Ok in E as (strict & Hstrict & E). apply expect_Ok in Hstrict.
    rewrite fail_then, negb_false_iff in E. destruct E as [-> E]. apply strict_der_true in Hstrict as (r & s & ht & -> & Hder).
    apply res_bind_Ok in E as (b & Hb & E). apply map_err_Ok, replaced_serialization in Hb as (_ & Henc & ->); [|done].
    cbn [block_of pb_txids map expect mbind res_bind pb_metadata mvb_header] in E.
    apply res_bind_Ok in E as ([root flag] & Hroot & E). apply expect_Ok in Hroot. cbv zeta in E. rewrite der_signature_last in E.
    rewrite without_last in E by done. cbn [ok_or expect mbind res_bind] in E. apply res_bind_Ok in E as (sig & Hsig & E). apply ok_or_Ok in Hsig.
    apply res_bind_Ok in E as (vk & Hvk & E). apply ok_or_Ok in Hvk. apply fail_if_Ok, negb_false_iff in E.
    exists root, flag, r, s, ht, sig, vk. done.
  - intros (root & flag & r & s & ht & sig & vk & Henc & Hkey & (-> & Hr & Hs & Hl) & Hroot & Hsig & Hvk & Hver).
    split; [done|]. apply res_bind_Ok. exists true. split; [apply expect_Ok, strict_der_true; by exists r, s, ht|].
    rewrite fail_then. split; [done|]. apply res_bind_Ok. exists (serialize_base (replace_script cb i modified)).
    split; [apply map_err_Ok, replaced_serialization; done|].
    cbn [block_of pb_txids map expect mbind res_bind pb_metadata mvb_header].
    apply res_bind_Ok. exists (root, flag). split; [by apply expect_Ok|]. cbv zeta. rewrite der_signature_last.
    rewrite without_last by done. cbn [ok_or expect mbind res_bind]. apply res_bind_Ok. exists sig. split; [by apply ok_or_Ok|].
    apply res_bind_Ok. exists vk. split; [by apply ok_or_Ok|]. by apply fail_if_Ok, negb_false_iff.
Qed.

(** A push is a slice of the script, so a solution is no longer than it. *)
Lemma script_take_length len c r : script_take len c = Ok r -> (length r.1 <= length (dec_bytes c))%nat.
Proof.
  unfold script_take. destruct (usize_try _); [|done]. destruct (_ <=? _); [|done]. intros [= <-]. cbn [fst].
  unfold slice. rewrite length_take, length_drop. lia.
Qed.

Lemma read_script_op_length c op data c' : read_script_op c = Ok ((op, Some data), c') ->
  (length data <= length (dec_bytes c))%nat.
Proof.
  unfold read_script_op. intros E. apply reader_bind_Ok in E as (b & c1 & E1 & E).
  pose proof (forward_byte c) as F1. rewrite E1 in F1. destruct F1 as [_ F1]. cbn [snd] in F1.
  apply reader_bind_Ok in E as (len & c2 & E2 & E). pose proof (push_length_forward b c1) as F2. rewrite E2 in F2.
  destruct F2 as (_ & F2 & _). cbn [snd] in F2. destruct len as [len|]; [|by apply reader_ret_Ok in E as [? _]].
  apply reader_bind_Ok in E as (d & c3 & E3 & E). apply reader_ret_Ok in E as [[= -> ->] _].
  apply script_take_length in E3. cbn [fst] in E3. congruence.
Qed.

Definition short_solution (n : nat) (st : SolutionScan) : Prop :=
  forall s, ss_solution st = Some s -> (length s <= n)%nat.

Lemma solution_step_length n op data st st' : short_solution n st ->
  (forall d, data = Some d -> (length d <= n)%nat) -> solution_step op data st = Ok st' -> short_solution n st'.
Proof.
  rewrite solution_step_total. intros Hst Hd E. destruct data as [[|b rest]|]; [by injection E as <-| |by injection E as <-].
  cbv zeta in E. specialize (Hd _ eq_refl). destruct (_ && _); apply res_bind_Ok in E as (push & _ & E); injection E as <-; [|exact Hst].
  intros s [= <-]. rewrite length_drop. cbn [length] in Hd. lia.
Qed.

Lemma solution_loop_length fuel c st st' : short_solution (length (dec_bytes c)) st ->
  solution_loop fuel c st = Ok st' -> short_solution (length (dec_bytes c)) st'.
Proof.
  revert c st. induction fuel as [|fuel IH]; intros c st Hst E; cbn [solution_loop] in E.
  - destruct (_ <=? _)%nat; [by injection E as <-|done].
  - destruct (_ <=? _)%nat; [by injection E as <-|]. pose proof (read_script_op_moves c) as Hm.
    destruct (read_script_op c) as [[[op data] c']|e|] eqn:Er; [|by injection E as <-|done]. destruct Hm as [_ Hd]. cbn [snd] in Hd.
    apply res_bind_Ok in E as (st1 & E1 & E). apply (solution_step_length (length (dec_bytes c))) in E1; [|done|].
    + apply IH in E; rewrite ?Hd in *; done.
    + intros d ->. by eapply read_script_op_length.
Qed.

Lemma extract_length script solution modified : extract_solution_and_modified_script script = Ok (solution, modified) ->
  (length solution <= length script)%nat.
Proof.
  unfold extract_solution_and_modified_script. intros E. apply res_bind_Ok in E as (st & E1 & E).
  apply res_bind_Ok in E as (s & E2 & E). apply ok_or_Ok in E2. injection E as <- <-.
  apply (solution_loop_length _ (Cursor_new script 0)) in E1; [by apply E1|by intros ?].
Qed.

Lemma output_script_small raw cb rest i out : block_ok raw cb rest -> tx_outputs cb !! i = Some out ->
  Z.of_nat (length (po_script out)) < 2 ^ 32.
Proof.
  intros [_ Hwf _ _ _ _ _ _] Ho. apply Forall_cons in Hwf as [[_ [_ Hs _ _] _] _].
  apply (Forall_lookup_1 _ _ _ _ Hs) in Ho. change BITCOIN_MAX_COINBASE_OUTPUT_SCRIPT_BYTES with 1000000 in Ho. lia.
Qed.

Lemma verify_parsed_Ok raw cb rest u : block_ok raw cb rest ->
  verify_parsed_layer_two_signet (block_of raw cb rest) = Ok u <-> signet_authorized raw cb rest.
Proof.
  intros Hok. unfold verify_parsed_layer_two_signet, signet_authorized.
  cbn [block_of pb_metadata mvb_block_hash pb_coinbase coinbase_part pc_outputs].
  destruct (bool_decide _) eqn:Eg; [apply bool_decide_eq_true in Eg; destruct u; split; [by left|done]|].
  apply bool_decide_eq_false in Eg. rewrite commitment_index_total. cbn [expect].
  change (@mbind (res LayerTwoSignetError) _ ?A ?B ?f (Ok ?x)) with (f x). cbv beta. split.
  - intros E. right. apply res_bind_Ok in E as (i & Hi & E). apply ok_or_Ok in Hi.
    apply res_bind_Ok in E as (out & Ho & E). apply expect_Ok in Ho.
    apply res_bind_Ok in E as ([solution modified] & Hx & E). pose proof (extract_length _ _ _ Hx) as Hl.
    pose proof (output_script_small _ _ _ _ _ Hok Ho) as Hsmall.
    apply res_bind_Ok in E as ([script_sig witness] & Hp & E). apply (parse_solution_Ok Hwidth) in Hp as ->; [|lia].
    rewrite fail_then, negb_bool_decide_false in E. destruct E as [-> E].
    destruct witness as [|signature [|key [|]]]; try done. rewrite fail_then in E. destruct E as [_ E].
    apply check_signature_Ok in E as (root & flag & r & s & ht & sig & vk & E); [|done|by eapply lookup_lt_Some].
    by exists i, out, modified, signature, key, root, flag, r, s, ht, sig, vk.
  - intros [?|(i & out & modified & signature & key & root & flag & r & s & ht & sig & vk & Hi & Ho & Hx & Henc & Hkey & Hder & E)]; [done|].
    pose proof (extract_length _ _ _ Hx) as Hl. pose proof (output_script_small _ _ _ _ _ Hok Ho) as Hsmall.
    apply res_bind_Ok. exists i. split; [by apply ok_or_Ok|]. apply res_bind_Ok. exists out. split; [by apply expect_Ok|].
    apply res_bind_Ok. eexists (_, _). split; [exact Hx|]. apply res_bind_Ok. exists ([], [signature; key]).
    split; [apply (parse_solution_Ok Hwidth); [lia|done]|]. rewrite fail_then. split; [done|]. rewrite fail_then.
    split; [apply bool_decide_eq_false; destruct Hder as (-> & _); done|].
    apply check_signature_Ok; [done|by eapply lookup_lt_Some|].
    by exists root, flag, r, s, ht, sig, vk.
Qed.

Definition signet_transition (raw : array 80) (cb : Tx) (rest : list Tx) (next : HeaderChainState) (index : u32)
    (child : BlockHash) : SignetPowMerkleBoundM7Transition :=
  let t := bound_transition raw cb rest next index child in
  MkSignetTransition (pmt_next_parent_state t) (pmt_commitment t).

(** C8: On the LayerTwo Signet the composed transition accepts exactly the
    serializations of valid blocks that are authorized by the frozen key over
    the block without its solution (or are the genesis), whose header extends
    the chain under the Signet difficulty rules, and whose coinbase carries one
    canonical slot-24 M7 and no other. *)
Theorem signet_successor_iff (prior : HeaderChainState) (bs : bytes) (t : SignetPowMerkleBoundM7Transition) :
  verify_layer_two_signet_pow_merkle_bound_elements_m7_successor prior bs = Ok t <->
  exists raw cb rest next index child,
    block_ok raw cb rest /\ bs = serialize_block raw (cb :: rest) /\ signet_authorized raw cb rest /\
    successor LAYER_TWO_SIGNET prior next /\ hdr_raw (pvh_header (hcs_tip next)) = raw /\
    commits_to_child (tx_outputs cb) index child /\ t = signet_transition raw cb rest next index child.
Proof.
  unfold verify_layer_two_signet_pow_merkle_bound_elements_m7_successor. split.
  - intros E. apply res_bind_Ok in E as (pb & Hp & E). apply map_err_Ok, (parse_block_Ok Hwidth) in Hp as (raw & cb & rest & Hok & -> & ->).
    apply res_bind_Ok in E as (u & Hsig & E). apply verify_parsed_Ok in Hsig; [|done].
    apply res_bind_Ok in E as (next & Hs & E). apply map_err_Ok, verify_successor_Ok in Hs as [Hs Hraw].
    apply res_bind_Ok in E as (m & Hm & E). pose proof (coinbase_scripts_small Hwidth _ _ _ Hok) as (Hc & Hb & Hl).
    apply map_err_Ok, (m7_extract_Ok Hwidth) in Hm; [|done..]. destruct Hm as (_ & _ & Hm).
    apply array_eq in Hraw. exists raw, cb, rest, next, (m7_output_index m), (m7_committed_child_hash m).
    injection E as <-. do 6 (split; [done|]). unfold signet_transition, bound_transition. cbn [pmt_next_parent_state pmt_commitment].
    do 2 f_equal. rewrite (tip_hash _ _ _ Hs). unfold block_hash. by rewrite Hraw.
  - intros (raw & cb & rest & next & i & child & Hok & -> & Hsig & Hs & Hraw & Hm & ->).
    pose proof (coinbase_scripts_small Hwidth _ _ _ Hok) as (Hc & Hb & Hl).
    apply res_bind_Ok. exists (block_of raw cb rest). split; [apply map_err_Ok, (parse_block_Ok Hwidth); by eexists _, _, _|].
    apply res_bind_Ok. exists tt. split; [by apply verify_parsed_Ok|].
    apply res_bind_Ok. exists next. split; [apply map_err_Ok, verify_successor_Ok; split; [done|]; by rewrite Hraw|].
    apply res_bind_Ok. exists (MkUnboundCanonicalM7 i child). split; [apply map_err_Ok, (m7_extract_Ok Hwidth); [exact Hl|split; [exact Hc|split; [exact Hb|exact Hm]]]|].
    unfold signet_transition, bound_transition. cbn [pmt_next_parent_state pmt_commitment].
    do 3 f_equal. rewrite (tip_hash _ _ _ Hs). unfold block_hash. by rewrite Hraw.
Qed.
End transition.

(** ** Samples

    A key and its signatures are recognized by a toy curve that accepts one
    key; the block carries the solution after its witness commitment. *)
Definition sample_key : bytes := [x02; x11; x22].
Definition toy_hash160 : Hash160 := fun key =>
  if bool_decide (key = sample_key) then LAYER_TWO_SIGNET_P2WPKH else array_rep 20 x00.
Definition toy_ecdsa : Ecdsa := {|
  K256Signature := bytes; VerifyingKey := bytes;
  from_der sig := Some sig; normalize_s _ := None; from_sec1_bytes key := Some key;
  verify_prehash key _ sig := bool_decide (key = sample_key) && negb (bool_decide (sig = []))
|}.
Definition sample_signature : bytes := der_signature [x05] [x06] x01.
Definition sample_commitment_ops : list script_op :=
  [op_code x6a; op_push ([xaa; x21; xa9; xed] ++ repeat x00 32);
   op_push (SIGNET_HEADER ++ solution_bytes [] [sample_signature; sample_key])].
Definition sample_signet_coinbase : Tx := {|
  tx_version := array_rep 4 x01;
  tx_inputs := tx_inputs sample_tx;
  tx_outputs := [MkParsedOutput (array_rep 8 x00) (script_bytes_of sample_commitment_ops);
                 MkParsedOutput (array_rep 8 x00) (canonical_m7_script (array_rep 32 x05))];
  tx_witness := Some [[repeat x00 32]];
  tx_lock_time := array_rep 4 x00
|}.
Definition sample_signet_raw : array 80 :=
  subarray 80 0 (le_bytes 4 1 ++ pvh_hash signet_tip ++ @txid toy_sha256 sample_signet_coinbase ++ le_bytes 4 1700000600
    ++ le_bytes 4 0x1e0377ae ++ le_bytes 4 0).
Definition sample_signet_block : bytes := serialize_block sample_signet_raw [sample_signet_coinbase].
Definition sample_signet_state : HeaderChainState :=
  MkHeaderChainState (uint_wrap 32 8) signet_tip (pvh_work signet_tip) (uint_wrap 32 1699000000).

Lemma sample_signet_Ok : exists t,
  @verify_layer_two_signet_pow_merkle_bound_elements_m7_successor 64%positive toy_sha256 toy_hash160 toy_ecdsa
    sample_signet_state sample_signet_block = Ok t.
Proof. apply is_ok_true. by vm_compute. Qed.

Example signet_successor_iff_witness : exists t raw cb rest next index child,
  @block_ok 64%positive toy_sha256 raw cb rest /\ sample_signet_block = serialize_block raw (cb :: rest) /\
  @signet_authorized 64%positive toy_sha256 toy_hash160 toy_ecdsa raw cb rest /\
  @successor toy_sha256 LAYER_TWO_SIGNET sample_signet_state next /\ hdr_raw (pvh_header (hcs_tip next)) = raw /\
  @commits_to_child 64%positive (tx_outputs cb) index child /\ t = @signet_transition toy_sha256 raw cb rest next index child.
Proof.
  destruct sample_signet_Ok as [t Ht]. exists t.
  by apply (@signet_successor_iff 64%positive ltac:(done) toy_sha256 toy_hash160 toy_ecdsa sample_signet_state sample_signet_block t).
Defined.

Example signet_extract_spec_witness :
  @extract_solution_and_modified_script 64%positive (script_bytes_of sample_commitment_ops) =
  Ok (solution_bytes [] [sample_signature; sample_key],
      script_bytes_of [op_code x6a; op_push ([xaa; x21; xa9; xed] ++ repeat x00 32); op_push SIGNET_HEADER]).
Proof.
  apply (@signet_extract_spec 64%positive ltac:(done) sample_commitment_ops).
  - repeat first [apply Forall_nil_2|apply Forall_cons_2; [cbn; first [lia|by split]|]].
  - by vm_compute.
Defined.

(** Two hash types whose preimages the toy digest cannot tell apart. *)
Example signet_sighash_binding_witness :
  let h := header_of_raw sample_signet_raw in let m := array_rep 32 x09 in
  let t := @virtual_spent_txid toy_sha256 h m in
  (signed_fields h = signed_fields h /\ m = m /\ x01 = x02) \/
  @hash_collision toy_sha256 (@sighash_preimage toy_sha256 t (byte_val x01)) (@sighash_preimage toy_sha256 t (byte_val x02)) \/
  @hash_collision toy_sha256 (virtual_spent h m) (virtual_spent h m).
Proof.
  intros h m t. apply (@signet_sighash_binding toy_sha256 sample_signet_raw sample_signet_raw m m x01 x02).
  apply array_eq. by vm_compute.
Defined.
