(* ===== verification/Slot24.v ===== *)
(** The slot-24 BIP300 replay of [crates/usdd-bitcoin-bmm/src/block/bip300.rs]:
    proposals and their votes, the treasury output (CTIP) and its deposits, the
    BMM commitment and its requests, and the transition of one parent block.

    The [BTreeMap] of pending proposals is a [gmap]; its loops run over
    [sorted_proposals], the entries in the order of their keys. *)

From S2P Require Import Prelude Encoding Hashing Readers Uint256 BitcoinHeaders BmmCommitment BlockParser BitcoinBlock.

Local Open Scope Z_scope.

Definition M1_TAG : bytes := [xd5; xe0; xc4; xaf].
Definition M2_TAG : bytes := [xd6; xe1; xc5; xdf].
Definition M8_TAG : bytes := [x00; xbf; x00].
Definition OP_DRIVECHAIN : byte := xb4.
Definition OP_TRUE : byte := x51.
Definition M8_PAYLOAD_LEN : nat := 3 + 1 + 32 + 32.
Definition M8_CANONICAL_SCRIPT_LEN : nat := 1 + 1 + M8_PAYLOAD_LEN.

Definition ELEMENTS_V1_REQUIRED_PROPOSAL_HASH_INTERNAL : Hash32 := Array (n:=32)
  [x98; x2f; x04; x55; x2e; xf5; x92; x53; xc2; xb0; xbb; x55; x30; x4a; xd2; xef;
   x76; x48; xac; x2c; xb7; x46; x60; xe3; x8b; xb4; x9d; x3f; x23; x2b; x7b; xb2] eq_refl.
Definition ELEMENTS_V1_MAX_LIVE_PROPOSAL_BLOCKS : Z := 10 + 1.
Definition MAX_PENDING_SLOT24_PROPOSALS : Z := BITCOIN_MAX_COINBASE_OUTPUTS * ELEMENTS_V1_MAX_LIVE_PROPOSAL_BLOCKS.

Inductive ReplayError : Type :=
| RE_Block (e : BlockStructureError)
| RE_InvalidConfig | RE_MalformedState | RE_BrokenParentLink | RE_HeightOverflow
| RE_PendingProposalLimitExceeded | RE_DuplicateProposalMessage | RE_MultipleAckMessages
| RE_VoteOverflow | RE_ProposalHeightAhead | RE_ProposalVotesAhead | RE_RequiredProposalReplaced
| RE_DuplicateM7 | RE_OutputIndexOverflow | RE_M8WithoutM7 | RE_M8WrongChildHash | RE_M8Expired
| RE_M8CountOverflow | RE_MultipleTreasuryOutputs | RE_ParallelTreasuryOutput
| RE_CtipSpentWithoutReplacement | RE_ZeroCtipDelta | RE_CtipDecreaseUnsupported
| RE_MissingDepositAddress | RE_AmountOverflow.

(** ** Configuration *)

Record ReplayConfig : Type := MkReplayConfig {
  cfg_required_proposal_hash : Hash32;
  cfg_unused_proposal_max_age : u16;
  cfg_unused_activation_threshold : u16;
  cfg_used_proposal_max_age : u16;
  cfg_used_activation_threshold : u16
}.

Definition elements_v1 : ReplayConfig := {|
  cfg_required_proposal_hash := ELEMENTS_V1_REQUIRED_PROPOSAL_HASH_INTERNAL;
  cfg_unused_proposal_max_age := uint_wrap 16 10;
  cfg_unused_activation_threshold := uint_wrap 16 5;
  cfg_used_proposal_max_age := uint_wrap 16 10;
  cfg_used_activation_threshold := uint_wrap 16 5
|}.

Definition thresholds (c : ReplayConfig) (slot_is_used : bool) : u16 * u16 :=
  if slot_is_used then (cfg_used_proposal_max_age c, cfg_used_activation_threshold c)
  else (cfg_unused_proposal_max_age c, cfg_unused_activation_threshold c).

Section config.
Context {W : PtrWidth}.

Definition maximum_pending_proposals (c : ReplayConfig) : res ReplayError (uint usize_bits) :=
  live_blocks ← ok_or (usize_try (Z.max (cfg_unused_proposal_max_age c) (cfg_used_proposal_max_age c) + 1))
                  RE_InvalidConfig;
  ok_or (usize_try (BITCOIN_MAX_COINBASE_OUTPUTS * uval live_blocks)) RE_InvalidConfig.

Definition ReplayConfig_validate (c : ReplayConfig) : res ReplayError unit :=
  fail_if (bool_decide (cfg_required_proposal_hash c = ZERO)
           || (uval (cfg_unused_proposal_max_age c) =? 0)
           || (uval (cfg_unused_activation_threshold c) =? 0)
           || (uval (cfg_unused_proposal_max_age c) <=? uval (cfg_unused_activation_threshold c))
           || (uval (cfg_used_proposal_max_age c) =? 0)
           || (uval (cfg_used_activation_threshold c) =? 0)
           || (uval (cfg_used_proposal_max_age c) <=? uval (cfg_used_activation_threshold c)))
    RE_InvalidConfig;;
  maximum_pending_proposals c;;
  Ok tt.

Definition from_manifest_bound_identity (required_proposal_hash : Hash32)
    (unused_proposal_max_age unused_activation_threshold used_proposal_max_age used_activation_threshold : u16)
    : res ReplayError ReplayConfig :=
  let config := MkReplayConfig required_proposal_hash unused_proposal_max_age unused_activation_threshold
                  used_proposal_max_age used_activation_threshold in
  ReplayConfig_validate config;;
  Ok config.
End config.

(** ** State *)

Record PendingSlot24Proposal : Type := MkPending {
  pp_proposal_hash : Hash32;
  pp_proposal_height : u32;
  pp_votes : u16
}.

Record Slot24Ctip : Type := MkCtip {
  ctip_txid : BlockHash;
  ctip_vout : u32;
  ctip_value_sat : u64
}.

Record MintableSlot24Deposit : Type := MkMintable {
  md_outpoint : Slot24Ctip;
  md_block_hash : BlockHash;
  md_block_height : u32;
  md_value_sat : u64;
  md_elements_address : bytes
}.

Record ReplayState : Type := MkReplayState {
  rs_config : ReplayConfig;
  rs_next_height : u32;
  rs_tip_hash : BlockHash;
  rs_active_proposal_hash : option Hash32;
  rs_required_activation : option (u32 * BlockHash);
  rs_pending_proposals : gmap Hash32 PendingSlot24Proposal;
  rs_ctip : option Slot24Ctip
}.

Definition proposal_le (a b : Hash32 * PendingSlot24Proposal) : Prop := array_leb a.1 b.1 = true.
#[export] Instance proposal_le_dec : RelDecision proposal_le.
Proof. intros a b. unfold proposal_le. apply _. Defined.
Definition sorted_proposals (m : gmap Hash32 PendingSlot24Proposal) : list (Hash32 * PendingSlot24Proposal) :=
  merge_sort proposal_le (map_to_list m).

Definition set_active (s : ReplayState) (h : option Hash32) : ReplayState :=
  MkReplayState (rs_config s) (rs_next_height s) (rs_tip_hash s) h (rs_required_activation s)
    (rs_pending_proposals s) (rs_ctip s).
Definition set_required (s : ReplayState) (r : option (u32 * BlockHash)) : ReplayState :=
  MkReplayState (rs_config s) (rs_next_height s) (rs_tip_hash s) (rs_active_proposal_hash s) r
    (rs_pending_proposals s) (rs_ctip s).
Definition set_pending (s : ReplayState) (m : gmap Hash32 PendingSlot24Proposal) : ReplayState :=
  MkReplayState (rs_config s) (rs_next_height s) (rs_tip_hash s) (rs_active_proposal_hash s)
    (rs_required_activation s) m (rs_ctip s).
Definition set_ctip (s : ReplayState) (c : option Slot24Ctip) : ReplayState :=
  MkReplayState (rs_config s) (rs_next_height s) (rs_tip_hash s) (rs_active_proposal_hash s)
    (rs_required_activation s) (rs_pending_proposals s) c.
Definition set_tip (s : ReplayState) (height : u32) (hash : BlockHash) : ReplayState :=
  MkReplayState (rs_config s) height hash (rs_active_proposal_hash s)
    (rs_required_activation s) (rs_pending_proposals s) (rs_ctip s).

Definition required_is (s : ReplayState) : bool :=
  bool_decide (rs_active_proposal_hash s = Some (cfg_required_proposal_hash (rs_config s))).
Definition required_proposal_is_active (s : ReplayState) : bool :=
  bool_decide (is_Some (rs_required_activation s)) && required_is s.

(** A live proposal outlives its age: too old, or too many blocks without a vote. *)
Definition is_expired (proposal_max_age : u16) (max_fails age misses : Z) : bool :=
  (uval proposal_max_age <? age) || ((max_fails <? age) && (max_fails <=? misses)).

Definition validate_proposal (tip_height : u32) (proposal_max_age : u16) (max_fails : u16)
    (_ : nat) (entry : Hash32 * PendingSlot24Proposal) (_ : unit) : res ReplayError unit :=
  let '(hash, proposal) := entry in
  age ← ok_or (checked_sub tip_height (pp_proposal_height proposal)) RE_MalformedState;
  misses ← ok_or (uint_try 32 (uval age - uval (pp_votes proposal))) RE_MalformedState;
  fail_if (bool_decide (hash = ZERO)
           || negb (bool_decide (hash = pp_proposal_hash proposal))
           || (uval tip_height <? uval (pp_proposal_height proposal))
           || is_expired proposal_max_age (uval max_fails) (uval age) (uval misses))
    RE_MalformedState.

Section state.
Context {W : PtrWidth}.

Definition validate_tip (s : ReplayState) : res ReplayError unit :=
  fail_if (bool_decide (rs_tip_hash s = ZERO)) RE_MalformedState;;
  fail_if (negb (bool_decide (is_Some (rs_active_proposal_hash s))) && bool_decide (is_Some (rs_ctip s)))
    RE_MalformedState;;
  fail_if (negb (eqb (required_is s) (bool_decide (is_Some (rs_required_activation s))))) RE_MalformedState;;
  (match rs_required_activation s with
   | None => Ok tt
   | Some (height, hash) =>
       fail_if (negb (required_is s) || (uval (rs_next_height s) <=? uval height) || bool_decide (hash = ZERO))
         RE_MalformedState
   end);;
  match rs_ctip s with
  | None => Ok tt
  | Some ctip =>
      fail_if (bool_decide (ctip_txid ctip = ZERO) || (uval (ctip_value_sat ctip) =? 0)
               || (MAX_MONEY_SATOSHIS <? uval (ctip_value_sat ctip))) RE_MalformedState
  end.

Definition ReplayState_validate (s : ReplayState) : res ReplayError unit :=
  ReplayConfig_validate (rs_config s);;
  maximum ← maximum_pending_proposals (rs_config s);
  fail_if (uval maximum <? Z.of_nat (size (rs_pending_proposals s))) RE_PendingProposalLimitExceeded;;
  if uval (rs_next_height s) =? 0 then
    fail_if (negb (bool_decide (rs_tip_hash s = ZERO))
             || bool_decide (is_Some (rs_active_proposal_hash s))
             || bool_decide (is_Some (rs_required_activation s))
             || negb (bool_decide (rs_pending_proposals s = ∅))
             || bool_decide (is_Some (rs_ctip s))) RE_MalformedState
  else
    validate_tip s;;
    tip_height ← expect (checked_sub (rs_next_height s) (uint_wrap 32 1));
    let '(proposal_max_age, activation_threshold) :=
      thresholds (rs_config s) (bool_decide (is_Some (rs_active_proposal_hash s))) in
    max_fails ← expect (checked_sub proposal_max_age activation_threshold);
    res_foldi (validate_proposal tip_height proposal_max_age max_fails) 0
      (sorted_proposals (rs_pending_proposals s)) tt.

Definition before_parent_genesis (config : ReplayConfig) : res ReplayError ReplayState :=
  ReplayConfig_validate config;;
  Ok (MkReplayState config (uint_wrap 32 0) ZERO None None ∅ None).

Definition insert_proposal (_ : nat) (proposal : PendingSlot24Proposal)
    (pending : gmap Hash32 PendingSlot24Proposal) : res ReplayError (gmap Hash32 PendingSlot24Proposal) :=
  fail_if (bool_decide (is_Some (pending !! pp_proposal_hash proposal))) RE_MalformedState;;
  Ok (<[pp_proposal_hash proposal := proposal]> pending).

Definition ReplayState_checkpoint (config : ReplayConfig) (processed_height : u32) (tip_hash : BlockHash)
    (active_proposal_hash : option Hash32) (required_activation : option (u32 * BlockHash))
    (pending_proposals : list PendingSlot24Proposal) (ctip : option Slot24Ctip) : res ReplayError ReplayState :=
  ReplayConfig_validate config;;
  next_height ← ok_or (checked_add processed_height (uint_wrap 32 1)) RE_HeightOverflow;
  pending ← res_foldi insert_proposal 0 pending_proposals ∅;
  let state := MkReplayState config next_height tip_hash active_proposal_hash required_activation pending ctip in
  ReplayState_validate state;;
  Ok state.
End state.

(** ** Messages of a coinbase *)

Inductive ParentMessage : Type :=
| PM_Proposal (proposal_hash : Hash32)
| PM_Ack (proposal_hash : Hash32).

Record ObservedM7 : Type := MkObservedM7 {
  om_output_index : u32;
  om_child_hash : BlockHash;
  om_canonical_for_elements : bool
}.

(** The locals of the loop of [apply_coinbase_messages]. *)
Record MessageScan : Type := MkMessageScan {
  sc_state : ReplayState;
  sc_created_in_block : gset Hash32;
  sc_proposal_messages_in_block : gset Hash32;
  sc_saw_ack : bool
}.

Section messages.
Context {W : PtrWidth} {H : Sha256}.

(** [None] is the panic of an index, a slice or [copy_from_slice]. *)
Definition parse_slot24_parent_message (script : bytes) : option (option ParentMessage) :=
  push ← extract_single_op_return_push script;
  match push with
  | None => Some None
  | Some payload =>
      skip ← Some (length payload <? 5)%nat
        ||? (is_slot ← byte_is 4 ELEMENTS_DRIVECHAIN_SLOT payload; Some (negb is_slot));
      if skip : bool then Some None
      else
        is_m1 ← range_is 0 4 M1_TAG payload;
        if is_m1 : bool then
          rest ← index_range 5 (length payload) payload;
          Some (Some (PM_Proposal (double_sha256 rest)))
        else
          is_m2 ← Some (length payload =? 4 + 1 + 32)%nat &&? range_is 0 4 M2_TAG payload;
          if is_m2 : bool then
            hash ← copy_range 32 5 (length payload) payload;
            Some (Some (PM_Ack hash))
          else Some None
  end.

Definition observe_m7_step (index : nat) (output : ParsedOutput) (observed : option ObservedM7)
    : res ReplayError (option ObservedM7) :=
  push ← expect (extract_single_op_return_push (po_script output));
  match push with
  | None => Ok observed
  | Some payload =>
      is_m7 ← expect (is_m7_payload payload);
      if negb is_m7 then Ok observed
      else
        fail_if (bool_decide (is_Some observed)) RE_DuplicateM7;;
        output_index ← ok_or (uint_try 32 (Z.of_nat index)) RE_OutputIndexOverflow;
        hash ← expect (copy_range 32 5 (length payload) payload);
        canonical ← expect (is_canonical_m7_script (po_script output));
        Ok (Some (MkObservedM7 output_index hash canonical))
  end.
Definition observe_slot24_m7 (parsed : ParsedBlock) : res ReplayError (option ObservedM7) :=
  res_foldi observe_m7_step 0 (pc_outputs (pb_coinbase parsed)) None.

Definition proposal_message (height : u32) (proposal_hash : Hash32) (sc : MessageScan) : res ReplayError MessageScan :=
  let state := sc_state sc in
  fail_if (bool_decide (proposal_hash ∈ sc_proposal_messages_in_block sc)) RE_DuplicateProposalMessage;;
  let messages := {[proposal_hash]} ∪ sc_proposal_messages_in_block sc in
  if bool_decide (is_Some (rs_pending_proposals state !! proposal_hash)) then
    Ok (MkMessageScan state (sc_created_in_block sc) messages (sc_saw_ack sc))
  else
    maximum ← maximum_pending_proposals (rs_config state);
    fail_if (Z.of_nat (size (rs_pending_proposals state)) =? uval maximum) RE_PendingProposalLimitExceeded;;
    let proposal := MkPending proposal_hash height (uint_wrap 16 0) in
    Ok (MkMessageScan (set_pending state (<[proposal_hash := proposal]> (rs_pending_proposals state)))
          ({[proposal_hash]} ∪ sc_created_in_block sc) messages (sc_saw_ack sc)).

(** [proposal.votes > activation_threshold]: the proposal becomes active. *)
Definition activate (height : u32) (block_hash : BlockHash) (proposal_hash : Hash32) (state : ReplayState)
    : res ReplayError ReplayState :=
  let state := set_active state (Some proposal_hash) in
  let state := set_pending state (delete proposal_hash (rs_pending_proposals state)) in
  let is_required := bool_decide (proposal_hash = cfg_required_proposal_hash (rs_config state)) in
  fail_if (bool_decide (is_Some (rs_required_activation state)) && negb is_required) RE_RequiredProposalReplaced;;
  Ok (if negb (bool_decide (is_Some (rs_required_activation state))) && is_required
      then set_required state (Some (height, block_hash)) else state).

Definition ack_message (height : u32) (block_hash : BlockHash) (proposal_hash : Hash32) (sc : MessageScan)
    : res ReplayError MessageScan :=
  fail_if (sc_saw_ack sc) RE_MultipleAckMessages;;
  let state := sc_state sc in
  let finish (state : ReplayState) :=
    MkMessageScan state (sc_created_in_block sc) (sc_proposal_messages_in_block sc) true in
  if bool_decide (proposal_hash ∈ sc_created_in_block sc) then Ok (finish state)
  else match rs_pending_proposals state !! proposal_hash with
       | None => Ok (finish state)
       | Some proposal =>
           votes ← ok_or (checked_add (pp_votes proposal) (uint_wrap 16 1)) RE_VoteOverflow;
           let proposal := MkPending (pp_proposal_hash proposal) (pp_proposal_height proposal) votes in
           let state := set_pending state (<[proposal_hash := proposal]> (rs_pending_proposals state)) in
           let '(_, activation_threshold) :=
             thresholds (rs_config state) (bool_decide (is_Some (rs_active_proposal_hash state))) in
           if uval activation_threshold <? uval votes then
             state ← activate height block_hash proposal_hash state;
             Ok (finish state)
           else Ok (finish state)
       end.

Definition coinbase_message (height : u32) (block_hash : BlockHash) (_ : nat) (output : ParsedOutput)
    (sc : MessageScan) : res ReplayError MessageScan :=
  message ← expect (parse_slot24_parent_message (po_script output));
  match message with
  | None => Ok sc
  | Some (PM_Proposal proposal_hash) => proposal_message height proposal_hash sc
  | Some (PM_Ack proposal_hash) => ack_message height block_hash proposal_hash sc
  end.

(** The loop that collects the expired proposals. *)
Definition age_proposal (height : u32) (proposal_max_age : u16) (max_fails : u16) (_ : nat)
    (entry : Hash32 * PendingSlot24Proposal) (expired : list Hash32) : res ReplayError (list Hash32) :=
  let '(hash, proposal) := entry in
  age ← ok_or (checked_sub height (pp_proposal_height proposal)) RE_ProposalHeightAhead;
  fail_if (uval age <? uval (pp_votes proposal)) RE_ProposalVotesAhead;;
  misses ← expect (uint_try 32 (uval age - uval (pp_votes proposal)));
  Ok (if is_expired proposal_max_age (uval max_fails) (uval age) (uval misses) then expired ++ [hash] else expired).

Definition age_proposals (height : u32) (state : ReplayState) : res ReplayError ReplayState :=
  let '(proposal_max_age, activation_threshold) :=
    thresholds (rs_config state) (bool_decide (is_Some (rs_active_proposal_hash state))) in
  max_fails ← expect (checked_sub proposal_max_age activation_threshold);
  expired ← res_foldi (age_proposal height proposal_max_age max_fails) 0
              (sorted_proposals (rs_pending_proposals state)) [];
  Ok (set_pending state (fold_left (fun m hash => delete hash m) expired (rs_pending_proposals state))).

Definition apply_coinbase_messages (state : ReplayState) (parsed : ParsedBlock) (height : u32)
    : res ReplayError ReplayState :=
  sc ← res_foldi (coinbase_message height (mvb_block_hash (pb_metadata parsed))) 0
         (pc_outputs (pb_coinbase parsed)) (MkMessageScan state ∅ ∅ false);
  age_proposals height (sc_state sc).
End messages.

(** ** Transactions of a block *)

Definition is_slot24_treasury (script : bytes) : bool :=
  bool_decide (script = [OP_DRIVECHAIN; x01; ELEMENTS_DRIVECHAIN_SLOT; OP_TRUE]).

Definition input_spends (ctip : Slot24Ctip) (input : array 36) : bool :=
  bool_decide (take 32 input = arr (ctip_txid ctip)) && bool_decide (drop 32 input = le_bytes 4 (ctip_vout ctip)).

(** [i64::from_le_bytes(output.value) as u64] *)
Definition output_value (output : ParsedOutput) : u64 := uint_wrap 64 (le_val (po_value output)).

(** The locals of the loop of [apply_transactions]. *)
Record TransactionScan : Type := MkTransactionScan {
  ts_state : ReplayState;
  ts_deposits : list MintableSlot24Deposit;
  ts_matching_m8_requests : u32
}.

Section transactions.
Context {W : PtrWidth} {H : Sha256}.

(** The outer [None] is a panic, as in [parse_slot24_parent_message]; the source's
    chain of [!=] and [||] is the negation of the chain below. *)
Definition parse_slot24_m8 (transaction : ParsedTransaction) : option (option (BlockHash * BlockHash)) :=
  match head (pt_outputs transaction) with
  | None => Some None
  | Some output =>
      let script := po_script output in
      is_m8 ← Some (length script =? M8_CANONICAL_SCRIPT_LEN)%nat
        &&? byte_is 0 OP_RETURN script
        &&? byte_is 1 (byte_of (Z.of_nat M8_PAYLOAD_LEN)) script
        &&? range_is 2 5 M8_TAG script
        &&? byte_is 5 ELEMENTS_DRIVECHAIN_SLOT script;
      if negb is_m8 then Some None
      else
        child_hash ← copy_range 32 6 38 script;
        previous_hash ← copy_range 32 38 70 script;
        Some (Some (child_hash, previous_hash))
  end.

Definition check_m8 (parsed : ParsedBlock) (observed_m7 : option ObservedM7) (transaction : ParsedTransaction)
    (matching_m8_requests : u32) : res ReplayError u32 :=
  request ← expect (parse_slot24_m8 transaction);
  match request with
  | None => Ok matching_m8_requests
  | Some (child_hash, previous_hash) =>
      m7 ← ok_or observed_m7 RE_M8WithoutM7;
      fail_if (negb (bool_decide (child_hash = om_child_hash m7))) RE_M8WrongChildHash;;
      fail_if (negb (bool_decide (previous_hash = hdr_previous_block (mvb_header (pb_metadata parsed))))) RE_M8Expired;;
      ok_or (checked_add matching_m8_requests (uint_wrap 32 1)) RE_M8CountOverflow
  end.

Definition treasury_step (index : nat) (output : ParsedOutput) (treasury_output : option (nat * u64))
    : res ReplayError (option (nat * u64)) :=
  if negb (is_slot24_treasury (po_script output)) then Ok treasury_output
  else
    fail_if (bool_decide (is_Some treasury_output)) RE_MultipleTreasuryOutputs;;
    Ok (Some (index, output_value output)).

Definition ctip_value (ctip : option Slot24Ctip) : Z := from_option (fun c => uval (ctip_value_sat c)) 0 ctip.
Definition current_ctip_inputs (ctip : option Slot24Ctip) (transaction : ParsedTransaction) : nat :=
  match ctip with
  | None => 0
  | Some c => length (filter (fun input => input_spends c input = true) (pt_inputs transaction))
  end.

(** The new CTIP of a transaction that spends the old one, if any. *)
Definition move_ctip (parsed : ParsedBlock) (height : u32) (required_active_for_transactions : bool)
    (transaction : ParsedTransaction) (output_index : nat) (new_value : u64) (ts : TransactionScan)
    : res ReplayError TransactionScan :=
  let old_value := ctip_value (rs_ctip (ts_state ts)) in
  fail_if (uval new_value =? old_value) RE_ZeroCtipDelta;;
  fail_if (uval new_value <? old_value) RE_CtipDecreaseUnsupported;;
  next_index ← expect (usize_succ output_index);
  push ← expect (match pt_outputs transaction !! next_index with
                 | None => Some None
                 | Some output => extract_single_op_return_push (po_script output)
                 end);
  address ← ok_or push RE_MissingDepositAddress;
  value_sat ← ok_or (uint_try 64 (uval new_value - old_value)) RE_AmountOverflow;
  vout ← ok_or (uint_try 32 (Z.of_nat output_index)) RE_OutputIndexOverflow;
  let ctip := MkCtip (pt_txid transaction) vout new_value in
  let deposit := MkMintable ctip (mvb_block_hash (pb_metadata parsed)) height value_sat address in
  Ok (MkTransactionScan (set_ctip (ts_state ts) (Some ctip))
        (if required_active_for_transactions && (negb (length address =? 0)%nat && (length address <=? 128)%nat)
         then ts_deposits ts ++ [deposit] else ts_deposits ts)
        (ts_matching_m8_requests ts)).

Definition apply_transaction (parsed : ParsedBlock) (height : u32) (observed_m7 : option ObservedM7)
    (required_active_for_transactions : bool) (_ : nat) (transaction : ParsedTransaction) (ts : TransactionScan)
    : res ReplayError TransactionScan :=
  matching ← check_m8 parsed observed_m7 transaction (ts_matching_m8_requests ts);
  let ts := MkTransactionScan (ts_state ts) (ts_deposits ts) matching in
  let state := ts_state ts in
  if negb (bool_decide (is_Some (rs_active_proposal_hash state))) then Ok ts
  else
    let inputs := current_ctip_inputs (rs_ctip state) transaction in
    let has_ctip := bool_decide (is_Some (rs_ctip state)) in
    treasury_output ← res_foldi treasury_step 0 (pt_outputs transaction) None;
    let has_treasury := bool_decide (is_Some treasury_output) in
    fail_if (has_ctip && (inputs =? 0)%nat && has_treasury) RE_ParallelTreasuryOutput;;
    fail_if (has_ctip && (inputs =? 1)%nat && negb has_treasury) RE_CtipSpentWithoutReplacement;;
    if (has_ctip && (inputs =? 0)%nat) || (negb has_ctip && negb has_treasury) then Ok ts
    else
      fail_if (1 <? inputs)%nat RE_MalformedState;;
      '(output_index, new_value) ← expect treasury_output;
      move_ctip parsed height required_active_for_transactions transaction output_index new_value ts.

Definition apply_transactions (state : ReplayState) (parsed : ParsedBlock) (height : u32)
    (observed_m7 : option ObservedM7) : res ReplayError TransactionScan :=
  let required_active_for_transactions := required_proposal_is_active state in
  res_foldi (apply_transaction parsed height observed_m7 required_active_for_transactions) 0
    (drop 1 (pb_transactions parsed)) (MkTransactionScan state [] (uint_wrap 32 0)).
End transactions.

(** ** One parent block *)

Record Slot24BmmEdge : Type := MkBmmEdge {
  be_parent_block_hash : BlockHash;
  be_successor_block_hash : BlockHash;
  be_successor_height : u32;
  be_coinbase_txid : BlockHash;
  be_m7_output_index : u32;
  be_committed_child_hash : BlockHash
}.

Record Slot24BlockEffects : Type := MkBlockEffects {
  ef_deposits : list MintableSlot24Deposit;
  ef_bmm_edge : option Slot24BmmEdge;
  ef_matching_m8_requests : u32;
  ef_saw_slot24_m7 : bool;
  ef_required_proposal_active : bool
}.

Section apply.
Context {W : PtrWidth} {H : Sha256}.

Definition bmm_edge_of (parsed : ParsedBlock) (height : u32) (m7 : ObservedM7) : Slot24BmmEdge := {|
  be_parent_block_hash := hdr_previous_block (mvb_header (pb_metadata parsed));
  be_successor_block_hash := mvb_block_hash (pb_metadata parsed);
  be_successor_height := height;
  be_coinbase_txid := mvb_coinbase_txid (pb_metadata parsed);
  be_m7_output_index := om_output_index m7;
  be_committed_child_hash := om_child_hash m7
|}.

(** From the clone of the state to the assignment [*state = next]. *)
Definition apply_parsed_block (state : ReplayState) (parsed : ParsedBlock)
    : res ReplayError (ReplayState * Slot24BlockEffects) :=
  let previous_block := hdr_previous_block (mvb_header (pb_metadata parsed)) in
  fail_if (negb (uval (rs_next_height state) =? 0) && negb (bool_decide (previous_block = rs_tip_hash state)))
    RE_BrokenParentLink;;
  fail_if ((uval (rs_next_height state) =? 0) && negb (bool_decide (previous_block = ZERO))) RE_BrokenParentLink;;
  let height := rs_next_height state in
  next ← apply_coinbase_messages state parsed height;
  observed_m7 ← observe_slot24_m7 parsed;
  ts ← apply_transactions next parsed height observed_m7;
  let next := ts_state ts in
  fail_if (bool_decide (is_Some (rs_required_activation next)) && negb (required_is next)) RE_RequiredProposalReplaced;;
  let required_proposal_active := required_proposal_is_active next in
  let bmm_edge :=
    m7 ← observed_m7;
    if required_proposal_active && om_canonical_for_elements m7 then Some (bmm_edge_of parsed height m7) else None in
  next_height ← ok_or (checked_add height (uint_wrap 32 1)) RE_HeightOverflow;
  let next := set_tip next next_height (mvb_block_hash (pb_metadata parsed)) in
  ReplayState_validate next;;
  Ok (next, {|
    ef_deposits := ts_deposits ts;
    ef_bmm_edge := bmm_edge;
    ef_matching_m8_requests := ts_matching_m8_requests ts;
    ef_saw_slot24_m7 := bool_decide (is_Some observed_m7);
    ef_required_proposal_active := required_proposal_active
  |}).

(** The state is borrowed mutably and assigned once, at the end. *)
Definition apply_merkle_bound_elements_slot24_parent_block (state : ReplayState) (serialized_block : bytes)
    : ReplayState * res ReplayError Slot24BlockEffects :=
  match ReplayState_validate state;;
        parsed ← map_err RE_Block (parse_and_verify_block serialized_block);
        apply_parsed_block state parsed with
  | Ok (next, effects) => (next, Ok effects)
  | Err e => (state, Err e)
  | Panic => (state, Panic)
  end.
End apply.

(** ** The reads above, as total functions *)

Section reads.
Context {W : PtrWidth} {H : Sha256}.

Definition parent_message (script : bytes) : option ParentMessage :=
  payload ← op_return_push script;
  if (length payload <? 5)%nat || negb (bool_decide (payload !! 4%nat = Some ELEMENTS_DRIVECHAIN_SLOT)) then None
  else if bool_decide (take 4 payload = M1_TAG) then Some (PM_Proposal (double_sha256 (drop 5 payload)))
  else if (length payload =? 37)%nat && bool_decide (take 4 payload = M2_TAG)
       then Some (PM_Ack (subarray 32 5 payload))
  else None.

Lemma parent_message_total script : parse_slot24_parent_message script = Some (parent_message script).
Proof.
  unfold parse_slot24_parent_message, parent_message. rewrite extract_push_total. cbn [mbind option_bind].
  destruct (op_return_push script) as [p|]; [|done]. cbn [mbind option_bind].
  destruct (Nat.ltb_spec (length p) 5) as [|Hl]; [done|]. rewrite byte_is_ok by lia.
  cbn [or_else mbind option_bind]. rewrite orb_false_l. destruct (negb _); [done|].
  rewrite !range_is_ok by lia. rewrite index_range_ok by lia. cbn [mbind option_bind]. unfold slice.
  rewrite (take_ge (drop 5 p)) by (rewrite length_drop; lia).
  change (take (4 - 0) (drop 0 p)) with (take 4 p). destruct (bool_decide (take 4 p = M1_TAG)); [done|].
  change (4 + 1 + 32)%nat with 37%nat. destruct (Nat.eqb_spec (length p) 37) as [E|]; [|done].
  cbn [and_then mbind option_bind andb]. destruct (bool_decide _); [|done].
  by rewrite copy_range_ok by lia.
Qed.

Definition is_m8_script (script : bytes) : bool :=
  (length script =? 70)%nat && bool_decide (script !! 0%nat = Some OP_RETURN)
  && bool_decide (script !! 1%nat = Some (byte_of 68)) && bool_decide (slice 2 5 script = M8_TAG)
  && bool_decide (script !! 5%nat = Some ELEMENTS_DRIVECHAIN_SLOT).
Definition m8_request (transaction : ParsedTransaction) : option (BlockHash * BlockHash) :=
  output ← head (pt_outputs transaction);
  if is_m8_script (po_script output)
  then Some (subarray 32 6 (po_script output), subarray 32 38 (po_script output)) else None.

Lemma m8_request_total transaction : parse_slot24_m8 transaction = Some (m8_request transaction).
Proof.
  unfold parse_slot24_m8, m8_request. destruct (head _) as [o|]; [|done]. cbn [mbind option_bind].
  unfold is_m8_script. set (s := po_script o). change M8_CANONICAL_SCRIPT_LEN with 70%nat.
  change (Z.of_nat M8_PAYLOAD_LEN) with 68. destruct (Nat.eqb_spec (length s) 70) as [E|]; [|done].
  rewrite !byte_is_ok, range_is_ok by lia. cbn [and_then mbind option_bind andb].
  rewrite !copy_range_ok by lia.
  repeat (destruct (bool_decide _); cbn [and_then mbind option_bind andb negb]; try done).
Qed.

(** The address of a deposit is pushed by the output after the treasury output. *)
Definition deposit_address (outputs : list ParsedOutput) (treasury_index : nat) : option bytes :=
  output ← outputs !! S treasury_index; op_return_push (po_script output).

Lemma deposit_address_total outputs i :
  match outputs !! S i with None => Some None | Some output => extract_single_op_return_push (po_script output) end
  = Some (deposit_address outputs i).
Proof. unfold deposit_address. destruct (outputs !! S i); [apply extract_push_total|done]. Qed.
End reads.
