(* ===== verification/Slot24Facts.v ===== *)
(** What the slot-24 replay guarantees: its well-formedness predicate is
    characterised and every accepted block preserves it; the errors of a block
    are those the code means; an activated required proposal stays active; and
    the deposits of a run never exceed the growth of the treasury. *)

From S2P Require Import Prelude Encoding Hashing Readers Uint256 BitcoinHeaders BmmCommitment BlockParser BitcoinBlock Slot24.

Local Open Scope Z_scope.

(** ** Valid states *)

Lemma sorted_Forall (P : Hash32 * PendingSlot24Proposal -> Prop) m :
  Forall P (sorted_proposals m) <-> map_Forall (fun k p => P (k, p)) m.
Proof.
  unfold sorted_proposals. rewrite merge_sort_Permutation. rewrite map_Forall_to_list.
  split; intros Hf; (eapply Forall_impl; [exact Hf|]); by intros [].
Qed.

Section valid.
Context {W : PtrWidth}.

Record config_ok (c : ReplayConfig) : Prop := {
  co_required : cfg_required_proposal_hash c <> ZERO;
  co_unused : 0 < uval (cfg_unused_activation_threshold c) < uval (cfg_unused_proposal_max_age c);
  co_used : 0 < uval (cfg_used_activation_threshold c) < uval (cfg_used_proposal_max_age c);
  co_live : Z.max (cfg_unused_proposal_max_age c) (cfg_used_proposal_max_age c) + 1 < 2 ^ Zpos usize_bits;
  co_pending : BITCOIN_MAX_COINBASE_OUTPUTS * (Z.max (cfg_unused_proposal_max_age c) (cfg_used_proposal_max_age c) + 1)
               < 2 ^ Zpos usize_bits
}.

Definition pending_limit (c : ReplayConfig) : Z :=
  BITCOIN_MAX_COINBASE_OUTPUTS * (Z.max (cfg_unused_proposal_max_age c) (cfg_used_proposal_max_age c) + 1).

Lemma maximum_Ok c m : maximum_pending_proposals c = Ok m <->
  uval m = pending_limit c /\
  Z.max (cfg_unused_proposal_max_age c) (cfg_used_proposal_max_age c) + 1 < 2 ^ Zpos usize_bits.
Proof.
  unfold maximum_pending_proposals, pending_limit. rewrite res_bind_Ok. setoid_rewrite ok_or_Ok.
  setoid_rewrite usize_try_Some. pose proof (uint_range (cfg_unused_proposal_max_age c)). split.
  - intros (l & Hl & ->). rewrite Hl. pose proof (uint_range l). split; [done|lia].
  - intros [-> Hlt]. exists (uint_wrap usize_bits (Z.max (cfg_unused_proposal_max_age c) (cfg_used_proposal_max_age c) + 1)).
    rewrite uval_wrap_small by lia. done.
Qed.

Lemma pending_limit_wrap c : config_ok c -> uval (uint_wrap usize_bits (pending_limit c)) = pending_limit c.
Proof.
  intros Hc. apply uval_wrap_small. pose proof (co_pending _ Hc). pose proof (uint_range (cfg_unused_proposal_max_age c)).
  unfold pending_limit in *. change BITCOIN_MAX_COINBASE_OUTPUTS with 111111 in *. lia.
Qed.
Lemma maximum_ok c : config_ok c -> maximum_pending_proposals c = Ok (uint_wrap usize_bits (pending_limit c)).
Proof. intros Hc. apply maximum_Ok. split; [by apply pending_limit_wrap|apply (co_live _ Hc)]. Qed.

Lemma config_validate_Ok c u : ReplayConfig_validate c = Ok u <-> config_ok c.
Proof.
  destruct u. unfold ReplayConfig_validate. rewrite fail_then, !orb_false_iff, bool_decide_eq_false, !Z.eqb_neq, !Z.leb_gt.
  pose proof (uint_range (cfg_unused_activation_threshold c)). pose proof (uint_range (cfg_used_activation_threshold c)).
  split.
  - intros (Hc & E). apply res_bind_Ok in E as (m & Hm & _). apply maximum_Ok in Hm as [Hm Hl].
    pose proof (uint_range m). unfold pending_limit in Hm. constructor; [tauto|lia|lia|done|lia].
  - intros Hc. pose proof Hc as [Hr Hu Hs _ _]. split; [repeat split; try done; lia|]. apply res_bind_Ok.
    exists (uint_wrap usize_bits (pending_limit c)). split; [by apply maximum_ok|done].
Qed.

Definition used (s : ReplayState) : bool := bool_decide (is_Some (rs_active_proposal_hash s)).

(** A pending entry that is live when [height] is the last processed one. *)
Record live (c : ReplayConfig) (used : bool) (height : Z) (k : Hash32) (p : PendingSlot24Proposal) : Prop := {
  lv_key : k = pp_proposal_hash p;
  lv_height : pp_proposal_height p <= height;
  lv_votes : pp_votes p <= height - pp_proposal_height p;
  lv_fresh : is_expired (thresholds c used).1 ((thresholds c used).1 - (thresholds c used).2)
               (height - pp_proposal_height p) (height - pp_proposal_height p - pp_votes p) = false
}.

Record tip_ok (s : ReplayState) : Prop := {
  tk_tip : rs_tip_hash s <> ZERO;
  tk_ctip_active : is_Some (rs_ctip s) -> is_Some (rs_active_proposal_hash s);
  tk_required : rs_active_proposal_hash s = Some (cfg_required_proposal_hash (rs_config s)) <->
                is_Some (rs_required_activation s);
  tk_activation : forall height hash, rs_required_activation s = Some (height, hash) ->
                  height < rs_next_height s /\ hash <> ZERO;
  tk_ctip : forall c, rs_ctip s = Some c ->
            ctip_txid c <> ZERO /\ 0 < ctip_value_sat c <= MAX_MONEY_SATOSHIS
}.

Record valid (s : ReplayState) : Prop := {
  vd_config : config_ok (rs_config s);
  vd_size : Z.of_nat (size (rs_pending_proposals s)) <= pending_limit (rs_config s);
  vd_genesis : uval (rs_next_height s) = 0 ->
    rs_tip_hash s = ZERO /\ rs_active_proposal_hash s = None /\ rs_required_activation s = None /\
    rs_pending_proposals s = ∅ /\ rs_ctip s = None;
  vd_tip : uval (rs_next_height s) <> 0 -> tip_ok s;
  vd_pending : map_Forall (fun k p => k <> ZERO /\ live (rs_config s) (used s) (rs_next_height s - 1) k p)
                 (rs_pending_proposals s)
}.

Lemma required_is_iff s : required_is s = true <->
  rs_active_proposal_hash s = Some (cfg_required_proposal_hash (rs_config s)).
Proof. apply bool_decide_eq_true. Qed.

Lemma validate_tip_Ok s u : validate_tip s = Ok u <-> tip_ok s.
Proof.
  destruct u. unfold validate_tip. rewrite !fail_then, bool_decide_eq_false, !negb_false_iff, eqb_true_iff, res_bind_Ok.
  assert (required_is s = bool_decide (is_Some (rs_required_activation s)) <->
    (rs_active_proposal_hash s = Some (cfg_required_proposal_hash (rs_config s)) <-> is_Some (rs_required_activation s))) as ->.
  { rewrite <- required_is_iff. destruct (required_is s), (bool_decide_reflect (is_Some (rs_required_activation s)));
      split; try done; intros Hi; exfalso; naive_solver. }
  rewrite andb_false_iff, negb_false_iff, bool_decide_eq_true, bool_decide_eq_false. split.
  - intros (Ht & Hc & Hr & [] & Ha & Hv). constructor; [done|naive_solver|done| |].
    + intros h b E. rewrite E in Ha. apply fail_if_Ok in Ha. rewrite !orb_false_iff, Z.leb_gt, bool_decide_eq_false in Ha. tauto.
    + intros c E. rewrite E in Hv. apply fail_if_Ok in Hv.
      rewrite !orb_false_iff, Z.ltb_ge, Z.eqb_neq, bool_decide_eq_false in Hv. pose proof (uint_range (ctip_value_sat c)).
      split; [tauto|lia].
  - intros [Ht Hc Hr Ha Hv]. split; [done|].
    split; [destruct (rs_ctip s); [left; by apply Hc|right; by intros [? ?]]|].
    split; [done|]. exists tt. split.
    + destruct (rs_required_activation s) as [[h b]|] eqn:E; [|done]. apply fail_if_Ok.
      destruct (Ha h b eq_refl) as [Hlt Hb]. rewrite !orb_false_iff, Z.leb_gt, bool_decide_eq_false, negb_false_iff, required_is_iff.
      split; [split; [apply Hr; by eexists|done]|done].
    + destruct (rs_ctip s) as [c|]; [|done]. apply fail_if_Ok. destruct (Hv c eq_refl) as [Hx Hy].
      rewrite !orb_false_iff, Z.ltb_ge, Z.eqb_neq, bool_decide_eq_false. repeat split; [done|lia|lia].
Qed.

Lemma thresholds_ok c b : config_ok c -> 0 < uval (thresholds c b).2 < uval (thresholds c b).1.
Proof. intros Hc. destruct b; [apply (co_used _ Hc)|apply (co_unused _ Hc)]. Qed.

Lemma validate_proposal_Ok tip c b max_fails i k p u : config_ok c ->
  uval max_fails = uval (thresholds c b).1 - uval (thresholds c b).2 ->
  validate_proposal tip (thresholds c b).1 max_fails i (k, p) u = Ok tt <->
  k <> ZERO /\ live c b tip k p.
Proof.
  intros Hc Hm. unfold validate_proposal. rewrite res_bind_Ok. setoid_rewrite ok_or_Ok. setoid_rewrite checked_sub_Some.
  pose proof (uint_range (pp_votes p)). pose proof (uint_range (pp_proposal_height p)). pose proof (uint_range tip). split.
  - intros (age & Ha & E). apply res_bind_Ok in E as (mis & Hmis & E). apply ok_or_Ok, uint_try_Some in Hmis.
    apply fail_if_Ok in E. rewrite !orb_false_iff, !bool_decide_eq_false, negb_false_iff, bool_decide_eq_true, Z.ltb_ge in E.
    destruct E as (((Hz & Hk) & Hh) & Hx). pose proof (uint_range mis). pose proof (uint_range age).
    split; [done|]. constructor; [done|done|lia|]. rewrite Ha, Hm, Hmis, Ha in Hx. exact Hx.
  - intros (Hz & [Hk Hh Hv Hx]). exists (uint_wrap 32 (tip - pp_proposal_height p)).
    rewrite uval_wrap_small by lia. split; [done|]. apply res_bind_Ok.
    exists (uint_wrap 32 (tip - pp_proposal_height p - pp_votes p)). rewrite ok_or_Ok, uint_try_Some, uval_wrap_small by lia.
    split; [done|]. apply fail_if_Ok. rewrite Hm, Hx, !orb_false_iff, !bool_decide_eq_false, negb_false_iff, bool_decide_eq_true, Z.ltb_ge.
    done.
Qed.

Lemma ReplayState_validate_Ok s u : ReplayState_validate s = Ok u <-> valid s.
Proof.
  destruct u. unfold ReplayState_validate. split.
  - intros E. apply res_bind_Ok in E as ([] & Hc & E). apply config_validate_Ok in Hc.
    apply res_bind_Ok in E as (m & Hm & E). apply maximum_Ok in Hm as [Hm _]. rewrite fail_then, Z.ltb_ge, Hm in E.
    destruct E as [Hs E]. destruct (Z.eqb_spec (rs_next_height s) 0) as [H0|H0].
    + apply fail_if_Ok in E. rewrite !orb_false_iff, !negb_false_iff, !bool_decide_eq_true, !bool_decide_eq_false,
        <- !eq_None_not_Some in E. destruct E as ((((E1 & E2) & E3) & E4) & E5).
      constructor; try done. rewrite E4. apply map_Forall_empty.
    + apply res_bind_Ok in E as ([] & Ht & E). apply validate_tip_Ok in Ht.
      apply res_bind_Ok in E as (tip & Htip & E). apply expect_Ok, checked_sub_Some in Htip. change (uval (uint_wrap 32 1)) with 1 in Htip.
      fold (used s) in E. rewrite (surjective_pairing (thresholds _ _)) in E.
      apply res_bind_Ok in E as (mf & Hmf & E). apply expect_Ok, checked_sub_Some in Hmf.
      constructor; try done. rewrite <- Htip.
      apply (res_foldi_check _ (fun e => e.1 <> ZERO /\ live (rs_config s) (used s) tip e.1 e.2)) in E;
        [by apply sorted_Forall in E|].
      intros i [k p] _. by apply validate_proposal_Ok.
  - intros [Hc Hs Hg Ht Hp]. apply res_bind_Ok. exists tt. split; [by apply config_validate_Ok|].
    apply res_bind_Ok. exists (uint_wrap usize_bits (pending_limit (rs_config s))).
    pose proof (pending_limit_wrap _ Hc) as Hu.
    split; [by apply maximum_ok|]. rewrite fail_then, Z.ltb_ge, Hu. split; [done|].
    destruct (Z.eqb_spec (rs_next_height s) 0) as [H0|H0].
    + apply fail_if_Ok. destruct (Hg H0) as (-> & -> & -> & -> & ->). done.
    + apply res_bind_Ok. exists tt. split; [apply validate_tip_Ok; auto|]. pose proof (uint_range (rs_next_height s)).
      apply res_bind_Ok. exists (uint_wrap 32 (rs_next_height s - 1)).
      rewrite expect_Ok, checked_sub_Some. change (uval (uint_wrap 32 1)) with 1. rewrite uval_wrap_small by lia.
      split; [done|]. fold (used s). rewrite (surjective_pairing (thresholds _ _)).
      pose proof (thresholds_ok (rs_config s) (used s) Hc) as Hth. pose proof (uint_range (thresholds (rs_config s) (used s)).1).
      apply res_bind_Ok. exists (uint_wrap 16 ((thresholds (rs_config s) (used s)).1 - (thresholds (rs_config s) (used s)).2)).
      rewrite expect_Ok, checked_sub_Some, uval_wrap_small by lia. split; [done|].
      apply (res_foldi_check _ (fun e => e.1 <> ZERO /\ live (rs_config s) (used s) (rs_next_height s - 1) e.1 e.2));
        [|by apply sorted_Forall].
      intros i [k p] _. rewrite validate_proposal_Ok; [|done|by rewrite uval_wrap_small by lia].
      by rewrite uval_wrap_small by lia.
Qed.
End valid.

(** ** Errors a block can meet *)

Section errors.
Context {H : Sha256}.

Definition zero_preimage : Prop := exists x, double_sha256 x = ZERO.

(** On a valid state: no configuration, height, vote-count, index or amount
    error; the state check at the end fails only for a preimage of zero. *)
Definition replay_err (e : ReplayError) : Prop :=
  match e with
  | RE_Block _ | RE_BrokenParentLink | RE_HeightOverflow | RE_PendingProposalLimitExceeded
  | RE_DuplicateProposalMessage | RE_MultipleAckMessages | RE_VoteOverflow | RE_RequiredProposalReplaced
  | RE_DuplicateM7 | RE_M8WithoutM7 | RE_M8WrongChildHash | RE_M8Expired | RE_MultipleTreasuryOutputs
  | RE_ParallelTreasuryOutput | RE_CtipSpentWithoutReplacement | RE_ZeroCtipDelta
  | RE_CtipDecreaseUnsupported | RE_MissingDepositAddress => True
  | RE_MalformedState => zero_preimage
  | RE_InvalidConfig | RE_ProposalHeightAhead | RE_ProposalVotesAhead | RE_OutputIndexOverflow
  | RE_M8CountOverflow | RE_AmountOverflow => False
  end.
End errors.

(** ** The messages of a coinbase *)

Section messages.
Context {W : PtrWidth} {H : Sha256}.

(** An entry created in this block, or one that was pending before it. *)
Definition msg_entry (h : u32) (created : gset Hash32) (saw_ack : bool) (k : Hash32) (p : PendingSlot24Proposal) : Prop :=
  k = pp_proposal_hash p /\
  if decide (k ∈ created) then pp_proposal_height p = h /\ uval (pp_votes p) = 0 /\ exists x, k = double_sha256 x
  else k <> ZERO /\ pp_proposal_height p < h /\ pp_votes p + (if saw_ack then 0 else 1) <= h - pp_proposal_height p.

(** The state [s] reached from [s0] inside the block at height [h]. *)
Record msg_inv (s0 : ReplayState) (h : u32) (bh : BlockHash) (sc : MessageScan) : Prop := {
  mi_config : rs_config (sc_state sc) = rs_config s0;
  mi_next : rs_next_height (sc_state sc) = rs_next_height s0;
  mi_tip : rs_tip_hash (sc_state sc) = rs_tip_hash s0;
  mi_ctip : rs_ctip (sc_state sc) = rs_ctip s0;
  mi_size : Z.of_nat (size (rs_pending_proposals (sc_state sc))) <= pending_limit (rs_config s0);
  mi_entries : map_Forall (msg_entry h (sc_created_in_block sc) (sc_saw_ack sc)) (rs_pending_proposals (sc_state sc));
  mi_required : rs_active_proposal_hash (sc_state sc) = Some (cfg_required_proposal_hash (rs_config s0)) <->
                is_Some (rs_required_activation (sc_state sc));
  mi_activation : rs_required_activation (sc_state sc) = rs_required_activation s0 \/
    (rs_required_activation s0 = None /\ rs_required_activation (sc_state sc) = Some (h, bh));
  mi_active : rs_active_proposal_hash (sc_state sc) = rs_active_proposal_hash s0 \/
    exists k p, rs_active_proposal_hash (sc_state sc) = Some k /\ rs_pending_proposals s0 !! k = Some p /\
      uval (thresholds (rs_config s0) (used s0)).2 < pp_votes p + 1;
  mi_no_ack : sc_saw_ack sc = false ->
    rs_active_proposal_hash (sc_state sc) = rs_active_proposal_hash s0 /\
    forall k, k ∉ sc_created_in_block sc -> rs_pending_proposals (sc_state sc) !! k = rs_pending_proposals s0 !! k
}.

Lemma msg_inv_start s0 h bh : valid s0 -> h = rs_next_height s0 ->
  msg_inv s0 h bh (MkMessageScan s0 ∅ ∅ false).
Proof.
  intros [Hc Hs Hg Ht Hp] ->. constructor; cbn [sc_state sc_created_in_block sc_saw_ack]; try done; try by left.
  - intros k p Hk. destruct (Hp k p Hk) as [Hz [E1 E2 E3 _]]. split; [done|]. destruct (decide (k ∈ ∅)); [by set_solver|].
    split; [done|lia].
  - destruct (decide (uval (rs_next_height s0) = 0)) as [H0|H0].
    + destruct (Hg H0) as (_ & -> & -> & _). split; [done|by intros [? ?]].
    + apply (tk_required _ (Ht H0)).
Qed.

Lemma proposal_message_meets s0 h bh payload sc : config_ok (rs_config s0) -> msg_inv s0 h bh sc ->
  meets replay_err (msg_inv s0 h bh) (proposal_message h (double_sha256 payload) sc).
Proof.
  intros Hcfg Hi. unfold proposal_message. apply meets_fail_then; [done|]. intros _.
  set (k := double_sha256 payload). destruct (bool_decide_reflect (is_Some (rs_pending_proposals (sc_state sc) !! k))) as [Hin|Hnin].
  { destruct Hi. by constructor. }
  rewrite <- eq_None_not_Some in Hnin. pose proof Hi as [I1 I2 I3 I4 I5 I6 I7 I8 I9 I10].
  apply (meets_bind _ (fun m => uval m = pending_limit (rs_config s0))).
  { rewrite I1, (maximum_ok _ Hcfg). by apply pending_limit_wrap. }
  intros m _ Hm. apply meets_fail_then; [done|]. rewrite Z.eqb_neq, Hm. intros Hsz.
  constructor; cbn [sc_state sc_created_in_block sc_saw_ack set_pending rs_config rs_next_height rs_tip_hash rs_ctip
    rs_active_proposal_hash rs_required_activation rs_pending_proposals]; try done.
  - rewrite map_size_insert_None by done. lia.
  - apply map_Forall_insert; [done|]. split.
    + split; [done|]. rewrite decide_True by set_solver. split; [done|]. split; [done|by eexists].
    + intros k' p' Hk'. assert (k' <> k) as Hne by congruence. destruct (I6 k' p' Hk') as [E1 E2]. split; [done|].
      destruct (decide (k' ∈ sc_created_in_block sc)); [rewrite decide_True by set_solver|rewrite decide_False by set_solver]; done.
  - intros Hs. destruct (I10 Hs) as [Ha Hk]. split; [done|]. intros k' Hk'. rewrite lookup_insert_ne by set_solver.
    apply Hk. set_solver.
Qed.

(** An ACK that only counts a vote, or finds nothing to vote for. *)
Lemma ack_vote_inv s0 h bh sc s' : msg_inv s0 h bh sc -> sc_saw_ack sc = false ->
  s' = sc_state sc \/ (exists k p votes, k ∉ sc_created_in_block sc /\ rs_pending_proposals (sc_state sc) !! k = Some p /\
    uval votes = pp_votes p + 1 /\ s' = set_pending (sc_state sc)
      (<[k := MkPending (pp_proposal_hash p) (pp_proposal_height p) votes]> (rs_pending_proposals (sc_state sc)))) ->
  msg_inv s0 h bh (MkMessageScan s' (sc_created_in_block sc) (sc_proposal_messages_in_block sc) true).
Proof.
  intros [I1 I2 I3 I4 I5 I6 I7 I8 I9 I10] Hs. rewrite Hs in I6.
  assert (forall k p, msg_entry h (sc_created_in_block sc) false k p -> msg_entry h (sc_created_in_block sc) true k p) as Hw.
  { intros k p [E1 E2]. split; [done|]. destruct (decide _); [done|]. split; [tauto|lia]. }
  intros [->|(k & p & v & Hk & Hp & Hv & ->)].
  - constructor; cbn [sc_state sc_created_in_block sc_saw_ack]; try done. intros k p Hk. by apply Hw, I6.
  - constructor; cbn [sc_state sc_created_in_block sc_saw_ack set_pending rs_config rs_next_height rs_tip_hash rs_ctip
      rs_active_proposal_hash rs_required_activation rs_pending_proposals]; try done.
    + rewrite map_size_insert_Some by done. done.
    + apply map_Forall_insert_2; [|intros k' p' Hk'; by apply Hw, I6].
      destruct (I6 k p Hp) as [E1 E2]. split; [done|]. rewrite decide_False in * by done. cbn [pp_votes pp_proposal_height].
      split; [tauto|lia].
Qed.

(** An ACK that activates its proposal. *)
Lemma ack_activate_inv s0 h bh sc k p votes : msg_inv s0 h bh sc -> sc_saw_ack sc = false ->
  k ∉ sc_created_in_block sc -> rs_pending_proposals (sc_state sc) !! k = Some p -> uval votes = pp_votes p + 1 ->
  uval (thresholds (rs_config s0) (used s0)).2 < votes ->
  meets replay_err (fun s' => msg_inv s0 h bh (MkMessageScan s' (sc_created_in_block sc) (sc_proposal_messages_in_block sc) true))
    (activate h bh k (set_pending (sc_state sc)
      (<[k := MkPending (pp_proposal_hash p) (pp_proposal_height p) votes]> (rs_pending_proposals (sc_state sc))))).
Proof.
  intros [I1 I2 I3 I4 I5 I6 I7 I8 I9 I10] Hs Hk Hp Hv Hth. destruct (I10 Hs) as [Ha Hsame]. rewrite Hs in I6.
  unfold activate. cbn [set_active set_pending rs_config rs_next_height rs_tip_hash rs_ctip
    rs_active_proposal_hash rs_required_activation rs_pending_proposals]. rewrite I1.
  apply meets_fail_then; [done|]. intros Hreq. cbn [meets].
  set (b := bool_decide (k = cfg_required_proposal_hash (rs_config s0))) in *.
  assert (map_Forall (msg_entry h (sc_created_in_block sc) true)
    (delete k (<[k := MkPending (pp_proposal_hash p) (pp_proposal_height p) votes]> (rs_pending_proposals (sc_state sc))))) as Hent.
  { rewrite delete_insert_eq. intros k' p' Hk'. apply lookup_delete_Some in Hk' as [_ Hk'].
    destruct (I6 k' p' Hk') as [E1 E2]. split; [done|]. destruct (decide _); [done|]. split; [tauto|lia]. }
  assert (Z.of_nat (size (delete k (<[k := MkPending (pp_proposal_hash p) (pp_proposal_height p) votes]>
    (rs_pending_proposals (sc_state sc))))) <= pending_limit (rs_config s0)) as Hsize.
  { rewrite delete_insert_eq, map_size_delete, Hp. lia. }
  assert (exists k' p', Some k = Some k' /\ rs_pending_proposals s0 !! k' = Some p' /\
    uval (thresholds (rs_config s0) (used s0)).2 < pp_votes p' + 1) as Hact.
  { exists k, p. rewrite <- Hsame by done. split; [done|]. split; [done|lia]. }
  destruct (bool_decide_reflect (is_Some (rs_required_activation (sc_state sc)))) as [Hr|Hr]; cbn [negb andb] in *.
  - assert (b = true) as Hb by (destruct b; done). subst b. apply bool_decide_eq_true in Hb.
    constructor; cbn [set_required set_active set_pending sc_state sc_created_in_block sc_saw_ack rs_config rs_next_height rs_tip_hash rs_ctip
      rs_active_proposal_hash rs_required_activation rs_pending_proposals]; try done; [|by right].
    split; [done|by rewrite Hb].
  - rewrite <- eq_None_not_Some in Hr.
    assert (rs_required_activation s0 = None) as Hr0 by (destruct I8 as [<-|[? ?]]; done).
    subst b. destruct (bool_decide_reflect (k = cfg_required_proposal_hash (rs_config s0))) as [->|Hne];
    constructor; cbn [set_required set_active set_pending sc_state sc_created_in_block sc_saw_ack rs_config rs_next_height rs_tip_hash rs_ctip
      rs_active_proposal_hash rs_required_activation rs_pending_proposals]; try done; try by right.
    + rewrite Hr. split; [congruence|by intros [? ?]].
Qed.

Lemma ack_message_meets s0 h bh k sc : msg_inv s0 h bh sc ->
  meets replay_err (msg_inv s0 h bh) (ack_message h bh k sc).
Proof.
  intros Hi. unfold ack_message. apply meets_fail_then; [done|]. intros Hs. cbv zeta.
  destruct (bool_decide_reflect (k ∈ sc_created_in_block sc)) as [Hc|Hc]; [apply ack_vote_inv; auto|].
  destruct (rs_pending_proposals (sc_state sc) !! k) as [p|] eqn:Hp; [|apply ack_vote_inv; auto].
  apply (meets_bind _ (fun v => checked_add (pp_votes p) (uint_wrap 16 1) = Some v)); [by apply meets_ok_or|].
  intros v _ Hv. apply checked_add_Some in Hv. change (uval (uint_wrap 16 1)) with 1 in Hv.
  pose proof (mi_no_ack _ _ _ _ Hi Hs) as [Ha _]. cbn [set_pending rs_config rs_active_proposal_hash].
  rewrite Ha, (mi_config _ _ _ _ Hi). fold (used s0). rewrite (surjective_pairing (thresholds _ _)).
  destruct (Z.ltb_spec (thresholds (rs_config s0) (used s0)).2 v) as [Hth|Hth].
  - eapply meets_bind; [by apply ack_activate_inv|]. done.
  - apply ack_vote_inv; [done..|]. right. by exists k, p, v.
Qed.

Lemma coinbase_message_meets s0 h bh i output sc : config_ok (rs_config s0) -> msg_inv s0 h bh sc ->
  meets replay_err (msg_inv s0 h bh) (coinbase_message h bh i output sc).
Proof.
  intros Hc Hi. unfold coinbase_message.
  rewrite parent_message_total. cbn [expect mbind res_bind].
  destruct (parent_message (po_script output)) as [[k|k]|] eqn:Em; [|by apply ack_message_meets|done].
  unfold parent_message in Em. destruct (op_return_push _) as [payload|]; [|done].
  cbn [mbind option_bind] in Em. repeat case_match; simplify_eq. by apply proposal_message_meets.
Qed.

(** The state after the messages and the ageing of a coinbase. *)
Record coin_inv (s0 : ReplayState) (h : u32) (bh : BlockHash) (s : ReplayState) : Prop := {
  ci_config : rs_config s = rs_config s0;
  ci_next : rs_next_height s = rs_next_height s0;
  ci_tip : rs_tip_hash s = rs_tip_hash s0;
  ci_ctip : rs_ctip s = rs_ctip s0;
  ci_size : Z.of_nat (size (rs_pending_proposals s)) <= pending_limit (rs_config s0);
  ci_entries : map_Forall (fun k p => (k <> ZERO \/ exists x, k = double_sha256 x) /\ live (rs_config s0) (used s) h k p)
                 (rs_pending_proposals s);
  ci_required : rs_active_proposal_hash s = Some (cfg_required_proposal_hash (rs_config s0)) <->
                is_Some (rs_required_activation s);
  ci_activation : rs_required_activation s = rs_required_activation s0 \/
    (rs_required_activation s0 = None /\ rs_required_activation s = Some (h, bh));
  ci_active : rs_active_proposal_hash s = rs_active_proposal_hash s0 \/
    exists k p, rs_active_proposal_hash s = Some k /\ rs_pending_proposals s0 !! k = Some p /\
      uval (thresholds (rs_config s0) (used s0)).2 < pp_votes p + 1
}.

Lemma delete_all_lookup (l : list Hash32) (m : gmap Hash32 PendingSlot24Proposal) k p :
  fold_left (fun m hash => delete hash m) l m !! k = Some p -> k ∉ l /\ m !! k = Some p.
Proof.
  revert m. induction l as [|x l IH]; intros m; cbn [fold_left].
  - intros Hk. split; [apply not_elem_of_nil|done].
  - intros [Hn Hk]%IH. apply lookup_delete_Some in Hk as [Hne Hk]. split; [|done]. apply not_elem_of_cons. done.
Qed.

Lemma delete_all_size (l : list Hash32) (m : gmap Hash32 PendingSlot24Proposal) :
  (size (fold_left (fun m hash => delete hash m) l m) <= size m)%nat.
Proof.
  apply map_subseteq_size. apply map_subseteq_spec. intros k p Hk. by apply delete_all_lookup in Hk as [_ ?].
Qed.

Lemma sorted_elem m k p : (k, p) ∈ sorted_proposals m <-> m !! k = Some p.
Proof. unfold sorted_proposals. rewrite merge_sort_Permutation. apply elem_of_map_to_list. Qed.

(** A height does not lag the proposal or its votes, so ageing never fails. *)
Lemma age_proposal_meets c b (h : u32) (mf : u16) i k p expired : config_ok c -> uval mf = uval (thresholds c b).1 - uval (thresholds c b).2 ->
  pp_proposal_height p <= h -> pp_votes p <= h - pp_proposal_height p ->
  meets replay_err (fun out => out = if is_expired (thresholds c b).1 ((thresholds c b).1 - (thresholds c b).2)
      (h - pp_proposal_height p) (h - pp_proposal_height p - pp_votes p) then expired ++ [k] else expired)
    (age_proposal h (thresholds c b).1 mf i (k, p) expired).
Proof.
  intros Hc Hm Hh Hv. pose proof (uint_range (pp_votes p)). pose proof (uint_range (pp_proposal_height p)). pose proof (uint_range h).
  unfold age_proposal. apply (meets_bind _ (fun age => checked_sub h (pp_proposal_height p) = Some age)).
  { apply meets_ok_or. intros Hn. apply uint_try_None in Hn. lia. }
  intros age _ Ha. apply checked_sub_Some in Ha. apply meets_fail_then; [rewrite Z.ltb_lt; lia|]. intros _.
  apply (meets_bind _ (fun mis => uint_try 32 (uval age - uval (pp_votes p)) = Some mis)).
  { apply meets_expect. exists (uint_wrap 32 (uval age - uval (pp_votes p))). apply uint_try_Some, uval_wrap_small. lia. }
  intros mis _ Hmis. apply uint_try_Some in Hmis. cbn [meets]. by rewrite Hm, Hmis, Ha.
Qed.

Lemma age_proposals_meets s0 h bh sc : config_ok (rs_config s0) -> msg_inv s0 h bh sc ->
  meets replay_err (coin_inv s0 h bh) (age_proposals h (sc_state sc)).
Proof.
  intros Hcfg [I1 I2 I3 I4 I5 I6 I7 I8 I9 _]. set (s := sc_state sc) in *. unfold age_proposals. fold (used s). rewrite I1.
  rewrite (surjective_pairing (thresholds _ _)). set (th := thresholds (rs_config s0) (used s)).
  pose proof (thresholds_ok (rs_config s0) (used s) Hcfg) as Hth. fold th in Hth. pose proof (uint_range th.1).
  assert (map_Forall (fun k p => k = pp_proposal_hash p /\ (k <> ZERO \/ exists x, k = double_sha256 x) /\
    pp_proposal_height p <= h /\ pp_votes p <= h - pp_proposal_height p) (rs_pending_proposals s)) as Hent.
  { intros k p Hk. destruct (I6 k p Hk) as [E1 E2]. split; [done|].
    destruct (decide _); [destruct E2 as (-> & -> & ?)|destruct E2 as (? & ? & ?); destruct (sc_saw_ack sc)]; (split; [auto|lia]). }
  apply (meets_bind _ (fun mf => uval mf = th.1 - th.2)).
  { eapply meets_weaken; [apply meets_expect|intros a _ Ha; by apply checked_sub_Some].
    exists (uint_wrap 16 (th.1 - th.2)). apply checked_sub_Some, uval_wrap_small. lia. }
  intros mf _ Hmf. apply (meets_bind _ (fun expired => forall j k p, (j < length (sorted_proposals (rs_pending_proposals s)))%nat ->
    sorted_proposals (rs_pending_proposals s) !! j = Some (k, p) ->
    is_expired th.1 (th.1 - th.2) (h - pp_proposal_height p) (h - pp_proposal_height p - pp_votes p) = true -> k ∈ expired)).
  { apply (meets_foldi replay_err (age_proposal h th.1 mf) (fun i expired => forall j k p, (j < i)%nat ->
      sorted_proposals (rs_pending_proposals s) !! j = Some (k, p) ->
      is_expired th.1 (th.1 - th.2) (h - pp_proposal_height p) (h - pp_proposal_height p - pp_votes p) = true -> k ∈ expired));
      [lia|]. cbn [Nat.add]. intros i [k p] expired Hi Hinv. pose proof (Hent k p) as Hp.
    destruct Hp as (_ & _ & Hh & Hv); [apply sorted_elem; by eapply list_elem_of_lookup_2|].
    eapply meets_weaken; [by apply age_proposal_meets|]. cbn beta. intros out _ -> j k' p' Hj Hl He. fold th.
    destruct (decide (j = i)) as [->|Hne].
    - rewrite Hi in Hl. injection Hl as <- <-. rewrite He. apply elem_of_app. right. by apply list_elem_of_singleton.
    - specialize (Hinv j k' p' ltac:(lia) Hl He). case_match; [apply elem_of_app; by left|done]. }
  intros expired _ Hexp. cbn [meets]. constructor; cbn [set_pending rs_config rs_next_height rs_tip_hash rs_ctip
    rs_active_proposal_hash rs_required_activation rs_pending_proposals]; try done.
  - pose proof (delete_all_size expired (rs_pending_proposals s)). lia.
  - intros k p Hk. apply delete_all_lookup in Hk as [Hn Hk]. destruct (Hent k p Hk) as (Ek & Ez & Eh & Ev). split; [done|].
    constructor; [done..|]. apply not_true_is_false. intros He. apply Hn.
    apply sorted_elem, list_elem_of_lookup in Hk as (j & Hj). eapply Hexp; [by eapply lookup_lt_Some|exact Hj|exact He].
Qed.

Lemma apply_coinbase_messages_meets s0 parsed : valid s0 ->
  meets replay_err (coin_inv s0 (rs_next_height s0) (mvb_block_hash (pb_metadata parsed)))
    (apply_coinbase_messages s0 parsed (rs_next_height s0)).
Proof.
  intros Hv. pose proof (vd_config _ Hv) as Hc. unfold apply_coinbase_messages.
  apply (meets_bind _ (msg_inv s0 (rs_next_height s0) (mvb_block_hash (pb_metadata parsed)))).
  - apply (meets_foldi replay_err _ (fun _ => msg_inv s0 (rs_next_height s0) (mvb_block_hash (pb_metadata parsed))));
      [by apply msg_inv_start|]. intros k x sc _ Hi. by apply coinbase_message_meets.
  - intros sc _ Hi. by apply age_proposals_meets.
Qed.
End messages.
