(* ===== verification/Slot24Treasury.v ===== *)
(** The transactions of a slot-24 block: BMM requests and the treasury.  The
    deposits a block reports are disjoint slices of the growth of the CTIP, and
    the state check at the end of a block never fails on a valid state. *)

From S2P Require Import Prelude Encoding Hashing Readers Uint256 BitcoinHeaders BmmCommitment BlockParser BitcoinBlock ParentBlock Slot24 Slot24Facts.

Local Open Scope Z_scope.

Section slices.

(** The deposits, in order, are disjoint slices of the growth from [lo] to [hi]. *)
Fixpoint slices (lo : Z) (deposits : list MintableSlot24Deposit) (hi : Z) : Prop :=
  match deposits with
  | [] => lo <= hi
  | d :: deposits =>
      0 < md_value_sat d /\ lo + md_value_sat d <= ctip_value_sat (md_outpoint d) /\
      slices (ctip_value_sat (md_outpoint d)) deposits hi
  end.

Lemma slices_app lo ds es hi : slices lo (ds ++ es) hi <-> exists mid, slices lo ds mid /\ slices mid es hi.
Proof.
  revert lo. induction ds as [|d ds IH]; intros lo; cbn [app slices].
  - split.
    + intros Hs. exists lo. split; [lia|done].
    + intros (mid & Hl & Hs). destruct es as [|e es]; cbn [slices] in *; [lia|]. split; [tauto|]. split; [lia|tauto].
  - rewrite IH. naive_solver.
Qed.

Lemma slices_le lo ds mid hi : slices lo ds mid -> mid <= hi -> slices lo ds hi.
Proof. revert lo. induction ds as [|d ds IH]; intros lo; cbn [slices]; [lia|]. intros (? & ? & ?) ?. auto. Qed.

Lemma slices_sum lo ds hi : slices lo ds hi -> 0 <= sumZ (fun d => uval (md_value_sat d)) ds <= hi - lo.
Proof.
  revert lo. induction ds as [|d ds IH]; intros lo; unfold sumZ in *; cbn [slices foldr]; [lia|].
  intros (H0 & H1 & Hs). specialize (IH _ Hs). lia.
Qed.

Lemma slices_above lo ds hi : slices lo ds hi -> lo <= hi /\ Forall (fun d => lo < ctip_value_sat (md_outpoint d) <= hi) ds.
Proof.
  revert lo. induction ds as [|d ds IH]; intros lo; cbn [slices]; [intros; split; [lia|constructor]|].
  intros (H0 & H1 & Hs). destruct (IH _ Hs) as [Hl Hf]. split; [lia|]. constructor; [lia|].
  eapply Forall_impl; [exact Hf|]. cbn beta. lia.
Qed.

(** No treasury output backs two deposits. *)
Lemma slices_NoDup lo ds hi : slices lo ds hi -> NoDup (map md_outpoint ds).
Proof.
  revert lo. induction ds as [|d ds IH]; intros lo; cbn [slices map]; [intros; constructor|].
  intros (H0 & H1 & Hs). apply NoDup_cons. split; [|by eapply IH]. intros Hin.
  apply slices_above in Hs as [_ Hf]. apply list_elem_of_In, in_map_iff in Hin as (e & He & Hin%list_elem_of_In).
  apply (proj1 (Forall_forall _ _) Hf) in Hin. rewrite He in Hin. lia.
Qed.
End slices.

(** ** Facts of a parsed block *)

Section parsed.
Context {W : PtrWidth} (Hwidth : 32 <= Zpos usize_bits) {H : Sha256}.

Record transaction_ok (t : ParsedTransaction) : Prop := {
  to_count : Z.of_nat (length (pt_outputs t)) <= BITCOIN_MAX_COINBASE_OUTPUTS;
  to_values : Forall (fun o => output_value o <= MAX_MONEY_SATOSHIS) (pt_outputs t);
  to_inputs : NoDup (pt_inputs t);
  to_txid : exists x, pt_txid t = double_sha256 x
}.

Record parsed_ok (pb : ParsedBlock) : Prop := {
  po_count : Z.of_nat (length (pb_transactions pb)) <= BITCOIN_MAX_TRANSACTIONS;
  po_transactions : Forall transaction_ok (pb_transactions pb);
  po_coinbase : Z.of_nat (length (pc_outputs (pb_coinbase pb))) <= BITCOIN_MAX_COINBASE_OUTPUTS;
  po_scripts : forall s, s ∈ map po_script (pc_outputs (pb_coinbase pb)) -> Z.of_nat (length s) < 2 ^ Zpos usize_bits;
  po_hash : exists x, mvb_block_hash (pb_metadata pb) = double_sha256 x
}.

Lemma output_value_signed o : 0 <= out_value o -> uval (output_value o) = out_value o.
Proof.
  unfold out_value, output_value, signed. intros Hs. rewrite uval_wrap.
  pose proof (le_val_range (po_value o)) as Hr. rewrite arr_length in Hr. change (256 ^ Z.of_nat 8) with (2 ^ 64) in Hr.
  change (2 ^ (Zpos 64 - 1)) with (2 ^ 63) in *. change (2 ^ Zpos 64) with (2 ^ 64) in *.
  assert (2 ^ 64 = 2 * 2 ^ 63) as E by done.
  destruct (Z_lt_ge_dec (le_val (po_value o)) (2 ^ 63)) as [Hlt|Hge].
  - rewrite !Z.mod_small in * by lia. lia.
  - assert ((le_val (po_value o) + 2 ^ 63) mod 2 ^ 64 = le_val (po_value o) - 2 ^ 63) as Em.
    { symmetry. apply (Z.mod_unique_pos _ _ 1); lia. }
    rewrite Em in Hs. lia.
Qed.

Lemma kept_NoDup ins : wf_inputs ins -> NoDup (kept_outpoints ins).
Proof.
  intros [_ _ _ _ Hd]. unfold kept_outpoints. destruct (ins_coinbase ins) eqn:Ec.
  - unfold ins_coinbase in Ec. apply andb_true_iff in Ec as [Hl _]. apply Nat.eqb_eq in Hl.
    destruct ins as [|i [|]]; cbn [length] in Hl; try lia. apply NoDup_singleton.
  - unfold sort_outpoints. rewrite merge_sort_Permutation. auto.
Qed.

Lemma wf_tx_ok tx : wf_tx tx -> transaction_ok (parsed_of tx).
Proof.
  intros [Hi [Hc Hs Hv Ht] _]. constructor; cbn [parsed_of pt_outputs pt_txid pt_inputs]; [lia| |by apply kept_NoDup|by eexists].
  - apply Forall_forall. intros o Ho. pose proof (proj1 (Forall_forall _ _) Hv o Ho) as H0. cbn beta in H0.
    rewrite output_value_signed by done.
    assert (out_value o <= sumZ out_value (tx_outputs tx)) as Hle; [|lia].
    clear -Ho Hv. induction Hv as [|y l Hy Hl IH]; [by apply not_elem_of_nil in Ho|]. unfold sumZ in *. cbn [foldr].
    assert (0 <= foldr (fun a s => out_value a + s) 0 l) by (clear -Hl; induction Hl; cbn [foldr]; lia).
    apply elem_of_cons in Ho as [->|Ho]; [lia|]. specialize (IH Ho). lia.
Qed.

Lemma parsed_block_ok bs pb : parse_and_verify_block bs = Ok pb -> parsed_ok pb.
Proof.
  intros (raw & cb & rest & Hok & _ & ->)%parse_block_Ok; [|done].
  pose proof (coinbase_scripts_small Hwidth _ _ _ Hok) as (_ & _ & Hl). destruct Hok as [Hcnt Hwf _ _ _ _ _ _].
  constructor; cbn [block_of pb_transactions pb_coinbase pb_metadata mvb_block_hash coinbase_part pc_outputs].
  - rewrite length_map. exact Hcnt.
  - apply Forall_fmap. eapply Forall_impl; [exact Hwf|]. intros tx Ht. by apply wf_tx_ok.
  - apply Forall_cons in Hwf as [[_ [Hc _ _ _] _] _]. lia.
  - exact Hl.
  - by eexists.
Qed.
End parsed.

(** ** The transactions *)

Section transactions.
Context {W : PtrWidth} (Hwidth : 32 <= Zpos usize_bits) {H : Sha256}.

(** What every reported deposit carries. *)
Record mintable (pb : ParsedBlock) (h : u32) (d : MintableSlot24Deposit) : Prop := {
  mt_hash : md_block_hash d = mvb_block_hash (pb_metadata pb);
  mt_height : md_block_height d = h;
  mt_address : (1 <= length (md_elements_address d) <= 128)%nat
}.

Definition is_m8 (t : ParsedTransaction) : bool := bool_decide (is_Some (m8_request t)).

(** A BMM request names the child the coinbase commits to and the parent block. *)
Definition request_matches (pb : ParsedBlock) (observed : option ObservedM7) (t : ParsedTransaction) : Prop :=
  forall child previous, m8_request t = Some (child, previous) ->
    (exists m7, observed = Some m7 /\ child = om_child_hash m7) /\
    previous = hdr_previous_block (mvb_header (pb_metadata pb)).

(** The loop after the transactions [txs], from the state [s1]. *)
Record tx_inv (s1 : ReplayState) (pb : ParsedBlock) (h : u32) (observed : option ObservedM7)
    (txs : list ParsedTransaction) (ts : TransactionScan) : Prop := {
  xi_state : ts_state ts = set_ctip s1 (rs_ctip (ts_state ts));
  xi_count : uval (ts_matching_m8_requests ts) = Z.of_nat (length (filter (fun t => is_m8 t = true) txs));
  xi_requests : Forall (request_matches pb observed) txs;
  xi_slices : slices (ctip_value (rs_ctip s1)) (ts_deposits ts) (ctip_value (rs_ctip (ts_state ts)));
  xi_mintable : Forall (mintable pb h) (ts_deposits ts);
  xi_inactive : required_proposal_is_active s1 = false -> ts_deposits ts = [];
  xi_ctip : rs_ctip (ts_state ts) = rs_ctip s1 \/
    exists c, rs_ctip (ts_state ts) = Some c /\ is_Some (rs_active_proposal_hash s1) /\
      0 < ctip_value_sat c <= MAX_MONEY_SATOSHIS /\ exists x, ctip_txid c = double_sha256 x
}.

Lemma set_ctip_same s : set_ctip s (rs_ctip s) = s.
Proof. by destruct s. Qed.

Lemma ctip_value_nonneg c : 0 <= ctip_value c.
Proof. destruct c as [c|]; cbn; [|done]. pose proof (uint_range (ctip_value_sat c)). lia. Qed.

Lemma tx_inv_start s1 pb h observed : tx_inv s1 pb h observed [] (MkTransactionScan s1 [] (uint_wrap 32 0)).
Proof.
  constructor; cbn [ts_state ts_deposits ts_matching_m8_requests]; try done; [by rewrite set_ctip_same| |by left].
  cbn [slices]. lia.
Qed.

Lemma check_m8_meets pb observed t n txs : Z.of_nat (S (length txs)) < 2 ^ 32 ->
  uval n = Z.of_nat (length (filter (fun t => is_m8 t = true) txs)) ->
  meets replay_err (fun n' : u32 => request_matches pb observed t /\
      uval n' = Z.of_nat (length (filter (fun t => is_m8 t = true) (txs ++ [t])))) (check_m8 pb observed t n).
Proof.
  intros Hk Hn. unfold check_m8, request_matches. rewrite filter_app, length_app.
  pose proof (length_filter (fun t => is_m8 t = true) txs) as Hf. unfold is_m8 in *.
  rewrite m8_request_total. cbn [expect mbind res_bind].
  destruct (m8_request t) as [[child previous]|] eqn:Em.
  - rewrite filter_cons_True by (rewrite Em; by apply bool_decide_eq_true). rewrite filter_nil. cbn [length].
    eapply meets_bind; [by apply meets_ok_or|]. intros m7 _ Hm7.
    apply meets_fail_then; [done|]. intros Hc%negb_bool_decide_false.
    apply meets_fail_then; [done|]. intros Hp%negb_bool_decide_false.
    eapply meets_weaken; [apply meets_ok_or|].
    + intros Hn'. apply uint_try_None in Hn'. change (uval (uint_wrap 32 1)) with 1 in Hn'. lia.
    + intros a _ Ha. apply checked_add_Some in Ha. change (uval (uint_wrap 32 1)) with 1 in Ha. split; [|lia].
      intros c p [= <- <-]. split; [by exists m7|done].
  - rewrite filter_cons_False by (rewrite Em; by intros Hx%bool_decide_eq_true). rewrite filter_nil. cbn [length meets].
    split; [done|lia].
Qed.

(** The treasury output of a transaction, when the loop finds one. *)
Definition treasury_at : list ParsedOutput -> option (nat * u64) -> Prop :=
  unique_at (fun o => is_slot24_treasury (po_script o)) (fun i o => (i, output_value o)).

Lemma treasury_meets outputs : meets replay_err (treasury_at outputs) (res_foldi treasury_step 0 outputs None).
Proof.
  apply unique_scan; intros i o r _ Ho; unfold treasury_step; rewrite Ho; [done|].
  apply meets_fail_then; [done|]. intros Hn%bool_decide_eq_false. cbn [meets]. by rewrite <- eq_None_not_Some in Hn.
Qed.

Lemma usize_index_succ i : Z.of_nat (S i) < 2 ^ 32 -> usize_succ i = Some (S i).
Proof.
  intros Hi. apply usize_succ_Some. split; [done|].
  pose proof (Z.pow_le_mono_r 2 32 (Zpos usize_bits) ltac:(lia) Hwidth). lia.
Qed.

Lemma move_ctip_meets s1 pb h observed txs t i v ts : tx_inv s1 pb h observed txs ts -> transaction_ok t ->
  is_Some (rs_active_proposal_hash s1) -> treasury_at (pt_outputs t) (Some (i, v)) ->
  meets replay_err (tx_inv s1 pb h observed txs) (move_ctip pb h (required_proposal_is_active s1) t i v ts).
Proof.
  intros [I1 I2 Ireq I3 I4 I5 I6] [Hc Hv _ Ht] Hact (j & o & Ho & _ & [= -> ->] & _). unfold move_ctip.
  pose proof (Forall_lookup_1 _ _ _ _ Hv Ho) as Hmax. cbn beta in Hmax.
  pose proof (lookup_lt_Some _ _ _ Ho). change BITCOIN_MAX_COINBASE_OUTPUTS with 111111 in Hc.
  set (old := ctip_value (rs_ctip (ts_state ts))) in *. pose proof (ctip_value_nonneg (rs_ctip (ts_state ts))) as Hold. fold old in Hold.
  pose proof (uint_range (output_value o)) as Hr.
  apply meets_fail_then; [done|]. rewrite Z.eqb_neq. intros Hne.
  apply meets_fail_then; [done|]. rewrite Z.ltb_ge. intros Hge.
  rewrite usize_index_succ by lia. cbn [expect mbind res_bind].
  rewrite deposit_address_total. cbn [expect mbind res_bind].
  eapply meets_bind; [by apply meets_ok_or|]. intros address _ _.
  eapply meets_bind; [apply meets_ok_or|]; [intros Hn%uint_try_None; lia|]. intros value _ Hval%uint_try_Some.
  eapply meets_bind; [apply meets_ok_or|]; [intros Hn%uint_try_None; lia|]. intros vout _ Hvout%uint_try_Some.
  cbn [meets]. constructor; cbn [ts_state ts_deposits ts_matching_m8_requests set_ctip rs_ctip ctip_value from_option ctip_value_sat].
  - by rewrite I1.
  - done.
  - done.
  - assert (slices (ctip_value (rs_ctip s1)) (ts_deposits ts) (output_value o)) as Hs by (eapply slices_le; [exact I3|lia]).
    destruct (_ && _); [|done]. apply slices_app. exists old. split; [done|]. cbn [slices md_value_sat md_outpoint ctip_value_sat]. lia.
  - destruct (required_proposal_is_active s1 && _) eqn:Eb; [|done]. apply Forall_app. split; [done|]. apply Forall_singleton.
    rewrite !andb_true_iff, negb_true_iff, Nat.eqb_neq, Nat.leb_le in Eb. constructor; cbn; [done|done|lia].
  - intros E. rewrite E. cbn [andb]. auto.
  - right. eexists. split; [done|]. split; [done|]. cbn [ctip_value_sat ctip_txid]. split; [lia|done].
Qed.

(** Distinct inputs spend one outpoint at most once. *)
Lemma spends_once t c : NoDup (pt_inputs t) ->
  (length (filter (fun input => input_spends c input = true) (pt_inputs t)) <= 1)%nat.
Proof.
  intros Hn. destruct (filter _ _) as [|a [|b l]] eqn:Ef; cbn [length]; try lia. exfalso.
  assert (forall x : array 36, x ∈ a :: b :: l -> arr x = arr (ctip_txid c) ++ le_bytes 4 (ctip_vout c)) as Hall.
  { intros x Hx. rewrite <- Ef in Hx. apply list_elem_of_filter in Hx as [Hx _]. unfold input_spends in Hx.
    rewrite andb_true_iff, !bool_decide_eq_true in Hx. destruct Hx as [<- <-]. by rewrite take_drop. }
  assert (a = b) as -> by (apply array_eq; rewrite (Hall a), (Hall b) by set_solver; done).
  apply (NoDup_filter (fun input => input_spends c input = true)) in Hn. rewrite Ef in Hn.
  apply NoDup_cons in Hn as [Hx _]. apply Hx. by left.
Qed.

Lemma apply_transaction_meets s1 pb h observed txs t ts : Z.of_nat (S (length txs)) < 2 ^ 32 -> transaction_ok t ->
  tx_inv s1 pb h observed txs ts ->
  meets replay_err (tx_inv s1 pb h observed (txs ++ [t]))
    (apply_transaction pb h observed (required_proposal_is_active s1) (length txs) t ts).
Proof.
  intros Hk Ht [I1 I2 Ireq I3 I4 I5 I6]. unfold apply_transaction.
  eapply meets_bind; [apply check_m8_meets; [exact Hk|exact I2]|]. intros n _ [Hreq Hn]. cbv zeta. cbn [ts_state].
  assert (tx_inv s1 pb h observed (txs ++ [t]) (MkTransactionScan (ts_state ts) (ts_deposits ts) n)) as Hi.
  { constructor; cbn [ts_state ts_deposits ts_matching_m8_requests]; try done.
    apply Forall_app. split; [done|]. by apply Forall_singleton. }
  set (ts' := MkTransactionScan (ts_state ts) (ts_deposits ts) n) in *.
  destruct (bool_decide_reflect (is_Some (rs_active_proposal_hash (ts_state ts)))) as [Hact|]; cbn [negb]; [|done].
  eapply meets_bind; [apply treasury_meets|]. intros r _ Hr.
  do 2 (apply meets_fail_then; [done|]; intros ?).
  destruct (_ || _) eqn:Eskip; [done|]. apply meets_fail_then.
  { intros Hlt%Nat.ltb_lt. unfold current_ctip_inputs in Hlt. destruct (rs_ctip (ts_state ts)) as [c|]; [|lia].
    pose proof (spends_once t c (to_inputs _ Ht)). lia. }
  intros Hle. eapply meets_bind; [apply meets_expect|].
  - destruct r; [by eexists|]. exfalso. apply Nat.ltb_ge in Hle.
    destruct (bool_decide (is_Some (rs_ctip (ts_state ts)))) eqn:Ec; cbn in *; [|done].
    destruct (current_ctip_inputs (rs_ctip (ts_state ts)) t) as [|[|m]]; cbn in *; [done..|lia].
  - intros [i v] _ ->. cbn beta iota. apply (move_ctip_meets s1 pb h observed (txs ++ [t]) t i v ts' Hi Ht); [|done].
    rewrite I1 in Hact. exact Hact.
Qed.

Lemma apply_transactions_meets s1 pb h observed : parsed_ok pb ->
  meets replay_err (tx_inv s1 pb h observed (drop 1 (pb_transactions pb))) (apply_transactions s1 pb h observed).
Proof.
  intros [Hc Ht _ _ _]. unfold apply_transactions. change BITCOIN_MAX_TRANSACTIONS with 16666 in Hc.
  set (txs := drop 1 (pb_transactions pb)).
  eapply meets_weaken; [apply (meets_foldi replay_err _ (fun k => tx_inv s1 pb h observed (take k txs)))|].
  - cbn. rewrite take_0. apply tx_inv_start.
  - cbn [Nat.add]. intros k t ts Hk Hi. pose proof (lookup_lt_Some _ _ _ Hk) as Hlt.
    rewrite (take_S_r _ _ _ Hk). assert (length (take k txs) = k) as Hl by (rewrite length_take; lia).
    rewrite <- Hl at 2. unfold txs in Hlt. rewrite length_drop in Hlt. apply apply_transaction_meets; [lia| |done].
    unfold txs in Hk. rewrite lookup_drop in Hk. by apply (Forall_lookup_1 _ _ _ _ Ht Hk).
  - cbn [Nat.add]. by rewrite firstn_all.
Qed.
End transactions.
