(* ===== verification/Slot24Replay.v ===== *)
(** One parent block of the slot-24 replay, and runs of many: the properties of
    [apply_merkle_bound_elements_slot24_parent_block]. *)

From S2P Require Import Prelude Encoding Hashing Readers Uint256 BitcoinHeaders BmmCommitment BlockParser BitcoinBlock BlockTotality ParentBlock.
From S2P Require Import Slot24 Slot24Facts Slot24Treasury.

Local Open Scope Z_scope.

Section block.
Context {W : PtrWidth} (Hwidth : 32 <= Zpos usize_bits) {H : Sha256}.

(** ** The observed commitment *)

Definition observed_at : list ParsedOutput -> option ObservedM7 -> Prop :=
  unique_at (fun o => carries_m7 (po_script o))
    (fun i o => MkObservedM7 (uint_wrap 32 (Z.of_nat i))
       (subarray 32 5 (default [] (op_return_push (po_script o)))) (m7_canonical (po_script o))).

Lemma observe_meets pb : parsed_ok pb ->
  meets replay_err (observed_at (pc_outputs (pb_coinbase pb))) (observe_slot24_m7 pb).
Proof.
  intros [_ _ Hc _ _]. change BITCOIN_MAX_COINBASE_OUTPUTS with 111111 in Hc. unfold observe_slot24_m7.
  apply unique_scan; intros i o r Hi Ho; unfold observe_m7_step, carries_m7 in *;
    rewrite extract_push_total; cbn [expect mbind res_bind];
    destruct (op_return_push (po_script o)) as [payload|]; try done;
    rewrite m7_payload_total; cbn [expect mbind res_bind]; rewrite Ho; cbn [negb]; [done|].
  apply meets_fail_then; [done|]. intros Hn%bool_decide_eq_false. rewrite <- eq_None_not_Some in Hn.
  pose proof (lookup_lt_Some _ _ _ Hi). cbn [default from_option].
  eapply meets_bind; [apply meets_ok_or|]; [intros E%uint_try_None; lia|]. intros idx _ Hidx%uint_try_Some.
  assert (length payload = 37%nat) as Hp.
  { unfold m7_payload in Ho. rewrite !andb_true_iff, Nat.eqb_eq in Ho. by destruct Ho as [[? _] _]. }
  rewrite copy_range_ok, m7_canonical_total by lia. cbn [expect mbind res_bind meets]. split; [done|]. do 2 f_equal. rewrite <- Hidx. symmetry. apply uint_wrap_uval.
Qed.

Lemma canonical_m7_inj a b : canonical_m7_script a = canonical_m7_script b -> a = b.
Proof. intros E. by rewrite <- (canonical_child a), E, canonical_child. Qed.

(** A canonical observation is a commitment in the sense of the extraction. *)
Lemma observed_commits outputs m7 :
  Z.of_nat (length outputs) <= BITCOIN_MAX_COINBASE_OUTPUTS ->
  (forall s, s ∈ map po_script outputs -> Z.of_nat (length s) < 2 ^ Zpos usize_bits) ->
  observed_at outputs (Some m7) ->
  om_canonical_for_elements m7 = true <-> commits_to_child outputs (om_output_index m7) (om_child_hash m7).
Proof.
  intros Hc Hl (i & o & Ho & Hm & -> & Hu). cbn [om_canonical_for_elements om_output_index om_child_hash].
  change BITCOIN_MAX_COINBASE_OUTPUTS with 111111 in Hc. pose proof (lookup_lt_Some _ _ _ Ho).
  assert (Z.of_nat (length (po_script o)) < 2 ^ Zpos usize_bits) as Hlo.
  { apply Hl. apply list_elem_of_fmap. exists o. split; [done|]. by eapply list_elem_of_lookup_2. }
  unfold commits_to_child. rewrite uval_wrap_small, Nat2Z.id by lia. rewrite list_lookup_fmap, Ho. cbn [fmap option_fmap option_map].
  split.
  - intros Hs. destruct (proj1 (canonical_m7_bytes (po_script o) Hlo) (conj Hm Hs)) as [child E]. split.
    + rewrite E. rewrite (extract_push_complete (canonical_m7_script child) (M7_TAG ++ ELEMENTS_DRIVECHAIN_SLOT :: child)).
      * do 2 f_equal. cbn [default from_option]. rewrite <- (canonical_child child) at 1. by apply array_eq.
      * by rewrite <- E.
      * apply push_direct; [by vm_compute|]. cbn [M7_TAG app length]. by rewrite arr_length.
    + intros j s Hj Hs'. rewrite list_lookup_fmap in Hj. destruct (outputs !! j) as [oj|] eqn:Ej; [|done].
      cbn in Hj. injection Hj as <-. by eapply Hu.
  - intros [[= E] _]. apply (canonical_m7_bytes _ Hlo). by eexists.
Qed.

(** ** The check at the end of a block *)

Lemma malformed_check (b : bool) : zero_preimage -> meets replay_err (fun _ => True) (fail_if b RE_MalformedState).
Proof. by destruct b. Qed.

Lemma validate_zero s : config_ok (rs_config s) -> zero_preimage -> meets replay_err (fun _ => True) (ReplayState_validate s).
Proof.
  intros Hc Hz. unfold ReplayState_validate.
  rewrite (proj2 (config_validate_Ok _ tt) Hc). cbn [mbind res_bind].
  rewrite (maximum_ok _ Hc). cbn [mbind res_bind]. apply meets_fail_then; [done|]. intros _.
  destruct (Z.eqb_spec (rs_next_height s) 0) as [H0|H0].
  { by apply malformed_check. }
  apply (meets_bind _ (fun _ => True)).
  { unfold validate_tip. do 3 (apply meets_fail_then; [done|]; intros _).
    apply (meets_bind _ (fun _ => True)); [destruct (rs_required_activation s) as [[]|]; [by apply malformed_check|done]|].
    intros _ _ _. destruct (rs_ctip s); [by apply malformed_check|done]. }
  intros _ _ _. pose proof (uint_range (rs_next_height s)).
  apply (meets_bind _ (fun _ => True)).
  { eapply meets_weaken; [apply meets_expect|done]. exists (uint_wrap 32 (rs_next_height s - 1)).
    apply checked_sub_Some. change (uval (uint_wrap 32 1)) with 1. apply uval_wrap_small. lia. }
  intros tip _ _. rewrite (surjective_pairing (thresholds _ _)). fold (used s).
  pose proof (thresholds_ok (rs_config s) (used s) Hc). pose proof (uint_range (thresholds (rs_config s) (used s)).1).
  apply (meets_bind _ (fun _ => True)).
  { eapply meets_weaken; [apply meets_expect|done].
    exists (uint_wrap 16 ((thresholds (rs_config s) (used s)).1 - (thresholds (rs_config s) (used s)).2)).
    apply checked_sub_Some, uval_wrap_small. lia. }
  intros mf _ _. apply (meets_foldi replay_err _ (fun _ _ => True)); [done|]. intros k [key p] u _ _.
  unfold validate_proposal. eapply meets_bind; [by apply meets_ok_or|]. intros age _ _.
  eapply meets_bind; [by apply meets_ok_or|]. intros mis _ _. by apply malformed_check.
Qed.

(** The state after a block: valid, unless something hashes to zero. *)
Lemma next_valid s0 s1 pb ts observed txs n : valid s0 -> parsed_ok pb ->
  coin_inv s0 (rs_next_height s0) (mvb_block_hash (pb_metadata pb)) s1 ->
  tx_inv s1 pb (rs_next_height s0) observed txs ts -> uval n = rs_next_height s0 + 1 ->
  valid (set_tip (ts_state ts) n (mvb_block_hash (pb_metadata pb))) \/ zero_preimage.
Proof.
  intros Hv [_ _ _ _ [bx Hbx]] [C1 C2 C3 C4 C5 C6 C7 C8 C9] [X1 _ _ _ _ _ X6] Hn. set (bh := mvb_block_hash (pb_metadata pb)) in *.
  pose proof (uint_range (rs_next_height s0)).
  destruct (decide (bh = ZERO)) as [Hz|Hz]; [right; exists bx; congruence|].
  destruct (decide (map_Forall (fun k _ => k <> ZERO) (rs_pending_proposals s1))) as [Hp|Hp].
  2:{ right. apply map_not_Forall in Hp as (k & p & Hk & Hzk); [|apply _]. apply dec_stable in Hzk. subst k.
      destruct (C6 _ _ Hk) as [[?|[x Hx]] _]; [done|]. by exists x. }
  assert (ctip_txid <$> rs_ctip (ts_state ts) = Some ZERO -> zero_preimage \/ False) as Hct.
  { intros E. destruct X6 as [Es|(c & Es & _ & _ & x & Hx)]; rewrite Es in E; cbn in E.
    - rewrite C4 in E. destruct (rs_ctip s0) as [c|] eqn:Ec; [|done]. cbn in E. injection E as E.
      destruct (decide (uval (rs_next_height s0) = 0)) as [Hg|Hg].
      + destruct (vd_genesis _ Hv Hg) as (_ & _ & _ & _ & ?). congruence.
      + by destruct (tk_ctip _ (vd_tip _ Hv Hg) c Ec) as [? _].
    - injection E as E. left. exists x. congruence. }
  destruct (decide (ctip_txid <$> rs_ctip (ts_state ts) = Some ZERO)) as [Ez|Ez]; [right; by destruct (Hct Ez)|clear Hct].
  left. rewrite X1. set (c := rs_ctip (ts_state ts)) in *. clearbody c.
  constructor; cbn [set_tip set_ctip rs_config rs_next_height rs_tip_hash rs_active_proposal_hash rs_required_activation
    rs_pending_proposals rs_ctip]; rewrite ?C1.
  - apply (vd_config _ Hv).
  - exact C5.
  - lia.
  - intros _. constructor; cbn [set_tip set_ctip rs_config rs_next_height rs_tip_hash rs_active_proposal_hash
      rs_required_activation rs_pending_proposals rs_ctip]; rewrite ?C1; [done| |done| |].
    + intros Hc. destruct X6 as [Es|(c' & Es & Ha & _)]; [|done]. rewrite Es, C4 in Hc.
      assert (is_Some (rs_active_proposal_hash s0)) as Ha.
      { destruct (decide (uval (rs_next_height s0) = 0)) as [Hg|Hg].
        - destruct (vd_genesis _ Hv Hg) as (_ & _ & _ & _ & E). rewrite E in Hc. by destruct Hc.
        - by apply (tk_ctip_active _ (vd_tip _ Hv Hg)). }
      destruct C9 as [->|(k & p & -> & _)]; [done|by eexists].
    + intros ah ahash Ea. destruct C8 as [E|[_ E]]; rewrite Ea in E.
      * destruct (decide (uval (rs_next_height s0) = 0)) as [Hg|Hg].
        -- destruct (vd_genesis _ Hv Hg) as (_ & _ & E' & _). congruence.
        -- destruct (tk_activation _ (vd_tip _ Hv Hg) ah ahash ltac:(congruence)) as [? ?]. split; [lia|done].
      * injection E as -> ->. split; [lia|done].
    + intros c' Ec'. destruct X6 as [Es|(c'' & Es & _ & Hval & _)].
      * rewrite Es, C4 in Ec'. destruct (decide (uval (rs_next_height s0) = 0)) as [Hg|Hg].
        -- destruct (vd_genesis _ Hv Hg) as (_ & _ & _ & _ & E). congruence.
        -- by apply (tk_ctip _ (vd_tip _ Hv Hg)).
      * rewrite Ec' in Es. injection Es as ->. split; [|done]. intros E. apply Ez. by rewrite Ec', <- E.
  - intros k p Hk. split; [by eapply Hp|]. destruct (C6 k p Hk) as [_ Hl]. unfold used in *.
    cbn [set_tip set_ctip rs_active_proposal_hash]. rewrite Hn.
    replace (rs_next_height s0 + 1 - 1) with (uval (rs_next_height s0)) by lia. exact Hl.
Qed.

(** ** What an accepted block does *)

(** The edge a block may return. *)
Definition edge_for (s0 : ReplayState) (pb : ParsedBlock) (index : u32) (child : BlockHash) : Slot24BmmEdge := {|
  be_parent_block_hash := rs_tip_hash s0;
  be_successor_block_hash := mvb_block_hash (pb_metadata pb);
  be_successor_height := rs_next_height s0;
  be_coinbase_txid := mvb_coinbase_txid (pb_metadata pb);
  be_m7_output_index := index;
  be_committed_child_hash := child
|}.

Record block_effect (s0 : ReplayState) (pb : ParsedBlock) (s : ReplayState) (ef : Slot24BlockEffects) : Prop := {
  bf_valid : valid s;
  bf_config : rs_config s = rs_config s0;
  bf_next : uval (rs_next_height s) = rs_next_height s0 + 1;
  bf_tip : rs_tip_hash s = mvb_block_hash (pb_metadata pb);
  bf_link : hdr_previous_block (mvb_header (pb_metadata pb)) = rs_tip_hash s0;
  bf_activation : rs_required_activation s = rs_required_activation s0 \/
    (rs_required_activation s0 = None /\
     rs_required_activation s = Some (rs_next_height s0, mvb_block_hash (pb_metadata pb)));
  bf_active : rs_active_proposal_hash s = rs_active_proposal_hash s0 \/
    exists k p, rs_active_proposal_hash s = Some k /\ rs_pending_proposals s0 !! k = Some p /\
      uval (thresholds (rs_config s0) (used s0)).2 < pp_votes p + 1;
  bf_slices : slices (ctip_value (rs_ctip s0)) (ef_deposits ef) (ctip_value (rs_ctip s));
  bf_mintable : Forall (mintable pb (rs_next_height s0)) (ef_deposits ef);
  bf_inactive : required_proposal_is_active s = false -> ef_deposits ef = [];
  bf_required : ef_required_proposal_active ef = required_proposal_is_active s;
  bf_edge : forall e, ef_bmm_edge ef = Some e <-> required_proposal_is_active s = true /\
    exists index child, commits_to_child (pc_outputs (pb_coinbase pb)) index child /\ e = edge_for s0 pb index child;
  bf_requests : uval (ef_matching_m8_requests ef) = Z.of_nat (length (filter (fun t => is_m8 t = true) (drop 1 (pb_transactions pb))));
  bf_m8 : exists observed, observed_at (pc_outputs (pb_coinbase pb)) observed /\
    Forall (request_matches pb observed) (drop 1 (pb_transactions pb))
}.

Lemma observed_edge s0 pb observed active : parsed_ok pb ->
  observed_at (pc_outputs (pb_coinbase pb)) observed ->
  hdr_previous_block (mvb_header (pb_metadata pb)) = rs_tip_hash s0 ->
  forall e, (m7 ← observed;
    if active && om_canonical_for_elements m7 then Some (bmm_edge_of pb (rs_next_height s0) m7) else None) = Some e <->
  active = true /\ exists index child,
    commits_to_child (pc_outputs (pb_coinbase pb)) index child /\ e = edge_for s0 pb index child.
Proof.
  intros [_ _ Hc Hl _] Hobs Hlink e. split.
  - destruct observed as [m7|]; [|done]. cbn [mbind option_bind]. destruct active; [|done]. cbn [andb].
    destruct (om_canonical_for_elements m7) eqn:Em; [|done]. intros [= <-]. split; [done|].
    exists (om_output_index m7), (om_child_hash m7). split; [exact (proj1 (observed_commits _ m7 Hc Hl Hobs) Em)|].
    unfold bmm_edge_of, edge_for. by rewrite Hlink.
  - intros (-> & index & child & Hcom & ->). pose proof Hcom as [Hi Hu]. rewrite list_lookup_fmap in Hi.
    destruct (pc_outputs (pb_coinbase pb) !! Z.to_nat index) as [o|] eqn:Eo; [|done]. cbn in Hi. injection Hi as Hi.
    assert (po_script o ∈ map po_script (pc_outputs (pb_coinbase pb))) as Hin.
    { apply list_elem_of_fmap. exists o. split; [done|]. by eapply list_elem_of_lookup_2. }
    destruct (proj2 (canonical_m7_bytes _ (Hl _ Hin)) (ex_intro _ child Hi)) as [Hm Hcanon].
    destruct observed as [m7|].
    2:{ apply (Forall_lookup_1 _ _ _ _ Hobs) in Eo. congruence. }
    assert (commits_to_child (pc_outputs (pb_coinbase pb)) (om_output_index m7) (om_child_hash m7) /\
      om_output_index m7 = index /\ om_child_hash m7 = child) as (Hm7 & <- & <-).
    { pose proof Hobs as (i & o' & Ho' & Hm' & E & Hu').
      assert (i = Z.to_nat index) as -> by (symmetry; by eapply Hu').
      assert (o' = o) as -> by congruence.
      assert (om_canonical_for_elements m7 = true) as Hcan by (by subst m7).
      assert (commits_to_child (pc_outputs (pb_coinbase pb)) (om_output_index m7) (om_child_hash m7)) as Hcom'.
      { exact (proj1 (observed_commits _ m7 Hc Hl Hobs) Hcan). }
      split; [done|]. subst m7. cbn [om_output_index om_child_hash] in *. pose proof (uint_range index).
      rewrite Z2Nat.id, uint_wrap_uval in * by lia. split; [done|].
      destruct Hcom' as [Hs _]. rewrite list_lookup_fmap, Eo in Hs. cbn in Hs. injection Hs as Hs. rewrite Hi in Hs.
      rewrite Hi. by apply canonical_m7_inj. }
    cbn [mbind option_bind andb]. rewrite (proj2 (observed_commits _ _ Hc Hl Hobs) Hm7).
    unfold bmm_edge_of, edge_for. by rewrite Hlink.
Qed.

Lemma apply_parsed_block_meets s0 pb : valid s0 -> parsed_ok pb ->
  meets replay_err (fun r => block_effect s0 pb r.1 r.2) (apply_parsed_block s0 pb).
Proof.
  intros Hv Hpb. unfold apply_parsed_block. cbv zeta.
  apply meets_fail_then; [done|]. intros Hl1. apply meets_fail_then; [done|]. intros Hl2.
  assert (hdr_previous_block (mvb_header (pb_metadata pb)) = rs_tip_hash s0) as Hlink.
  { destruct (Z.eqb_spec (rs_next_height s0) 0) as [Hg|Hg]; cbn [andb negb] in *.
    - apply negb_bool_decide_false in Hl2. by destruct (vd_genesis _ Hv Hg) as (-> & _).
    - by apply negb_bool_decide_false in Hl1. }
  eapply meets_bind; [by apply apply_coinbase_messages_meets|]. intros s1 _ Hs1.
  eapply meets_bind; [by apply observe_meets|]. intros observed _ Hobs.
  eapply meets_bind; [by apply apply_transactions_meets|]. intros ts _ Hts.
  apply meets_fail_then; [done|]. intros _.
  eapply meets_bind; [by apply meets_ok_or|]. intros n _ Hn. apply checked_add_Some in Hn.
  change (uval (uint_wrap 32 1)) with 1 in Hn.
  set (s := set_tip (ts_state ts) n (mvb_block_hash (pb_metadata pb))).
  pose proof (next_valid _ _ _ _ _ _ n Hv Hpb Hs1 Hts Hn) as Hval. fold s in Hval.
  pose proof Hs1 as [C1 C2 C3 C4 C5 C6 C7 C8 C9]. pose proof Hts as [X1 X2 X3 X4 X5 X6 X7].
  assert (rs_config s = rs_config s0) as Ec by (unfold s; by rewrite X1).
  apply (meets_bind _ (fun _ => valid s)).
  { destruct (ReplayState_validate s) as [[]|e|] eqn:Es; [by apply (ReplayState_validate_Ok s tt)| |];
      (destruct Hval as [Hval|Hz]; [apply (ReplayState_validate_Ok s tt) in Hval; congruence|]);
      pose proof (validate_zero s) as Hm; rewrite Es in Hm; apply Hm; try done; rewrite Ec; apply (vd_config _ Hv). }
  intros u _ Hs. assert (required_proposal_is_active (ts_state ts) = required_proposal_is_active s) as Er by done.
  assert (required_proposal_is_active s1 = required_proposal_is_active s) as Er1 by (unfold s; by rewrite X1).
  cbn [meets fst snd]. constructor; cbn [ef_deposits ef_bmm_edge ef_matching_m8_requests ef_required_proposal_active]; try done.
  - unfold s. rewrite X1. exact C8.
  - unfold s. rewrite X1. exact C9.
  - rewrite <- C4. exact X4.
  - rewrite <- Er1. exact X6.
  - intros e. rewrite Er. by apply observed_edge.
  - by exists observed.
Qed.

Lemma apply_block_Ok s0 bs s ef :
  apply_merkle_bound_elements_slot24_parent_block s0 bs = (s, Ok ef) ->
  exists pb, parse_and_verify_block bs = Ok pb /\ valid s0 /\ block_effect s0 pb s ef.
Proof.
  unfold apply_merkle_bound_elements_slot24_parent_block. intros E.
  destruct (ReplayState_validate s0) as [[]| |] eqn:Ev; [|done..]. apply ReplayState_validate_Ok in Ev.
  cbn [mbind res_bind] in E. destruct (parse_and_verify_block bs) as [pb| |] eqn:Ep; [|done..]. cbn [map_err mbind res_bind] in E.
  apply parsed_block_ok in Ep as Hpb; [|done]. pose proof (apply_parsed_block_meets s0 pb Ev Hpb) as Hm.
  destruct (apply_parsed_block s0 pb) as [[s' ef']| |]; [|done..]. injection E as <- <-. by exists pb.
Qed.
End block.
