(* ===== verification/Slot24Props.v ===== *)
(** The properties of the slot-24 replay: its states stay well formed, its
    errors are the meant ones, a required proposal activates late and stays
    active, deposits are backed by the treasury, and BMM edges and requests are
    those the block commits to. *)

From S2P Require Import Prelude Encoding Hashing Readers Uint256 BitcoinHeaders BmmCommitment BlockParser BitcoinBlock BlockTotality ParentBlock.
From S2P Require Import Slot24 Slot24Facts Slot24Treasury Slot24Replay.

Local Open Scope Z_scope.

Section props.
Context {W : PtrWidth} (Hwidth : 32 <= Zpos usize_bits) {H : Sha256}.

Abbreviation apply_block := apply_merkle_bound_elements_slot24_parent_block.

(** Accepted blocks, with their effects. *)
Inductive replays (s : ReplayState) : list Slot24BlockEffects -> ReplayState -> Prop :=
| rp_nil : replays s [] s
| rp_snoc efs s1 bs ef s2 :
    replays s efs s1 -> apply_block s1 bs = (s2, Ok ef) -> replays s (efs ++ [ef]) s2.

Lemma replays_valid s efs s' : replays s efs s' -> valid s -> valid s'.
Proof.
  induction 1 as [|efs s1 bs ef s2 _ IH Hb]; [done|]. intros Hv.
  apply apply_block_Ok in Hb as (pb & _ & _ & He); [|done]. apply (bf_valid _ _ _ _ He).
Qed.

Lemma apply_block_kept s bs : is_ok (apply_block s bs).2 = false -> (apply_block s bs).1 = s.
Proof. unfold apply_block. by destruct (_ ≫= _) as [[s' ef]| |]. Qed.

(** C23: A replay state is well formed from its construction on: both
    constructors return valid states, and no call leaves an invalid one behind,
    whether it accepts the block or not. *)
Theorem slot24_states_valid :
  (forall c s, before_parent_genesis c = Ok s -> valid s) /\
  (forall c h tip active activation pending ctip s,
     ReplayState_checkpoint c h tip active activation pending ctip = Ok s -> valid s) /\
  (forall s bs, valid s -> valid (apply_block s bs).1).
Proof.
  split; [|split].
  - intros c s E. unfold before_parent_genesis in E. apply res_bind_Ok in E as ([] & Hc & [= <-]).
    apply config_validate_Ok in Hc. constructor; cbn [rs_config rs_next_height rs_tip_hash rs_active_proposal_hash
      rs_required_activation rs_pending_proposals rs_ctip]; try done.
    pose proof (uint_range (cfg_unused_proposal_max_age c)). unfold pending_limit. rewrite map_size_empty.
    change BITCOIN_MAX_COINBASE_OUTPUTS with 111111. lia.
  - intros c h tip active activation pending ctip s E. unfold ReplayState_checkpoint in E.
    apply res_bind_Ok in E as ([] & _ & E). apply res_bind_Ok in E as (n & _ & E).
    apply res_bind_Ok in E as (m & _ & E). apply res_bind_Ok in E as ([] & Hv & [= <-]). by apply ReplayState_validate_Ok in Hv.
  - intros s bs Hv. destruct (apply_block s bs) as [s' [ef| |]] eqn:E.
    + apply apply_block_Ok in E as (pb & _ & _ & He); [|done]. apply (bf_valid _ _ _ _ He).
    + pose proof (apply_block_kept s bs) as Hk. rewrite E in Hk. cbn in *. by rewrite Hk.
    + pose proof (apply_block_kept s bs) as Hk. rewrite E in Hk. cbn in *. by rewrite Hk.
Qed.

(** C32: On a valid state a block is refused only for one of the reasons
    [replay_err] allows, it never panics, and a refusal leaves the state as it
    was: every index, slice and fixed-length copy of the block's scripts is in
    range, the height and vote-count checks of ageing, the counters and the index
    conversions never fail, and the closing state check fails only when some
    double SHA-256 is zero. *)
Theorem slot24_errors (s : ReplayState) (bs : bytes) :
  ReplayState_validate s = Ok tt ->
  errs_in replay_err (apply_block s bs).2 /\
  (is_ok (apply_block s bs).2 = false -> (apply_block s bs).1 = s).
Proof.
  intros Hv. split; [|apply apply_block_kept]. unfold apply_block. rewrite Hv. cbn [mbind res_bind].
  apply ReplayState_validate_Ok in Hv. pose proof (parse_block_safe bs) as Hp.
  destruct (parse_and_verify_block bs) as [pb|e|] eqn:Ep; [|exact I|done]. cbn [map_err mbind res_bind].
  apply parsed_block_ok in Ep; [|done]. pose proof (apply_parsed_block_meets Hwidth s pb Hv Ep) as Hm.
  destruct (apply_parsed_block s pb) as [[s' ef]|e|]; [exact I|exact Hm|done].
Qed.

(** C24: Once the required proposal is active it stays active: along any
    accepted blocks the recorded activation never changes, no other proposal
    replaces it, and every block reports it active. *)
Theorem slot24_activation_permanent (s s' : ReplayState) (efs : list Slot24BlockEffects) (r : u32 * BlockHash) :
  valid s -> replays s efs s' -> rs_required_activation s = Some r ->
  rs_required_activation s' = Some r /\
  rs_active_proposal_hash s' = Some (cfg_required_proposal_hash (rs_config s)) /\
  rs_config s' = rs_config s /\
  Forall (fun ef => ef_required_proposal_active ef = true) efs.
Proof.
  intros Hv Hr Ha. enough (rs_required_activation s' = Some r /\ rs_config s' = rs_config s /\
    Forall (fun ef => ef_required_proposal_active ef = true) efs) as (E1 & E2 & E3).
  { split; [done|]. split; [|done]. rewrite <- E2. apply (tk_required s'); [|by eexists].
    apply (vd_tip _ (replays_valid _ _ _ Hr Hv)). intros Hg.
    destruct (vd_genesis _ (replays_valid _ _ _ Hr Hv) Hg) as (_ & _ & E & _). congruence. }
  induction Hr as [|efs s1 bs ef s2 Hr IH Hb]; [done|]. destruct IH as (E1 & E2 & E3).
  apply apply_block_Ok in Hb as (pb & _ & _ & He); [|done].
  assert (rs_required_activation s2 = Some r) as E by (destruct (bf_activation _ _ _ _ He) as [->|[? _]]; congruence).
  split; [done|]. split; [rewrite <- E2; apply (bf_config _ _ _ _ He)|]. apply Forall_app. split; [done|]. apply Forall_singleton.
  rewrite (bf_required _ _ _ _ He). unfold required_proposal_is_active. rewrite E, bool_decide_true by (by eexists).
  apply required_is_iff, (tk_required s2); [|rewrite E; by eexists].
  apply (vd_tip _ (bf_valid _ _ _ _ He)). rewrite (bf_next _ _ _ _ He). pose proof (uint_range (rs_next_height s1)). lia.
Qed.

(** C11: A proposal becomes active only late: when a block changes the active
    proposal, the new one was pending before it, had collected exactly enough
    votes, one per block at most, and was proposed more blocks earlier than the
    activation threshold. *)
Theorem slot24_activation_delay (s s' : ReplayState) (bs : bytes) (ef : Slot24BlockEffects) :
  apply_block s bs = (s', Ok ef) -> rs_active_proposal_hash s' <> rs_active_proposal_hash s ->
  exists k p, rs_active_proposal_hash s' = Some k /\ rs_pending_proposals s !! k = Some p /\
    let threshold := (thresholds (rs_config s) (used s)).2 in
    uval threshold <= pp_votes p /\ pp_proposal_height p + threshold < rs_next_height s.
Proof.
  intros (pb & _ & Hv & He)%apply_block_Ok Hne; [|done]. destruct (bf_active _ _ _ _ He) as [E|(k & p & E & Hp & Ht)]; [done|].
  exists k, p. split; [done|]. split; [done|]. cbv zeta. destruct (vd_pending _ Hv k p Hp) as [_ Hl].
  pose proof (lv_votes _ _ _ _ _ Hl). lia.
Qed.

(** C5: The deposits that accepted blocks report are backed: they are disjoint
    slices of the growth of the slot's treasury output, so no output backs two
    of them and their sum never exceeds what the treasury gained; each has an
    address of 1 to 128 bytes. *)
Theorem slot24_deposits_backed (s s' : ReplayState) (efs : list Slot24BlockEffects) :
  replays s efs s' ->
  let deposits := concat (map ef_deposits efs) in
  slices (ctip_value (rs_ctip s)) deposits (ctip_value (rs_ctip s')) /\
  NoDup (map md_outpoint deposits) /\
  0 <= sumZ (fun d => uval (md_value_sat d)) deposits <= ctip_value (rs_ctip s') - ctip_value (rs_ctip s) /\
  Forall (fun d => (1 <= length (md_elements_address d) <= 128)%nat) deposits.
Proof.
  intros Hr. cbv zeta. enough (slices (ctip_value (rs_ctip s)) (concat (map ef_deposits efs)) (ctip_value (rs_ctip s')) /\
    Forall (fun d => (1 <= length (md_elements_address d) <= 128)%nat) (concat (map ef_deposits efs))) as [Hs Hf].
  { split; [done|]. split; [by eapply slices_NoDup|]. split; [by apply slices_sum|done]. }
  induction Hr as [|efs s1 bs ef s2 Hr IH Hb]; [split; [cbn; lia|constructor]|].
  destruct IH as [Hs Hf]. apply apply_block_Ok in Hb as (pb & _ & _ & He); [|done].
  rewrite map_app, concat_app. cbn [map concat]. rewrite app_nil_r. split.
  - apply slices_app. eexists. split; [exact Hs|]. apply (bf_slices _ _ _ _ He).
  - apply Forall_app. split; [done|]. eapply Forall_impl; [apply (bf_mintable _ _ _ _ He)|]. by intros d [_ _ ?].
Qed.

(** C25: An accepted block extends the replayed tip by one, and returns a BMM
    edge exactly when the required proposal is active and its coinbase commits
    to one child by the canonical M7; every M8 request of the block names that
    child and that parent, and is counted. *)
Theorem slot24_edge_iff (s s' : ReplayState) (bs : bytes) (ef : Slot24BlockEffects) :
  apply_block s bs = (s', Ok ef) ->
  exists pb, parse_and_verify_block bs = Ok pb /\
    hdr_previous_block (mvb_header (pb_metadata pb)) = rs_tip_hash s /\
    rs_tip_hash s' = mvb_block_hash (pb_metadata pb) /\ uval (rs_next_height s') = rs_next_height s + 1 /\
    (forall e, ef_bmm_edge ef = Some e <-> required_proposal_is_active s' = true /\
      exists index child, commits_to_child (pc_outputs (pb_coinbase pb)) index child /\ e = edge_for s pb index child) /\
    uval (ef_matching_m8_requests ef) =
      Z.of_nat (length (filter (fun t => is_m8 t = true) (drop 1 (pb_transactions pb)))) /\
    exists observed, observed_at (pc_outputs (pb_coinbase pb)) observed /\
      Forall (request_matches pb observed) (drop 1 (pb_transactions pb)).
Proof.
  intros (pb & Hp & Hv & He)%apply_block_Ok; [|done]. exists pb. destruct He. done.
Qed.
End props.

(** ** A block that activates the required proposal, commits to a child, carries
    its request and makes a first deposit, over a toy digest *)

Definition required_hash : Hash32 := ELEMENTS_V1_REQUIRED_PROPOSAL_HASH_INTERNAL.
Definition sample_child : BlockHash := array_rep 32 x05.
Definition sample_tip : BlockHash := array_rep 32 x09.
Definition slot_state : ReplayState := {|
  rs_config := elements_v1; rs_next_height := uint_wrap 32 10; rs_tip_hash := sample_tip;
  rs_active_proposal_hash := None; rs_required_activation := None;
  rs_pending_proposals := {[ required_hash := MkPending required_hash (uint_wrap 32 3) (uint_wrap 16 5) ]};
  rs_ctip := None
|}.
Definition no_value : array 8 := array_rep 8 x00.
Definition slot_coinbase : Tx := {|
  tx_version := array_rep 4 x01; tx_inputs := tx_inputs sample_tx;
  tx_outputs := [MkParsedOutput no_value ([x6a; x25] ++ M2_TAG ++ [ELEMENTS_DRIVECHAIN_SLOT] ++ required_hash);
                 MkParsedOutput no_value (canonical_m7_script sample_child)];
  tx_witness := None; tx_lock_time := array_rep 4 x00
|}.
Definition slot_deposit : Tx := {|
  tx_version := array_rep 4 x02;
  tx_inputs := [MkTxIn (array_rep 36 x03) [] (array_rep 4 xff)];
  tx_outputs := [MkParsedOutput no_value ([x6a; x44] ++ M8_TAG ++ [ELEMENTS_DRIVECHAIN_SLOT] ++ sample_child ++ sample_tip);
                 MkParsedOutput (subarray 8 0 (le_bytes 8 1000)) [OP_DRIVECHAIN; x01; ELEMENTS_DRIVECHAIN_SLOT; OP_TRUE];
                 MkParsedOutput no_value [x6a; x03; x61; x62; x63]];
  tx_witness := None; tx_lock_time := array_rep 4 x00
|}.
Definition slot_raw (previous root : bytes) : array 80 :=
  subarray 80 0 (le_bytes 4 1 ++ previous ++ root ++ le_bytes 4 1700000000 ++ le_bytes 4 0x207fffff ++ le_bytes 4 0).
Definition slot_block : bytes :=
  serialize_block (slot_raw sample_tip (@txid toy_sha256 slot_coinbase)) [slot_coinbase; slot_deposit].

(** The results a property needs, as one computation. *)
Definition accepted (s : ReplayState) (r : ReplayState * res ReplayError Slot24BlockEffects) : bool :=
  is_ok r.2 && negb (bool_decide (rs_active_proposal_hash r.1 = rs_active_proposal_hash s)).
Lemma accepted_Ok s r : accepted s r = true ->
  exists s' ef, r = (s', Ok ef) /\ rs_active_proposal_hash s' <> rs_active_proposal_hash s.
Proof.
  destruct r as [s' [ef| |]]; unfold accepted; cbn; [|done..]. rewrite negb_true_iff, bool_decide_eq_false. by exists s', ef.
Qed.
Lemma slot_block_accepted :
  accepted slot_state (@apply_merkle_bound_elements_slot24_parent_block 64%positive toy_sha256 slot_state slot_block) = true.
Proof. by vm_compute. Qed.

Example slot24_errors_witness :
  errs_in (@replay_err toy_sha256)
    (@apply_merkle_bound_elements_slot24_parent_block 64%positive toy_sha256 slot_state slot_block).2 /\
  (is_ok (@apply_merkle_bound_elements_slot24_parent_block 64%positive toy_sha256 slot_state slot_block).2 = false ->
   (@apply_merkle_bound_elements_slot24_parent_block 64%positive toy_sha256 slot_state slot_block).1 = slot_state).
Proof.
  apply (@slot24_errors 64%positive ltac:(done) toy_sha256 slot_state slot_block). by vm_compute.
Defined.

Example slot24_activation_delay_witness : exists s' k p,
  rs_active_proposal_hash s' = Some k /\ rs_pending_proposals slot_state !! k = Some p /\
  let threshold := (thresholds (rs_config slot_state) (used slot_state)).2 in
  uval threshold <= pp_votes p /\ pp_proposal_height p + threshold < rs_next_height slot_state.
Proof.
  destruct (accepted_Ok _ _ slot_block_accepted) as (s' & ef & E & Hne). exists s'.
  exact (@slot24_activation_delay 64%positive ltac:(done) toy_sha256 slot_state s' slot_block ef E Hne).
Defined.

Example slot24_deposits_backed_witness : exists s' ef,
  let deposits := concat (map ef_deposits [ef]) in
  slices (ctip_value (rs_ctip slot_state)) deposits (ctip_value (rs_ctip s')) /\
  NoDup (map md_outpoint deposits) /\
  0 <= sumZ (fun d => uval (md_value_sat d)) deposits <= ctip_value (rs_ctip s') - ctip_value (rs_ctip slot_state) /\
  Forall (fun d => (1 <= length (md_elements_address d) <= 128)%nat) deposits.
Proof.
  destruct (accepted_Ok _ _ slot_block_accepted) as (s' & ef & E & _). exists s', ef.
  apply (@slot24_deposits_backed 64%positive ltac:(done) toy_sha256 slot_state s' [ef]).
  by apply (@rp_snoc 64%positive toy_sha256 slot_state [] slot_state slot_block ef s' (@rp_nil _ _ slot_state)).
Defined.

Example slot24_edge_iff_witness : exists s' ef pb,
  @parse_and_verify_block 64%positive toy_sha256 slot_block = Ok pb /\
  hdr_previous_block (mvb_header (pb_metadata pb)) = rs_tip_hash slot_state /\
  rs_tip_hash s' = mvb_block_hash (pb_metadata pb) /\ uval (rs_next_height s') = rs_next_height slot_state + 1 /\
  (forall e, ef_bmm_edge ef = Some e <-> required_proposal_is_active s' = true /\
    exists index child, @commits_to_child 64%positive (pc_outputs (pb_coinbase pb)) index child /\
      e = edge_for slot_state pb index child) /\
  uval (ef_matching_m8_requests ef) = Z.of_nat (length (filter (fun t => is_m8 t = true) (drop 1 (pb_transactions pb)))) /\
  exists observed, @observed_at 64%positive (pc_outputs (pb_coinbase pb)) observed /\
    Forall (request_matches pb observed) (drop 1 (pb_transactions pb)).
Proof.
  destruct (accepted_Ok _ _ slot_block_accepted) as (s' & ef & E & _). exists s', ef.
  exact (@slot24_edge_iff 64%positive ltac:(done) toy_sha256 slot_state s' slot_block ef E).
Defined.

(** The same block on a slot whose required proposal is already active. *)
Definition active_state : ReplayState := {|
  rs_config := elements_v1; rs_next_height := uint_wrap 32 10; rs_tip_hash := sample_tip;
  rs_active_proposal_hash := Some required_hash; rs_required_activation := Some (uint_wrap 32 9, sample_tip);
  rs_pending_proposals := ∅; rs_ctip := None
|}.
Lemma active_state_valid : @valid 64%positive active_state.
Proof. apply (@ReplayState_validate_Ok 64%positive active_state tt). by vm_compute. Qed.
Lemma active_block_Ok : exists s' ef,
  @apply_merkle_bound_elements_slot24_parent_block 64%positive toy_sha256 active_state slot_block = (s', Ok ef).
Proof.
  assert (is_ok (@apply_merkle_bound_elements_slot24_parent_block 64%positive toy_sha256 active_state slot_block).2 = true)
    as E by (by vm_compute).
  destruct (apply_merkle_bound_elements_slot24_parent_block _ _) as [s' [ef| |]]; [by exists s', ef|done..].
Qed.

Example slot24_activation_permanent_witness : exists s' ef,
  rs_required_activation s' = Some (uint_wrap 32 9, sample_tip) /\
  rs_active_proposal_hash s' = Some (cfg_required_proposal_hash (rs_config active_state)) /\
  rs_config s' = rs_config active_state /\
  Forall (fun ef => ef_required_proposal_active ef = true) [ef].
Proof.
  destruct active_block_Ok as (s' & ef & E). exists s', ef.
  apply (@slot24_activation_permanent 64%positive ltac:(done) toy_sha256 active_state s' [ef]).
  - exact active_state_valid.
  - by apply (@rp_snoc 64%positive toy_sha256 active_state [] active_state slot_block ef s' (@rp_nil _ _ active_state)).
  - done.
Defined.

Example slot24_states_valid_witness :
  @valid 64%positive (@apply_merkle_bound_elements_slot24_parent_block 64%positive toy_sha256 active_state slot_block).1.
Proof.
  pose proof (@slot24_states_valid 64%positive ltac:(done) toy_sha256) as (_ & _ & Hv). apply Hv. exact active_state_valid.
Defined.
