(* ===== verification/Slot24Liveness.v ===== *)
(** Liveness of the slot-24 replay: a pending proposal that every accepted block
    acknowledges gains one vote per block, does not expire, and becomes the
    active one after as many blocks as its threshold asks for. *)

From S2P Require Import Prelude Encoding Hashing Readers Uint256 BitcoinHeaders BmmCommitment BlockParser BitcoinBlock BlockTotality ParentBlock.
From S2P Require Import Slot24 Slot24Facts Slot24Treasury Slot24Replay Slot24Props.

Local Open Scope Z_scope.

Section liveness.
Context {W : PtrWidth} (Hwidth : 32 <= Zpos usize_bits) {H : Sha256}.

#[export] Instance ParentMessage_eq_dec : EqDecision ParentMessage.
Proof. solve_decision. Defined.

(** A coinbase output that is an M2 for the proposal. *)
Definition is_ack (k : Hash32) (output : ParsedOutput) : Prop :=
  parent_message (po_script output) = Some (PM_Ack k).
Definition acks (k : Hash32) (pb : ParsedBlock) : Prop :=
  Exists (is_ack k) (pc_outputs (pb_coinbase pb)).
#[export] Instance is_ack_dec k output : Decision (is_ack k output).
Proof. unfold is_ack. apply _. Defined.
#[export] Instance acks_dec k pb : Decision (acks k pb).
Proof. unfold acks. apply _. Defined.

(** The threshold and the tolerated misses that hold in a state. *)
Definition threshold_of (s : ReplayState) : Z := (thresholds (rs_config s) (used s)).2.
Definition max_fails_of (s : ReplayState) : Z := (thresholds (rs_config s) (used s)).1 - threshold_of s.

Definition with_votes (p : PendingSlot24Proposal) (votes : u16) : PendingSlot24Proposal :=
  MkPending (pp_proposal_hash p) (pp_proposal_height p) votes.

(** ** One vote per block *)

Section one_block.
Context (s0 : ReplayState) (height : u32) (bh : BlockHash) (k : Hash32) (p : PendingSlot24Proposal).

(** The proposal has its vote, or is active. *)
Definition voted (s : ReplayState) : Prop :=
  if threshold_of s0 <? pp_votes p + 1 then rs_active_proposal_hash s = Some k
  else rs_active_proposal_hash s = rs_active_proposal_hash s0 /\
       exists votes, uval votes = pp_votes p + 1 /\ rs_pending_proposals s !! k = Some (with_votes p votes).

Record untouched (sc : MessageScan) : Prop := {
  un_created : k ∉ sc_created_in_block sc;
  un_pending : rs_pending_proposals (sc_state sc) !! k = Some p;
  un_active : rs_active_proposal_hash (sc_state sc) = rs_active_proposal_hash s0
}.

Record scan_inv (pre : list ParsedOutput) (sc : MessageScan) : Prop := {
  si_config : rs_config (sc_state sc) = rs_config s0;
  si_before : sc_saw_ack sc = false -> untouched sc;
  si_after : Exists (is_ack k) pre -> sc_saw_ack sc = true /\ voted (sc_state sc)
}.

(** A new proposal has another hash than one that is pending. *)
Lemma proposal_message_inv hash sc sc' :
  proposal_message height hash sc = Ok sc' ->
  sc_saw_ack sc' = sc_saw_ack sc /\ rs_config (sc_state sc') = rs_config (sc_state sc) /\
  rs_active_proposal_hash (sc_state sc') = rs_active_proposal_hash (sc_state sc) /\
  forall k' q, rs_pending_proposals (sc_state sc) !! k' = Some q ->
    rs_pending_proposals (sc_state sc') !! k' = Some q /\
    (k' ∉ sc_created_in_block sc -> k' ∉ sc_created_in_block sc').
Proof.
  unfold proposal_message. intros E. apply fail_then in E as [_ E].
  destruct (bool_decide_reflect (is_Some (rs_pending_proposals (sc_state sc) !! hash))) as [Hin|Hnin]; [by injection E as <-|].
  apply res_bind_Ok in E as (m & _ & E). apply fail_then in E as [_ [= <-]]. split; [done|]. split; [done|]. split; [done|].
  intros k' q Hq. assert (hash <> k') as Hne by (intros ->; apply Hnin; by eexists).
  cbn [sc_state set_pending rs_pending_proposals sc_created_in_block]. rewrite lookup_insert_ne by done.
  split; [done|]. set_solver.
Qed.

Lemma ack_message_voted sc sc' : rs_config (sc_state sc) = rs_config s0 -> untouched sc ->
  ack_message height bh k sc = Ok sc' -> voted (sc_state sc').
Proof.
  intros Hc [U1 U2 U3] E. unfold ack_message in E. apply fail_then in E as [_ E]. cbv zeta in E.
  rewrite bool_decide_false, U2 in E by done. apply res_bind_Ok in E as (v & Hv & E).
  apply ok_or_Ok, checked_add_Some in Hv. change (uval (uint_wrap 16 1)) with 1 in Hv.
  cbn [set_pending rs_config rs_active_proposal_hash] in E. rewrite U3, Hc in E. fold (used s0) in E.
  rewrite (surjective_pairing (thresholds _ _)), Hv in E. fold (threshold_of s0) in E. unfold voted.
  destruct (threshold_of s0 <? pp_votes p + 1).
  - apply res_bind_Ok in E as (s' & Ha & [= <-]). unfold activate in Ha. apply fail_then in Ha as [_ [= <-]].
    cbn [sc_state]. by destruct (_ && _).
  - injection E as <-. cbn [sc_state set_pending rs_active_proposal_hash rs_pending_proposals]. split; [done|].
    exists v. split; [done|]. by rewrite lookup_insert_eq.
Qed.

Lemma ack_message_saw hash sc sc' : ack_message height bh hash sc = Ok sc' ->
  sc_saw_ack sc = false /\ sc_saw_ack sc' = true /\ rs_config (sc_state sc') = rs_config (sc_state sc).
Proof.
  unfold ack_message. intros E. apply fail_then in E as [Hs E]. split; [done|]. cbv zeta in E.
  destruct (bool_decide _); [by injection E as <-|]. destruct (_ !! hash) as [q|]; [|by injection E as <-].
  apply res_bind_Ok in E as (v & _ & E). destruct (thresholds _ _) as [? t]. destruct (uval t <? uval v); [|by injection E as <-].
  apply res_bind_Ok in E as (s' & Ha & [= <-]). split; [done|]. unfold activate in Ha. apply fail_then in Ha as [_ [= <-]].
  cbn [sc_state]. by destruct (_ && _).
Qed.

Lemma exists_snoc (pre : list ParsedOutput) output :
  Exists (is_ack k) (pre ++ [output]) -> Exists (is_ack k) pre \/ is_ack k output.
Proof. rewrite Exists_app, Exists_cons, Exists_nil. tauto. Qed.

Lemma scan_inv_step pre i output sc sc' : scan_inv pre sc ->
  coinbase_message height bh i output sc = Ok sc' -> scan_inv (pre ++ [output]) sc'.
Proof.
  intros [I1 I2 I3] E. unfold coinbase_message in E.
  rewrite parent_message_total in E. cbn [expect mbind res_bind] in E.
  destruct (parent_message (po_script output)) as [[hash|hash]|] eqn:Em.
  - apply proposal_message_inv in E as (Es & Ec & Ea & Hp). constructor; [congruence| |].
    + rewrite Es. intros Hs. destruct (I2 Hs) as [U1 U2 U3]. destruct (Hp k p U2) as [? ?]. constructor; [auto|done|congruence].
    + intros [Hx|Hx]%exists_snoc; [|unfold is_ack in Hx; congruence]. rewrite Es. destruct (I3 Hx) as [Hs Hv]. split; [done|].
      unfold voted in *. destruct (_ <? _); [congruence|]. destruct Hv as (Hva & v & Hv & Hk). split; [congruence|].
      exists v. split; [done|]. by apply Hp.
  - pose proof (ack_message_saw _ _ _ E) as (Es & Es' & Ec). constructor; [congruence|congruence|].
    intros [Hx|Hx]%exists_snoc; [destruct (I3 Hx); congruence|]. split; [done|].
    assert (hash = k) as -> by (unfold is_ack in Hx; congruence). eapply ack_message_voted; [exact I1|by apply I2|exact E].
  - injection E as <-. constructor; [done|done|]. intros [Hx|Hx]%exists_snoc; [auto|unfold is_ack in Hx; congruence].
Qed.

(** ** Ageing keeps what is not expired *)

Lemma delete_all_keep (l : list Hash32) (m : gmap Hash32 PendingSlot24Proposal) (x : Hash32) :
  x ∉ l -> fold_left (fun m hash => delete hash m) l m !! x = m !! x.
Proof.
  revert m. induction l as [|y l IH]; intros m Hx; [done|]. cbn [fold_left].
  rewrite IH by set_solver. apply lookup_delete_ne. set_solver.
Qed.

Lemma age_proposal_inv max_age max_fails i x q expired expired' :
  age_proposal height max_age max_fails i (x, q) expired = Ok expired' ->
  expired' = if is_expired max_age max_fails (height - pp_proposal_height q) (height - pp_proposal_height q - pp_votes q)
             then expired ++ [x] else expired.
Proof.
  unfold age_proposal. intros E. apply res_bind_Ok in E as (age & Ha & E). apply ok_or_Ok, checked_sub_Some in Ha.
  apply fail_then in E as [_ E]. apply res_bind_Ok in E as (mis & Hm & [= <-]). apply expect_Ok, uint_try_Some in Hm.
  by rewrite Hm, Ha.
Qed.

Lemma age_proposals_keep s s' q : rs_pending_proposals s !! k = Some q ->
  is_expired (thresholds (rs_config s) (used s)).1 (max_fails_of s)
    (height - pp_proposal_height q) (height - pp_proposal_height q - pp_votes q) = false ->
  age_proposals height s = Ok s' ->
  rs_active_proposal_hash s' = rs_active_proposal_hash s /\ rs_pending_proposals s' !! k = Some q.
Proof.
  intros Hq Hx E. unfold age_proposals in E. fold (used s) in E. rewrite (surjective_pairing (thresholds _ _)) in E.
  apply res_bind_Ok in E as (mf & Hmf & E). apply expect_Ok, checked_sub_Some in Hmf. fold (threshold_of s) in Hmf.
  fold (max_fails_of s) in Hmf. apply res_bind_Ok in E as (expired & Hf & [= <-]).
  split; [done|]. cbn [set_pending rs_pending_proposals]. rewrite delete_all_keep; [done|].
  assert (k ∈ expired -> exists q', (k, q') ∈ sorted_proposals (rs_pending_proposals s) /\
    is_expired (thresholds (rs_config s) (used s)).1 (max_fails_of s)
      (height - pp_proposal_height q') (height - pp_proposal_height q' - pp_votes q') = true) as Hall.
  2:{ intros Hin. destruct (Hall Hin) as (q' & Hq' & Hx'). apply sorted_elem in Hq'. congruence. }
  revert Hf. apply (res_foldi_inv _ (fun pre expired => k ∈ expired -> exists q', (k, q') ∈ pre /\
    is_expired (thresholds (rs_config s) (used s)).1 (max_fails_of s)
      (height - pp_proposal_height q') (height - pp_proposal_height q' - pp_votes q') = true)).
  - by intros ?%not_elem_of_nil.
  - intros pre [x q'] t t' Hinv Et. apply age_proposal_inv in Et as ->. rewrite Hmf. intros Hin.
    assert (k ∈ t \/ (k = x /\ is_expired (thresholds (rs_config s) (used s)).1 (max_fails_of s)
      (height - pp_proposal_height q') (height - pp_proposal_height q' - pp_votes q') = true)) as [Hin'|[-> Ex]].
    { case_match eqn:Ex; [|by left]. apply elem_of_app in Hin as [?| ->%list_elem_of_singleton]; auto. }
    + destruct (Hinv Hin') as (q'' & ? & ?). exists q''. rewrite elem_of_app. auto.
    + exists q'. rewrite elem_of_app, list_elem_of_singleton. auto.
Qed.
End one_block.

(** A proposal that misses too few votes to fail outlives its next vote. *)
Lemma kept_fresh s (height : Z) (p : PendingSlot24Proposal) : config_ok (rs_config s) ->
  pp_votes p + 1 <= threshold_of s -> height - 1 - pp_proposal_height p - pp_votes p < max_fails_of s ->
  is_expired (thresholds (rs_config s) (used s)).1 (max_fails_of s)
    (height - pp_proposal_height p) (height - pp_proposal_height p - (pp_votes p + 1)) = false.
Proof.
  intros Hc Hv Hm. unfold is_expired, max_fails_of in *. apply orb_false_iff. rewrite Z.ltb_ge. split; [lia|].
  apply andb_false_iff. rewrite Z.leb_gt. right. lia.
Qed.

Lemma coinbase_vote s0 pb k p s1 : valid s0 -> rs_pending_proposals s0 !! k = Some p -> acks k pb ->
  rs_next_height s0 - 1 - pp_proposal_height p - pp_votes p < max_fails_of s0 ->
  apply_coinbase_messages s0 pb (rs_next_height s0) = Ok s1 -> voted s0 k p s1.
Proof.
  intros Hv Hp Ha Hm E. unfold apply_coinbase_messages in E. apply res_bind_Ok in E as (sc & Hs & E).
  apply (res_foldi_inv _ (scan_inv s0 k p)) in Hs.
  - destruct Hs as [Hc _ Hs]. destruct (Hs Ha) as [_ Hvoted]. clear Hs.
    unfold voted in *. destruct (Z.ltb_spec (threshold_of s0) (pp_votes p + 1)) as [Hlt|Hge].
    + unfold age_proposals in E. destruct (thresholds _ _). apply res_bind_Ok in E as (mf & _ & E).
      by apply res_bind_Ok in E as (l & _ & [= <-]).
    + destruct Hvoted as (Hact & v & Hvv & Hk).
      assert (used (sc_state sc) = used s0) as Hu by (unfold used; by rewrite Hact).
      destruct (age_proposals_keep (rs_next_height s0) k (sc_state sc) s1 _ Hk) as [Ea Ek]; [|done|].
      * unfold max_fails_of, threshold_of. rewrite Hc, Hu. cbn [with_votes pp_votes pp_proposal_height]. rewrite Hvv.
        apply (kept_fresh s0); [apply (vd_config _ Hv)|lia|done].
      * split; [congruence|]. by exists v.
  - constructor; cbn [sc_state sc_saw_ack]; [done| |by rewrite Exists_nil].
    intros _. constructor; cbn [sc_created_in_block sc_state]; [set_solver|done|done].
  - intros pre output sc' sc'' Hi Hst. by eapply scan_inv_step.
Qed.

Abbreviation apply_block := apply_merkle_bound_elements_slot24_parent_block.

(** An accepted block that acknowledges the proposal votes for it. *)
Lemma block_vote s0 bs pb k p s ef : rs_pending_proposals s0 !! k = Some p ->
  parse_and_verify_block bs = Ok pb -> acks k pb ->
  rs_next_height s0 - 1 - pp_proposal_height p - pp_votes p < max_fails_of s0 ->
  apply_block s0 bs = (s, Ok ef) -> voted s0 k p s.
Proof.
  intros Hp Epb Ha Hm E. unfold apply_block in E.
  destruct (ReplayState_validate s0) as [[]| |] eqn:Ev; [|done..]. apply ReplayState_validate_Ok in Ev.
  cbn [mbind res_bind] in E. rewrite Epb in E. cbn [map_err mbind res_bind] in E.
  destruct (apply_parsed_block s0 pb) as [[s' ef']| |] eqn:Eb; [|done..]. injection E as <- <-.
  apply parsed_block_ok in Epb as Hpb; [|done].
  unfold apply_parsed_block in Eb. cbv zeta in Eb. apply fail_then in Eb as [_ Eb]. apply fail_then in Eb as [_ Eb].
  apply res_bind_Ok in Eb as (s1 & E1 & Eb). apply coinbase_vote with (k := k) (p := p) in E1 as Hvote; [|done..].
  pose proof (apply_coinbase_messages_meets s0 pb Ev) as Hc. rewrite E1 in Hc. cbn [meets] in Hc.
  apply res_bind_Ok in Eb as (observed & Eo & Eb). pose proof (observe_meets pb Hpb) as Hobs. rewrite Eo in Hobs. cbn [meets] in Hobs.
  apply res_bind_Ok in Eb as (ts & Et & Eb).
  pose proof (apply_transactions_meets Hwidth s1 pb (rs_next_height s0) observed Hpb) as Hts. rewrite Et in Hts. cbn [meets] in Hts.
  apply fail_then in Eb as [_ Eb]. apply res_bind_Ok in Eb as (n & _ & Eb). apply res_bind_Ok in Eb as (u & _ & [= <- _]).
  unfold voted in *. rewrite (xi_state _ _ _ _ _ _ Hts). exact Hvote.
Qed.

(** ** Consecutive acknowledging blocks *)

Inductive acked (k : Hash32) : ReplayState -> nat -> ReplayState -> Prop :=
| acked_nil s : acked k s 0 s
| acked_cons s bs pb ef s1 n s2 :
    parse_and_verify_block bs = Ok pb -> acks k pb -> apply_block s bs = (s1, Ok ef) ->
    acked k s1 n s2 -> acked k s (S n) s2.

Lemma acked_valid k s n s' : acked k s n s' -> valid s -> valid s'.
Proof.
  induction 1 as [|s bs pb ef s1 n s2 _ _ E _ IH]; [done|]. intros _. apply IH.
  apply apply_block_Ok in E as (pb' & _ & _ & He); [|done]. apply (bf_valid _ _ _ _ He).
Qed.

Lemma acked_activates k s n s' p : acked k s n s' -> rs_pending_proposals s !! k = Some p ->
  pp_votes p <= threshold_of s -> rs_next_height s - 1 - pp_proposal_height p - pp_votes p < max_fails_of s ->
  Z.of_nat n = threshold_of s + 1 - pp_votes p -> rs_active_proposal_hash s' = Some k.
Proof.
  intros Hr. revert p. induction Hr as [s|s bs pb ef s1 n s2 Epb Ha E Hr IH]; intros p Hp Hv Hm Hn; [lia|].
  apply block_vote with (bs := bs) (pb := pb) (p := p) (k := k) in E as Hvote; [|done..]. unfold voted in Hvote.
  destruct (Z.ltb_spec (threshold_of s) (pp_votes p + 1)) as [Hlt|Hge].
  - assert (n = 0%nat) as -> by lia. by inversion Hr; subst.
  - destruct Hvote as (Hact & v & Hvv & Hk). apply apply_block_Ok in E as (pb' & _ & _ & He); [|done].
    assert (threshold_of s1 = threshold_of s /\ max_fails_of s1 = max_fails_of s) as [Et Ef].
    { unfold max_fails_of, threshold_of, used. by rewrite (bf_config _ _ _ _ He), Hact. }
    apply (IH _ Hk); cbn [with_votes pp_votes pp_proposal_height]; rewrite ?Et, ?Ef, ?(bf_next _ _ _ _ He), ?Hvv; lia.
Qed.

(** C12: A pending proposal activates: when it has missed fewer votes than the
    rule tolerates and every following accepted block acknowledges it, it does
    not expire, and it is the active proposal after as many blocks as its votes
    lack to exceed the threshold; the required proposal is then reported
    active, with its activation recorded. *)
Theorem slot24_acked_proposal_activates (k : Hash32) (s s' : ReplayState) (n : nat) (p : PendingSlot24Proposal) :
  valid s -> acked k s n s' -> rs_pending_proposals s !! k = Some p ->
  let '(max_age, threshold) := thresholds (rs_config s) (used s) in
  pp_votes p <= threshold ->
  rs_next_height s - 1 - pp_proposal_height p - pp_votes p < max_age - threshold ->
  Z.of_nat n = threshold + 1 - pp_votes p ->
  rs_active_proposal_hash s' = Some k /\
  (k = cfg_required_proposal_hash (rs_config s') -> required_proposal_is_active s' = true).
Proof.
  intros Hv Hr Hp. rewrite (surjective_pairing (thresholds _ _)). intros Hvotes Hm Hn.
  assert (rs_active_proposal_hash s' = Some k) as E by (by eapply acked_activates).
  split; [done|]. intros ->. pose proof (acked_valid _ _ _ _ Hr Hv) as Hv'.
  assert (uval (rs_next_height s') <> 0) as Hg.
  { intros Hg. destruct (vd_genesis _ Hv' Hg) as (_ & ? & _). congruence. }
  unfold required_proposal_is_active. apply andb_true_iff. split; [|by apply required_is_iff].
  apply bool_decide_eq_true. by apply (tk_required _ (vd_tip _ Hv' Hg)).
Qed.
End liveness.

(** ** Two acknowledging blocks give the required proposal its last two votes *)

Definition waiting : PendingSlot24Proposal := MkPending required_hash (uint_wrap 32 3) (uint_wrap 16 4).
Definition waiting_state : ReplayState := {|
  rs_config := elements_v1; rs_next_height := uint_wrap 32 10; rs_tip_hash := sample_tip;
  rs_active_proposal_hash := None; rs_required_activation := None;
  rs_pending_proposals := {[ required_hash := waiting ]}; rs_ctip := None
|}.
Definition ack_block (previous : BlockHash) : bytes :=
  serialize_block (slot_raw previous (@txid toy_sha256 slot_coinbase)) [slot_coinbase].

Definition step_block (s : ReplayState) (bs : bytes) : ReplayState :=
  (@apply_merkle_bound_elements_slot24_parent_block 64%positive toy_sha256 s bs).1.
Definition step_acks (s : ReplayState) (bs : bytes) : bool :=
  is_ok (@apply_merkle_bound_elements_slot24_parent_block 64%positive toy_sha256 s bs).2 &&
  match @parse_and_verify_block 64%positive toy_sha256 bs with
  | Ok pb => @bool_decide _ (@acks_dec 64%positive toy_sha256 required_hash pb)
  | _ => false
  end.

Definition first_ack : bytes := ack_block sample_tip.
Definition one_vote_left : ReplayState := step_block waiting_state first_ack.
Definition second_ack : bytes := ack_block (rs_tip_hash one_vote_left).

Lemma step_acks_Ok s bs : step_acks s bs = true -> exists pb ef,
  @parse_and_verify_block 64%positive toy_sha256 bs = Ok pb /\ @acks 64%positive toy_sha256 required_hash pb /\
  @apply_merkle_bound_elements_slot24_parent_block 64%positive toy_sha256 s bs = (step_block s bs, Ok ef).
Proof.
  unfold step_acks, step_block. destruct (apply_merkle_bound_elements_slot24_parent_block s bs) as [s' [ef| |]]; [|done..].
  destruct (parse_and_verify_block bs) as [pb| |]; [|done..]. cbn [fst snd is_ok andb].
  intros Ha%bool_decide_eq_true. by exists pb, ef.
Qed.
Lemma waiting_valid : @valid 64%positive waiting_state.
Proof. apply (@ReplayState_validate_Ok 64%positive waiting_state tt). by vm_compute. Qed.
Lemma two_acks : @acked 64%positive toy_sha256 required_hash waiting_state 2 (step_block one_vote_left second_ack).
Proof.
  destruct (step_acks_Ok waiting_state first_ack) as (pb1 & ef1 & P1 & A1 & E1); [by vm_compute|].
  destruct (step_acks_Ok one_vote_left second_ack) as (pb2 & ef2 & P2 & A2 & E2); [by vm_compute|].
  eapply acked_cons; [exact P1|exact A1|exact E1|]. eapply acked_cons; [exact P2|exact A2|exact E2|]. apply acked_nil.
Qed.

Example slot24_acked_proposal_activates_witness :
  rs_active_proposal_hash (step_block one_vote_left second_ack) = Some required_hash /\
  (required_hash = cfg_required_proposal_hash (rs_config (step_block one_vote_left second_ack)) ->
   required_proposal_is_active (step_block one_vote_left second_ack) = true).
Proof.
  apply (@slot24_acked_proposal_activates 64%positive ltac:(done) toy_sha256 required_hash waiting_state
    (step_block one_vote_left second_ack) 2 waiting waiting_valid two_acks); done.
Defined.
